(** * Message mirror and conversation engine: a shallow embedding

  The development follows the Python sources module by module:
  - [Normaliser]    local_utils.py, etl_messages.py (_clean_guid)
  - [Timestamps]    etl_messages.py (_convert_apple_timestamp),
                    live_sync/extractors.py (to_nanos)
  - [Conversations] etl_conversations.py
  - [Sync]          live_sync/cache.py, live_sync/sync_messages.py
  - [Backup]        etl_messages.py (load_messages)
  - [Extractor]     live_sync/extractors.py (fetch_new_messages,
                    fetch_new_attachments)
  - [Watcher]       live_sync/wal.py (watch), live_sync/state.py
  - [Attachments]   live_sync/sync_attachments.py, etl_attachments.py
  - [Contacts]      etl_contacts.py
  - [Chats]         etl_chats.py

  Python [str] values are modelled as [string] (sequences of one-byte
  characters), Python [int] as [Z], [None]-able values as [option],
  dictionaries as [gmap], sets as [gset], SQL tables as lists of records
  in row order.  Row ids handed out by SQLite for the AUTOINCREMENT
  primary keys of local_session_manager.py start at 1, hence they are
  [positive]: an id is never the falsy integer 0, and the Python test
  [if x:] on an id-or-None is [is_Some]. *)

From Stdlib Require Import ZArith QArith Ascii String List Bool Lia.
From stdpp Require Import base option list gmap strings sorting pretty.

Local Open Scope Z_scope.

(* ===================================================================== *)
(** * Normaliser *)
(* ===================================================================== *)

Module Normaliser.

Local Open Scope string_scope.

(** [\d] on one-byte characters. *)
Definition is_digit (c : ascii) : bool :=
  let n := nat_of_ascii c in (48 <=? n)%nat && (n <=? 57)%nat.

(** [RE_NON_DIGIT.sub('', s)]: every non-digit is deleted. *)
Fixpoint re_non_digit_sub (s : string) : string :=
  match s with
  | EmptyString => EmptyString
  | String c r =>
      if is_digit c then String c (re_non_digit_sub r) else re_non_digit_sub r
  end.

(** [s.startswith(c)] for a one-character prefix. *)
Definition startswith (c : ascii) (s : string) : bool :=
  match s with
  | EmptyString => false
  | String d _ => Ascii.eqb c d
  end.

(** [s[1:]]. *)
Definition tail1 (s : string) : string :=
  match s with
  | EmptyString => EmptyString
  | String _ r => r
  end.

(** local_utils.py, normalize_phone_number.  The lru_cache decorator
    memoises a pure function and is not modelled. *)
Definition normalize_phone_number (phone_number : string) : string :=
  match phone_number with
  | EmptyString => ""
  | _ =>
      let digits := re_non_digit_sub phone_number in
      if (String.length digits =? 11)%nat && startswith "1" digits
      then tail1 digits
      else digits
  end.

(** Every character of [s] is a digit. *)
Fixpoint all_digits (s : string) : bool :=
  match s with
  | EmptyString => true
  | String c r => is_digit c && all_digits r
  end.

(** [c in s] for a one-character needle. *)
Fixpoint contains (c : ascii) (s : string) : bool :=
  match s with
  | EmptyString => false
  | String d r => Ascii.eqb c d || contains c r
  end.

(** [s.split(sep, 1)] when [sep] occurs in [s]: the text before the
    first occurrence and the text after it. *)
Fixpoint split_once (sep : ascii) (s : string) : option (string * string) :=
  match s with
  | EmptyString => None
  | String d r =>
      if Ascii.eqb sep d then Some (EmptyString, r)
      else match split_once sep r with
           | Some (a, b) => Some (String d a, b)
           | None => None
           end
  end.

(** [s.split(sep, 1)]: at most two pieces. *)
Definition py_split1 (sep : ascii) (s : string) : list string :=
  match split_once sep s with
  | Some (a, b) => [a; b]
  | None => [s]
  end.

(** [l[-1]] on a list known to be non-empty; [d] is never returned for
    the lists built by [py_split1]. *)
Definition py_last (l : list string) (d : string) : string := List.last l d.

(** Python truthiness of a [str]. *)
Definition str_truthy (s : string) : bool :=
  match s with EmptyString => false | _ => true end.

(** etl_messages.py, _clean_guid. *)
Definition _clean_guid (guid : option string) : option string :=
  match guid with
  | Some g =>
      if str_truthy g then
        if contains "/" g then Some (py_last (py_split1 "/" g) g)
        else if contains ":" g then Some (py_last (py_split1 ":" g) g)
        else guid
      else guid
  | None => None
  end.

(** What the specification words say: the text after the last
    character that is ['/'] or [':'], the whole string when there is
    none.  Used only to compare with [_clean_guid]. *)
Definition is_separator (c : ascii) : bool :=
  Ascii.eqb c "/" || Ascii.eqb c ":".

Fixpoint has_separator (s : string) : bool :=
  match s with
  | EmptyString => false
  | String d r => is_separator d || has_separator r
  end.

Fixpoint after_last_separator (s : string) : string :=
  match s with
  | EmptyString => EmptyString
  | String d r =>
      if has_separator r then after_last_separator r
      else if is_separator d then r
      else String d r
  end.

(** The three shapes a guid can have for [_clean_guid], and the text
    that is kept in each. *)
Inductive guid_view : string -> string -> Prop :=
| gv_slash pre post :
    contains "/" pre = false ->
    guid_view (pre ++ String "/" post) post
| gv_colon pre post :
    contains "/" (pre ++ String ":" post) = false ->
    contains ":" pre = false ->
    guid_view (pre ++ String ":" post) post
| gv_plain s :
    contains "/" s = false -> contains ":" s = false ->
    guid_view s s.

(** ** Lemmas on phone numbers *)

Lemma re_non_digit_sub_all_digits s : all_digits (re_non_digit_sub s) = true.
Proof.
  induction s as [|c r IH]; simpl; [reflexivity|].
  destruct (is_digit c) eqn:E; simpl; [rewrite E|]; auto.
Qed.

Lemma re_non_digit_sub_fixed s :
  all_digits s = true -> re_non_digit_sub s = s.
Proof.
  induction s as [|c r IH]; simpl; [reflexivity|].
  intros [Hc Hr]%andb_prop. rewrite Hc, IH; auto.
Qed.

Lemma all_digits_tail1 s : all_digits s = true -> all_digits (tail1 s) = true.
Proof. destruct s; simpl; [auto|]. intros [_ H]%andb_prop. exact H. Qed.

Lemma length_tail1 s : String.length (tail1 s) = Nat.pred (String.length s).
Proof. destruct s; reflexivity. Qed.

Lemma normalize_all_digits s : all_digits (normalize_phone_number s) = true.
Proof.
  unfold normalize_phone_number. destruct s as [|c r]; [reflexivity|].
  set (d := re_non_digit_sub (String c r)).
  assert (Hd : all_digits d = true) by apply re_non_digit_sub_all_digits.
  destruct (_ && _); [apply all_digits_tail1|]; exact Hd.
Qed.

(** On a string of digits the function only performs the length test. *)
Lemma normalize_on_digits d :
  all_digits d = true ->
  normalize_phone_number d =
    if (String.length d =? 11)%nat && startswith "1" d then tail1 d else d.
Proof.
  intros Hd. unfold normalize_phone_number.
  destruct d as [|c r]; [reflexivity|].
  rewrite (re_non_digit_sub_fixed _ Hd). reflexivity.
Qed.

Lemma normalize_not_eleven s :
  ((String.length (normalize_phone_number s) =? 11)%nat
     && startswith "1" (normalize_phone_number s)) = false.
Proof.
  unfold normalize_phone_number. destruct s as [|c r]; [reflexivity|].
  set (d := re_non_digit_sub (String c r)).
  destruct ((String.length d =? 11)%nat && startswith "1" d) eqn:E; [|exact E].
  apply andb_prop in E as [E _]. apply Nat.eqb_eq in E.
  rewrite length_tail1, E. reflexivity.
Qed.

(** ** Lemmas on guids *)

Lemma contains_app c a b : contains c (a ++ b) = contains c a || contains c b.
Proof.
  induction a as [|d r IH]; simpl; [reflexivity|].
  rewrite IH. apply orb_assoc.
Qed.

Lemma split_once_first sep pre post :
  contains sep pre = false ->
  split_once sep (pre ++ String sep post) = Some (pre, post).
Proof.
  induction pre as [|d r IH]; simpl.
  - intros _. rewrite Ascii.eqb_refl. reflexivity.
  - intros [Hd Hr]%orb_false_elim. rewrite Hd, (IH Hr). reflexivity.
Qed.

Lemma contains_decompose c s :
  contains c s = true ->
  exists pre post, s = pre ++ String c post /\ contains c pre = false.
Proof.
  induction s as [|d r IH]; simpl; [discriminate|].
  destruct (Ascii.eqb c d) eqn:E.
  - apply Ascii.eqb_eq in E as <-. intros _.
    exists EmptyString, r. split; reflexivity.
  - simpl. intros H. destruct (IH H) as (pre & post & -> & Hpre).
    exists (String d pre), post. split; [reflexivity|].
    simpl. rewrite E. exact Hpre.
Qed.

Lemma clean_guid_at sep pre post :
  contains sep pre = false ->
  py_last (py_split1 sep (pre ++ String sep post)) (pre ++ String sep post)
  = post.
Proof.
  intros H. unfold py_split1. rewrite (split_once_first _ _ _ H). reflexivity.
Qed.

Lemma str_truthy_contains c s : contains c s = true -> str_truthy s = true.
Proof. destruct s; [discriminate|reflexivity]. Qed.

Lemma after_last_separator_example :
  after_last_separator "p:0/abc:def" = "def".
Proof. reflexivity. Qed.


(** C5, as the code has it: a guid that contains a slash is cut after
    its first slash; a guid without slash that contains a colon is cut
    after its first colon; any other guid, and None, is returned as it
    is.  So "p:0/abc" gives "abc", "p:0/abc:def" gives "abc:def" and
    "plain" is unchanged. *)
Theorem clean_guid_first_separator (s : string) :
  (exists r, _clean_guid (Some s) = Some r /\ guid_view s r)
  /\ _clean_guid None = None
  /\ _clean_guid (Some "p:0/abc") = Some "abc"
  /\ _clean_guid (Some "p:0/abc:def") = Some "abc:def"
  /\ _clean_guid (Some "plain") = Some "plain".
Proof.
  split; [|repeat split].
  unfold _clean_guid.
  destruct (contains "/" s) eqn:Hs.
  - rewrite (str_truthy_contains _ _ Hs).
    destruct (contains_decompose _ _ Hs) as (pre & post & -> & Hpre).
    exists post. split; [|constructor; exact Hpre].
    rewrite (clean_guid_at _ _ _ Hpre). reflexivity.
  - destruct (contains ":" s) eqn:Hc.
    + rewrite (str_truthy_contains _ _ Hc).
      destruct (contains_decompose _ _ Hc) as (pre & post & -> & Hpre).
      exists post. split; [|constructor; assumption].
      rewrite (clean_guid_at _ _ _ Hpre). reflexivity.
    + exists s. split; [destruct (str_truthy s); reflexivity|].
      constructor; assumption.
Qed.

(** C5 as stated fails at "p:0/abc:def": the last separator is the
    colon before "def", while the code cuts after the first slash. *)
Lemma clean_guid_not_after_last_separator :
  has_separator "p:0/abc:def" = true
  /\ _clean_guid (Some "p:0/abc:def") = Some "abc:def"
  /\ _clean_guid (Some "p:0/abc:def")
     <> Some (after_last_separator "p:0/abc:def").
Proof. repeat split. discriminate. Qed.

(** ** Further properties of normalize_phone_number *)




(** A ten-digit number is its own normal form, and so is it with
    the country code 1 in front: both spellings of a US number meet. *)
Theorem normalize_phone_number_country_code (d : string) :
  all_digits d = true -> String.length d = 10%nat ->
  normalize_phone_number d = d
  /\ normalize_phone_number (String "1" d) = d.
Proof.
  intros Hd Hlen. split.
  - rewrite (normalize_on_digits _ Hd), Hlen. reflexivity.
  - rewrite (normalize_on_digits (String "1" d)) by (simpl; exact Hd).
    simpl. rewrite Hlen. reflexivity.
Qed.

Lemma normalize_phone_number_country_code_witness :
  normalize_phone_number "4155550100" = "4155550100"
  /\ normalize_phone_number "14155550100" = "4155550100".
Proof.
  apply (normalize_phone_number_country_code "4155550100");
    vm_compute; reflexivity.
Defined.

End Normaliser.

(* ===================================================================== *)
(** * Timestamp decoder *)
(* ===================================================================== *)

Module Timestamps.

(** live_sync/extractors.py, to_nanos, on an [int] argument (every caller
    passes [int(...)]).  The float literals 1e16, 1e13 and 1e10 are exact
    integers and Python compares an int with a float exactly. *)
Definition to_nanos (raw : Z) : Z :=
  if 10 ^ 16 <? raw then raw
  else if 10 ^ 13 <? raw then raw * 1000
  else if 10 ^ 10 <? raw then raw * 1000000
  else raw * 1000000000.

(** Seconds from 2001-01-01T00:00:00Z back to datetime.min
    (0001-01-01, 730485 days earlier) and forward to the first instant
    after datetime.max (10000-01-01, 2921574 days later). *)
Definition datetime_min_s : Z := - (730485 * 86400).
Definition datetime_sup_s : Z := 2921574 * 86400.

(** [datetime(2001, 1, 1, tzinfo=utc) + timedelta(seconds=ts_sec)]:
    the instant, as seconds after the source epoch, or [None] when the
    addition raises OverflowError.  The value is kept as an exact
    rational: the rounding of the float division and of timedelta to
    whole microseconds is not modelled. *)
Definition epoch_plus_seconds (ts_sec : Q) : option Q :=
  if Qle_bool (inject_Z datetime_min_s) ts_sec
     && negb (Qle_bool (inject_Z datetime_sup_s) ts_sec)
  then Some ts_sec else None.

(** etl_messages.py, _convert_apple_timestamp.  [None] stands for the
    Python [None] in argument and result; the except clause turns the
    OverflowError of the addition into [None]. *)
Definition _convert_apple_timestamp (apple_timestamp : option Z) : option Q :=
  match apple_timestamp with
  | None => None
  | Some ts =>
      let ts_sec :=
        if ts <=? 10000000000 then inject_Z ts
        else if ts <=? 10000000000000000 then Qmake ts 1000000
        else Qmake ts 1000000000 in
      epoch_plus_seconds ts_sec
  end.

(** The instant denoted by a nanosecond count after the source epoch. *)
Definition instant_of_nanos (ns : Z) : Q := Qmake ns 1000000000.






(** X2.  Normalising a normalised timestamp changes nothing exactly for
    the raw values 0 and above 10^7. *)
Theorem to_nanos_idempotent_iff (raw : Z) :
  to_nanos (to_nanos raw) = to_nanos raw <-> raw = 0 \/ 10 ^ 7 < raw.
Proof.
  unfold to_nanos.
  change (10 ^ 16) with 10000000000000000.
  change (10 ^ 13) with 10000000000000.
  change (10 ^ 10) with 10000000000.
  change (10 ^ 7) with 10000000.
  repeat match goal with
         | |- context [?a <? ?b] => destruct (Z.ltb_spec a b)
         end; lia.
Qed.



End Timestamps.

(* ===================================================================== *)
(** * Conversation engine *)
(* ===================================================================== *)

Module Conversations.

(** ** Data *)

(** A message dictionary as built by extract_conversations and by
    etl_conversations_fresh_split_compare.  Timestamps are datetime
    values, counted in microseconds. *)
Record Msg := mkMsg {
  msg_id : positive;
  msg_chat : positive;
  msg_sender : option positive;
  msg_timestamp : Z
}.

(** A block of _split_into_conversations. *)
Record Block := mkBlock {
  blk_messages : list Msg;
  blk_start_time : Z;
  blk_end_time : Z;
  blk_chat_id : positive
}.

(** A dictionary of transform_conversations.  The participant list is
    built from a Python set, whose order is unspecified: it is kept as a
    set. *)
Record Conv := mkConv {
  cv_chat_id : positive;
  cv_initiator_id : positive;
  cv_start_time : Z;
  cv_end_time : Z;
  cv_message_count : Z;
  cv_participant_ids : gset positive;
  cv_message_ids : list positive;
  cv_gap_threshold : Z
}.

(** [delta.total_seconds() > gap] for a difference of [delta]
    microseconds and a threshold of [gap] seconds. *)
Definition total_seconds_gt (delta gap : Z) : bool := gap * 1000000 <? delta.

(** [delta.total_seconds() >= 0 and delta.total_seconds() <= gap]. *)
Definition total_seconds_within (delta gap : Z) : bool :=
  (0 <=? delta) && (delta <=? gap * 1000000).

(** ** Segmentation *)

(** The loop variables of _split_into_conversations; [sp_times] holds
    (start_time, last_time), which are both None until the first message
    and both set afterwards. *)
Record SplitState := mkSplit {
  sp_conversations : list Block;
  sp_current_msgs : list Msg;
  sp_times : option (Z * Z)
}.

Definition list_truthy {A} (l : list A) : bool :=
  match l with [] => false | _ => true end.

(** One iteration of [for msg in messages]. *)
Definition split_step (gap_threshold : Z) (st : SplitState) (msg : Msg)
  : SplitState :=
  let msg_time := msg_timestamp msg in
  match sp_times st with
  | None => mkSplit (sp_conversations st) [msg] (Some (msg_time, msg_time))
  | Some (start_time, last_time) =>
      if total_seconds_gt (msg_time - last_time) gap_threshold then
        let closed :=
          if list_truthy (sp_current_msgs st)
          then sp_conversations st
                 ++ [mkBlock (sp_current_msgs st) start_time last_time
                       (msg_chat msg)]
          else sp_conversations st in
        mkSplit closed ([] ++ [msg]) (Some (msg_time, msg_time))
      else
        mkSplit (sp_conversations st) (sp_current_msgs st ++ [msg])
          (Some (start_time, msg_time))
  end.

(** etl_conversations.py, _split_into_conversations. *)
Definition _split_into_conversations (messages : list Msg) (gap_threshold : Z)
  : list Block :=
  match messages with
  | [] => []
  | first :: _ =>
      let st := fold_left (split_step gap_threshold) messages
                  (mkSplit [] [] None) in
      if list_truthy (sp_current_msgs st) then
        match sp_times st with
        | Some (start_time, last_time) =>
            sp_conversations st
              ++ [mkBlock (sp_current_msgs st) start_time last_time
                    (msg_chat first)]
        | None => sp_conversations st
        end
      else sp_conversations st
  end.

(** [next((m for m in msgs if m['sender_id'] is not None), None)]. *)
Definition first_with_sender (msgs : list Msg) : option Msg :=
  List.find (fun m => bool_decide (is_Some (msg_sender m))) msgs.

(** [{m['sender_id'] for m in msgs if m['sender_id'] is not None}]. *)
Definition sender_set (msgs : list Msg) : gset positive :=
  list_to_set (omap msg_sender msgs).

(** The body of the loop of transform_conversations: the dictionary
    appended for [conv], or None when the block is skipped. *)
Definition transform_block (gap_threshold : Z) (conv : Block) : option Conv :=
  let msgs := blk_messages conv in
  if negb (list_truthy msgs) then None
  else
    match first_with_sender msgs with
    | None => None
    | Some initiator_msg =>
        match msg_sender initiator_msg with
        | None => None
        | Some initiator_id =>
            let participant_ids := sender_set msgs in
            if bool_decide (participant_ids = ∅) then None
            else Some (mkConv (blk_chat_id conv) initiator_id
                         (blk_start_time conv) (blk_end_time conv)
                         (Z.of_nat (length msgs)) participant_ids
                         (map msg_id msgs) gap_threshold)
        end
    end.

(** etl_conversations.py, transform_conversations. *)
Definition transform_conversations (raw_conversations : list Block)
  (gap_threshold : Z) : list Conv :=
  omap (transform_block gap_threshold) raw_conversations.

(** ** What a segmentation has to satisfy *)

Definition gap_exceeded (gap : Z) (a b : Msg) : Prop :=
  gap * 1000000 < msg_timestamp b - msg_timestamp a.

(** Every message of [l] is followed by one that [R] relates it to. *)
Fixpoint chain (R : Msg -> Msg -> Prop) (l : list Msg) : Prop :=
  match l with
  | a :: (b :: _) as r => R a b /\ chain R r
  | _ => True
  end.

(** Consecutive segments: the last message of one and the first message
    of the next are more than [gap] apart, and inside a segment no two
    consecutive messages are. *)
Fixpoint runs_ok (gap : Z) (segs : list (list Msg)) : Prop :=
  match segs with
  | [] => True
  | s :: rest =>
      s <> []
      /\ chain (fun a b => ~ gap_exceeded gap a b) s
      /\ (forall a b, last s = Some a -> head (concat rest) = Some b ->
          gap_exceeded gap a b)
      /\ runs_ok gap rest
  end.

(** Start and end of a block are the timestamps of its first and last
    message. *)
Definition block_times_ok (b : Block) : Prop :=
  head (blk_messages b) ≫= (fun m => Some (msg_timestamp m))
    = Some (blk_start_time b)
  /\ last (blk_messages b) ≫= (fun m => Some (msg_timestamp m))
    = Some (blk_end_time b).

Definition no_sender (b : Block) : Prop :=
  Forall (fun m => msg_sender m = None) (blk_messages b).

(** ** The internal store, as the engine reads and writes it *)

(** A row of the conversations table. *)
Record ConvRow := mkConvRow {
  conv_id : positive;
  conv_chat_id : positive;
  conv_initiator_id : option positive;
  conv_start_time : Z;
  conv_end_time : Z;
  conv_message_count : Z;
  conv_gap_threshold : Z
}.

(** The columns of the messages table that the engine uses.  The
    timestamp is the datetime the engine parses from the strftime
    rendering of the column. *)
Record MsgRow := mkMsgRow {
  row_id : positive;
  row_chat_id : positive;
  row_sender_id : option positive;
  row_timestamp : Z;
  row_conversation_id : option positive
}.

(** The two tables and the AUTOINCREMENT counter of conversations (the
    id the next INSERT returns). *)
Record Store := mkStore {
  conversations : list ConvRow;
  messages : list MsgRow;
  conversations_seq : positive
}.

Definition msg_of_row (r : MsgRow) : Msg :=
  mkMsg (row_id r) (row_chat_id r) (row_sender_id r) (row_timestamp r).

(** [ORDER BY m.chat_id, m.timestamp]. *)
Definition row_leb (a b : MsgRow) : bool :=
  (row_chat_id a <? row_chat_id b)%positive
  || ((row_chat_id a =? row_chat_id b)%positive
      && (row_timestamp a <=? row_timestamp b)).

Definition order_by_chat_timestamp (rows : list MsgRow) : list MsgRow :=
  merge_sort (fun a b => Is_true (row_leb a b)) rows.

(** The keys of [chat_messages], in the order the rows insert them. *)
Fixpoint chats_in_order (rows : list MsgRow) (seen : list positive)
  : list positive :=
  match rows with
  | [] => []
  | r :: rest =>
      if bool_decide (row_chat_id r ∈ seen) then chats_in_order rest seen
      else row_chat_id r :: chats_in_order rest (row_chat_id r :: seen)
  end.

(** [chat_messages.items()]: the rows grouped by chat. *)
Definition group_by_chat (rows : list MsgRow) : list (positive * list Msg) :=
  map (fun cid =>
         (cid, map msg_of_row
                 (List.filter (fun r => (row_chat_id r =? cid)%positive) rows)))
      (chats_in_order rows []).

(** etl_conversations.py, extract_conversations. *)
Definition extract_conversations (chat_id : option positive)
  (since_date : option Z) (gap_threshold : Z) (st : Store) : list Block :=
  let selected :=
    List.filter
      (fun r =>
         match chat_id with
         | Some c => (row_chat_id r =? c)%positive
         | None => true
         end
         && match since_date with
            | Some d => d <=? row_timestamp r
            | None => true
            end)
      (messages st) in
  let results := order_by_chat_timestamp selected in
  concat (map (fun '(cid, msgs) => _split_into_conversations msgs gap_threshold)
            (group_by_chat results)).

(** ** Live reconciliation *)

(** The dictionary kept per chat in [existing_convs_by_chat]. *)
Record LastRef := mkLast {
  last_id : positive;
  last_end_time : Z;
  last_message_count : Z
}.

(** [SELECT ... WHERE chat_id = :chat_id ORDER BY end_time DESC LIMIT 1];
    among rows with the same end_time the first one of the table is
    taken. *)
Definition last_conversation (st : Store) (cid : positive) : option LastRef :=
  fold_left
    (fun best r =>
       if (conv_chat_id r =? cid)%positive then
         match best with
         | Some b =>
             if last_end_time b <? conv_end_time r
             then Some (mkLast (conv_id r) (conv_end_time r) (conv_message_count r))
             else best
         | None =>
             Some (mkLast (conv_id r) (conv_end_time r) (conv_message_count r))
         end
       else best)
    (conversations st) None.

(** [UPDATE messages SET conversation_id = :c WHERE id IN (ids)]. *)
Definition set_conversation (ids : list positive) (c : option positive)
  (rows : list MsgRow) : list MsgRow :=
  map (fun r =>
         if bool_decide (row_id r ∈ ids)
         then mkMsgRow (row_id r) (row_chat_id r) (row_sender_id r)
                (row_timestamp r) c
         else r)
      rows.

(** [UPDATE conversations SET end_time = :new_end,
     message_count = message_count + :msg_count WHERE id = :conv_id]. *)
Definition extend_conversation (id : positive) (new_end msg_count : Z)
  (rows : list ConvRow) : list ConvRow :=
  map (fun r =>
         if (conv_id r =? id)%positive
         then mkConvRow (conv_id r) (conv_chat_id r) (conv_initiator_id r)
                (conv_start_time r) new_end
                (conv_message_count r + msg_count) (conv_gap_threshold r)
         else r)
      rows.

(** The variables of the loop of load_conversations. *)
Record LoadState := mkLoad {
  ld_store : Store;
  ld_existing : gmap positive LastRef;
  ld_imported : Z;
  ld_updated : Z
}.

(** The test guarding [can_append = True]. *)
Definition can_append (last_conv : option LastRef) (conv : Conv) : bool :=
  match last_conv with
  | Some l =>
      total_seconds_within (cv_start_time conv - last_end_time l)
        (cv_gap_threshold conv)
  | None => false
  end.

(** The branch [if can_append]. *)
Definition load_append (acc : LoadState) (conv : Conv) (l : LastRef)
  : LoadState :=
  let st := ld_store acc in
  mkLoad
    (mkStore
       (extend_conversation (last_id l) (cv_end_time conv)
          (cv_message_count conv) (conversations st))
       (set_conversation (cv_message_ids conv) (Some (last_id l)) (messages st))
       (conversations_seq st))
    (<[cv_chat_id conv :=
         mkLast (last_id l) (cv_end_time conv)
           (last_message_count l + cv_message_count conv)]> (ld_existing acc))
    (ld_imported acc) (ld_updated acc + 1).

(** The branch [else]: INSERT ... RETURNING id, then attach. *)
Definition load_create (acc : LoadState) (conv : Conv) : LoadState :=
  let st := ld_store acc in
  let new_id := conversations_seq st in
  mkLoad
    (mkStore
       (conversations st
          ++ [mkConvRow new_id (cv_chat_id conv) (Some (cv_initiator_id conv))
                (cv_start_time conv) (cv_end_time conv)
                (cv_message_count conv) (cv_gap_threshold conv)])
       (set_conversation (cv_message_ids conv) (Some new_id) (messages st))
       (Pos.succ new_id))
    (<[cv_chat_id conv :=
         mkLast new_id (cv_end_time conv) (cv_message_count conv)]>
       (ld_existing acc))
    (ld_imported acc + 1) (ld_updated acc).

(** One iteration of [for conv in conversations]. *)
Definition load_step (acc : LoadState) (conv : Conv) : LoadState :=
  let last_conv := ld_existing acc !! cv_chat_id conv in
  match last_conv with
  | Some l =>
      if can_append last_conv conv then load_append acc conv l
      else load_create acc conv
  | None => load_create acc conv
  end.

(** The first loop: the most recent conversation of every chat id. *)
Definition existing_convs_by_chat (st : Store) (chat_ids : list positive)
  : gmap positive LastRef :=
  fold_left
    (fun m cid =>
       match last_conversation st cid with
       | Some l => <[cid := l]> m
       | None => m
       end)
    chat_ids ∅.

(** etl_conversations.py, load_conversations: the store afterwards and
    the pair (imported_count, updated_count). *)
Definition load_conversations (convs : list Conv) (chat_id : option positive)
  (st : Store) : Store * (Z * Z) :=
  match convs with
  | [] => (st, (0, 0))
  | _ =>
      let chat_ids :=
        match chat_id with
        | Some c => [c]
        | None => elements (list_to_set (map cv_chat_id convs) : gset positive)
        end in
      let acc :=
        fold_left load_step convs
          (mkLoad st (existing_convs_by_chat st chat_ids) 0 0) in
      (ld_store acc, (ld_imported acc, ld_updated acc))
  end.

(** etl_conversations.py, etl_conversations. *)
Definition etl_conversations (chat_id : option positive)
  (since_date : option Z) (gap_threshold : Z) (st : Store)
  : Store * (Z * Z) :=
  let raw_conversations :=
    extract_conversations chat_id since_date gap_threshold st in
  let transformed := transform_conversations raw_conversations gap_threshold in
  load_conversations transformed chat_id st.

(** ** Backup reconciliation *)

(** [sorted(...)] on message ids. *)
Definition sorted_ids (ids : list positive) : list positive :=
  merge_sort Pos.le ids.

(** The sorted ids of the messages attached to conversation [c_id]. *)
Definition attached_ids (st : Store) (c_id : positive) : list positive :=
  sorted_ids
    (map row_id
       (List.filter
          (fun r => bool_decide (row_conversation_id r = Some c_id))
          (messages st))).

(** The conversations of the chat, [ORDER BY start_time]. *)
Definition existing_convs (st : Store) (chat_id : positive) : list ConvRow :=
  merge_sort (fun a b => Is_true (conv_start_time a <=? conv_start_time b))
    (List.filter (fun c => (conv_chat_id c =? chat_id)%positive)
       (conversations st)).

(** [conv_msg_map], in insertion order. *)
Definition conv_msg_map (st : Store) (chat_id : positive)
  : list (positive * list positive) :=
  map (fun c => (conv_id c, attached_ids st (conv_id c)))
    (existing_convs st chat_id).

(** The search for [reused_conv_id]. *)
Definition find_reused (cmap : list (positive * list positive))
  (block_msg_ids : list positive) : option positive :=
  fst <$> List.find (fun e => bool_decide (e.2 = block_msg_ids)) cmap.

(** The WHERE clause of the two overlap statements. *)
Definition overlaps (chat_id : positive) (start_ end_ : Z) (c : ConvRow)
  : bool :=
  (conv_chat_id c =? chat_id)%positive
  && (conv_start_time c <=? end_) && (start_ <=? conv_end_time c).

(** [UPDATE messages SET conversation_id = NULL
     WHERE conversation_id IN (doomed)]. *)
Definition detach (doomed : list positive) (rows : list MsgRow)
  : list MsgRow :=
  map (fun r =>
         match row_conversation_id r with
         | Some c =>
             if bool_decide (c ∈ doomed)
             then mkMsgRow (row_id r) (row_chat_id r) (row_sender_id r)
                    (row_timestamp r) None
             else r
         | None => r
         end)
      rows.

(** [(SELECT sender_id FROM messages WHERE id = :first_msg_id LIMIT 1)]. *)
Definition sender_of (rows : list MsgRow) (first_msg_id : option positive)
  : option positive :=
  first_msg_id ≫= fun i =>
  List.find (fun r => (row_id r =? i)%positive) rows ≫= row_sender_id.

(** The body of [for block in new_blocks]. *)
Definition replace_step (chat_id : positive) (gap_threshold : Z)
  (cmap : list (positive * list positive)) (st : Store) (block : Block)
  : Store :=
  let block_msg_ids := sorted_ids (map msg_id (blk_messages block)) in
  let start_ := blk_start_time block in
  let end_ := blk_end_time block in
  match find_reused cmap block_msg_ids with
  | Some _ => st
  | None =>
      let doomed :=
        map conv_id
          (List.filter (overlaps chat_id start_ end_) (conversations st)) in
      let messages1 := detach doomed (messages st) in
      let conversations1 :=
        List.filter (fun c => negb (overlaps chat_id start_ end_ c))
          (conversations st) in
      let new_cid := conversations_seq st in
      let row :=
        mkConvRow new_cid chat_id
          (sender_of messages1 (head block_msg_ids))
          start_ end_ (Z.of_nat (length block_msg_ids)) gap_threshold in
      let messages2 :=
        if list_truthy block_msg_ids
        then set_conversation block_msg_ids (Some new_cid) messages1
        else messages1 in
      mkStore (conversations1 ++ [row]) messages2 (Pos.succ new_cid)
  end.

(** etl_conversations.py, _replace_or_reuse_intervals. *)
Definition _replace_or_reuse_intervals (chat_id : positive)
  (new_blocks : list Block) (gap_threshold : Z) (st : Store) : Store :=
  fold_left (replace_step chat_id gap_threshold (conv_msg_map st chat_id))
    new_blocks st.

(** etl_conversations.py, etl_conversations_fresh_split_compare. *)
Definition etl_conversations_fresh_split_compare (gap_threshold : Z)
  (st : Store) : Store :=
  let all_msgs := order_by_chat_timestamp (messages st) in
  fold_left
    (fun s '(cid, msgs) =>
       _replace_or_reuse_intervals cid
         (_split_into_conversations msgs gap_threshold) gap_threshold s)
    (group_by_chat all_msgs) st.

(** ** What the reconciliations have to satisfy *)







(** Some conversation recorded in [cmap] has exactly the message ids of
    the block. *)
Definition same_membership (cmap : list (positive * list positive))
  (block : Block) : Prop :=
  exists c, (c, sorted_ids (map msg_id (blk_messages block))) ∈ cmap.

(** ** Lemmas on the segmentation *)

Lemma chain_snoc R l m :
  chain R l -> (forall a, last l = Some a -> R a m) -> chain R (l ++ [m]).
Proof.
  induction l as [|a [|b r] IH]; simpl; intros Hc Hl.
  - exact I.
  - split; [apply Hl; reflexivity | exact I].
  - destruct Hc as [Hab Hc]. split; [exact Hab|].
    apply IH; [exact Hc|]. intros x Hx. apply Hl. exact Hx.
Qed.

Lemma head_snoc_ne {A} (l : list A) x : l <> [] -> head (l ++ [x]) = head l.
Proof. destruct l; [congruence | reflexivity]. Qed.

Lemma total_seconds_gt_spec delta gap :
  total_seconds_gt delta gap = true <-> gap * 1000000 < delta.
Proof. unfold total_seconds_gt. apply Z.ltb_lt. Qed.

(** The state of the loop after the first message. *)
Definition loop_ok (cur : list Msg) (start_time last_time : Z) : Prop :=
  cur <> []
  /\ head cur ≫= (fun m => Some (msg_timestamp m)) = Some start_time
  /\ last cur ≫= (fun m => Some (msg_timestamp m)) = Some last_time.

Lemma split_loop gap l : forall convs cur start_time last_time,
  loop_ok cur start_time last_time ->
  chain (fun a b => ~ gap_exceeded gap a b) cur ->
  exists new cur' start' last',
    fold_left (split_step gap) l (mkSplit convs cur (Some (start_time, last_time)))
    = mkSplit (convs ++ new) cur' (Some (start', last'))
    /\ loop_ok cur' start' last'
    /\ concat (map blk_messages new) ++ cur' = cur ++ l
    /\ head (concat (map blk_messages new) ++ cur') = head cur
    /\ runs_ok gap (map blk_messages new ++ [cur'])
    /\ Forall block_times_ok new.
Proof.
  induction l as [|m r IH]; intros convs cur start_time last_time Hok Hch.
  - exists [], cur, start_time, last_time. simpl.
    rewrite !app_nil_r. destruct Hok as (Hne & Hs & Hl).
    repeat split; auto. intros a b _ [=].
  - destruct Hok as (Hne & Hs & Hl). simpl fold_left. unfold split_step at 2.
    simpl sp_times. cbv iota beta.
    destruct (total_seconds_gt (msg_timestamp m - last_time) gap) eqn:Hgap.
    + simpl sp_current_msgs. simpl sp_conversations.
      assert (Htr : list_truthy cur = true) by (destruct cur; [congruence|reflexivity]).
      rewrite Htr. change ([] ++ [m]) with [m].
      destruct (IH (convs ++ [mkBlock cur start_time last_time (msg_chat m)])
                  [m] (msg_timestamp m) (msg_timestamp m))
        as (new & cur' & start' & last' & Hfold & Hok' & Hcat & Hhd & Hruns & Hbt).
      { repeat split; simpl; congruence. }
      { exact I. }
      exists (mkBlock cur start_time last_time (msg_chat m) :: new),
        cur', start', last'.
      split; [rewrite Hfold, <- app_assoc; reflexivity|].
      split; [exact Hok'|].
      split; [simpl; rewrite <- app_assoc, Hcat; reflexivity|].
      split; [simpl; rewrite <- app_assoc; destruct cur; [congruence|reflexivity]|].
      split.
      * simpl. repeat split; auto.
        -- intros a b Ha Hb. rewrite concat_app in Hb. simpl in Hb.
           rewrite app_nil_r, Hhd in Hb. simpl in Hb. injection Hb as <-.
           rewrite Ha in Hl. simpl in Hl. injection Hl as Hl.
           apply total_seconds_gt_spec in Hgap. unfold gap_exceeded. lia.
      * constructor; [|exact Hbt]. split; assumption.
    + simpl sp_current_msgs. simpl sp_conversations.
      destruct (IH convs (cur ++ [m]) start_time (msg_timestamp m))
        as (new & cur' & start' & last' & Hfold & Hok' & Hcat & Hhd & Hruns & Hbt).
      { repeat split.
        - destruct cur; discriminate.
        - rewrite head_snoc_ne by exact Hne. exact Hs.
        - rewrite last_snoc. reflexivity. }
      { apply chain_snoc; [exact Hch|]. intros a Ha.
        rewrite Ha in Hl. simpl in Hl. injection Hl as Hl.
        unfold gap_exceeded. intros Hex.
        apply total_seconds_gt_spec in Hex. 
        replace (msg_timestamp m - last_time) with (msg_timestamp m - msg_timestamp a) in Hgap by lia.
        congruence. }
      exists new, cur', start', last'.
      split; [exact Hfold|]. split; [exact Hok'|].
      split; [rewrite Hcat, <- app_assoc; reflexivity|].
      split; [rewrite Hhd; apply head_snoc_ne; exact Hne|].
      split; assumption.
Qed.

Lemma runs_ok_blocks gap new cur start_time last_time chat :
  runs_ok gap (map blk_messages new ++ [cur]) ->
  runs_ok gap (map blk_messages (new ++ [mkBlock cur start_time last_time chat])).
Proof. rewrite map_app. simpl. auto. Qed.

(** The three facts that make the result the gap segmentation of the
    input. *)
Lemma split_into_conversations_ok messages gap :
  concat (map blk_messages (_split_into_conversations messages gap)) = messages
  /\ runs_ok gap (map blk_messages (_split_into_conversations messages gap))
  /\ Forall block_times_ok (_split_into_conversations messages gap).
Proof.
  destruct messages as [|first rest]; [repeat split; constructor|].
  unfold _split_into_conversations.
  change (fold_left (split_step gap) (first :: rest) (mkSplit [] [] None))
    with (fold_left (split_step gap) rest
            (mkSplit [] [first]
               (Some (msg_timestamp first, msg_timestamp first)))).
  destruct (split_loop gap rest [] [first] (msg_timestamp first)
              (msg_timestamp first))
    as (new & cur' & start' & last' & Hfold & Hok' & Hcat & Hhd & Hruns & Hbt).
  { repeat split; simpl; congruence. }
  { exact I. }
  rewrite Hfold. cbn [sp_current_msgs sp_times sp_conversations app].
  destruct Hok' as (Hne & Hs & Hl).
  assert (Htr : list_truthy cur' = true) by (destruct cur'; [congruence|reflexivity]).
  rewrite Htr. split; [|split].
  - rewrite map_app, concat_app. simpl. rewrite app_nil_r. exact Hcat.
  - apply runs_ok_blocks. exact Hruns.
  - apply Forall_app. split; [exact Hbt|]. constructor; [|constructor].
    split; assumption.
Qed.

Lemma first_with_sender_none msgs :
  first_with_sender msgs = None <-> Forall (fun m => msg_sender m = None) msgs.
Proof.
  unfold first_with_sender. induction msgs as [|m r IH]; simpl.
  - split; [constructor | reflexivity].
  - case_bool_decide as Hd.
    + split; [discriminate|]. intros H. inversion H; subst.
      destruct Hd as [x Hx]. congruence.
    + rewrite IH. split.
      * intros Hr. constructor; [|exact Hr].
        destruct (msg_sender m); [exfalso; apply Hd; eauto | reflexivity].
      * intros H. inversion H; assumption.
Qed.

Lemma first_with_sender_some msgs m :
  first_with_sender msgs = Some m -> m ∈ msgs /\ is_Some (msg_sender m).
Proof.
  unfold first_with_sender. intros H. apply find_some in H as [Hin Hs].
  split; [apply list_elem_of_In; exact Hin|].
  apply bool_decide_eq_true in Hs. exact Hs.
Qed.

(** A block is dropped by transform_conversations exactly when none of
    its messages has a sender. *)
Lemma transform_block_none gap b :
  transform_block gap b = None <-> no_sender b.
Proof.
  unfold transform_block, no_sender.
  destruct (blk_messages b) as [|m0 r] eqn:Hm; simpl list_truthy; simpl negb;
    cbv iota.
  - split; [constructor | reflexivity].
  - destruct (first_with_sender (m0 :: r)) as [m|] eqn:Hf.
    + destruct (first_with_sender_some _ _ Hf) as [Hin [s Hs]]. rewrite Hs.
      assert (Hset : sender_set (m0 :: r) <> ∅).
      { unfold sender_set. intros He.
        assert (s ∈ (list_to_set (omap msg_sender (m0 :: r)) : gset positive)) as Hx.
        { apply elem_of_list_to_set, list_elem_of_omap. eauto. }
        rewrite He in Hx. set_solver. }
      rewrite bool_decide_eq_false_2 by exact Hset.
      split; [discriminate|]. intros Hall.
      rewrite Forall_forall in Hall. specialize (Hall m Hin). congruence.
    + split; [|reflexivity]. intros _. apply first_with_sender_none. exact Hf.
Qed.

Lemma transform_conversations_discards gap pre b post :
  no_sender b ->
  transform_conversations (pre ++ b :: post) gap
  = transform_conversations (pre ++ post) gap.
Proof.
  intros H. unfold transform_conversations. rewrite !omap_app. simpl.
  apply transform_block_none with (gap := gap) in H. rewrite H. reflexivity.
Qed.

(** ** Lemmas on the reconciliations *)









Lemma find_reused_is_Some cmap ids :
  is_Some (find_reused cmap ids) <-> exists c, (c, ids) ∈ cmap.
Proof.
  unfold find_reused. induction cmap as [|[c l] r IH]; simpl.
  - split; [intros [? [=]] | intros [c H]; inversion H].
  - case_bool_decide as Hd; simpl in Hd.
    + subst l. split; [intros _; exists c; left | intros _; eexists; reflexivity].
    + rewrite IH. split.
      * intros [c' H]. exists c'. right. exact H.
      * intros [c' H]. apply elem_of_cons in H as [[= _ E]|H];
          [congruence | eauto].
Qed.


Lemma replace_step_replace chat_id gap cmap st block :
  ~ same_membership cmap block ->
  replace_step chat_id gap cmap st block =
    let ids := sorted_ids (map msg_id (blk_messages block)) in
    let doomed :=
      map conv_id
        (List.filter (overlaps chat_id (blk_start_time block)
                        (blk_end_time block)) (conversations st)) in
    let messages1 := detach doomed (messages st) in
    mkStore
      (List.filter
         (fun c => negb (overlaps chat_id (blk_start_time block)
                           (blk_end_time block) c)) (conversations st)
       ++ [mkConvRow (conversations_seq st) chat_id
             (sender_of messages1 (head ids))
             (blk_start_time block) (blk_end_time block)
             (Z.of_nat (length ids)) gap])
      (if list_truthy ids
       then set_conversation ids (Some (conversations_seq st)) messages1
       else messages1)
      (Pos.succ (conversations_seq st)).
Proof.
  intros H. unfold same_membership in H. rewrite <- find_reused_is_Some in H.
  unfold replace_step.
  destruct (find_reused cmap _); [exfalso; apply H; eauto | reflexivity].
Qed.







(** ** Properties of the conversation engine *)

(** C1, as the code has it.  For every list of messages and every gap
    threshold: the blocks of _split_into_conversations, concatenated,
    give the input back (the first message opens the first block, the
    open block is flushed at the end); two consecutive messages lie in
    one block exactly when their gap does not exceed the threshold
    ([runs_ok]); the start and end of a block are the timestamps of its
    first and last message.  transform_conversations, which the live
    path runs on the blocks, drops exactly the blocks without a
    sender-bearing message.  The backup path hands every block to
    replace_step, which creates a conversation for any block whose
    membership matches no recorded conversation, with or without a
    sender. *)
Theorem split_into_conversations_segments (msgs : list Msg) (gap : Z) :
  concat (map blk_messages (_split_into_conversations msgs gap)) = msgs
  /\ runs_ok gap (map blk_messages (_split_into_conversations msgs gap))
  /\ Forall block_times_ok (_split_into_conversations msgs gap)
  /\ (forall b, transform_block gap b = None <-> no_sender b)
  /\ (forall pre b post, no_sender b ->
        transform_conversations (pre ++ b :: post) gap
        = transform_conversations (pre ++ post) gap)
  /\ (forall chat_id cmap st b, ~ same_membership cmap b ->
        exists row,
          row ∈ conversations (replace_step chat_id gap cmap st b)
          /\ conv_id row = conversations_seq st
          /\ conv_start_time row = blk_start_time b
          /\ conv_end_time row = blk_end_time b).
Proof.
  destruct (split_into_conversations_ok msgs gap) as (H1 & H2 & H3).
  repeat (split; [assumption|]).
  split; [apply transform_block_none|].
  split; [intros; apply transform_conversations_discards; assumption|].
  intros chat_id cmap st b Hb.
  rewrite (replace_step_replace _ _ _ _ _ Hb). cbv zeta. simpl conversations.
  eexists. split; [apply elem_of_app; right; left|].
  repeat split.
Qed.

(** C1 as stated fails in the backup path: a chat whose only message has
    no sender is one block without sender-bearing message;
    transform_conversations drops it, but
    etl_conversations_fresh_split_compare creates a conversation (with
    a null initiator) for it. *)
Lemma fresh_split_keeps_senderless_block :
  let st := mkStore [] [mkMsgRow 1 1 None 0 None] 1 in
  let blocks := _split_into_conversations [mkMsg 1 1 None 0] 10800 in
  Forall no_sender blocks
  /\ transform_conversations blocks 10800 = []
  /\ fst (etl_conversations None None 10800 st) = st
  /\ etl_conversations_fresh_split_compare 10800 st
     = mkStore [mkConvRow 1 1 None 0 0 1 10800]
         [mkMsgRow 1 1 None 0 (Some 1%positive)] 2.
Proof.
  cbv zeta. split; [|split; [|split]].
  - repeat constructor.
  - reflexivity.
  - vm_compute. reflexivity.
  - vm_compute. reflexivity.
Qed.




(** ** Further properties of the conversation engine *)

(** The number of pairs of consecutive messages that lie more than the
    threshold apart. *)
Fixpoint long_gaps (gap : Z) (l : list Msg) : nat :=
  match l with
  | a :: (b :: _) as r =>
      (if total_seconds_gt (msg_timestamp b - msg_timestamp a) gap
       then 1 else 0)%nat + long_gaps gap r
  | _ => 0%nat
  end.

Lemma split_count gap l : forall convs cur start_time a,
  last cur = Some a ->
  exists cur' start' b,
    fold_left (split_step gap) l
      (mkSplit convs cur (Some (start_time, msg_timestamp a)))
    = mkSplit (sp_conversations
                 (fold_left (split_step gap) l
                    (mkSplit convs cur (Some (start_time, msg_timestamp a)))))
        cur' (Some (start', msg_timestamp b))
    /\ last cur' = Some b
    /\ length (sp_conversations
                 (fold_left (split_step gap) l
                    (mkSplit convs cur (Some (start_time, msg_timestamp a)))))
       = (length convs + long_gaps gap (a :: l))%nat.
Proof.
  induction l as [|m r IH]; intros convs cur start_time a Ha.
  - exists cur, start_time, a. simpl. split; [reflexivity|]. split; [exact Ha|].
    lia.
  - simpl fold_left. unfold split_step at 2 4 6.
    cbn [sp_times sp_conversations sp_current_msgs].
    assert (Htr : list_truthy cur = true)
      by (destruct cur; [discriminate | reflexivity]).
    rewrite Htr.
    change (long_gaps gap (a :: m :: r))
      with ((if total_seconds_gt (msg_timestamp m - msg_timestamp a) gap
             then 1 else 0) + long_gaps gap (m :: r))%nat.
    destruct (total_seconds_gt (msg_timestamp m - msg_timestamp a) gap).
    + change ([] ++ [m]) with [m].
      destruct (IH (convs ++ [mkBlock cur start_time (msg_timestamp a)
                                (msg_chat m)]) [m] (msg_timestamp m) m eq_refl)
        as (cur' & start' & b & Hfold & Hb & Hlen).
      exists cur', start', b. split; [exact Hfold|]. split; [exact Hb|].
      rewrite Hlen, length_app. simpl. lia.
    + destruct (IH convs (cur ++ [m]) start_time m (last_snoc _ _))
        as (cur' & start' & b & Hfold & Hb & Hlen).
      exists cur', start', b. split; [exact Hfold|]. split; [exact Hb|].
      rewrite Hlen. lia.
Qed.

(** X9.  The segmentation opens one block for the first message and one more
    for every pair of consecutive messages more than the threshold
    apart; an empty input gives no block. *)
Theorem split_into_conversations_count (msgs : list Msg) (gap : Z) :
  length (_split_into_conversations msgs gap)
  = match msgs with
    | [] => 0%nat
    | _ => S (long_gaps gap msgs)
    end.
Proof.
  destruct msgs as [|first rest]; [reflexivity|].
  unfold _split_into_conversations.
  change (fold_left (split_step gap) (first :: rest) (mkSplit [] [] None))
    with (fold_left (split_step gap) rest
            (mkSplit [] [first]
               (Some (msg_timestamp first, msg_timestamp first)))).
  destruct (split_count gap rest [] [first] (msg_timestamp first) first eq_refl)
    as (cur' & start' & b & Hfold & Hb & Hlen).
  rewrite Hfold. cbn [sp_current_msgs sp_times sp_conversations].
  assert (Htr : list_truthy cur' = true)
    by (destruct cur'; [discriminate | reflexivity]).
  rewrite Htr, length_app, Hlen. simpl. lia.
Qed.

(** X10.  What transform_conversations puts into a dictionary. *)
Theorem transform_conversations_fields (blocks : list Block) (gap : Z)
  (c : Conv) :
  c ∈ transform_conversations blocks gap ->
  exists b m,
    b ∈ blocks
    /\ first_with_sender (blk_messages b) = Some m
    /\ msg_sender m = Some (cv_initiator_id c)
    /\ cv_initiator_id c ∈ cv_participant_ids c
    /\ cv_chat_id c = blk_chat_id b
    /\ cv_start_time c = blk_start_time b
    /\ cv_end_time c = blk_end_time b
    /\ cv_message_ids c = map msg_id (blk_messages b)
    /\ cv_message_count c = Z.of_nat (length (cv_message_ids c))
    /\ 0 < cv_message_count c
    /\ cv_gap_threshold c = gap.
Proof.
  unfold transform_conversations. intros H.
  apply list_elem_of_omap in H as (b & Hb & Ht).
  exists b. unfold transform_block in Ht.
  destruct (blk_messages b) as [|m0 r] eqn:Hm; [discriminate|].
  cbn [list_truthy negb] in Ht.
  destruct (first_with_sender (m0 :: r)) as [m|] eqn:Hf; [|discriminate].
  destruct (msg_sender m) as [s|] eqn:Hs; [|discriminate].
  case_bool_decide; [discriminate|]. injection Ht as <-.
  destruct (first_with_sender_some _ _ Hf) as [Hin _].
  assert (Hmem : s ∈ sender_set (m0 :: r)).
  { unfold sender_set. apply elem_of_list_to_set, list_elem_of_omap. eauto. }
  exists m.
  cbn [cv_initiator_id cv_participant_ids cv_chat_id cv_start_time
       cv_end_time cv_message_ids cv_message_count cv_gap_threshold].
  cbn [length]. rewrite length_map.
  repeat split; auto; lia.
Qed.


Lemma transform_conversations_fields_witness :
  exists c,
    c ∈ transform_conversations
          [mkBlock [mkMsg 1 1 None 0; mkMsg 2 1 (Some 7%positive) 60000000]
             0 60000000 1] 10800
    /\ cv_initiator_id c = 7%positive
    /\ cv_message_count c = 2.
Proof.
  exists (mkConv 1 7 0 60000000 2 (list_to_set [7%positive])
            [1%positive; 2%positive] 10800).
  assert (H : mkConv 1 7 0 60000000 2 (list_to_set [7%positive])
                [1%positive; 2%positive] 10800
              ∈ transform_conversations
                  [mkBlock
                     [mkMsg 1 1 None 0; mkMsg 2 1 (Some 7%positive) 60000000]
                     0 60000000 1] 10800).
  { vm_compute. left. }
  split; [exact H|].
  destruct (transform_conversations_fields _ _ _ H)
    as (b & m & _ & _ & _ & _ & _ & _ & _ & _ & Hcount & _ & _).
  split; [reflexivity | exact Hcount].
Defined.

(** *** Live reconciliation: what the loop keeps *)

Lemma msg_of_row_set_conversation ids c rows :
  map msg_of_row (set_conversation ids c rows) = map msg_of_row rows.
Proof.
  unfold set_conversation. rewrite map_map. apply map_ext.
  intros r. case_bool_decide; reflexivity.
Qed.

Lemma msg_of_row_detach doomed rows :
  map msg_of_row (detach doomed rows) = map msg_of_row rows.
Proof.
  unfold detach. rewrite map_map. apply map_ext. intros r.
  destruct (row_conversation_id r); [case_bool_decide|]; reflexivity.
Qed.

Lemma conv_id_extend_conversation id new_end n rows :
  map conv_id (extend_conversation id new_end n rows) = map conv_id rows.
Proof.
  unfold extend_conversation. rewrite map_map. apply map_ext.
  intros r. destruct (conv_id r =? id)%positive; reflexivity.
Qed.

(** What one iteration does to the counters and to the two tables. *)
Definition load_progress (acc acc' : LoadState) (n : Z) : Prop :=
  ld_imported acc' + ld_updated acc' = ld_imported acc + ld_updated acc + n
  /\ ld_imported acc <= ld_imported acc'
  /\ ld_updated acc <= ld_updated acc'
  /\ Z.pos (conversations_seq (ld_store acc'))
     = Z.pos (conversations_seq (ld_store acc))
       + (ld_imported acc' - ld_imported acc)
  /\ (exists new,
        map conv_id (conversations (ld_store acc'))
        = map conv_id (conversations (ld_store acc)) ++ new
        /\ Z.of_nat (length new) = ld_imported acc' - ld_imported acc
        /\ Forall (fun i => (conversations_seq (ld_store acc) <= i
                             < conversations_seq (ld_store acc'))%positive) new)
  /\ map msg_of_row (messages (ld_store acc'))
     = map msg_of_row (messages (ld_store acc)).

Lemma load_step_progress acc conv : load_progress acc (load_step acc conv) 1.
Proof.
  assert (Hcreate : load_progress acc (load_create acc conv) 1).
  { unfold load_progress, load_create. cbn.
    rewrite msg_of_row_set_conversation, map_app. cbn.
    repeat split; try lia.
    exists [conversations_seq (ld_store acc)]. cbn.
    repeat split; [lia|]. constructor; [lia|constructor]. }
  assert (Happend : forall l, load_progress acc (load_append acc conv l) 1).
  { intros l. unfold load_progress, load_append. cbn.
    rewrite msg_of_row_set_conversation, conv_id_extend_conversation.
    repeat split; try lia.
    exists []. rewrite app_nil_r. cbn. repeat split; [lia|constructor]. }
  unfold load_step.
  destruct (ld_existing acc !! cv_chat_id conv) as [l|]; [|exact Hcreate].
  destruct (can_append (Some l) conv); [apply Happend | exact Hcreate].
Qed.

Lemma load_progress_trans a b c n m :
  0 <= n -> 0 <= m ->
  load_progress a b n -> load_progress b c m -> load_progress a c (n + m).
Proof.
  intros Hn Hm (H1 & H2 & H3 & H4 & (new1 & H5 & H6 & H7) & H8)
    (K1 & K2 & K3 & K4 & (new2 & K5 & K6 & K7) & K8).
  unfold load_progress. repeat split; try lia; [|congruence].
  exists (new1 ++ new2). rewrite K5, H5, <- app_assoc.
  split; [reflexivity|]. split; [rewrite length_app; lia|].
  apply Forall_app. split.
  - eapply Forall_impl; [exact H7|]. intros i Hi. simpl in Hi. lia.
  - eapply Forall_impl; [exact K7|]. intros i Hi. simpl in Hi. lia.
Qed.

Lemma load_progress_refl a : load_progress a a 0.
Proof.
  unfold load_progress. repeat split; try lia.
  exists []. rewrite app_nil_r. repeat split; [simpl; lia | constructor].
Qed.

Lemma load_loop_progress convs : forall acc,
  load_progress acc (fold_left load_step convs acc) (Z.of_nat (length convs)).
Proof.
  induction convs as [|c r IH]; intros acc; [apply load_progress_refl|].
  cbn [fold_left length]. rewrite Nat2Z.inj_succ.
  replace (Z.succ (Z.of_nat (length r))) with (1 + Z.of_nat (length r)) by lia.
  apply (load_progress_trans acc (load_step acc c) _ 1 (Z.of_nat (length r)));
    [lia | lia | apply load_step_progress | apply IH].
Qed.

(** X11.  The live reconciliation accounts for every segment, adds one row
    per imported segment under a fresh id, keeps the rows it found at
    their places with their ids, and changes nothing of a message but
    its conversation id. *)
Theorem load_conversations_accounting (convs : list Conv)
  (chat_id : option positive) (st : Store) :
  let st' := (load_conversations convs chat_id st).1 in
  let imported := (load_conversations convs chat_id st).2.1 in
  let updated := (load_conversations convs chat_id st).2.2 in
  imported + updated = Z.of_nat (length convs)
  /\ 0 <= imported /\ 0 <= updated
  /\ Z.pos (conversations_seq st') = Z.pos (conversations_seq st) + imported
  /\ (exists new,
        map conv_id (conversations st') = map conv_id (conversations st) ++ new
        /\ Z.of_nat (length new) = imported
        /\ Forall (fun i => (conversations_seq st <= i
                             < conversations_seq st')%positive) new)
  /\ map msg_of_row (messages st') = map msg_of_row (messages st).
Proof.
  cbv zeta. unfold load_conversations.
  destruct convs as [|c r].
  - cbn. repeat split; try lia.
    exists []. rewrite app_nil_r. repeat split; constructor.
  - set (chat_ids := match chat_id with Some c0 => [c0] | None => _ end).
    set (acc0 := mkLoad st (existing_convs_by_chat st chat_ids) 0 0).
    destruct (load_loop_progress (c :: r) acc0)
      as (H1 & H2 & H3 & H4 & (new & H5 & H6 & H7) & H8).
    cbn [fst snd]. subst acc0. cbn [ld_imported ld_updated ld_store] in *.
    repeat split; try lia; [|exact H8].
    exists new. repeat split; [exact H5 | lia | exact H7].
Qed.


(** *** Live reconciliation: no segment is left unattached *)

(** Every message whose id is in [ids] is attached to a row of the
    table conversations. *)
Definition attached_in (st : Store) (ids : list positive) : Prop :=
  Forall (fun r => row_id r ∈ ids ->
            exists c, row_conversation_id r = Some c
                      /\ c ∈ map conv_id (conversations st))
    (messages st).

(** The references kept per chat name rows of the table. *)
Definition refs_known (acc : LoadState) : Prop :=
  forall k l, ld_existing acc !! k = Some l ->
    last_id l ∈ map conv_id (conversations (ld_store acc)).

Lemma last_conversation_known st cid l :
  last_conversation st cid = Some l ->
  last_id l ∈ map conv_id (conversations st).
Proof.
  unfold last_conversation.
  assert (H : forall rows best,
    (forall b, best = Some b -> last_id b ∈ map conv_id (conversations st)) ->
    (forall r, r ∈ rows -> r ∈ conversations st) ->
    fold_left
      (fun best r =>
         if (conv_chat_id r =? cid)%positive then
           match best with
           | Some b =>
               if last_end_time b <? conv_end_time r
               then Some (mkLast (conv_id r) (conv_end_time r)
                            (conv_message_count r))
               else best
           | None =>
               Some (mkLast (conv_id r) (conv_end_time r)
                       (conv_message_count r))
           end
         else best) rows best = Some l ->
    last_id l ∈ map conv_id (conversations st)).
  { induction rows as [|r rows IH]; intros best Hb Hin; simpl.
    - intros E. apply Hb. exact E.
    - apply IH; [|intros x Hx; apply Hin; right; exact Hx].
      assert (Hr : conv_id r ∈ map conv_id (conversations st)).
      { apply list_elem_of_fmap. exists r. split; [reflexivity|].
        apply Hin. left. }
      intros b. destruct (conv_chat_id r =? cid)%positive; [|apply Hb].
      destruct best as [b0|].
      + destruct (last_end_time b0 <? conv_end_time r); [|apply Hb].
        intros [= <-]. exact Hr.
      + intros [= <-]. exact Hr. }
  apply H; [discriminate | auto].
Qed.

Lemma existing_convs_known st chat_ids :
  refs_known (mkLoad st (existing_convs_by_chat st chat_ids) 0 0).
Proof.
  unfold refs_known, existing_convs_by_chat. cbn [ld_existing ld_store].
  assert (H : forall ids (m : gmap positive LastRef),
    (forall k l, m !! k = Some l ->
       last_id l ∈ map conv_id (conversations st)) ->
    forall k l,
      fold_left
        (fun m cid =>
           match last_conversation st cid with
           | Some l => <[cid := l]> m
           | None => m
           end) ids m !! k = Some l ->
      last_id l ∈ map conv_id (conversations st)).
  { induction ids as [|cid ids IH]; intros m Hm; simpl; [exact Hm|].
    apply IH. destruct (last_conversation st cid) as [l0|] eqn:E; [|exact Hm].
    intros k l. destruct (decide (k = cid)) as [->|Hne].
    - rewrite lookup_insert_eq. intros [= <-].
      eapply last_conversation_known. exact E.
    - rewrite lookup_insert_ne by congruence. apply Hm. }
  apply H. intros k l. rewrite lookup_empty. discriminate.
Qed.

(** The store and the references after an iteration, whichever branch
    it takes: the messages of the segment get the id [c], which names a
    row, and the rows keep their ids. *)
Lemma load_step_shape acc conv :
  refs_known acc ->
  exists c new,
    messages (ld_store (load_step acc conv))
    = set_conversation (cv_message_ids conv) (Some c)
        (messages (ld_store acc))
    /\ map conv_id (conversations (ld_store (load_step acc conv)))
       = map conv_id (conversations (ld_store acc)) ++ new
    /\ c ∈ map conv_id (conversations (ld_store (load_step acc conv)))
    /\ refs_known (load_step acc conv).
Proof.
  intros Hk.
  assert (Hcreate : exists c new,
    messages (ld_store (load_create acc conv))
    = set_conversation (cv_message_ids conv) (Some c)
        (messages (ld_store acc))
    /\ map conv_id (conversations (ld_store (load_create acc conv)))
       = map conv_id (conversations (ld_store acc)) ++ new
    /\ c ∈ map conv_id (conversations (ld_store (load_create acc conv)))
    /\ refs_known (load_create acc conv)).
  { exists (conversations_seq (ld_store acc)),
      [conversations_seq (ld_store acc)].
    unfold load_create, refs_known. cbn. rewrite map_app. cbn.
    split; [reflexivity|]. split; [reflexivity|].
    split; [apply elem_of_app; right; left|].
    intros k l. destruct (decide (k = cv_chat_id conv)) as [->|Hne].
    - rewrite lookup_insert_eq. intros [= <-]. cbn.
      apply elem_of_app. right. left.
    - rewrite lookup_insert_ne by congruence. intros E.
      apply elem_of_app. left. eapply Hk. exact E. }
  unfold load_step.
  destruct (ld_existing acc !! cv_chat_id conv) as [l|] eqn:El;
    [|exact Hcreate].
  destruct (can_append (Some l) conv); [|exact Hcreate].
  exists (last_id l), []. unfold load_append, refs_known. cbn.
  rewrite conv_id_extend_conversation, app_nil_r.
  split; [reflexivity|]. split; [reflexivity|].
  split; [eapply Hk; exact El|].
  intros k l'. destruct (decide (k = cv_chat_id conv)) as [->|Hne].
  - rewrite lookup_insert_eq. intros [= <-]. cbn. eapply Hk. exact El.
  - rewrite lookup_insert_ne by congruence. apply Hk.
Qed.

Lemma load_step_attaches acc conv :
  refs_known acc ->
  attached_in (ld_store (load_step acc conv)) (cv_message_ids conv).
Proof.
  intros Hk. destruct (load_step_shape acc conv Hk) as (c & new & Hm & _ & Hc & _).
  unfold attached_in. rewrite Hm. unfold set_conversation.
  apply Forall_map. apply Forall_forall. intros r _.
  case_bool_decide as Hin; cbn; [|contradiction].
  intros _. exists c. auto.
Qed.

Lemma load_step_keeps_attached acc conv ids :
  refs_known acc ->
  attached_in (ld_store acc) ids ->
  attached_in (ld_store (load_step acc conv)) ids.
Proof.
  intros Hk Ha.
  destruct (load_step_shape acc conv Hk) as (c & new & Hm & Hids & Hc & _).
  unfold attached_in in *. rewrite Hm. unfold set_conversation.
  apply Forall_map. rewrite Forall_forall in Ha. apply Forall_forall.
  intros r Hr. case_bool_decide as Hin; cbn.
  - intros _. exists c. auto.
  - intros Hi. destruct (Ha r Hr Hi) as (c0 & E & Hc0).
    exists c0. split; [exact E|]. rewrite Hids. apply elem_of_app. auto.
Qed.

Lemma load_loop_attaches convs : forall acc conv,
  refs_known acc -> conv ∈ convs ->
  attached_in (ld_store (fold_left load_step convs acc)) (cv_message_ids conv).
Proof.
  assert (Hkeep : forall l acc ids,
    refs_known acc -> attached_in (ld_store acc) ids ->
    attached_in (ld_store (fold_left load_step l acc)) ids).
  { induction l as [|c l IH]; intros acc ids Hk Ha; [exact Ha|].
    cbn [fold_left]. apply IH.
    - destruct (load_step_shape acc c Hk) as (? & ? & _ & _ & _ & H).
      exact H.
    - apply load_step_keeps_attached; assumption. }
  induction convs as [|c l IH]; intros acc conv Hk Hin; [inversion Hin|].
  cbn [fold_left].
  assert (Hk' : refs_known (load_step acc c))
    by (destruct (load_step_shape acc c Hk) as (? & ? & _ & _ & _ & H); exact H).
  apply elem_of_cons in Hin as [->|Hin].
  - apply Hkeep; [exact Hk'|]. apply load_step_attaches. exact Hk.
  - apply IH; assumption.
Qed.

(** X12.  After the live reconciliation every message of every segment it was
    given is attached to a row of the table conversations. *)
Theorem load_conversations_attaches (convs : list Conv)
  (chat_id : option positive) (st : Store) (conv : Conv) (r : MsgRow) :
  conv ∈ convs ->
  r ∈ messages (load_conversations convs chat_id st).1 ->
  row_id r ∈ cv_message_ids conv ->
  exists c,
    c ∈ conversations (load_conversations convs chat_id st).1
    /\ row_conversation_id r = Some (conv_id c).
Proof.
  intros Hconv Hr Hid. unfold load_conversations in *.
  destruct convs as [|c0 l]; [inversion Hconv|].
  set (chat_ids := match chat_id with Some c => [c] | None => _ end) in *.
  cbn [fst] in *.
  pose proof (load_loop_attaches (c0 :: l) _ conv
                (existing_convs_known st chat_ids) Hconv) as Ha.
  unfold attached_in in Ha. rewrite Forall_forall in Ha.
  destruct (Ha r Hr Hid) as (c & E & Hc).
  apply list_elem_of_fmap in Hc as (row & -> & Hrow).
  exists row. auto.
Qed.

Lemma load_conversations_attaches_witness :
  exists c,
    c ∈ conversations
          (load_conversations
             [mkConv 1 7 0 0 1 (list_to_set [7%positive]) [1%positive] 10800]
             None (mkStore [] [mkMsgRow 1 1 (Some 7%positive) 0 None] 1)).1
    /\ Some 1%positive = Some (conv_id c).
Proof.
  apply (load_conversations_attaches
           [mkConv 1 7 0 0 1 (list_to_set [7%positive]) [1%positive] 10800]
           None (mkStore [] [mkMsgRow 1 1 (Some 7%positive) 0 None] 1)
           (mkConv 1 7 0 0 1 (list_to_set [7%positive]) [1%positive] 10800)
           (mkMsgRow 1 1 (Some 7%positive) 0 (Some 1%positive))).
  - left.
  - vm_compute. left.
  - left.
Defined.

(** *** Backup reconciliation: what it keeps *)

(** From [st] to [st'] the messages keep everything but their
    conversation id, the counter of conversations does not go back, and
    a conversation row is a row of [st], field for field, or has an id
    handed out in between. *)
Definition fresh_progress (st st' : Store) : Prop :=
  map msg_of_row (messages st') = map msg_of_row (messages st)
  /\ (conversations_seq st <= conversations_seq st')%positive
  /\ Forall (fun c => c ∈ conversations st
                      \/ (conversations_seq st <= conv_id c
                          < conversations_seq st')%positive)
       (conversations st').

Lemma fresh_progress_refl st : fresh_progress st st.
Proof.
  unfold fresh_progress. split; [reflexivity|]. split; [lia|].
  apply Forall_forall. auto.
Qed.

Lemma fresh_progress_trans a b c :
  fresh_progress a b -> fresh_progress b c -> fresh_progress a c.
Proof.
  intros (H1 & H2 & H3) (K1 & K2 & K3). unfold fresh_progress.
  split; [congruence|]. split; [lia|].
  rewrite Forall_forall in *. intros x Hx.
  destruct (K3 x Hx) as [Hb|Hb]; [|right; lia].
  destruct (H3 x Hb) as [Ha|Ha]; [left; exact Ha | right; lia].
Qed.

Lemma replace_step_progress chat_id gap cmap st block :
  fresh_progress st (replace_step chat_id gap cmap st block).
Proof.
  unfold replace_step.
  destruct (find_reused cmap _); [apply fresh_progress_refl|].
  unfold fresh_progress. cbn [messages conversations conversations_seq].
  split; [|split; [lia|]].
  - destruct (list_truthy _);
      rewrite ?msg_of_row_set_conversation, msg_of_row_detach; reflexivity.
  - apply Forall_app. split.
    + apply Forall_forall. intros c Hc. left.
      apply list_elem_of_In, filter_In in Hc as [Hc _].
      apply list_elem_of_In. exact Hc.
    + constructor; [|constructor]. right. cbn. lia.
Qed.

Lemma fold_progress {A} (f : Store -> A -> Store) (l : list A) :
  (forall s x, fresh_progress s (f s x)) ->
  forall st, fresh_progress st (fold_left f l st).
Proof.
  intros Hf. induction l as [|x l IH]; intros st; [apply fresh_progress_refl|].
  cbn [fold_left]. eapply fresh_progress_trans; [apply Hf | apply IH].
Qed.

(** X13.  The backup reconciliation never touches a message beyond its
    conversation id, never reuses the id of a conversation, and leaves
    every conversation row that survives as it was. *)
Theorem fresh_split_compare_frame (gap : Z) (st : Store) :
  fresh_progress st (etl_conversations_fresh_split_compare gap st).
Proof.
  unfold etl_conversations_fresh_split_compare.
  apply fold_progress. intros s [cid msgs].
  unfold _replace_or_reuse_intervals. apply fold_progress.
  intros s' b. apply replace_step_progress.
Qed.

End Conversations.

(* ===================================================================== *)
(** * Sync engine *)
(* ===================================================================== *)

Module Sync.

Import Normaliser Timestamps.

(** ** Source rows and their transformation *)

(** A row dictionary of fetch_new_messages (all rows of extract_messages
    have these keys too, except chat_id).  The text columns, from which
    transform_message computes the content, are not part of the model:
    no decision of the engine reads them.  [raw_chat_id = None] stands
    for a dictionary without the key chat_id; [raw_chat_participants =
    None] for a missing key or a null value. *)
Record RawRow := mkRaw {
  raw_message_id : Z;
  raw_guid : option string;
  raw_date : option Z;
  raw_is_from_me : bool;
  raw_service : option string;
  raw_associated_message_guid : option string;
  raw_associated_message_type : option Z;
  raw_sender_identifier : option string;
  raw_chat_id : option positive;
  raw_chat_participants : option string
}.

(** The dictionary returned by transform_message (without content and
    reply_to_guid). *)
Record Transformed := mkTransformed {
  t_chat_identifier : string;
  t_sender_identifier : string;
  t_timestamp : option Q;
  t_is_from_me : bool;
  t_message_type : option Z;
  t_service_name : option string;
  t_guid : option string;
  t_associated_message_guid : option string
}.

(** [str.lower()] on one-byte characters: the letters A to Z. *)
Definition lower_char (c : ascii) : ascii :=
  let n := nat_of_ascii c in
  if (65 <=? n)%nat && (n <=? 90)%nat then ascii_of_nat (n + 32) else c.

Fixpoint str_lower (s : string) : string :=
  match s with
  | EmptyString => EmptyString
  | String c r => String (lower_char c) (str_lower r)
  end.

(** [str.isspace()] on one-byte characters. *)
Definition is_space (c : ascii) : bool :=
  let n := nat_of_ascii c in
  ((9 <=? n)%nat && (n <=? 13)%nat) || ((28 <=? n)%nat && (n <=? 32)%nat).

Fixpoint lstrip (s : string) : string :=
  match s with
  | EmptyString => EmptyString
  | String c r => if is_space c then lstrip r else s
  end.

Fixpoint rstrip (s : string) : string :=
  match s with
  | EmptyString => EmptyString
  | String c r =>
      match rstrip r with
      | EmptyString => if is_space c then EmptyString else String c EmptyString
      | r' => String c r'
      end
  end.

(** [s.strip()]. *)
Definition str_strip (s : string) : string := rstrip (lstrip s).

(** [s.split(sep)] for a one-character separator. *)
Fixpoint py_split (sep : ascii) (s : string) : list string :=
  match s with
  | EmptyString => [EmptyString]
  | String c r =>
      if Ascii.eqb c sep then EmptyString :: py_split sep r
      else match py_split sep r with
           | h :: t => String c h :: t
           | [] => [String c EmptyString]
           end
  end.

(** The key under which an address is cached: lower case for an email,
    the normalised number for a phone. *)
Definition canonical (s : string) : string :=
  if contains "@" s then str_lower s else normalize_phone_number s.

(** [sorted(set(l))] on strings. *)
Definition sorted_set (l : list string) : list string :=
  merge_sort (fun a b => Is_true (String.leb a b)) (remove_dups l).

(** etl_messages.py, generate_chat_identifier. *)
Definition generate_chat_identifier (participants : list string) : string :=
  String.concat ","
    (sorted_set (map (fun p => canonical (str_strip p)) participants)).

(** [x or ''] on an optional string. *)
Definition or_empty (o : option string) : string :=
  match o with Some s => s | None => EmptyString end.

(** Python truthiness of an optional string. *)
Definition opt_truthy (o : option string) : bool :=
  match o with Some s => str_truthy s | None => false end.

(** etl_messages.py, transform_message, on a row whose key
    chat_participants is present (sync_messages sets it before the
    call). *)
Definition transform_message (message : RawRow) : Transformed :=
  let participants :=
    if opt_truthy (raw_chat_participants message)
    then py_split "," (or_empty (raw_chat_participants message))
    else [] in
  let sender_identifier := or_empty (raw_sender_identifier message) in
  mkTransformed
    (generate_chat_identifier participants)
    (if negb (contains "@" sender_identifier)
     then normalize_phone_number sender_identifier
     else str_lower sender_identifier)
    (_convert_apple_timestamp (raw_date message))
    (raw_is_from_me message)
    (raw_associated_message_type message)
    (raw_service message)
    (raw_guid message)
    (_clean_guid (raw_associated_message_guid message)).

(** ** The internal store *)

Record ContactRow := mkContact {
  ct_id : positive;
  ct_name : option string;
  ct_is_me : bool;
  ct_data_source : option string
}.

Record IdentRow := mkIdent {
  ci_contact_id : positive;
  ci_identifier : string;
  ci_type : string;
  ci_is_primary : bool
}.

(** The chats table without its two wall-clock columns. *)
Record ChatRow := mkChat {
  ch_id : positive;
  ch_chat_identifier : option string;
  ch_is_group : bool;
  ch_service_name : option string;
  ch_total_messages : Z
}.

(** A tuple staged for INSERT INTO messages. *)
Record MessageTuple := mkMessageTuple {
  mt_chat_id : positive;
  mt_sender_id : option positive;
  mt_timestamp : option Q;
  mt_is_from_me : bool;
  mt_message_type : option Z;
  mt_service_name : option string;
  mt_guid : option string
}.

(** A tuple staged for INSERT INTO reactions. *)
Record ReactionTuple := mkReactionTuple {
  rt_original_message_guid : option string;
  rt_reaction_type : option Z;
  rt_sender_id : option positive;
  rt_timestamp : option Q;
  rt_chat_id : positive;
  rt_guid : option string
}.

Record MessageRow := mkMessageRow { mr_id : positive; mr_data : MessageTuple }.
Record ReactionRow := mkReactionRow { rr_id : positive; rr_data : ReactionTuple }.

(** The tables, their AUTOINCREMENT counters, and the answer of the
    source database to the participants query of
    get_chat_participants_map. *)
Record Db := mkDb {
  contacts : list ContactRow;
  contact_identifiers : list IdentRow;
  chats : list ChatRow;
  messages : list MessageRow;
  reactions : list ReactionRow;
  contacts_seq : positive;
  chats_seq : positive;
  messages_seq : positive;
  reactions_seq : positive;
  source_chats : list (positive * option string)
}.

(** live_sync/cache.py: the module-level caches and their flags. *)
Record Caches := mkCaches {
  CONTACT_MAP_CACHE : gmap string positive;
  _contacts_cache_populated : bool;
  MESSAGE_GUID_TO_ID_CACHE : gmap (option string) positive;
  _message_guid_cache_populated : bool;
  CHAT_MAP_CACHE : gmap (option string) positive;
  _chat_map_cache_populated : bool;
  REACTION_GUID_CACHE : gset (option string);
  _reaction_guid_cache_populated : bool;
  CHAT_DB_ROWID_TO_PARTICIPANTS_CACHE : gmap positive string;
  _chat_participants_cache_populated : bool
}.

Record State := mkState { st_db : Db; st_caches : Caches }.

(** ** live_sync/cache.py *)

(** The rows of [contacts c JOIN contact_identifiers ci ON c.id =
    ci.contact_id], contacts in the outer loop. *)
Definition contact_join (d : Db) : list (string * positive) :=
  c ← contacts d;
  ci ← List.filter (fun ci => (ci_contact_id ci =? ct_id c)%positive)
         (contact_identifiers d);
  [(ci_identifier ci, ct_id c)].

Definition load_contact_map (d : Db) : gmap string positive :=
  fold_left (fun m '(identifier, id) => <[canonical identifier := id]> m)
    (contact_join d) ∅.

Definition load_message_guid_map (d : Db) : gmap (option string) positive :=
  fold_left (fun m r => <[mt_guid (mr_data r) := mr_id r]> m) (messages d) ∅.

Definition load_chat_map (d : Db) : gmap (option string) positive :=
  fold_left (fun m r => <[ch_chat_identifier r := ch_id r]> m) (chats d) ∅.

Definition load_reaction_guids (d : Db) : gset (option string) :=
  fold_left (fun s r => {[rt_guid (rr_data r)]} ∪ s) (reactions d) ∅.

Definition load_chat_participants (d : Db) : gmap positive string :=
  fold_left
    (fun m '(chat_id, participants) =>
       <[chat_id := if opt_truthy participants then or_empty participants
                    else EmptyString]> m)
    (source_chats d) ∅.

Definition get_contact_map (st : State) : State :=
  let c := st_caches st in
  if bool_decide (CONTACT_MAP_CACHE c = ∅) || negb (_contacts_cache_populated c)
  then mkState (st_db st)
         (mkCaches (load_contact_map (st_db st)) true
            (MESSAGE_GUID_TO_ID_CACHE c) (_message_guid_cache_populated c)
            (CHAT_MAP_CACHE c) (_chat_map_cache_populated c)
            (REACTION_GUID_CACHE c) (_reaction_guid_cache_populated c)
            (CHAT_DB_ROWID_TO_PARTICIPANTS_CACHE c)
            (_chat_participants_cache_populated c))
  else st.

Definition get_message_guid_to_id_map (st : State) : State :=
  let c := st_caches st in
  if bool_decide (MESSAGE_GUID_TO_ID_CACHE c = ∅)
     || negb (_message_guid_cache_populated c)
  then mkState (st_db st)
         (mkCaches (CONTACT_MAP_CACHE c) (_contacts_cache_populated c)
            (load_message_guid_map (st_db st)) true
            (CHAT_MAP_CACHE c) (_chat_map_cache_populated c)
            (REACTION_GUID_CACHE c) (_reaction_guid_cache_populated c)
            (CHAT_DB_ROWID_TO_PARTICIPANTS_CACHE c)
            (_chat_participants_cache_populated c))
  else st.

Definition get_chat_map (st : State) : State :=
  let c := st_caches st in
  if bool_decide (CHAT_MAP_CACHE c = ∅) || negb (_chat_map_cache_populated c)
  then mkState (st_db st)
         (mkCaches (CONTACT_MAP_CACHE c) (_contacts_cache_populated c)
            (MESSAGE_GUID_TO_ID_CACHE c) (_message_guid_cache_populated c)
            (load_chat_map (st_db st)) true
            (REACTION_GUID_CACHE c) (_reaction_guid_cache_populated c)
            (CHAT_DB_ROWID_TO_PARTICIPANTS_CACHE c)
            (_chat_participants_cache_populated c))
  else st.

Definition get_reaction_guids (st : State) : State :=
  let c := st_caches st in
  if bool_decide (REACTION_GUID_CACHE c = ∅)
     || negb (_reaction_guid_cache_populated c)
  then mkState (st_db st)
         (mkCaches (CONTACT_MAP_CACHE c) (_contacts_cache_populated c)
            (MESSAGE_GUID_TO_ID_CACHE c) (_message_guid_cache_populated c)
            (CHAT_MAP_CACHE c) (_chat_map_cache_populated c)
            (load_reaction_guids (st_db st)) true
            (CHAT_DB_ROWID_TO_PARTICIPANTS_CACHE c)
            (_chat_participants_cache_populated c))
  else st.

Definition get_chat_participants_map (st : State) : State :=
  let c := st_caches st in
  if bool_decide (CHAT_DB_ROWID_TO_PARTICIPANTS_CACHE c = ∅)
     || negb (_chat_participants_cache_populated c)
  then mkState (st_db st)
         (mkCaches (CONTACT_MAP_CACHE c) (_contacts_cache_populated c)
            (MESSAGE_GUID_TO_ID_CACHE c) (_message_guid_cache_populated c)
            (CHAT_MAP_CACHE c) (_chat_map_cache_populated c)
            (REACTION_GUID_CACHE c) (_reaction_guid_cache_populated c)
            (load_chat_participants (st_db st)) true)
  else st.

(** ** live_sync/sync_messages.py *)

Definition set_contact_map (m : gmap string positive) (c : Caches) : Caches :=
  mkCaches m (_contacts_cache_populated c)
    (MESSAGE_GUID_TO_ID_CACHE c) (_message_guid_cache_populated c)
    (CHAT_MAP_CACHE c) (_chat_map_cache_populated c)
    (REACTION_GUID_CACHE c) (_reaction_guid_cache_populated c)
    (CHAT_DB_ROWID_TO_PARTICIPANTS_CACHE c)
    (_chat_participants_cache_populated c).

Definition set_message_guid_map (m : gmap (option string) positive)
  (c : Caches) : Caches :=
  mkCaches (CONTACT_MAP_CACHE c) (_contacts_cache_populated c)
    m (_message_guid_cache_populated c)
    (CHAT_MAP_CACHE c) (_chat_map_cache_populated c)
    (REACTION_GUID_CACHE c) (_reaction_guid_cache_populated c)
    (CHAT_DB_ROWID_TO_PARTICIPANTS_CACHE c)
    (_chat_participants_cache_populated c).

Definition set_chat_map (m : gmap (option string) positive) (c : Caches)
  : Caches :=
  mkCaches (CONTACT_MAP_CACHE c) (_contacts_cache_populated c)
    (MESSAGE_GUID_TO_ID_CACHE c) (_message_guid_cache_populated c)
    m (_chat_map_cache_populated c)
    (REACTION_GUID_CACHE c) (_reaction_guid_cache_populated c)
    (CHAT_DB_ROWID_TO_PARTICIPANTS_CACHE c)
    (_chat_participants_cache_populated c).

Definition set_reaction_guids (s : gset (option string)) (c : Caches)
  : Caches :=
  mkCaches (CONTACT_MAP_CACHE c) (_contacts_cache_populated c)
    (MESSAGE_GUID_TO_ID_CACHE c) (_message_guid_cache_populated c)
    (CHAT_MAP_CACHE c) (_chat_map_cache_populated c)
    s (_reaction_guid_cache_populated c)
    (CHAT_DB_ROWID_TO_PARTICIPANTS_CACHE c)
    (_chat_participants_cache_populated c).

Definition set_contacts (rows : list ContactRow) (seq : positive) (d : Db)
  : Db :=
  mkDb rows (contact_identifiers d) (chats d) (messages d) (reactions d)
    seq (chats_seq d) (messages_seq d) (reactions_seq d) (source_chats d).

Definition set_contact_identifiers (rows : list IdentRow) (d : Db) : Db :=
  mkDb (contacts d) rows (chats d) (messages d) (reactions d)
    (contacts_seq d) (chats_seq d) (messages_seq d) (reactions_seq d)
    (source_chats d).

Definition set_chats (rows : list ChatRow) (seq : positive) (d : Db) : Db :=
  mkDb (contacts d) (contact_identifiers d) rows (messages d) (reactions d)
    (contacts_seq d) seq (messages_seq d) (reactions_seq d) (source_chats d).

Definition set_messages (rows : list MessageRow) (seq : positive) (d : Db)
  : Db :=
  mkDb (contacts d) (contact_identifiers d) (chats d) rows (reactions d)
    (contacts_seq d) (chats_seq d) seq (reactions_seq d) (source_chats d).

Definition set_reactions (rows : list ReactionRow) (seq : positive) (d : Db)
  : Db :=
  mkDb (contacts d) (contact_identifiers d) (chats d) (messages d) rows
    (contacts_seq d) (chats_seq d) (messages_seq d) seq (source_chats d).

(** [INSERT INTO contacts (name, is_me, data_source)]. *)
Definition insert_contact (name : string) (is_me : bool) (source : string)
  (d : Db) : Db :=
  set_contacts
    (contacts d ++ [mkContact (contacts_seq d) (Some name) is_me (Some source)])
    (Pos.succ (contacts_seq d)) d.

(** [SELECT id FROM contacts WHERE is_me = 1], first row. *)
Definition find_user (d : Db) : option positive :=
  ct_id <$> List.find ct_is_me (contacts d).

(** The user contact: found, or inserted as "Me". *)
Definition ensure_user (d : Db) : Db * positive :=
  match find_user d with
  | Some user_id => (d, user_id)
  | None => (insert_contact "Me" true "system_user" d, contacts_seq d)
  end.

(** A value of [unknown_sender_details_to_create]. *)
Record SenderDetails := mkDetails {
  sd_original : string;
  sd_type : string;
  sd_name_for_contact : string
}.

(** One iteration of the first pass over the rows. *)
Definition collect_unknown (cache : gmap string positive)
  (acc : list (string * SenderDetails)) (row : RawRow)
  : list (string * SenderDetails) :=
  match raw_sender_identifier row with
  | Some original =>
      if negb (raw_is_from_me row) && str_truthy original then
        let key := canonical original in
        if bool_decide (is_Some (cache !! key)) then acc
        else if bool_decide (key ∈ map fst acc) then acc
        else acc ++ [(key,
                      mkDetails original
                        (if contains "@" original then "Email" else "Phone")%string
                        original)]
      else acc
  | None => acc
  end.

Definition live_source : string := "live_sync_message_sender".

(** [SELECT id, name FROM contacts WHERE name IN (names) AND
    data_source = ?], folded into [retrieved_contact_info]. *)
Definition retrieve_contact_ids (names : list string) (d : Db)
  : gmap string positive :=
  fold_left
    (fun m c =>
       match ct_name c with
       | Some n =>
           if bool_decide (n ∈ names)
              && bool_decide (ct_data_source c = Some live_source)
           then <[n := ct_id c]> m else m
       | None => m
       end)
    (contacts d) ∅.

(** One iteration of the loop over the unknown senders. *)
Definition register_unknown (retrieved : gmap string positive)
  (acc : gmap string positive * list IdentRow)
  (entry : string * SenderDetails) : gmap string positive * list IdentRow :=
  match retrieved !! sd_name_for_contact entry.2 with
  | Some new_contact_id =>
      (<[entry.1 := new_contact_id]> acc.1,
       acc.2 ++ [mkIdent new_contact_id (sd_original entry.2)
                   (sd_type entry.2) true])
  | None => acc
  end.

(** [INSERT INTO contact_identifiers ... ON CONFLICT(contact_id,
    identifier, type) DO NOTHING]. *)
Definition insert_identifier (d : Db) (t : IdentRow) : Db :=
  if existsb
       (fun r => (ci_contact_id r =? ci_contact_id t)%positive
                 && String.eqb (ci_identifier r) (ci_identifier t)
                 && String.eqb (ci_type r) (ci_type t))
       (contact_identifiers d)
  then d
  else set_contact_identifiers (contact_identifiers d ++ [t]) d.

(** The block "Batch Contact Creation".  The names are inserted in the
    order of their first occurrence (Python iterates a set here, in an
    order it does not specify). *)
Definition create_unknown_contacts (new_rows : list RawRow) (st : State)
  : State :=
  let unknown :=
    fold_left (collect_unknown (CONTACT_MAP_CACHE (st_caches st))) new_rows []
  in
  match unknown with
  | [] => st
  | _ =>
      let names :=
        remove_dups (map (fun e => sd_name_for_contact e.2) unknown) in
      let d1 :=
        fold_left (fun d n => insert_contact n false live_source d) names
          (st_db st) in
      let retrieved := retrieve_contact_ids names d1 in
      let r :=
        fold_left (register_unknown retrieved) unknown
          (CONTACT_MAP_CACHE (st_caches st), []) in
      mkState (fold_left insert_identifier r.2 d1)
        (set_contact_map r.1 (st_caches st))
  end.

(** The two assignments to row['chat_participants'] at the head of the
    main loop; the result is the mutated row. *)
Definition resolve_participants (pmap : gmap positive string) (row : RawRow)
  : RawRow :=
  let with_participants (p : string) (r : RawRow) :=
    mkRaw (raw_message_id r) (raw_guid r) (raw_date r) (raw_is_from_me r)
      (raw_service r) (raw_associated_message_guid r)
      (raw_associated_message_type r) (raw_sender_identifier r)
      (raw_chat_id r) (Some p) in
  let row1 :=
    if negb (opt_truthy (raw_chat_participants row)) then
      match raw_chat_id row with
      | Some chat_id_from_row =>
          match pmap !! chat_id_from_row with
          | Some p => with_participants p row
          | None => row
          end
      | None => row
      end
    else row in
  if negb (opt_truthy (raw_chat_participants row1)) then
    with_participants
      (if opt_truthy (raw_sender_identifier row1)
       then or_empty (raw_sender_identifier row1) else EmptyString) row1
  else row1.

(** sync_messages.py, create_chat_if_missing.  The except branch, which
    answers a failing INSERT, has no counterpart: the INSERT follows a
    lookup that found no row with the identifier. *)
Definition create_chat_if_missing (chat_identifier : string) (is_group : bool)
  (st : State) : State * option positive :=
  match CHAT_MAP_CACHE (st_caches st) !! Some chat_identifier with
  | Some chat_id => (st, Some chat_id)
  | None =>
      match List.find
              (fun r => bool_decide (ch_chat_identifier r = Some chat_identifier))
              (chats (st_db st)) with
      | Some r =>
          (mkState (st_db st)
             (set_chat_map
                (<[Some chat_identifier := ch_id r]>
                   (CHAT_MAP_CACHE (st_caches st))) (st_caches st)),
           Some (ch_id r))
      | None =>
          let d := st_db st in
          let chat_id := chats_seq d in
          (mkState
             (set_chats
                (chats d ++ [mkChat chat_id (Some chat_identifier) is_group
                               (Some "iMessage"%string) 0])
                (Pos.succ chat_id) d)
             (set_chat_map
                (<[Some chat_identifier := chat_id]>
                   (CHAT_MAP_CACHE (st_caches st))) (st_caches st)),
           Some chat_id)
      end
  end.

(** [message_type != 0 and message_type is not None]. *)
Definition is_reaction_type (message_type : option Z) : bool :=
  match message_type with
  | Some t => negb (t =? 0)
  | None => false
  end.

(** The variables of the main loop that outlive an iteration (the
    counters that are only printed are left out). *)
Record LoopState := mkLoop {
  lp_state : State;
  messages_to_insert : list MessageTuple;
  reactions_to_insert : list ReactionTuple;
  chat_counts : gmap positive Z;
  imported_count : Z
}.

Definition with_state (st : State) (L : LoopState) : LoopState :=
  mkLoop st (messages_to_insert L) (reactions_to_insert L) (chat_counts L)
    (imported_count L).

(** The chat lookup of an iteration, with creation on the fly. *)
Definition resolve_chat (row : RawRow) (transformed : Transformed)
  (st : State) : State * option positive :=
  match CHAT_MAP_CACHE (st_caches st) !! Some (t_chat_identifier transformed)
  with
  | Some chat_id => (st, Some chat_id)
  | None =>
      if str_truthy (t_chat_identifier transformed) then
        let is_group :=
          if opt_truthy (raw_chat_participants row)
          then (1 <? length (py_split "," (or_empty (raw_chat_participants row))))%nat
          else false in
        create_chat_if_missing (t_chat_identifier transformed) is_group st
      else (st, None)
  end.

(** The sender lookup of an iteration. *)
Definition resolve_sender (user_id : positive) (transformed : Transformed)
  (st : State) : option positive :=
  if t_is_from_me transformed then Some user_id
  else CONTACT_MAP_CACHE (st_caches st)
         !! canonical (t_sender_identifier transformed).

(** The classification and staging at the end of an iteration. *)
Definition stage (transformed : Transformed) (chat_id sender_id : positive)
  (message_guid : string) (L : LoopState) : LoopState :=
  let c := st_caches (lp_state L) in
  if is_reaction_type (t_message_type transformed) then
    if bool_decide (Some message_guid ∈ REACTION_GUID_CACHE c) then L
    else
      mkLoop (lp_state L) (messages_to_insert L)
        (reactions_to_insert L
           ++ [mkReactionTuple (t_associated_message_guid transformed)
                 (t_message_type transformed) (Some sender_id)
                 (t_timestamp transformed) chat_id (Some message_guid)])
        (chat_counts L) (imported_count L)
  else
    if bool_decide (is_Some (MESSAGE_GUID_TO_ID_CACHE c !! Some message_guid))
    then L
    else
      mkLoop (lp_state L)
        (messages_to_insert L
           ++ [mkMessageTuple chat_id (Some sender_id)
                 (t_timestamp transformed) (t_is_from_me transformed)
                 (t_message_type transformed) (t_service_name transformed)
                 (Some message_guid)])
        (reactions_to_insert L)
        (<[chat_id := default 0 (chat_counts L !! chat_id) + 1]> (chat_counts L))
        (imported_count L + 1).

(** One iteration of [for row in new_rows] of the main loop. *)
Definition process_row (user_id : positive) (L : LoopState) (row0 : RawRow)
  : LoopState :=
  let st := lp_state L in
  let row :=
    resolve_participants
      (CHAT_DB_ROWID_TO_PARTICIPANTS_CACHE (st_caches st)) row0 in
  let transformed := transform_message row in
  let (st1, chat_id) := resolve_chat row transformed st in
  match chat_id with
  | None => with_state st1 L
  | Some chat_id =>
      match resolve_sender user_id transformed st1 with
      | None => with_state st1 L
      | Some sender_id =>
          match t_guid transformed with
          | Some message_guid =>
              if str_truthy message_guid
              then stage transformed chat_id sender_id message_guid
                     (with_state st1 L)
              else with_state st1 L
          | None => with_state st1 L
          end
      end
  end.

(** [INSERT INTO messages ...] for one tuple; None is the
    IntegrityError of the UNIQUE constraint on guid. *)
Definition insert_message (d : Db) (t : MessageTuple) : option Db :=
  if bool_decide (is_Some (mt_guid t))
     && existsb (fun r => bool_decide (mt_guid (mr_data r) = mt_guid t))
          (messages d)
  then None
  else Some (set_messages (messages d ++ [mkMessageRow (messages_seq d) t])
               (Pos.succ (messages_seq d)) d).

Definition insert_reaction (d : Db) (t : ReactionTuple) : option Db :=
  if bool_decide (is_Some (rt_guid t))
     && existsb (fun r => bool_decide (rt_guid (rr_data r) = rt_guid t))
          (reactions d)
  then None
  else Some (set_reactions (reactions d ++ [mkReactionRow (reactions_seq d) t])
               (Pos.succ (reactions_seq d)) d).

(** [cursor.executemany]: the statements in order, the first failure
    raises. *)
Fixpoint executemany {A} (f : Db -> A -> option Db) (d : Db) (l : list A)
  : option Db :=
  match l with
  | [] => Some d
  | x :: r => d' ← f d x; executemany f d' r
  end.

(** [SELECT guid, id FROM messages WHERE guid IN (guids)], folded into
    the cache. *)
Definition requery_message_ids (guids : list (option string)) (d : Db)
  (cache : gmap (option string) positive) : gmap (option string) positive :=
  fold_left
    (fun m r =>
       if bool_decide (is_Some (mt_guid (mr_data r)))
          && bool_decide (mt_guid (mr_data r) ∈ guids)
       then <[mt_guid (mr_data r) := mr_id r]> m else m)
    (messages d) cache.

(** [UPDATE chats SET total_messages = total_messages + ? WHERE id = ?]
    for every item of chat_counts. *)
Definition update_chat_counts (counts : gmap positive Z) (d : Db) : Db :=
  set_chats
    (map (fun ch =>
            match counts !! ch_id ch with
            | Some n =>
                mkChat (ch_id ch) (ch_chat_identifier ch) (ch_is_group ch)
                  (ch_service_name ch) (ch_total_messages ch + n)
            | None => ch
            end)
         (chats d))
    (chats_seq d) d.

(** The statements after the main loop. *)
Definition commit (L : LoopState) : option State :=
  let st := lp_state L in
  d1 ← executemany insert_message (st_db st) (messages_to_insert L);
  let c1 :=
    match messages_to_insert L with
    | [] => st_caches st
    | _ =>
        set_message_guid_map
          (requery_message_ids (map mt_guid (messages_to_insert L)) d1
             (MESSAGE_GUID_TO_ID_CACHE (st_caches st)))
          (st_caches st)
    end in
  d2 ← executemany insert_reaction d1 (reactions_to_insert L);
  let c2 :=
    set_reaction_guids
      (fold_left (fun s t => {[rt_guid t]} ∪ s) (reactions_to_insert L)
         (REACTION_GUID_CACHE c1)) c1 in
  let d3 :=
    if bool_decide (chat_counts L = ∅) then d2
    else update_chat_counts (chat_counts L) d2 in
  Some (mkState d3 c2).

(** The five cache getters at the head of sync_messages, in the order
    of the calls. *)
Definition getters (st : State) : State :=
  get_chat_participants_map
    (get_contact_map
       (get_reaction_guids (get_message_guid_to_id_map (get_chat_map st)))).

(** The state at the head of the main loop and the user id. *)
Definition prepare (new_rows : list RawRow) (st : State) : State * positive :=
  let st5 := getters st in
  let (d, user_id) := ensure_user (st_db st5) in
  (create_unknown_contacts new_rows (mkState d (st_caches st5)), user_id).

(** The main loop from the prepared state. *)
Definition main_loop (new_rows : list RawRow) (st : State) : LoopState :=
  let (st6, user_id) := prepare new_rows st in
  fold_left (process_row user_id) new_rows (mkLoop st6 [] [] ∅ 0).

(** The result of a run: the state, the rows as the loop leaves them,
    and the returned pair (imported_count, chat_counts). *)
Record Outcome := mkOutcome {
  out_state : State;
  out_rows : list RawRow;
  out_imported : Z;
  out_chat_counts : gmap positive Z
}.

(** live_sync/sync_messages.py, sync_messages.  None stands for a run
    that raises (the session rolls back). *)
Definition sync_messages (new_rows : list RawRow) (st : State)
  : option Outcome :=
  match new_rows with
  | [] => Some (mkOutcome st [] 0 ∅)
  | _ =>
      let L := main_loop new_rows st in
      st' ← commit L;
      Some (mkOutcome st'
              (map (resolve_participants
                      (CHAT_DB_ROWID_TO_PARTICIPANTS_CACHE (st_caches st')))
                 new_rows)
              (imported_count L) (chat_counts L))
  end.


(** ** What a run leaves behind *)

(** Every identifier row refers to a contact id that was handed out
    (the foreign key of contact_identifiers and the AUTOINCREMENT
    counter of contacts). *)
Definition refs_allocated (d : Db) : Prop :=
  Forall (fun ci => (ci_contact_id ci < contacts_seq d)%positive)
    (contact_identifiers d).

(** A getter of cache.py changes nothing for a cache whose flag is set
    and which, if empty, would be reloaded empty. *)
Definition contacts_stable (d : Db) (c : Caches) : Prop :=
  _contacts_cache_populated c = true
  /\ (CONTACT_MAP_CACHE c = ∅ -> load_contact_map d = ∅).

Definition message_guids_stable (d : Db) (c : Caches) : Prop :=
  _message_guid_cache_populated c = true
  /\ (MESSAGE_GUID_TO_ID_CACHE c = ∅ -> load_message_guid_map d = ∅).

Definition chat_map_stable (d : Db) (c : Caches) : Prop :=
  _chat_map_cache_populated c = true
  /\ (CHAT_MAP_CACHE c = ∅ -> load_chat_map d = ∅).

Definition reaction_guids_stable (d : Db) (c : Caches) : Prop :=
  _reaction_guid_cache_populated c = true
  /\ (REACTION_GUID_CACHE c = ∅ -> load_reaction_guids d = ∅).

Definition participants_stable (d : Db) (c : Caches) : Prop :=
  _chat_participants_cache_populated c = true
  /\ (CHAT_DB_ROWID_TO_PARTICIPANTS_CACHE c = ∅ ->
      load_chat_participants d = ∅).

Definition caches_stable (st : State) : Prop :=
  contacts_stable (st_db st) (st_caches st)
  /\ message_guids_stable (st_db st) (st_caches st)
  /\ chat_map_stable (st_db st) (st_caches st)
  /\ reaction_guids_stable (st_db st) (st_caches st)
  /\ participants_stable (st_db st) (st_caches st).

(** The row as the main loop sees it in state [st]. *)
Definition row_view (st : State) (row : RawRow) : Transformed :=
  transform_message
    (resolve_participants
       (CHAT_DB_ROWID_TO_PARTICIPANTS_CACHE (st_caches st)) row).

(** The guid of the row is in the cache of its kind. *)
Definition guid_cached (st : State) (t : Transformed) (g : string) : Prop :=
  if is_reaction_type (t_message_type t)
  then Some g ∈ REACTION_GUID_CACHE (st_caches st)
  else is_Some (MESSAGE_GUID_TO_ID_CACHE (st_caches st) !! Some g).

(** The row gets through the guards of the main loop in state [st]. *)
Definition passes_guards (st : State) (t : Transformed) (g : string) : Prop :=
  is_Some (CHAT_MAP_CACHE (st_caches st) !! Some (t_chat_identifier t))
  /\ (t_is_from_me t = true
      \/ is_Some (CONTACT_MAP_CACHE (st_caches st)
                    !! canonical (t_sender_identifier t)))
  /\ t_guid t = Some g /\ str_truthy g = true.

(** The state has nothing left to do for the rows: the caches are
    stable, the user contact exists, every sender and every chat of the
    batch is cached, and so is the guid of every row that gets through
    the guards. *)
Definition settled (st : State) (rows : list RawRow) : Prop :=
  caches_stable st
  /\ is_Some (find_user (st_db st))
  /\ Forall
       (fun row =>
          forall original, raw_sender_identifier row = Some original ->
            raw_is_from_me row = false -> str_truthy original = true ->
            is_Some (CONTACT_MAP_CACHE (st_caches st) !! canonical original))
       rows
  /\ Forall
       (fun row =>
          let t := row_view st row in
          (str_truthy (t_chat_identifier t) = true ->
           is_Some (CHAT_MAP_CACHE (st_caches st)
                      !! Some (t_chat_identifier t)))
          /\ forall g, passes_guards st t g -> guid_cached st t g)
       rows.

(** ** Lemmas on the caches *)

Lemma state_eta st : mkState (st_db st) (st_caches st) = st.
Proof. destruct st; reflexivity. Qed.

Lemma get_contact_map_stable st :
  _contacts_cache_populated (st_caches st) = true ->
  (CONTACT_MAP_CACHE (st_caches st) = ∅ -> load_contact_map (st_db st) = ∅) ->
  get_contact_map st = st.
Proof.
  intros Hf He. unfold get_contact_map. rewrite Hf. simpl negb.
  rewrite orb_false_r. case_bool_decide as Hc; [|reflexivity].
  rewrite (He Hc). destruct st as [d c]; destruct c; simpl in *. congruence.
Qed.

Lemma get_message_guid_to_id_map_stable st :
  _message_guid_cache_populated (st_caches st) = true ->
  (MESSAGE_GUID_TO_ID_CACHE (st_caches st) = ∅ ->
   load_message_guid_map (st_db st) = ∅) ->
  get_message_guid_to_id_map st = st.
Proof.
  intros Hf He. unfold get_message_guid_to_id_map. rewrite Hf. simpl negb.
  rewrite orb_false_r. case_bool_decide as Hc; [|reflexivity].
  rewrite (He Hc). destruct st as [d c]; destruct c; simpl in *. congruence.
Qed.

Lemma get_chat_map_stable st :
  _chat_map_cache_populated (st_caches st) = true ->
  (CHAT_MAP_CACHE (st_caches st) = ∅ -> load_chat_map (st_db st) = ∅) ->
  get_chat_map st = st.
Proof.
  intros Hf He. unfold get_chat_map. rewrite Hf. simpl negb.
  rewrite orb_false_r. case_bool_decide as Hc; [|reflexivity].
  rewrite (He Hc). destruct st as [d c]; destruct c; simpl in *. congruence.
Qed.

Lemma get_reaction_guids_stable st :
  _reaction_guid_cache_populated (st_caches st) = true ->
  (REACTION_GUID_CACHE (st_caches st) = ∅ ->
   load_reaction_guids (st_db st) = ∅) ->
  get_reaction_guids st = st.
Proof.
  intros Hf He. unfold get_reaction_guids. rewrite Hf. simpl negb.
  rewrite orb_false_r. case_bool_decide as Hc; [|reflexivity].
  rewrite (He Hc). destruct st as [d c]; destruct c; simpl in *. congruence.
Qed.

Lemma get_chat_participants_map_stable st :
  _chat_participants_cache_populated (st_caches st) = true ->
  (CHAT_DB_ROWID_TO_PARTICIPANTS_CACHE (st_caches st) = ∅ ->
   load_chat_participants (st_db st) = ∅) ->
  get_chat_participants_map st = st.
Proof.
  intros Hf He. unfold get_chat_participants_map. rewrite Hf. simpl negb.
  rewrite orb_false_r. case_bool_decide as Hc; [|reflexivity].
  rewrite (He Hc). destruct st as [d c]; destruct c; simpl in *. congruence.
Qed.

(** The five getters of a run, on a state whose caches are stable. *)
Lemma getters_stable st : caches_stable st -> getters st = st.
Proof.
  intros ([H1 H1'] & [H2 H2'] & [H3 H3'] & [H4 H4'] & [H5 H5']).
  unfold getters.
  rewrite (get_chat_map_stable st H3 H3').
  rewrite (get_message_guid_to_id_map_stable st H2 H2').
  rewrite (get_reaction_guids_stable st H4 H4').
  rewrite (get_contact_map_stable st H1 H1').
  apply (get_chat_participants_map_stable st H5 H5').
Qed.


(** ** A run from a settled state *)

Lemma with_state_id L : with_state (lp_state L) L = L.
Proof. destruct L; reflexivity. Qed.

Lemma collect_unknown_cached cache acc row :
  (forall original, raw_sender_identifier row = Some original ->
     raw_is_from_me row = false -> str_truthy original = true ->
     is_Some (cache !! canonical original)) ->
  collect_unknown cache acc row = acc.
Proof.
  intros H. unfold collect_unknown.
  destruct (raw_sender_identifier row) as [original|]; [|reflexivity].
  destruct (raw_is_from_me row) eqn:Hme; [reflexivity|].
  destruct (str_truthy original) eqn:Ht; [|reflexivity]. simpl.
  rewrite bool_decide_eq_true_2; [reflexivity|]. apply H; auto.
Qed.

Lemma collect_unknown_all_cached cache rows acc :
  Forall
    (fun row =>
       forall original, raw_sender_identifier row = Some original ->
         raw_is_from_me row = false -> str_truthy original = true ->
         is_Some (cache !! canonical original)) rows ->
  fold_left (collect_unknown cache) rows acc = acc.
Proof.
  induction 1 as [|row r Hrow _ IH]; simpl; [reflexivity|].
  rewrite (collect_unknown_cached _ _ _ Hrow). exact IH.
Qed.

Lemma prepare_settled rows st :
  settled st rows -> exists user_id, prepare rows st = (st, user_id).
Proof.
  intros (Hst & [u Hu] & Hsenders & _). exists u. unfold prepare.
  rewrite (getters_stable _ Hst). unfold ensure_user. rewrite Hu.
  rewrite state_eta. unfold create_unknown_contacts.
  rewrite (collect_unknown_all_cached _ _ _ Hsenders). reflexivity.
Qed.

Lemma process_row_settled user_id L row :
  (let t := row_view (lp_state L) row in
   (str_truthy (t_chat_identifier t) = true ->
    is_Some (CHAT_MAP_CACHE (st_caches (lp_state L))
               !! Some (t_chat_identifier t)))
   /\ forall g, passes_guards (lp_state L) t g ->
                guid_cached (lp_state L) t g) ->
  process_row user_id L row = L.
Proof.
  cbv zeta. unfold row_view. intros [Hchat Hguid]. unfold process_row.
  set (row' := resolve_participants _ row) in *.
  set (t := transform_message row') in *.
  unfold resolve_chat.
  destruct (CHAT_MAP_CACHE (st_caches (lp_state L))
              !! Some (t_chat_identifier t)) as [chat_id|] eqn:Hk.
  - unfold resolve_sender.
    assert (Hs : forall sender_id,
      (if t_is_from_me t then Some user_id
       else CONTACT_MAP_CACHE (st_caches (lp_state L))
              !! canonical (t_sender_identifier t)) = Some sender_id ->
      t_is_from_me t = true
      \/ is_Some (CONTACT_MAP_CACHE (st_caches (lp_state L))
                    !! canonical (t_sender_identifier t))).
    { intros s. destruct (t_is_from_me t); [auto | eauto]. }
    destruct (if t_is_from_me t then _ else _) as [sender_id|] eqn:Hsender;
      [|apply with_state_id].
    destruct (t_guid t) as [g|] eqn:Hg; [|apply with_state_id].
    destruct (str_truthy g) eqn:Htg; [|apply with_state_id].
    rewrite with_state_id.
    assert (Hc : guid_cached (lp_state L) t g).
    { apply Hguid. unfold passes_guards. rewrite Hk. eauto 6. }
    unfold guid_cached in Hc. unfold stage.
    destruct (is_reaction_type (t_message_type t));
      rewrite bool_decide_eq_true_2 by exact Hc; reflexivity.
  - destruct (str_truthy (t_chat_identifier t)) eqn:Ht.
    + destruct (Hchat eq_refl) as [x Hx]. congruence.
    + apply with_state_id.
Qed.

Lemma loop_settled user_id rows st :
  Forall
    (fun row =>
       let t := row_view st row in
       (str_truthy (t_chat_identifier t) = true ->
        is_Some (CHAT_MAP_CACHE (st_caches st) !! Some (t_chat_identifier t)))
       /\ forall g, passes_guards st t g -> guid_cached st t g) rows ->
  forall L, lp_state L = st -> fold_left (process_row user_id) rows L = L.
Proof.
  induction 1 as [|row r Hrow _ IH]; intros L HL; simpl; [reflexivity|].
  rewrite process_row_settled by (rewrite HL; exact Hrow). apply IH, HL.
Qed.

Lemma caches_eta c : set_reaction_guids (REACTION_GUID_CACHE c) c = c.
Proof. destruct c; reflexivity. Qed.

Lemma commit_nothing st : commit (mkLoop st [] [] ∅ 0) = Some st.
Proof.
  unfold commit. cbn [messages_to_insert reactions_to_insert chat_counts
    lp_state executemany mbind option_bind fold_left].
  rewrite bool_decide_eq_true_2 by reflexivity.
  rewrite caches_eta, state_eta. reflexivity.
Qed.

(** From a settled state a run inserts nothing, returns zero and an
    empty map, and hands the state back. *)
Lemma sync_messages_settled rows st :
  settled st rows ->
  main_loop rows st = mkLoop st [] [] ∅ 0
  /\ sync_messages rows st =
       Some (mkOutcome st
               (map (resolve_participants
                       (CHAT_DB_ROWID_TO_PARTICIPANTS_CACHE (st_caches st)))
                  rows)
               0 ∅).
Proof.
  intros Hs. assert (Hl : main_loop rows st = mkLoop st [] [] ∅ 0).
  { unfold main_loop. destruct (prepare_settled _ _ Hs) as [u ->].
    apply (loop_settled u rows st); [apply Hs | reflexivity]. }
  split; [exact Hl|]. unfold sync_messages.
  destruct rows as [|row r]; [reflexivity|].
  rewrite Hl, commit_nothing. reflexivity.
Qed.


(** ** A run establishes a settled state: the getters *)

Ltac getter_cases :=
  match goal with
  | |- context [bool_decide ?P || negb ?f] =>
      let E := fresh "E" in let F := fresh "F" in
      destruct (bool_decide P) eqn:E; destruct f eqn:F; simpl;
      try apply bool_decide_eq_false in E
  end.

Ltac getter_solve :=
  unfold contacts_stable, message_guids_stable, chat_map_stable,
    reaction_guids_stable, participants_stable;
  intros; repeat split; simpl in *; auto; try tauto; try congruence.

Lemma get_chat_map_spec st :
  st_db (get_chat_map st) = st_db st
  /\ chat_map_stable (st_db st) (st_caches (get_chat_map st))
  /\ (forall d, contacts_stable d (st_caches st) ->
        contacts_stable d (st_caches (get_chat_map st)))
  /\ (forall d, message_guids_stable d (st_caches st) ->
        message_guids_stable d (st_caches (get_chat_map st)))
  /\ (forall d, reaction_guids_stable d (st_caches st) ->
        reaction_guids_stable d (st_caches (get_chat_map st)))
  /\ (forall d, participants_stable d (st_caches st) ->
        participants_stable d (st_caches (get_chat_map st))).
Proof.
  unfold get_chat_map, chat_map_stable. getter_cases; getter_solve.
Qed.

Lemma get_message_guid_to_id_map_spec st :
  st_db (get_message_guid_to_id_map st) = st_db st
  /\ message_guids_stable (st_db st)
       (st_caches (get_message_guid_to_id_map st))
  /\ (forall d, contacts_stable d (st_caches st) ->
        contacts_stable d (st_caches (get_message_guid_to_id_map st)))
  /\ (forall d, chat_map_stable d (st_caches st) ->
        chat_map_stable d (st_caches (get_message_guid_to_id_map st)))
  /\ (forall d, reaction_guids_stable d (st_caches st) ->
        reaction_guids_stable d (st_caches (get_message_guid_to_id_map st)))
  /\ (forall d, participants_stable d (st_caches st) ->
        participants_stable d (st_caches (get_message_guid_to_id_map st))).
Proof.
  unfold get_message_guid_to_id_map, message_guids_stable.
  getter_cases; getter_solve.
Qed.

Lemma get_reaction_guids_spec st :
  st_db (get_reaction_guids st) = st_db st
  /\ reaction_guids_stable (st_db st) (st_caches (get_reaction_guids st))
  /\ (forall d, contacts_stable d (st_caches st) ->
        contacts_stable d (st_caches (get_reaction_guids st)))
  /\ (forall d, chat_map_stable d (st_caches st) ->
        chat_map_stable d (st_caches (get_reaction_guids st)))
  /\ (forall d, message_guids_stable d (st_caches st) ->
        message_guids_stable d (st_caches (get_reaction_guids st)))
  /\ (forall d, participants_stable d (st_caches st) ->
        participants_stable d (st_caches (get_reaction_guids st))).
Proof.
  unfold get_reaction_guids, reaction_guids_stable.
  getter_cases; getter_solve.
Qed.

Lemma get_contact_map_spec st :
  st_db (get_contact_map st) = st_db st
  /\ contacts_stable (st_db st) (st_caches (get_contact_map st))
  /\ (forall d, reaction_guids_stable d (st_caches st) ->
        reaction_guids_stable d (st_caches (get_contact_map st)))
  /\ (forall d, chat_map_stable d (st_caches st) ->
        chat_map_stable d (st_caches (get_contact_map st)))
  /\ (forall d, message_guids_stable d (st_caches st) ->
        message_guids_stable d (st_caches (get_contact_map st)))
  /\ (forall d, participants_stable d (st_caches st) ->
        participants_stable d (st_caches (get_contact_map st))).
Proof.
  unfold get_contact_map, contacts_stable. getter_cases; getter_solve.
Qed.

Lemma get_chat_participants_map_spec st :
  st_db (get_chat_participants_map st) = st_db st
  /\ participants_stable (st_db st)
       (st_caches (get_chat_participants_map st))
  /\ (forall d, reaction_guids_stable d (st_caches st) ->
        reaction_guids_stable d (st_caches (get_chat_participants_map st)))
  /\ (forall d, chat_map_stable d (st_caches st) ->
        chat_map_stable d (st_caches (get_chat_participants_map st)))
  /\ (forall d, message_guids_stable d (st_caches st) ->
        message_guids_stable d (st_caches (get_chat_participants_map st)))
  /\ (forall d, contacts_stable d (st_caches st) ->
        contacts_stable d (st_caches (get_chat_participants_map st))).
Proof.
  unfold get_chat_participants_map, participants_stable.
  getter_cases; getter_solve.
Qed.

(** After the five getters the database is the same and every cache is
    stable. *)
Lemma getters_spec st :
  st_db (getters st) = st_db st /\ caches_stable (getters st).
Proof.
  unfold getters.
  destruct (get_chat_map_spec st) as (D1 & K1 & _).
  set (s1 := get_chat_map st) in *.
  destruct (get_message_guid_to_id_map_spec s1) as (D2 & M2 & _ & K2 & _).
  set (s2 := get_message_guid_to_id_map s1) in *.
  destruct (get_reaction_guids_spec s2) as (D3 & R3 & _ & K3 & M3 & _).
  set (s3 := get_reaction_guids s2) in *.
  destruct (get_contact_map_spec s3) as (D4 & C4 & R4 & K4 & M4 & _).
  set (s4 := get_contact_map s3) in *.
  destruct (get_chat_participants_map_spec s4)
    as (D5 & P5 & R5 & K5 & M5 & C5).
  set (s5 := get_chat_participants_map s4) in *.
  assert (D : st_db s5 = st_db st) by congruence.
  split; [exact D|]. unfold caches_stable. rewrite D.
  assert (E4 : st_db s4 = st_db st) by congruence.
  assert (E3 : st_db s3 = st_db st) by congruence.
  assert (E2 : st_db s2 = st_db st) by congruence.
  rewrite E4 in P5. rewrite E3 in C4. rewrite E2 in R3. rewrite D1 in M2.
  split; [exact (C5 _ C4)|]. split; [exact (M5 _ (M4 _ (M3 _ M2)))|].
  split; [exact (K5 _ (K4 _ (K3 _ (K2 _ K1))))|].
  split; [exact (R5 _ (R4 _ R3)) | exact P5].
Qed.


(** ** A run establishes a settled state: the user and the senders *)

Lemma fold_left_preserves {A B} (P : A -> Prop) (f : A -> B -> A) l a :
  P a -> (forall a x, P a -> P (f a x)) -> P (fold_left f l a).
Proof.
  intros Ha Hf. revert a Ha. induction l as [|x r IH]; simpl; auto.
Qed.

Lemma fold_left_hit {A B} (P : A -> Prop) (f : A -> B -> A) l a x :
  x ∈ l -> (forall a, P (f a x)) -> (forall a y, P a -> P (f a y)) ->
  P (fold_left f l a).
Proof.
  intros Hx Hhit Hf. revert a. induction l as [|y r IH]; intros a; simpl.
  - inversion Hx.
  - apply elem_of_cons in Hx as [->|Hx].
    + apply fold_left_preserves; auto.
    + apply IH. exact Hx.
Qed.

Lemma is_Some_insert_keep {K V} `{Countable K} (m : gmap K V) k k' v :
  is_Some (m !! k) -> is_Some (<[k' := v]> m !! k).
Proof.
  intros Hm. destruct (decide (k' = k)) as [->|Hne].
  - rewrite lookup_insert_eq. eauto.
  - rewrite lookup_insert_ne by exact Hne. exact Hm.
Qed.

Lemma find_app_found {A} (p : A -> bool) l l' y :
  List.find p l = Some y -> List.find p (l ++ l') = Some y.
Proof.
  induction l as [|x r IH]; simpl; [discriminate|].
  destruct (p x); auto.
Qed.

Lemma find_app_none {A} (p : A -> bool) l l' :
  List.find p l = None -> List.find p (l ++ l') = List.find p l'.
Proof.
  induction l as [|x r IH]; simpl; [reflexivity|].
  destruct (p x); [discriminate | auto].
Qed.

(** The tables and counters that the handling of contacts leaves
    alone. *)
Definition same_rest (d d' : Db) : Prop :=
  chats d' = chats d /\ chats_seq d' = chats_seq d
  /\ messages d' = messages d /\ messages_seq d' = messages_seq d
  /\ reactions d' = reactions d /\ reactions_seq d' = reactions_seq d
  /\ source_chats d' = source_chats d.

Lemma same_rest_refl d : same_rest d d.
Proof. repeat split. Qed.

Lemma same_rest_trans d1 d2 d3 :
  same_rest d1 d2 -> same_rest d2 d3 -> same_rest d1 d3.
Proof.
  unfold same_rest. intros (?&?&?&?&?&?&?) (?&?&?&?&?&?&?).
  repeat split; congruence.
Qed.

Lemma insert_contact_rest n b s d : same_rest d (insert_contact n b s d).
Proof. repeat split. Qed.

Lemma insert_identifier_rest d t : same_rest d (insert_identifier d t).
Proof. unfold insert_identifier. destruct (existsb _ _); repeat split. Qed.

Lemma insert_identifier_contacts d t :
  contacts (insert_identifier d t) = contacts d.
Proof. unfold insert_identifier. destruct (existsb _ _); reflexivity. Qed.

Lemma fold_insert_contact_rest s names d :
  same_rest d (fold_left (fun d n => insert_contact n false s d) names d).
Proof.
  revert d. induction names as [|n r IH]; intros d; simpl.
  - apply same_rest_refl.
  - eapply same_rest_trans; [apply insert_contact_rest | apply IH].
Qed.

Lemma fold_insert_identifier_rest l d :
  same_rest d (fold_left insert_identifier l d)
  /\ contacts (fold_left insert_identifier l d) = contacts d.
Proof.
  revert d. induction l as [|t r IH]; intros d; simpl.
  - split; [apply same_rest_refl | reflexivity].
  - destruct (IH (insert_identifier d t)) as [H1 H2]. split.
    + eapply same_rest_trans; [apply insert_identifier_rest | exact H1].
    + rewrite H2. apply insert_identifier_contacts.
Qed.

Lemma fold_insert_contact_user s names d u :
  find_user d = Some u ->
  find_user (fold_left (fun d n => insert_contact n false s d) names d)
  = Some u.
Proof.
  revert d. induction names as [|n r IH]; intros d Hu; simpl; [exact Hu|].
  apply IH. unfold find_user in *. simpl.
  destruct (List.find ct_is_me (contacts d)) as [c|] eqn:E; [|discriminate].
  rewrite (find_app_found _ _ _ _ E). exact Hu.
Qed.

Lemma fold_insert_contact_contains s names d n :
  n ∈ names ->
  exists c,
    c ∈ contacts (fold_left (fun d n => insert_contact n false s d) names d)
    /\ ct_name c = Some n /\ ct_data_source c = Some s.
Proof.
  intros Hn.
  apply (fold_left_hit
           (fun d => exists c, c ∈ contacts d /\ ct_name c = Some n
                               /\ ct_data_source c = Some s)
           _ names d n Hn).
  - intros a. eexists. split; [apply elem_of_app; right; left|].
    split; reflexivity.
  - intros a y (c & Hc & H1 & H2). exists c. split; [|auto].
    simpl. apply elem_of_app. left. exact Hc.
Qed.

Lemma filter_none {A} (p : A -> bool) l :
  Forall (fun x => p x = false) l -> List.filter p l = [].
Proof.
  induction 1 as [|x r Hx _ IH]; simpl; [reflexivity|]. rewrite Hx. exact IH.
Qed.

Lemma insert_contact_join n b s d :
  refs_allocated d -> contact_join (insert_contact n b s d) = contact_join d.
Proof.
  intros Hr. unfold contact_join. simpl. rewrite bind_app. simpl.
  rewrite filter_none; [simpl; rewrite !app_nil_r; reflexivity|].
  eapply Forall_impl; [exact Hr|]. simpl. intros ci Hlt.
  apply Pos.eqb_neq. lia.
Qed.

Lemma ensure_user_spec d d' u :
  ensure_user d = (d', u) ->
  same_rest d d' /\ find_user d' = Some u
  /\ (refs_allocated d -> contact_join d' = contact_join d).
Proof.
  unfold ensure_user. destruct (find_user d) as [u0|] eqn:E.
  - intros [= <- <-]. split; [apply same_rest_refl|]. auto.
  - intros [= <- <-]. split; [apply insert_contact_rest|]. split.
    + unfold find_user in *. simpl.
      destruct (List.find ct_is_me (contacts d)) eqn:F; [discriminate|].
      rewrite (find_app_none _ _ _ F). reflexivity.
    + apply insert_contact_join.
Qed.

(** The keys of the first pass: cached before, or collected. *)
Lemma collect_unknown_covers cache rows : forall acc,
  let unknown := fold_left (collect_unknown cache) rows acc in
  (forall k, k ∈ map fst acc -> k ∈ map fst unknown)
  /\ Forall
       (fun row =>
          forall original, raw_sender_identifier row = Some original ->
            raw_is_from_me row = false -> str_truthy original = true ->
            is_Some (cache !! canonical original)
            \/ canonical original ∈ map fst unknown) rows.
Proof.
  induction rows as [|row r IH]; intros acc; simpl.
  - split; [auto | constructor].
  - destruct (IH (collect_unknown cache acc row)) as [Hmono Hall].
    assert (Hstep : forall k, k ∈ map fst acc ->
              k ∈ map fst (collect_unknown cache acc row)).
    { intros k Hk. unfold collect_unknown.
      destruct (raw_sender_identifier row); [|exact Hk].
      destruct (negb _ && _); [|exact Hk].
      repeat case_bool_decide; try exact Hk.
      rewrite map_app. apply elem_of_app. left. exact Hk. }
    split; [auto|]. constructor; [|exact Hall].
    intros original Ho Hme Ht.
    assert (Hone : is_Some (cache !! canonical original)
                   \/ canonical original
                        ∈ map fst (collect_unknown cache acc row)).
    { unfold collect_unknown. rewrite Ho, Hme, Ht. simpl.
      case_bool_decide as Hc; [left; exact Hc|]. right.
      case_bool_decide as Hk; [exact Hk|].
      rewrite map_app. apply elem_of_app. right. left. }
    destruct Hone as [Hc|Hk]; [left; exact Hc | right; apply Hmono, Hk].
Qed.

Lemma register_unknown_covers retrieved unknown : forall acc,
  (forall e, e ∈ unknown -> is_Some (retrieved !! sd_name_for_contact e.2)) ->
  let r := fold_left (register_unknown retrieved) unknown acc in
  (forall k, is_Some (acc.1 !! k) -> is_Some (r.1 !! k))
  /\ (forall e, e ∈ unknown -> is_Some (r.1 !! e.1)).
Proof.
  induction unknown as [|e0 r IH]; intros acc Hret; simpl.
  - split; [auto | intros e He; inversion He].
  - destruct (IH (register_unknown retrieved acc e0)) as [Hmono Hall].
    { intros e He. apply Hret. right. exact He. }
    assert (Hstep : forall k, is_Some (acc.1 !! k) ->
              is_Some ((register_unknown retrieved acc e0).1 !! k)).
    { intros k Hk. unfold register_unknown.
      destruct (retrieved !! _); [|exact Hk]. simpl.
      apply is_Some_insert_keep, Hk. }
    split; [auto|]. intros e He. apply elem_of_cons in He as [->|He].
    + apply Hmono. unfold register_unknown.
      destruct (Hret e0) as [id Hid]; [left|]. rewrite Hid. simpl.
      rewrite lookup_insert_eq. eauto.
    + apply Hall, He.
Qed.

Lemma retrieve_contact_ids_found names d n c :
  n ∈ names -> c ∈ contacts d -> ct_name c = Some n ->
  ct_data_source c = Some live_source ->
  is_Some (retrieve_contact_ids names d !! n).
Proof.
  intros Hn Hc Hname Hsrc. unfold retrieve_contact_ids.
  apply (fold_left_hit (fun m => is_Some (m !! n)) _ (contacts d) ∅ c Hc).
  - intros m. rewrite Hname, Hsrc.
    rewrite !bool_decide_eq_true_2 by auto. simpl.
    rewrite lookup_insert_eq. eauto.
  - intros m y Hm. destruct (ct_name y); [|exact Hm].
    destruct (_ && _); [apply is_Some_insert_keep|]; exact Hm.
Qed.

Lemma create_unknown_contacts_spec rows st :
  let st6 := create_unknown_contacts rows st in
  same_rest (st_db st) (st_db st6)
  /\ st_caches st6
     = set_contact_map (CONTACT_MAP_CACHE (st_caches st6)) (st_caches st)
  /\ (forall u, find_user (st_db st) = Some u ->
        find_user (st_db st6) = Some u)
  /\ Forall
       (fun row =>
          forall original, raw_sender_identifier row = Some original ->
            raw_is_from_me row = false -> str_truthy original = true ->
            is_Some (CONTACT_MAP_CACHE (st_caches st6) !! canonical original))
       rows
  /\ (CONTACT_MAP_CACHE (st_caches st6) = ∅ -> st6 = st).
Proof.
  cbv zeta. unfold create_unknown_contacts.
  destruct (collect_unknown_covers (CONTACT_MAP_CACHE (st_caches st)) rows [])
    as [_ Hcov].
  remember (fold_left (collect_unknown (CONTACT_MAP_CACHE (st_caches st)))
              rows []) as unknown0 eqn:Hunk0.
  clear Hunk0. destruct unknown0 as [|e0 rest].
  - split; [apply same_rest_refl|].
    split; [destruct st as [d c]; destruct c; reflexivity|].
    split; [auto|]. split; [|reflexivity].
    eapply Forall_impl; [exact Hcov|]. simpl. intros row H original Ho Hme Ht.
    destruct (H original Ho Hme Ht) as [Hc|Hin]; [exact Hc | inversion Hin].
  - set (unknown := e0 :: rest) in *.
    set (names := remove_dups (map (fun e => sd_name_for_contact e.2) unknown)).
    set (d1 := fold_left (fun d n => insert_contact n false live_source d)
                 names (st_db st)).
    set (retrieved := retrieve_contact_ids names d1).
    assert (Hret : forall e, e ∈ unknown ->
              is_Some (retrieved !! sd_name_for_contact e.2)).
    { intros e He.
      assert (Hn : sd_name_for_contact e.2 ∈ names).
      { apply elem_of_remove_dups, list_elem_of_In, in_map_iff.
        exists e. split; [reflexivity | apply list_elem_of_In, He]. }
      destruct (fold_insert_contact_contains live_source names (st_db st) _ Hn)
        as (c & Hc & H1 & H2).
      eapply retrieve_contact_ids_found; eauto. }
    destruct (register_unknown_covers retrieved unknown
                (CONTACT_MAP_CACHE (st_caches st), []) Hret) as [Hmono Hall].
    set (r := fold_left (register_unknown retrieved) unknown _) in *.
    simpl st_db. simpl st_caches.
    destruct (fold_insert_identifier_rest r.2 d1) as [Hrest Hcontacts].
    split; [eapply same_rest_trans; [apply fold_insert_contact_rest|exact Hrest]|].
    split; [destruct st as [d c]; destruct c; reflexivity|].
    split.
    { intros u Hu. unfold find_user. rewrite Hcontacts.
      apply (fold_insert_contact_user live_source names _ _ Hu). }
    split.
    { eapply Forall_impl; [exact Hcov|]. simpl.
      intros row H original Ho Hme Ht.
      destruct (H original Ho Hme Ht) as [Hc|Hin]; [apply Hmono, Hc|].
      apply list_elem_of_In in Hin.
      apply (in_map_iff fst unknown) in Hin as (e & <- & He).
      apply Hall, list_elem_of_In, He. }
    { simpl. intros Hempty. exfalso.
      destruct (Hall e0) as [x Hx]; [left|].
      rewrite Hempty, lookup_empty in Hx. discriminate. }
Qed.


(** ** A run establishes a settled state: the main loop *)

(** The state after some iterations: only the chats table, its counter
    and the chat cache differ from the state before. *)
Definition chat_update (st : State) (rows : list ChatRow) (seq : positive)
  (K : gmap (option string) positive) : State :=
  mkState (set_chats rows seq (st_db st)) (set_chat_map K (st_caches st)).

(** [L'] is reached from [L] by iterations of the main loop. *)
Definition extends (L L' : LoopState) : Prop :=
  exists rows seq K,
    lp_state L' = chat_update (lp_state L) rows seq K
    /\ CHAT_MAP_CACHE (st_caches (lp_state L)) ⊆ K
    /\ (forall s, str_truthy s = false ->
          K !! Some s = CHAT_MAP_CACHE (st_caches (lp_state L)) !! Some s)
    /\ (K = ∅ -> rows = chats (st_db (lp_state L)))
    /\ (exists ms, messages_to_insert L' = messages_to_insert L ++ ms)
    /\ (exists rs, reactions_to_insert L' = reactions_to_insert L ++ rs).

(** The guid is cached, or staged for insertion. *)
Definition staged_or_cached (L : LoopState) (t : Transformed) (g : string)
  : Prop :=
  if is_reaction_type (t_message_type t)
  then Some g ∈ REACTION_GUID_CACHE (st_caches (lp_state L))
       \/ Some g ∈ map rt_guid (reactions_to_insert L)
  else is_Some (MESSAGE_GUID_TO_ID_CACHE (st_caches (lp_state L)) !! Some g)
       \/ Some g ∈ map mt_guid (messages_to_insert L).

(** The row with view [t] has been dealt with. *)
Definition row_done (L : LoopState) (t : Transformed) : Prop :=
  (str_truthy (t_chat_identifier t) = true ->
   is_Some (CHAT_MAP_CACHE (st_caches (lp_state L))
              !! Some (t_chat_identifier t)))
  /\ forall g, passes_guards (lp_state L) t g -> staged_or_cached L t g.

Lemma chat_update_id st :
  chat_update st (chats (st_db st)) (chats_seq (st_db st))
    (CHAT_MAP_CACHE (st_caches st)) = st.
Proof. destruct st as [d c]; destruct d, c; reflexivity. Qed.

Lemma chat_update_twice st r1 s1 K1 r2 s2 K2 :
  chat_update (chat_update st r1 s1 K1) r2 s2 K2 = chat_update st r2 s2 K2.
Proof. reflexivity. Qed.

Lemma map_subseteq_empty {K V} `{Countable K} (m : gmap K V) :
  m ⊆ ∅ -> m = ∅.
Proof.
  intros Hm. apply map_eq. intros k. rewrite lookup_empty.
  destruct (m !! k) as [v|] eqn:E; [|reflexivity].
  apply (lookup_weaken _ _ _ _ E) in Hm. rewrite lookup_empty in Hm.
  discriminate.
Qed.

Lemma extends_refl L : extends L L.
Proof.
  exists (chats (st_db (lp_state L))), (chats_seq (st_db (lp_state L))),
    (CHAT_MAP_CACHE (st_caches (lp_state L))).
  rewrite chat_update_id. repeat split; auto.
  - exists []. rewrite app_nil_r. reflexivity.
  - exists []. rewrite app_nil_r. reflexivity.
Qed.

Lemma extends_trans L1 L2 L3 : extends L1 L2 -> extends L2 L3 -> extends L1 L3.
Proof.
  intros (r1 & s1 & K1 & E1 & S1 & F1 & N1 & [m1 M1] & [x1 R1])
         (r2 & s2 & K2 & E2 & S2 & F2 & N2 & [m2 M2] & [x2 R2]).
  rewrite E1 in E2, S2, F2, N2. simpl in S2, F2, N2.
  exists r2, s2, K2. split; [rewrite E2; reflexivity|].
  split; [etrans; eassumption|].
  split; [intros s Hs; rewrite (F2 s Hs); apply F1, Hs|].
  split.
  { intros HK. rewrite (N2 HK). apply N1. apply map_subseteq_empty.
    rewrite <- HK. exact S2. }
  split.
  - exists (m1 ++ m2). rewrite M2, M1, app_assoc. reflexivity.
  - exists (x1 ++ x2). rewrite R2, R1, app_assoc. reflexivity.
Qed.

Lemma extends_with_state L rows seq K :
  CHAT_MAP_CACHE (st_caches (lp_state L)) ⊆ K ->
  (forall s, str_truthy s = false ->
     K !! Some s = CHAT_MAP_CACHE (st_caches (lp_state L)) !! Some s) ->
  (K = ∅ -> rows = chats (st_db (lp_state L))) ->
  extends L (with_state (chat_update (lp_state L) rows seq K) L).
Proof.
  intros HS HF HN. exists rows, seq, K. simpl. repeat split; auto.
  - exists []. rewrite app_nil_r. reflexivity.
  - exists []. rewrite app_nil_r. reflexivity.
Qed.

(** The chat lookup: what it returns is what the chat cache holds
    afterwards. *)
Lemma resolve_chat_spec row t st :
  exists rows seq K,
    (resolve_chat row t st).1 = chat_update st rows seq K
    /\ CHAT_MAP_CACHE (st_caches st) ⊆ K
    /\ (forall s, str_truthy s = false ->
          K !! Some s = CHAT_MAP_CACHE (st_caches st) !! Some s)
    /\ (K = ∅ -> rows = chats (st_db st))
    /\ (resolve_chat row t st).2 = K !! Some (t_chat_identifier t)
    /\ (str_truthy (t_chat_identifier t) = true ->
        is_Some (K !! Some (t_chat_identifier t))).
Proof.
  unfold resolve_chat.
  destruct (CHAT_MAP_CACHE (st_caches st) !! Some (t_chat_identifier t))
    as [chat_id|] eqn:Hk.
  - exists (chats (st_db st)), (chats_seq (st_db st)),
      (CHAT_MAP_CACHE (st_caches st)).
    rewrite chat_update_id, Hk. simpl. repeat split; eauto.
  - destruct (str_truthy (t_chat_identifier t)) eqn:Ht.
    + unfold create_chat_if_missing. rewrite Hk.
      destruct (List.find _ (chats (st_db st))) as [r|].
      * exists (chats (st_db st)), (chats_seq (st_db st)),
          (<[Some (t_chat_identifier t) := ch_id r]>
             (CHAT_MAP_CACHE (st_caches st))).
        simpl. split; [destruct st as [d c]; destruct d; reflexivity|].
        split; [apply insert_subseteq, Hk|].
        split; [intros s Hs; apply lookup_insert_ne; congruence|].
        split; [intros HK; reflexivity|].
        rewrite lookup_insert_eq. split; eauto.
      * eexists _, _,
          (<[Some (t_chat_identifier t) := chats_seq (st_db st)]>
             (CHAT_MAP_CACHE (st_caches st))).
        simpl. split; [reflexivity|].
        split; [apply insert_subseteq, Hk|].
        split; [intros s Hs; apply lookup_insert_ne; congruence|].
        split; [intros HK; exfalso; exact (insert_non_empty _ _ _ HK)|].
        rewrite lookup_insert_eq. split; eauto.
    + exists (chats (st_db st)), (chats_seq (st_db st)),
        (CHAT_MAP_CACHE (st_caches st)).
      rewrite chat_update_id, Hk. simpl. repeat split; auto. discriminate.
Qed.

Lemma stage_spec t chat_id sender_id g L :
  let L' := stage t chat_id sender_id g L in
  lp_state L' = lp_state L
  /\ (exists ms, messages_to_insert L' = messages_to_insert L ++ ms)
  /\ (exists rs, reactions_to_insert L' = reactions_to_insert L ++ rs)
  /\ staged_or_cached L' t g.
Proof.
  cbv zeta. unfold stage, staged_or_cached.
  destruct (is_reaction_type (t_message_type t)); case_bool_decide as Hc;
    simpl; (split; [reflexivity|]).
  - split; [exists []; rewrite app_nil_r; reflexivity|].
    split; [exists []; rewrite app_nil_r; reflexivity|]. left. exact Hc.
  - split; [exists []; rewrite app_nil_r; reflexivity|].
    split; [eexists; reflexivity|]. right.
    rewrite map_app. apply elem_of_app. right. left.
  - split; [exists []; rewrite app_nil_r; reflexivity|].
    split; [exists []; rewrite app_nil_r; reflexivity|]. left. exact Hc.
  - split; [eexists; reflexivity|].
    split; [exists []; rewrite app_nil_r; reflexivity|]. right.
    rewrite map_app. apply elem_of_app. right. left.
Qed.


Lemma process_row_spec user_id L row :
  extends L (process_row user_id L row)
  /\ row_done (process_row user_id L row) (row_view (lp_state L) row).
Proof.
  unfold process_row, row_view.
  set (row' := resolve_participants _ row).
  set (t := transform_message row'). clearbody t. clearbody row'.
  destruct (resolve_chat_spec row' t (lp_state L))
    as (rows & seq & K & E1 & HS & HF & HN & E2 & HT).
  destruct (resolve_chat row' t (lp_state L)) as [st1 o].
  cbn [fst snd] in E1, E2. subst st1 o.
  assert (Hskip : extends L (with_state (chat_update (lp_state L) rows seq K) L))
    by (apply extends_with_state; assumption).
  destruct (K !! Some (t_chat_identifier t)) as [chat_id|] eqn:Hk.
  - unfold resolve_sender. simpl CONTACT_MAP_CACHE.
    destruct (if t_is_from_me t then Some user_id
              else CONTACT_MAP_CACHE (st_caches (lp_state L))
                     !! canonical (t_sender_identifier t))
      as [sender_id|] eqn:Hsender.
    + destruct (t_guid t) as [g|] eqn:Hg.
      * destruct (str_truthy g) eqn:Htg.
        -- destruct (stage_spec t chat_id sender_id g
                       (with_state (chat_update (lp_state L) rows seq K) L))
             as (S1 & S2 & S3 & S4).
           split.
           ++ exists rows, seq, K. rewrite S1. simpl.
              simpl in S2, S3. repeat split; auto.
           ++ split; [rewrite S1; simpl; intros _; rewrite Hk; eauto|].
              intros g0 (_ & _ & Hg0 & _). rewrite Hg in Hg0.
              injection Hg0 as <-. exact S4.
        -- split; [exact Hskip|]. split; [simpl; intros _; rewrite Hk; eauto|].
           intros g0 (_ & _ & Hg0 & Ht0). rewrite Hg in Hg0.
           injection Hg0 as <-. congruence.
      * split; [exact Hskip|]. split; [simpl; intros _; rewrite Hk; eauto|].
        intros g0 (_ & _ & Hg0 & _). congruence.
    + split; [exact Hskip|]. split; [simpl; intros _; rewrite Hk; eauto|].
      intros g0 (_ & Hs & _). simpl in Hs.
      destruct (t_is_from_me t); [discriminate|].
      destruct Hs as [Hs|[x Hx]]; congruence.
  - split; [exact Hskip|]. split; [simpl; rewrite Hk; exact HT|].
    intros g0 ([x Hx] & _). simpl in Hx. congruence.
Qed.

Lemma extends_view L L' row :
  extends L L' -> row_view (lp_state L') row = row_view (lp_state L) row.
Proof.
  intros (rows & seq & K & E & _). unfold row_view. rewrite E. reflexivity.
Qed.

Lemma row_done_extends L L' t :
  extends L L' -> row_done L t -> row_done L' t.
Proof.
  intros (rows & seq & K & E & HS & HF & HN & [ms Hms] & [rs Hrs]) [H1 H2].
  unfold row_done, passes_guards, staged_or_cached in *. rewrite E. simpl.
  assert (Hchat : is_Some (K !! Some (t_chat_identifier t)) ->
            is_Some (CHAT_MAP_CACHE (st_caches (lp_state L))
                       !! Some (t_chat_identifier t))).
  { intros HK. destruct (str_truthy (t_chat_identifier t)) eqn:Ht.
    - apply H1. reflexivity.
    - rewrite <- (HF _ Ht). exact HK. }
  split.
  - intros Ht. destruct (H1 Ht) as [x Hx]. exists x.
    eapply lookup_weaken; eassumption.
  - intros g (Hk & Hs & Hg & Htg).
    specialize (H2 g (conj (Hchat Hk) (conj Hs (conj Hg Htg)))).
    rewrite Hms, Hrs, !map_app.
    destruct (is_reaction_type (t_message_type t));
      (destruct H2 as [H2|H2]; [left; exact H2|]);
      right; apply elem_of_app; left; exact H2.
Qed.

(** The main loop from any loop state. *)
Lemma loop_spec user_id rows : forall L,
  extends L (fold_left (process_row user_id) rows L)
  /\ Forall
       (fun row =>
          row_done (fold_left (process_row user_id) rows L)
            (row_view (lp_state L) row)) rows.
Proof.
  induction rows as [|row r IH]; intros L; simpl.
  - split; [apply extends_refl | constructor].
  - destruct (process_row_spec user_id L row) as [Hext Hdone].
    destruct (IH (process_row user_id L row)) as [Hext' Hall].
    split; [eapply extends_trans; eassumption|]. constructor.
    + eapply row_done_extends; eassumption.
    + eapply Forall_impl; [exact Hall|]. simpl. intros x Hx.
      rewrite (extends_view _ _ x Hext) in Hx. exact Hx.
Qed.


(** ** A run establishes a settled state: the statements after the loop *)

Lemma executemany_insert_message ms : forall d d1,
  executemany insert_message d ms = Some d1 ->
  exists new seq,
    d1 = set_messages (messages d ++ new) seq d /\ map mr_data new = ms.
Proof.
  induction ms as [|t r IH]; intros d d1; simpl.
  - intros [= <-]. exists [], (messages_seq d). rewrite app_nil_r.
    split; [destruct d; reflexivity | reflexivity].
  - destruct (insert_message d t) as [d'|] eqn:E; simpl; [|discriminate].
    unfold insert_message in E.
    destruct (_ && _) in E; [discriminate|]. injection E as <-.
    intros H. apply IH in H as (new & seq & -> & Hnew). simpl.
    exists (mkMessageRow (messages_seq d) t :: new), seq.
    rewrite <- app_assoc. split; [reflexivity|]. simpl. rewrite Hnew.
    reflexivity.
Qed.

Lemma executemany_insert_reaction rs : forall d d1,
  executemany insert_reaction d rs = Some d1 ->
  exists new seq,
    d1 = set_reactions (reactions d ++ new) seq d /\ map rr_data new = rs.
Proof.
  induction rs as [|t r IH]; intros d d1; simpl.
  - intros [= <-]. exists [], (reactions_seq d). rewrite app_nil_r.
    split; [destruct d; reflexivity | reflexivity].
  - destruct (insert_reaction d t) as [d'|] eqn:E; simpl; [|discriminate].
    unfold insert_reaction in E.
    destruct (_ && _) in E; [discriminate|]. injection E as <-.
    intros H. apply IH in H as (new & seq & -> & Hnew). simpl.
    exists (mkReactionRow (reactions_seq d) t :: new), seq.
    rewrite <- app_assoc. split; [reflexivity|]. simpl. rewrite Hnew.
    reflexivity.
Qed.

Lemma requery_message_ids_spec guids d cache :
  (forall k, is_Some (cache !! k) ->
     is_Some (requery_message_ids guids d cache !! k))
  /\ (forall r, r ∈ messages d -> is_Some (mt_guid (mr_data r)) ->
        mt_guid (mr_data r) ∈ guids ->
        is_Some (requery_message_ids guids d cache !! mt_guid (mr_data r))).
Proof.
  unfold requery_message_ids.
  assert (Hkeep : forall k (a : gmap (option string) positive) (y : MessageRow),
    is_Some (a !! k) ->
    is_Some ((if bool_decide (is_Some (mt_guid (mr_data y)))
                 && bool_decide (mt_guid (mr_data y) ∈ guids)
              then <[mt_guid (mr_data y) := mr_id y]> a else a) !! k)).
  { intros k a y Ha. destruct (_ && _); [apply is_Some_insert_keep|]; exact Ha. }
  split.
  - intros k Hk. apply fold_left_preserves; [exact Hk | apply Hkeep].
  - intros r Hr Hs Hg.
    apply (fold_left_hit
             (fun m : gmap (option string) positive =>
                is_Some (m !! mt_guid (mr_data r))) _ (messages d) cache r Hr).
    + intros a. rewrite !bool_decide_eq_true_2 by assumption. simpl.
      rewrite lookup_insert_eq. eauto.
    + apply Hkeep.
Qed.

Lemma reaction_guids_added (rs : list ReactionTuple)
  (R : gset (option string)) :
  (forall k, k ∈ R -> k ∈ fold_left (fun s t => {[rt_guid t]} ∪ s) rs R)
  /\ (forall t, t ∈ rs ->
        rt_guid t ∈ fold_left (fun s t => {[rt_guid t]} ∪ s) rs R).
Proof.
  split.
  - intros k Hk. apply fold_left_preserves; [exact Hk|]. set_solver.
  - intros t Ht.
    apply (fold_left_hit (fun s : gset (option string) => rt_guid t ∈ s)
             _ rs R t Ht); set_solver.
Qed.

(** The state that commit returns. *)
Lemma commit_spec L st' :
  commit L = Some st' ->
  let d := st_db (lp_state L) in
  let c := st_caches (lp_state L) in
  exists chats' msgs' mseq reacts' rseq M' R',
    st' = mkState
            (mkDb (contacts d) (contact_identifiers d) chats' msgs' reacts'
               (contacts_seq d) (chats_seq d) mseq rseq (source_chats d))
            (set_reaction_guids R' (set_message_guid_map M' c))
    /\ (chats d = [] -> chats' = [])
    /\ (messages_to_insert L = [] ->
        msgs' = messages d /\ M' = MESSAGE_GUID_TO_ID_CACHE c)
    /\ (reactions_to_insert L = [] ->
        reacts' = reactions d /\ R' = REACTION_GUID_CACHE c)
    /\ (forall k, is_Some (MESSAGE_GUID_TO_ID_CACHE c !! k) ->
          is_Some (M' !! k))
    /\ (forall t, t ∈ messages_to_insert L -> is_Some (mt_guid t) ->
          is_Some (M' !! mt_guid t))
    /\ (forall k, k ∈ REACTION_GUID_CACHE c -> k ∈ R')
    /\ (forall t, t ∈ reactions_to_insert L -> rt_guid t ∈ R').
Proof.
  unfold commit. cbv zeta.
  destruct (executemany insert_message (st_db (lp_state L))
              (messages_to_insert L)) as [d1|] eqn:E1; [|discriminate].
  simpl. apply executemany_insert_message in E1 as (newm & mseq & -> & Hm).
  destruct (executemany insert_reaction _ (reactions_to_insert L))
    as [d2|] eqn:E2; [|discriminate].
  simpl. apply executemany_insert_reaction in E2 as (newr & rseq & -> & Hr).
  intros [= <-]. simpl in *.
  set (d := st_db (lp_state L)). set (c := st_caches (lp_state L)).
  set (M' := match messages_to_insert L with
             | [] => MESSAGE_GUID_TO_ID_CACHE c
             | _ => requery_message_ids (map mt_guid (messages_to_insert L))
                      (set_messages (messages d ++ newm) mseq d)
                      (MESSAGE_GUID_TO_ID_CACHE c)
             end).
  set (R' := fold_left (fun s t => {[rt_guid t]} ∪ s) (reactions_to_insert L)
               (REACTION_GUID_CACHE c)).
  exists (if bool_decide (chat_counts L = ∅) then chats d
          else map (fun ch =>
                 match chat_counts L !! ch_id ch with
                 | Some n => mkChat (ch_id ch) (ch_chat_identifier ch)
                               (ch_is_group ch) (ch_service_name ch)
                               (ch_total_messages ch + n)
                 | None => ch
                 end) (chats d)),
    (messages d ++ newm), mseq, (reactions d ++ newr), rseq, M', R'.
  split.
  { f_equal.
    - destruct (bool_decide (chat_counts L = ∅)); reflexivity.
    - subst M' R'. destruct (messages_to_insert L); [|reflexivity].
      destruct c; reflexivity. }
  split.
  { intros ->. destruct (bool_decide _); reflexivity. }
  split.
  { intros H0. subst M'. rewrite H0 in *. destruct newm; [|discriminate].
    rewrite app_nil_r. auto. }
  split.
  { intros H0. subst R'. rewrite H0 in *. destruct newr; [|discriminate].
    rewrite app_nil_r. auto. }
  split.
  { intros k Hk. subst M'. destruct (messages_to_insert L); [exact Hk|].
    apply requery_message_ids_spec, Hk. }
  split.
  { intros t Ht Hs. subst M'.
    destruct (messages_to_insert L) as [|t0 l] eqn:El; [inversion Ht|].
    rewrite <- El in *.
    assert (Hin : exists r, r ∈ newm /\ mr_data r = t).
    { rewrite <- Hm in Ht. apply list_elem_of_In, in_map_iff in Ht
        as (r & Hr1 & Hr2). exists r. rewrite list_elem_of_In. auto. }
    destruct Hin as (r & Hr1 & <-).
    apply requery_message_ids_spec; simpl.
    - apply elem_of_app. right. exact Hr1.
    - exact Hs.
    - apply list_elem_of_In, in_map. apply list_elem_of_In.
      rewrite <- Hm. apply list_elem_of_In, in_map, list_elem_of_In, Hr1. }
  split; apply reaction_guids_added.
Qed.


(** ** A run establishes a settled state: putting it together *)

Lemma load_chat_map_empty d : load_chat_map d = ∅ -> chats d = [].
Proof.
  unfold load_chat_map. destruct (chats d) as [|r l]; [reflexivity|].
  simpl. intros H. exfalso. revert H.
  apply (fold_left_preserves (fun m : gmap (option string) positive => m <> ∅)).
  - apply insert_non_empty.
  - intros a x _. apply insert_non_empty.
Qed.

Lemma loop_staged_guids user_id rows L :
  Forall (fun t => is_Some (mt_guid t)) (messages_to_insert L) ->
  Forall (fun t => is_Some (mt_guid t))
    (messages_to_insert (fold_left (process_row user_id) rows L)).
Proof.
  intros H0.
  apply (fold_left_preserves
           (fun L => Forall (fun t => is_Some (mt_guid t))
                       (messages_to_insert L))); [exact H0|].
  clear. intros L row H. unfold process_row.
  destruct (resolve_chat _ _ _) as [st1 [chat_id|]]; [|exact H].
  destruct (resolve_sender _ _ _) as [sender_id|]; [|exact H].
  destruct (t_guid _) as [g|]; [|exact H].
  destruct (str_truthy g); [|exact H].
  unfold stage. destruct (is_reaction_type _); case_bool_decide; simpl;
    try exact H.
  apply Forall_app. split; [exact H|]. constructor; [simpl; eauto|constructor].
Qed.

(** Running the two assignments on a row they have already been run on
    changes nothing. *)
Lemma resolve_participants_idempotent pmap row :
  resolve_participants pmap (resolve_participants pmap row)
  = resolve_participants pmap row.
Proof.
  destruct row as [mid guid date me svc ag aty sender cid parts].
  unfold resolve_participants. simpl.
  destruct parts as [[|c s]|]; simpl;
    destruct cid as [cid|]; simpl;
    try destruct (pmap !! cid) as [[|c' s']|] eqn:E; simpl;
    try rewrite E; simpl;
    destruct sender as [[|c2 s2]|]; simpl; try rewrite E; reflexivity.
Qed.

Lemma resolve_participants_sender pmap row :
  raw_sender_identifier (resolve_participants pmap row)
  = raw_sender_identifier row
  /\ raw_is_from_me (resolve_participants pmap row) = raw_is_from_me row.
Proof.
  unfold resolve_participants.
  destruct (negb (opt_truthy (raw_chat_participants row)));
    [destruct (raw_chat_id row) as [cid|]; [destruct (pmap !! cid)|]|];
    match goal with
    | |- context [if ?b then _ else _] => destruct b
    end; split; reflexivity.
Qed.

(** A settled state is settled for the rows as the loop leaves them. *)
Lemma settled_mutated st rows :
  settled st rows ->
  settled st
    (map (resolve_participants
            (CHAT_DB_ROWID_TO_PARTICIPANTS_CACHE (st_caches st))) rows).
Proof.
  intros (H1 & H2 & H3 & H4). split; [exact H1|]. split; [exact H2|].
  split; apply Forall_map.
  - eapply Forall_impl; [exact H3|]. simpl. intros row H.
    destruct (resolve_participants_sender
                (CHAT_DB_ROWID_TO_PARTICIPANTS_CACHE (st_caches st)) row)
      as [-> ->]. exact H.
  - eapply Forall_impl; [exact H4|]. simpl. intros row H.
    unfold row_view in *. rewrite resolve_participants_idempotent. exact H.
Qed.

Lemma prepare_spec rows st st6 user_id :
  refs_allocated (st_db st) ->
  prepare rows st = (st6, user_id) ->
  same_rest (st_db st) (st_db st6)
  /\ st_caches st6
     = set_contact_map (CONTACT_MAP_CACHE (st_caches st6))
         (st_caches (getters st))
  /\ find_user (st_db st6) = Some user_id
  /\ Forall
       (fun row =>
          forall original, raw_sender_identifier row = Some original ->
            raw_is_from_me row = false -> str_truthy original = true ->
            is_Some (CONTACT_MAP_CACHE (st_caches st6) !! canonical original))
       rows
  /\ contacts_stable (st_db st6) (st_caches st6).
Proof.
  intros Hrefs. unfold prepare. cbv zeta.
  destruct (getters_spec st) as [HD Hstable].
  generalize dependent (getters st). intros s5 HD Hstable.
  destruct (ensure_user (st_db s5)) as [d' u] eqn:Eu.
  apply ensure_user_spec in Eu as (Hrest & Hu & Hjoin).
  rewrite HD in Hrest, Hjoin. specialize (Hjoin Hrefs).
  intros Hp. apply pair_equal_spec in Hp as [<- <-].
  destruct (create_unknown_contacts_spec rows
              (mkState d' (st_caches s5)))
    as (Hrest' & Hc & Hu' & Hs & He).
  set (st6 := create_unknown_contacts rows _) in *. clearbody st6.
  cbn [st_db st_caches] in Hrest', Hc, Hu', He.
  split; [eapply same_rest_trans; eassumption|].
  split; [exact Hc|]. split; [apply Hu', Hu|]. split; [exact Hs|].
  destruct Hstable as ([Hf Hl] & _). unfold contacts_stable.
  split; [rewrite Hc; exact Hf|].
  intros Hempty. pose proof (He Hempty) as E6. subst st6.
  change (load_contact_map d' = ∅). unfold load_contact_map in *.
  rewrite Hjoin. rewrite HD in Hl. apply Hl, Hempty.
Qed.

(** A run that returns leaves a settled state. *)
Lemma sync_messages_settles rows st o :
  refs_allocated (st_db st) ->
  rows <> [] ->
  sync_messages rows st = Some o ->
  settled (out_state o) rows
  /\ out_rows o
     = map (resolve_participants
              (CHAT_DB_ROWID_TO_PARTICIPANTS_CACHE (st_caches (out_state o))))
         rows.
Proof.
  intros Hrefs Hne. unfold sync_messages.
  destruct rows as [|row0 rest]; [congruence|].
  set (rows := row0 :: rest) in *. clearbody rows. clear Hne row0 rest.
  unfold main_loop.
  destruct (prepare rows st) as [st6 u] eqn:Ep.
  apply (prepare_spec _ _ _ _ Hrefs) in Ep as (Hrest & Hc6 & Hu & Hs3 & Hcs).
  destruct (getters_spec st) as [HD (_ & HM5 & HK5 & HR5 & HP5)].
  rewrite HD in HM5, HK5, HR5, HP5.
  set (c5 := st_caches (getters st)) in *. clearbody c5. clear HD.
  destruct (loop_spec u rows (mkLoop st6 [] [] ∅ 0)) as [Hext Hdone].
  assert (Hsg := loop_staged_guids u rows (mkLoop st6 [] [] ∅ 0)).
  specialize (Hsg ltac:(constructor)).
  set (Lf := fold_left (process_row u) rows _) in *.
  destruct Hext as (rowsK & seqK & K & EL & HS & HF & HN & [ms Hms] & [rs Hrs]).
  simpl in EL, HS, HF, HN, Hms, Hrs.
  destruct (commit Lf) as [stf|] eqn:Ec; [|discriminate]. simpl.
  intros [= <-]. simpl. split; [|reflexivity].
  apply commit_spec in Ec
    as (chats' & msgs' & mseq & reacts' & rseq & M' & R' & -> & Hch & Hmsg
        & Hre & HMk & HMs & HRk & HRs).
  rewrite EL in *. simpl in Hch, Hmsg, Hre, HMk, HMs, HRk, HRs.
  destruct Hrest as (Rc & Rcs & Rm & Rms & Rr & Rrs & Rsrc).
  unfold settled. simpl. split; [|split; [|split]].
  - unfold caches_stable. simpl. split; [|split; [|split; [|split]]].
    + exact Hcs.
    + destruct HM5 as [Hf Hl]. unfold message_guids_stable. simpl.
      rewrite Hc6. simpl. split; [exact Hf|]. intros HM'.
      destruct ms as [|t0 ms'].
      * destruct (Hmsg Hms) as [Em EM]. unfold load_message_guid_map in *.
        simpl. rewrite Em, Rm. apply Hl. rewrite <- HM', EM, Hc6.
        reflexivity.
      * exfalso. rewrite Hms in Hsg, HMs.
        apply Forall_cons in Hsg as [Ht0 _].
        destruct (HMs t0) as [x Hx]; [left | exact Ht0 |].
        rewrite HM', lookup_empty in Hx. discriminate.
    + destruct HK5 as [Hf Hl]. unfold chat_map_stable. simpl.
      rewrite Hc6. simpl. split; [exact Hf|]. intros HK. subst K.
      rewrite Hc6 in HS. simpl in HS. apply map_subseteq_empty in HS.
      apply Hl, load_chat_map_empty in HS.
      rewrite (HN eq_refl), Rc, HS in Hch. unfold load_chat_map. simpl.
      rewrite (Hch eq_refl). reflexivity.
    + destruct HR5 as [Hf Hl]. unfold reaction_guids_stable. simpl.
      rewrite Hc6. simpl. split; [exact Hf|]. intros HR'.
      destruct rs as [|t0 rs'].
      * destruct (Hre Hrs) as [Er ER]. unfold load_reaction_guids in *.
        simpl. rewrite Er, Rr. apply Hl. rewrite <- HR', ER, Hc6.
        reflexivity.
      * exfalso. rewrite Hrs in HRs.
        assert (Hin : rt_guid t0 ∈ R') by (apply HRs; left).
        rewrite HR' in Hin. set_solver.
    + destruct HP5 as [Hf Hl]. unfold participants_stable. simpl.
      rewrite Hc6. simpl. split; [exact Hf|].
      unfold load_chat_participants in *. simpl. rewrite Rsrc. exact Hl.
  - unfold find_user in *. simpl. rewrite Hu. eauto.
  - exact Hs3.
  - eapply Forall_impl; [exact Hdone|]. simpl. intros row [Hd1 Hd2].
    unfold row_view in *. simpl in *. rewrite EL in Hd1. simpl in Hd1.
    split; [exact Hd1|]. intros g Hp.
    assert (Hp' : passes_guards (lp_state Lf)
                    (transform_message
                       (resolve_participants
                          (CHAT_DB_ROWID_TO_PARTICIPANTS_CACHE (st_caches st6))
                          row)) g).
    { rewrite EL. exact Hp. }
    specialize (Hd2 g Hp'). unfold staged_or_cached in Hd2.
    unfold guid_cached. simpl. rewrite EL in Hd2. simpl in Hd2.
    destruct (is_reaction_type _).
    + destruct Hd2 as [Hd2|Hd2]; [apply HRk, Hd2|].
      apply list_elem_of_In, in_map_iff in Hd2 as (t & <- & Ht).
      apply HRs, list_elem_of_In, Ht.
    + destruct Hd2 as [Hd2|Hd2]; [apply HMk, Hd2|].
      apply list_elem_of_In, in_map_iff in Hd2 as (t & Hg & Ht).
      rewrite <- Hg. apply HMs; [apply list_elem_of_In, Ht|].
      rewrite Hg. eauto.
Qed.


(** ** The claim on idempotent ingestion *)

(** A store with one chat in the source database and nothing else, and
    a batch with a message and a tapback on it. *)
Definition example_state : State :=
  mkState
    (mkDb [] [] [] [] [] 1 1 1 1
       [(5%positive, Some "+14155550100"%string)])
    (mkCaches ∅ false ∅ false ∅ false ∅ false ∅ false).

Definition example_batch : list RawRow :=
  [mkRaw 10 (Some "A"%string) (Some 728000000000000000) false
     (Some "iMessage"%string) None (Some 0) (Some "+14155550100"%string)
     (Some 5%positive) None;
   mkRaw 11 (Some "B"%string) (Some 728000001000000000) true
     (Some "iMessage"%string) (Some "p:0/A"%string) (Some 2000) None
     (Some 5%positive) None].

(** C7.  When a run of sync_messages on a batch returns, a second run
    on the same batch (the rows as the first run left them, or the rows
    as they were) stages no message and no reaction, returns zero and
    an empty map, and returns the very state it started from: no row is
    inserted into any table, no counter and no cache changes.  The
    store is assumed to respect the foreign key of
    contact_identifiers. *)
Theorem sync_messages_idempotent (rows : list RawRow) (st : State)
  (o : Outcome) :
  refs_allocated (st_db st) ->
  sync_messages rows st = Some o ->
  messages_to_insert (main_loop (out_rows o) (out_state o)) = []
  /\ reactions_to_insert (main_loop (out_rows o) (out_state o)) = []
  /\ sync_messages (out_rows o) (out_state o)
     = Some (mkOutcome (out_state o) (out_rows o) 0 ∅)
  /\ sync_messages rows (out_state o)
     = Some (mkOutcome (out_state o) (out_rows o) 0 ∅).
Proof.
  intros Hrefs Hrun. destruct rows as [|row0 rest].
  - change (Some (mkOutcome st [] 0 ∅) = Some o) in Hrun.
    apply (inj Some) in Hrun. subst o.
    cbn [out_rows out_state]. unfold main_loop.
    destruct (prepare [] st) as [st6 u]. auto.
  - assert (Hne : row0 :: rest <> []) by discriminate.
    destruct (sync_messages_settles _ _ _ Hrefs Hne Hrun) as [Hs Hrows].
    clear Hne.
    set (rows := row0 :: rest) in *. clearbody rows.
    destruct (sync_messages_settled _ _ (settled_mutated _ _ Hs)) as [Hl Hr2].
    destruct (sync_messages_settled _ _ Hs) as [_ Hr1].
    rewrite <- Hrows in Hl, Hr2, Hr1.
    rewrite Hl. split; [reflexivity|]. split; [reflexivity|].
    split; [|exact Hr1]. rewrite Hr2. f_equal. f_equal.
    rewrite Hrows at 2. rewrite Hrows. rewrite map_map.
    apply map_ext. intros row. apply resolve_participants_idempotent.
Qed.

Lemma sync_messages_idempotent_witness :
  refs_allocated (st_db example_state)
  /\ exists o,
       sync_messages example_batch example_state = Some o
       /\ out_imported o = 1
       /\ sync_messages example_batch (out_state o)
          = Some (mkOutcome (out_state o) (out_rows o) 0 ∅).
Proof.
  assert (Hrefs : refs_allocated (st_db example_state)) by constructor.
  split; [exact Hrefs|].
  eexists. split; [vm_compute; reflexivity|]. split; [reflexivity|].
  refine (proj2 (proj2 (proj2
            (sync_messages_idempotent example_batch example_state _ Hrefs _)))).
  vm_compute. reflexivity.
Defined.

(** ** Further properties of the sync engine *)

(** *** The chat identifier *)

(** The order of [sorted] on strings. *)
Definition str_le (a b : string) : Prop := Is_true (String.leb a b).

Lemma string_compare_cons a r b r' :
  String.compare (String a r) (String b r')
  = match Ascii.compare a b with
    | Eq => String.compare r r'
    | c => c
    end.
Proof. reflexivity. Qed.

Lemma str_le_spec a b : str_le a b <-> String.compare a b <> Gt.
Proof.
  unfold str_le, String.leb. destruct (String.compare a b); simpl;
    split; intros H; try exact I; try congruence; try contradiction.
Qed.

#[local] Instance str_le_trans : Transitive str_le.
Proof.
  intros a. induction a as [|x a IH]; intros b c; rewrite !str_le_spec.
  - intros _ _. destruct c; simpl; congruence.
  - destruct b as [|y b]; [intros H; exfalso; apply H; reflexivity|].
    destruct c as [|z c]; [intros _ H; exfalso; apply H; reflexivity|].
    rewrite !string_compare_cons. unfold Ascii.compare.
      destruct (N.compare_spec (N_of_ascii x) (N_of_ascii y)) as [E1|E1|E1];
        destruct (N.compare_spec (N_of_ascii y) (N_of_ascii z)) as [E2|E2|E2];
        destruct (N.compare_spec (N_of_ascii x) (N_of_ascii z)) as [E3|E3|E3];
        try congruence; try lia.
      intros H1 H2. apply str_le_spec. apply (IH b c); apply str_le_spec;
        assumption.
Qed.

#[local] Instance str_le_antisym : AntiSymm (=) str_le.
Proof.
  intros a b Hab Hba. apply String.leb_antisym; apply Is_true_true; assumption.
Qed.

#[local] Instance str_le_total : Total str_le.
Proof.
  intros a b. destruct (String.leb_total a b) as [H|H];
    [left | right]; apply Is_true_true; exact H.
Qed.

(** [sorted(set(l))] depends on the elements of [l] only. *)
Lemma sorted_set_ext l l' :
  (forall x, x ∈ l <-> x ∈ l') -> sorted_set l = sorted_set l'.
Proof.
  intros H. unfold sorted_set.
  apply (Sorted_unique str_le).
  - apply (Sorted_merge_sort str_le).
  - apply (Sorted_merge_sort str_le).
  - rewrite !(merge_sort_Permutation str_le).
    apply NoDup_Permutation; [apply NoDup_remove_dups..|].
    intros x. rewrite !elem_of_remove_dups. apply H.
Qed.

(** X14.  The identifier of a chat depends on the set of the canonical forms
    of its participants only: their order, their repetitions, the
    spelling of a phone number and the case of an email address do not
    matter. *)
Theorem generate_chat_identifier_set (l l' : list string) :
  (forall x, x ∈ map (fun p => canonical (str_strip p)) l
             <-> x ∈ map (fun p => canonical (str_strip p)) l') ->
  generate_chat_identifier l = generate_chat_identifier l'.
Proof.
  intros H. unfold generate_chat_identifier.
  rewrite (sorted_set_ext _ _ H). reflexivity.
Qed.

Lemma generate_chat_identifier_set_witness :
  generate_chat_identifier
    ["+1 (415) 555-0100"; "Bob@Example.org"; "4155550100"]%string
  = generate_chat_identifier [" bob@example.org"; "14155550100"]%string.
Proof.
  apply generate_chat_identifier_set.
  intros x. vm_compute. split; intros H.
  - apply elem_of_cons in H as [->|H]; [apply list_elem_of_further, list_elem_of_here|].
    apply elem_of_cons in H as [->|H]; [apply list_elem_of_here|].
    apply elem_of_cons in H as [->|H];
      [apply list_elem_of_further, list_elem_of_here | inversion H].
  - apply elem_of_cons in H as [->|H]; [apply list_elem_of_further, list_elem_of_here|].
    apply elem_of_cons in H as [->|H]; [apply list_elem_of_here | inversion H].
Defined.

(** *** What a run writes *)

(** The guid column of the tables messages and reactions. *)
Definition message_guids (d : Db) : list (option string) :=
  map (fun r => mt_guid (mr_data r)) (messages d).

Definition reaction_guids (d : Db) : list (option string) :=
  map (fun r => rt_guid (rr_data r)) (reactions d).

(** A guid cache that a getter of cache.py will not reload names every
    guid of its table. *)
Definition guid_caches_coherent (st : State) : Prop :=
  (MESSAGE_GUID_TO_ID_CACHE (st_caches st) <> ∅ ->
   _message_guid_cache_populated (st_caches st) = true ->
   forall g, g ∈ message_guids (st_db st) ->
     is_Some (MESSAGE_GUID_TO_ID_CACHE (st_caches st) !! g))
  /\ (REACTION_GUID_CACHE (st_caches st) <> ∅ ->
      _reaction_guid_cache_populated (st_caches st) = true ->
      forall g, g ∈ reaction_guids (st_db st) ->
        g ∈ REACTION_GUID_CACHE (st_caches st)).

(** The guid caches name every guid of their tables. *)
Definition guid_caches_cover (st : State) : Prop :=
  (forall g, g ∈ message_guids (st_db st) ->
     is_Some (MESSAGE_GUID_TO_ID_CACHE (st_caches st) !! g))
  /\ (forall g, g ∈ reaction_guids (st_db st) ->
        g ∈ REACTION_GUID_CACHE (st_caches st)).

(** What the iterations of the main loop on [rows] add to the loop
    variables: staged tuples whose guids are guids of [rows], in their
    order, absent from the caches; one count per staged message; chat
    rows and chat cache entries. *)
Definition loop_adds (rows : list RawRow) (L L' : LoopState) : Prop :=
  exists ms rs new seq K,
    messages_to_insert L' = messages_to_insert L ++ ms
    /\ reactions_to_insert L' = reactions_to_insert L ++ rs
    /\ imported_count L' = imported_count L + Z.of_nat (length ms)
    /\ Forall (fun t => is_Some (mt_guid t)
                 /\ MESSAGE_GUID_TO_ID_CACHE (st_caches (lp_state L))
                      !! mt_guid t = None) ms
    /\ Forall (fun t => is_Some (rt_guid t)
                 /\ rt_guid t ∉ REACTION_GUID_CACHE (st_caches (lp_state L)))
         rs
    /\ omap mt_guid ms `sublist_of` omap raw_guid rows
    /\ omap rt_guid rs `sublist_of` omap raw_guid rows
    /\ lp_state L'
       = chat_update (lp_state L) (chats (st_db (lp_state L)) ++ new) seq K.

(** **** The getters and the preparation *)

Lemma get_chat_map_guid_caches st :
  MESSAGE_GUID_TO_ID_CACHE (st_caches (get_chat_map st))
  = MESSAGE_GUID_TO_ID_CACHE (st_caches st)
  /\ _message_guid_cache_populated (st_caches (get_chat_map st))
     = _message_guid_cache_populated (st_caches st)
  /\ REACTION_GUID_CACHE (st_caches (get_chat_map st))
     = REACTION_GUID_CACHE (st_caches st)
  /\ _reaction_guid_cache_populated (st_caches (get_chat_map st))
     = _reaction_guid_cache_populated (st_caches st).
Proof. unfold get_chat_map. destruct (_ || _); repeat split. Qed.

Lemma get_contact_map_guid_caches st :
  MESSAGE_GUID_TO_ID_CACHE (st_caches (get_contact_map st))
  = MESSAGE_GUID_TO_ID_CACHE (st_caches st)
  /\ REACTION_GUID_CACHE (st_caches (get_contact_map st))
     = REACTION_GUID_CACHE (st_caches st).
Proof. unfold get_contact_map. destruct (_ || _); repeat split. Qed.

Lemma get_chat_participants_map_guid_caches st :
  MESSAGE_GUID_TO_ID_CACHE (st_caches (get_chat_participants_map st))
  = MESSAGE_GUID_TO_ID_CACHE (st_caches st)
  /\ REACTION_GUID_CACHE (st_caches (get_chat_participants_map st))
     = REACTION_GUID_CACHE (st_caches st).
Proof. unfold get_chat_participants_map. destruct (_ || _); repeat split. Qed.

Lemma load_message_guid_map_covers d g :
  g ∈ message_guids d -> is_Some (load_message_guid_map d !! g).
Proof.
  unfold message_guids, load_message_guid_map. intros H.
  apply list_elem_of_fmap in H as (r & -> & Hr).
  apply (fold_left_hit
           (fun m : gmap (option string) positive =>
              is_Some (m !! mt_guid (mr_data r))) _ _ _ r Hr).
  - intros m. rewrite lookup_insert_eq. eauto.
  - intros m y Hm. apply is_Some_insert_keep. exact Hm.
Qed.

Lemma load_reaction_guids_covers d g :
  g ∈ reaction_guids d -> g ∈ load_reaction_guids d.
Proof.
  unfold reaction_guids, load_reaction_guids. intros H.
  apply list_elem_of_fmap in H as (r & -> & Hr).
  apply (fold_left_hit
           (fun s : gset (option string) => rt_guid (rr_data r) ∈ s)
           _ _ _ r Hr); set_solver.
Qed.

(** After the getters a coherent pair of guid caches covers its
    tables. *)
Lemma getters_cover st :
  guid_caches_coherent st ->
  (forall g, g ∈ message_guids (st_db st) ->
     is_Some (MESSAGE_GUID_TO_ID_CACHE (st_caches (getters st)) !! g))
  /\ (forall g, g ∈ reaction_guids (st_db st) ->
        g ∈ REACTION_GUID_CACHE (st_caches (getters st))).
Proof.
  intros [HM HR]. unfold getters.
  destruct (get_chat_map_guid_caches st) as (M1 & F1 & R1 & G1).
  destruct (get_chat_map_spec st) as (D1 & _).
  set (s1 := get_chat_map st) in *.
  assert (M2 : forall g, g ∈ message_guids (st_db st) ->
    is_Some (MESSAGE_GUID_TO_ID_CACHE
               (st_caches (get_message_guid_to_id_map s1)) !! g)).
  { intros g Hg. unfold get_message_guid_to_id_map.
    rewrite M1, F1, D1.
    destruct (bool_decide (MESSAGE_GUID_TO_ID_CACHE (st_caches st) = ∅))
      eqn:E; [simpl; apply load_message_guid_map_covers, Hg|].
    apply bool_decide_eq_false in E.
    destruct (_message_guid_cache_populated (st_caches st)) eqn:F; simpl.
    - rewrite M1. apply HM; auto.
    - apply load_message_guid_map_covers, Hg. }
  assert (R2 : REACTION_GUID_CACHE (st_caches (get_message_guid_to_id_map s1))
               = REACTION_GUID_CACHE (st_caches st)
               /\ _reaction_guid_cache_populated
                    (st_caches (get_message_guid_to_id_map s1))
                  = _reaction_guid_cache_populated (st_caches st)).
  { unfold get_message_guid_to_id_map. destruct (_ || _); simpl; auto. }
  destruct (get_message_guid_to_id_map_spec s1) as (D2 & _).
  set (s2 := get_message_guid_to_id_map s1) in *.
  destruct R2 as [R2 G2].
  assert (M3 : MESSAGE_GUID_TO_ID_CACHE (st_caches (get_reaction_guids s2))
               = MESSAGE_GUID_TO_ID_CACHE (st_caches s2)).
  { unfold get_reaction_guids. destruct (_ || _); reflexivity. }
  assert (R3 : forall g, g ∈ reaction_guids (st_db st) ->
    g ∈ REACTION_GUID_CACHE (st_caches (get_reaction_guids s2))).
  { intros g Hg. unfold get_reaction_guids.
    rewrite R2, G2, D2, D1.
    destruct (bool_decide (REACTION_GUID_CACHE (st_caches st) = ∅))
      eqn:E; [simpl; apply load_reaction_guids_covers, Hg|].
    apply bool_decide_eq_false in E.
    destruct (_reaction_guid_cache_populated (st_caches st)) eqn:F; simpl.
    - rewrite R2. apply HR; auto.
    - apply load_reaction_guids_covers, Hg. }
  set (s3 := get_reaction_guids s2) in *.
  destruct (get_contact_map_guid_caches s3) as (M4 & R4).
  set (s4 := get_contact_map s3) in *.
  destruct (get_chat_participants_map_guid_caches s4) as (M5 & R5).
  rewrite M5, M4, M3, R5, R4. auto.
Qed.

(** The preparation writes contacts only. *)
Lemma prepare_frame rows st :
  same_rest (st_db st) (st_db (prepare rows st).1)
  /\ MESSAGE_GUID_TO_ID_CACHE (st_caches (prepare rows st).1)
     = MESSAGE_GUID_TO_ID_CACHE (st_caches (getters st))
  /\ REACTION_GUID_CACHE (st_caches (prepare rows st).1)
     = REACTION_GUID_CACHE (st_caches (getters st)).
Proof.
  unfold prepare.
  destruct (getters_spec st) as [D5 _].
  generalize dependent (getters st). intros s5 D5.
  destruct (ensure_user (st_db s5)) as [d u] eqn:Eu.
  apply ensure_user_spec in Eu as (Hrest & _).
  cbn [fst].
  destruct (create_unknown_contacts_spec rows (mkState d (st_caches s5)))
    as (Hrest' & Hc & _).
  cbn [st_db st_caches] in Hrest', Hc.
  split.
  - rewrite <- D5. eapply same_rest_trans; eassumption.
  - rewrite Hc. split; reflexivity.
Qed.


(** **** The main loop *)

Lemma resolve_participants_guid pmap row :
  raw_guid (resolve_participants pmap row) = raw_guid row.
Proof.
  unfold resolve_participants.
  destruct (negb (opt_truthy (raw_chat_participants row)));
    [destruct (raw_chat_id row) as [cid|]; [destruct (pmap !! cid)|]|];
    match goal with
    | |- context [if ?b then _ else _] => destruct b
    end; reflexivity.
Qed.

Lemma db_chats_eta d : set_chats (chats d) (chats_seq d) d = d.
Proof. destruct d; reflexivity. Qed.

(** The chat lookup of an iteration appends to the table chats at
    most. *)
Lemma resolve_chat_appends row t st :
  exists new seq K,
    (resolve_chat row t st).1
    = chat_update st (chats (st_db st) ++ new) seq K.
Proof.
  assert (Hsame : exists new seq K,
    st = chat_update st (chats (st_db st) ++ new) seq K).
  { exists [], (chats_seq (st_db st)), (CHAT_MAP_CACHE (st_caches st)).
    rewrite app_nil_r, chat_update_id. reflexivity. }
  unfold resolve_chat.
  destruct (CHAT_MAP_CACHE (st_caches st) !! Some (t_chat_identifier t))
    as [chat_id|] eqn:Hk; [exact Hsame|].
  destruct (str_truthy (t_chat_identifier t)); [|exact Hsame].
  unfold create_chat_if_missing. rewrite Hk.
  destruct (List.find _ (chats (st_db st))) as [r|].
  - exists [], (chats_seq (st_db st)),
      (<[Some (t_chat_identifier t) := ch_id r]>
         (CHAT_MAP_CACHE (st_caches st))).
    rewrite app_nil_r. cbn [fst]. unfold chat_update.
    rewrite db_chats_eta. reflexivity.
  - eexists _, _, _. cbn [fst]. reflexivity.
Qed.

Lemma loop_adds_skip row L new seq K :
  loop_adds [row] L
    (with_state
       (chat_update (lp_state L) (chats (st_db (lp_state L)) ++ new) seq K) L).
Proof.
  exists [], [], new, seq, K. cbn. rewrite !app_nil_r.
  repeat split; try constructor; try lia; apply sublist_nil_l.
Qed.

Lemma process_row_adds user_id L row :
  loop_adds [row] L (process_row user_id L row).
Proof.
  unfold process_row.
  set (row' := resolve_participants _ row).
  assert (Hguid : t_guid (transform_message row') = raw_guid row).
  { subst row'. rewrite <- (resolve_participants_guid
      (CHAT_DB_ROWID_TO_PARTICIPANTS_CACHE (st_caches (lp_state L))) row).
    reflexivity. }
  set (t := transform_message row') in *. clearbody t. clearbody row'.
  destruct (resolve_chat_appends row' t (lp_state L)) as (new & seq & K & E1).
  destruct (resolve_chat row' t (lp_state L)) as [st1 o].
  cbn [fst] in E1. subst st1.
  destruct o as [chat_id|]; [|apply loop_adds_skip].
  destruct (resolve_sender user_id t _) as [sender_id|];
    [|apply loop_adds_skip].
  destruct (t_guid t) as [g|] eqn:Hg; [|apply loop_adds_skip].
  destruct (str_truthy g); [|apply loop_adds_skip].
  assert (Ho : omap raw_guid [row] = [g]).
  { cbn. rewrite <- Hguid. reflexivity. }
  unfold loop_adds. rewrite Ho. unfold stage.
  cbn [lp_state with_state st_caches chat_update set_chat_map
       REACTION_GUID_CACHE MESSAGE_GUID_TO_ID_CACHE].
  destruct (is_reaction_type (t_message_type t)).
  - case_bool_decide as Hin.
    + exists [], [], new, seq, K. cbn. rewrite !app_nil_r.
      repeat split; try constructor; try lia; apply sublist_nil_l.
    + eexists [], [_], new, seq, K.
      cbn [messages_to_insert reactions_to_insert imported_count lp_state
           with_state length].
      rewrite app_nil_r.
      split; [reflexivity|]. split; [reflexivity|]. split; [lia|].
      split; [constructor|].
      split; [constructor; [|constructor]; cbn [rt_guid]; eauto|].
      split; [apply sublist_nil_l|].
      split; [|reflexivity]. cbn. reflexivity.
  - case_bool_decide as Hin.
    + exists [], [], new, seq, K. cbn. rewrite !app_nil_r.
      repeat split; try constructor; try lia; apply sublist_nil_l.
    + eexists [_], [], new, seq, K.
      cbn [messages_to_insert reactions_to_insert imported_count lp_state
           with_state length].
      rewrite app_nil_r.
      split; [reflexivity|]. split; [reflexivity|]. split; [lia|].
      split; [constructor; [|constructor]; cbn [mt_guid];
              split; [eauto | apply eq_None_not_Some; exact Hin]|].
      split; [constructor|].
      split; [cbn; reflexivity|].
      split; [apply sublist_nil_l | reflexivity].
Qed.

Lemma loop_adds_trans rows1 rows2 L1 L2 L3 :
  loop_adds rows1 L1 L2 -> loop_adds rows2 L2 L3 ->
  loop_adds (rows1 ++ rows2) L1 L3.
Proof.
  intros (ms1 & rs1 & new1 & seq1 & K1 & A1 & B1 & C1 & D1 & E1 & F1 & G1 & S1)
    (ms2 & rs2 & new2 & seq2 & K2 & A2 & B2 & C2 & D2 & E2 & F2 & G2 & S2).
  rewrite S1 in D2, E2, S2.
  cbn [st_caches chat_update set_chat_map MESSAGE_GUID_TO_ID_CACHE
       REACTION_GUID_CACHE st_db set_chats chats] in D2, E2, S2.
  exists (ms1 ++ ms2), (rs1 ++ rs2), (new1 ++ new2), seq2, K2.
  rewrite A2, A1, B2, B1, C2, C1, !omap_app, length_app, !app_assoc.
  repeat split; try lia.
  - apply Forall_app; auto.
  - apply Forall_app; auto.
  - apply sublist_app; assumption.
  - apply sublist_app; assumption.
  - rewrite S2. reflexivity.
Qed.

Lemma loop_adds_refl L : loop_adds [] L L.
Proof.
  exists [], [], [], (chats_seq (st_db (lp_state L))),
    (CHAT_MAP_CACHE (st_caches (lp_state L))).
  rewrite !app_nil_r, chat_update_id. cbn.
  repeat split; try constructor; lia.
Qed.

Lemma main_loop_adds user_id rows : forall L,
  loop_adds rows L (fold_left (process_row user_id) rows L).
Proof.
  induction rows as [|row rows IH]; intros L; [apply loop_adds_refl|].
  cbn [fold_left]. change (row :: rows) with ([row] ++ rows).
  eapply loop_adds_trans; [apply process_row_adds | apply IH].
Qed.


(** **** The bulk inserts *)

Lemma executemany_insert_message_ok ms : forall d,
  Forall (fun t => is_Some (mt_guid t)) ms ->
  NoDup (omap mt_guid ms) ->
  Forall (fun t => mt_guid t ∉ message_guids d) ms ->
  is_Some (executemany insert_message d ms).
Proof.
  induction ms as [|t ms IH]; intros d Hs Hnd Hd; [cbn; eauto|].
  apply Forall_cons in Hs as [[g Hg] Hs].
  apply Forall_cons in Hd as [Ht Hd].
  cbn [omap list_omap] in Hnd. rewrite Hg in Hnd.
  apply NoDup_cons in Hnd as [Hg' Hnd].
  cbn [executemany].
  assert (He : existsb (fun r => bool_decide (mt_guid (mr_data r) = mt_guid t))
                 (messages d) = false).
  { apply not_true_is_false. intros E.
    apply existsb_exists in E as (r & Hr & E).
    apply bool_decide_eq_true in E. apply Ht. unfold message_guids.
    rewrite <- E. apply list_elem_of_fmap. exists r.
    split; [reflexivity | apply list_elem_of_In; exact Hr]. }
  assert (Hins : insert_message d t
                 = Some (set_messages
                           (messages d ++ [mkMessageRow (messages_seq d) t])
                           (Pos.succ (messages_seq d)) d)).
  { unfold insert_message. rewrite He, andb_false_r. reflexivity. }
  rewrite Hins. cbn [mbind option_bind].
  apply IH; [exact Hs | exact Hnd|].
  unfold message_guids. cbn [messages set_messages].
  rewrite map_app. cbn [map mr_data].
  rewrite Forall_forall in Hd, Hs. apply Forall_forall. intros t' Ht'.
  rewrite elem_of_app. intros [Hin|Hin]; [exact (Hd t' Ht' Hin)|].
  apply list_elem_of_singleton in Hin.
  destruct (Hs t' Ht') as [g' Hg2]. apply Hg'.
  apply list_elem_of_omap. exists t'. split; [exact Ht'|]. congruence.
Qed.

Lemma executemany_insert_reaction_ok rs : forall d,
  Forall (fun t => is_Some (rt_guid t)) rs ->
  NoDup (omap rt_guid rs) ->
  Forall (fun t => rt_guid t ∉ reaction_guids d) rs ->
  is_Some (executemany insert_reaction d rs).
Proof.
  induction rs as [|t rs IH]; intros d Hs Hnd Hd; [cbn; eauto|].
  apply Forall_cons in Hs as [[g Hg] Hs].
  apply Forall_cons in Hd as [Ht Hd].
  cbn [omap list_omap] in Hnd. rewrite Hg in Hnd.
  apply NoDup_cons in Hnd as [Hg' Hnd].
  cbn [executemany].
  assert (He : existsb (fun r => bool_decide (rt_guid (rr_data r) = rt_guid t))
                 (reactions d) = false).
  { apply not_true_is_false. intros E.
    apply existsb_exists in E as (r & Hr & E).
    apply bool_decide_eq_true in E. apply Ht. unfold reaction_guids.
    rewrite <- E. apply list_elem_of_fmap. exists r.
    split; [reflexivity | apply list_elem_of_In; exact Hr]. }
  assert (Hins : insert_reaction d t
                 = Some (set_reactions
                           (reactions d ++ [mkReactionRow (reactions_seq d) t])
                           (Pos.succ (reactions_seq d)) d)).
  { unfold insert_reaction. rewrite He, andb_false_r. reflexivity. }
  rewrite Hins. cbn [mbind option_bind].
  apply IH; [exact Hs | exact Hnd|].
  unfold reaction_guids. cbn [reactions set_reactions].
  rewrite map_app. cbn [map rr_data].
  rewrite Forall_forall in Hd, Hs. apply Forall_forall. intros t' Ht'.
  rewrite elem_of_app. intros [Hin|Hin]; [exact (Hd t' Ht' Hin)|].
  apply list_elem_of_singleton in Hin.
  destruct (Hs t' Ht') as [g' Hg2]. apply Hg'.
  apply list_elem_of_omap. exists t'. split; [exact Ht'|]. congruence.
Qed.


(** What the statements after the main loop write. *)
Lemma commit_writes L st' :
  commit L = Some st' ->
  exists newm newr,
    messages (st_db st') = messages (st_db (lp_state L)) ++ newm
    /\ map mr_data newm = messages_to_insert L
    /\ reactions (st_db st') = reactions (st_db (lp_state L)) ++ newr
    /\ map rr_data newr = reactions_to_insert L
    /\ map ch_id (chats (st_db st')) = map ch_id (chats (st_db (lp_state L)))
    /\ contacts (st_db st') = contacts (st_db (lp_state L))
    /\ (forall g,
          is_Some (MESSAGE_GUID_TO_ID_CACHE (st_caches (lp_state L)) !! g) ->
          is_Some (MESSAGE_GUID_TO_ID_CACHE (st_caches st') !! g))
    /\ (forall r, r ∈ newm -> is_Some (mt_guid (mr_data r)) ->
          is_Some (MESSAGE_GUID_TO_ID_CACHE (st_caches st')
                     !! mt_guid (mr_data r)))
    /\ (forall g, g ∈ REACTION_GUID_CACHE (st_caches (lp_state L)) ->
          g ∈ REACTION_GUID_CACHE (st_caches st'))
    /\ (forall r, r ∈ newr ->
          rt_guid (rr_data r) ∈ REACTION_GUID_CACHE (st_caches st')).
Proof.
  unfold commit.
  destruct (executemany insert_message (st_db (lp_state L))
              (messages_to_insert L)) as [d1|] eqn:E1; [|discriminate].
  cbn [mbind option_bind].
  destruct (executemany insert_reaction d1 (reactions_to_insert L))
    as [d2|] eqn:E2; [|discriminate].
  cbn [mbind option_bind]. intros H. apply (inj Some) in H. subst st'.
  apply executemany_insert_message in E1 as (newm & mseq & -> & Hm).
  apply executemany_insert_reaction in E2 as (newr & rseq & -> & Hr).
  exists newm, newr. cbn [st_db st_caches].
  generalize dependent (st_db (lp_state L)). intros d.
  generalize dependent (st_caches (lp_state L)). intros c.
  split; [destruct (bool_decide _); reflexivity|].
  split; [exact Hm|].
  split; [destruct (bool_decide _); reflexivity|].
  split; [exact Hr|].
  split.
  { destruct (bool_decide _); [reflexivity|].
    cbn [chats update_chat_counts set_chats set_reactions set_messages].
    rewrite map_map. apply map_ext. intros ch.
    destruct (chat_counts L !! ch_id ch); reflexivity. }
  split; [destruct (bool_decide _); reflexivity|].
  cbn [MESSAGE_GUID_TO_ID_CACHE REACTION_GUID_CACHE set_reaction_guids].
  assert (HM :
    (forall g, is_Some (MESSAGE_GUID_TO_ID_CACHE c !! g) ->
       is_Some (MESSAGE_GUID_TO_ID_CACHE
                  match messages_to_insert L with
                  | [] => c
                  | _ :: _ =>
                      set_message_guid_map
                        (requery_message_ids
                           (map mt_guid (messages_to_insert L))
                           (set_messages (messages d ++ newm) mseq d)
                           (MESSAGE_GUID_TO_ID_CACHE c)) c
                  end !! g))
    /\ (forall r, r ∈ newm -> is_Some (mt_guid (mr_data r)) ->
          is_Some (MESSAGE_GUID_TO_ID_CACHE
                     match messages_to_insert L with
                     | [] => c
                     | _ :: _ =>
                         set_message_guid_map
                           (requery_message_ids
                              (map mt_guid (messages_to_insert L))
                              (set_messages (messages d ++ newm) mseq d)
                              (MESSAGE_GUID_TO_ID_CACHE c)) c
                     end !! mt_guid (mr_data r)))).
  { destruct (requery_message_ids_spec (map mt_guid (messages_to_insert L))
                (set_messages (messages d ++ newm) mseq d)
                (MESSAGE_GUID_TO_ID_CACHE c)) as [Q1 Q2].
    destruct (messages_to_insert L) as [|t0 ms0] eqn:Ems.
    - split; [auto|]. intros r Hr'. destruct newm; [inversion Hr'|discriminate].
    - cbn [MESSAGE_GUID_TO_ID_CACHE set_message_guid_map].
      split; [exact Q1|]. intros r Hin Hsome. apply Q2; [|exact Hsome|].
      + cbn [messages set_messages]. apply elem_of_app. right. exact Hin.
      + rewrite <- Hm, map_map. apply list_elem_of_fmap. exists r. auto. }
  destruct HM as [HM1 HM2].
  assert (HR : REACTION_GUID_CACHE
                 match messages_to_insert L with
                 | [] => c
                 | _ :: _ =>
                     set_message_guid_map
                       (requery_message_ids
                          (map mt_guid (messages_to_insert L))
                          (set_messages (messages d ++ newm) mseq d)
                          (MESSAGE_GUID_TO_ID_CACHE c)) c
                 end = REACTION_GUID_CACHE c).
  { destruct (messages_to_insert L); reflexivity. }
  split; [exact HM1|]. split; [exact HM2|].
  rewrite HR.
  destruct (reaction_guids_added (reactions_to_insert L)
              (REACTION_GUID_CACHE c)) as [Q3 Q4].
  split; [exact Q3|]. intros r Hin.
  apply (Q4 (rr_data r)). rewrite <- Hr. apply list_elem_of_fmap.
  exists r. auto.
Qed.

Lemma omap_map_data_m (newm : list MessageRow) :
  omap mt_guid (map mr_data newm)
  = omap (fun r => mt_guid (mr_data r)) newm.
Proof. induction newm as [|r l IH]; cbn; [reflexivity|]. rewrite IH. reflexivity. Qed.

Lemma omap_map_data_r (newr : list ReactionRow) :
  omap rt_guid (map rr_data newr)
  = omap (fun r => rt_guid (rr_data r)) newr.
Proof. induction newr as [|r l IH]; cbn; [reflexivity|]. rewrite IH. reflexivity. Qed.

(** X15.  A run only appends to the tables messages and reactions and keeps
    the ids of the chats: the rows that were there stay as they were,
    every new row carries a guid of the batch, in batch order, and the
    returned count is the number of new message rows. *)
Theorem sync_messages_appends (rows : list RawRow) (st : State)
  (o : Outcome) :
  sync_messages rows st = Some o ->
  exists newm newr newc,
    messages (st_db (out_state o)) = messages (st_db st) ++ newm
    /\ Z.of_nat (length newm) = out_imported o
    /\ omap (fun r => mt_guid (mr_data r)) newm
         `sublist_of` omap raw_guid rows
    /\ reactions (st_db (out_state o)) = reactions (st_db st) ++ newr
    /\ omap (fun r => rt_guid (rr_data r)) newr
         `sublist_of` omap raw_guid rows
    /\ map ch_id (chats (st_db (out_state o)))
       = map ch_id (chats (st_db st)) ++ newc.
Proof.
  destruct rows as [|row0 rest].
  - intros H. change (Some (mkOutcome st [] 0 ∅) = Some o) in H.
    apply (inj Some) in H. subst o. exists [], [], [].
    cbn. rewrite !app_nil_r. repeat split; constructor.
  - set (rows := row0 :: rest).
    change (sync_messages rows st)
      with (st' ← commit (main_loop rows st);
            Some (mkOutcome st'
                    (map (resolve_participants
                            (CHAT_DB_ROWID_TO_PARTICIPANTS_CACHE
                               (st_caches st'))) rows)
                    (imported_count (main_loop rows st))
                    (chat_counts (main_loop rows st)))).
    destruct (commit (main_loop rows st)) as [st'|] eqn:Ec; [|discriminate].
    cbn [mbind option_bind]. intros H. apply (inj Some) in H. subst o.
    cbn [out_state out_imported].
    apply commit_writes in Ec
      as (newm & newr & Hm & Hdm & Hr & Hdr & Hch & _).
    revert Hm Hdm Hr Hdr Hch. unfold main_loop.
    destruct (prepare_frame rows st) as ((P1 & _ & P2 & _ & P3 & _) & _).
    destruct (prepare rows st) as [st6 user_id]. cbn [fst] in P1, P2, P3.
    destruct (main_loop_adds user_id rows (mkLoop st6 [] [] ∅ 0))
      as (ms & rs & new & seq & K & A & B & C & _ & _ & F & G & S).
    cbn [lp_state messages_to_insert reactions_to_insert imported_count
         app] in A, B, C, S.
    rewrite S, A, B, C.
    cbn [st_db chat_update set_chats messages reactions chats].
    intros Hm Hdm Hr Hdr Hch.
    exists newm, newr, (map ch_id new).
    rewrite Hm, Hr, Hch, P2, P3, P1, map_app.
    rewrite <- Hdm in F. rewrite <- Hdr in G.
    rewrite omap_map_data_m in F. rewrite omap_map_data_r in G.
    repeat split; auto.
    rewrite <- Hdm, length_map. lia.
Qed.

(** From coherent guid caches, the bulk inserts of a batch whose guids
    are pairwise different meet no UNIQUE conflict, and the guid caches
    are coherent again afterwards. *)
Lemma sync_messages_guids (rows : list RawRow) (st : State) :
  guid_caches_coherent st ->
  NoDup (omap raw_guid rows) ->
  exists o,
    sync_messages rows st = Some o
    /\ guid_caches_coherent (out_state o).
Proof.
  intros Hcoh Hnd. destruct rows as [|row0 rest].
  - exists (mkOutcome st [] 0 ∅). split; [reflexivity | exact Hcoh].
  - set (rows := row0 :: rest) in *.
    change (sync_messages rows st)
      with (st' ← commit (main_loop rows st);
            Some (mkOutcome st'
                    (map (resolve_participants
                            (CHAT_DB_ROWID_TO_PARTICIPANTS_CACHE
                               (st_caches st'))) rows)
                    (imported_count (main_loop rows st))
                    (chat_counts (main_loop rows st)))).
    destruct (getters_cover st Hcoh) as [GM GR].
    destruct (prepare_frame rows st) as ((_ & _ & P2 & _ & P3 & _) & PM & PR).
    assert (Hloop : exists L, main_loop rows st = L
      /\ messages (st_db (lp_state L)) = messages (st_db st)
      /\ reactions (st_db (lp_state L)) = reactions (st_db st)
      /\ MESSAGE_GUID_TO_ID_CACHE (st_caches (lp_state L))
         = MESSAGE_GUID_TO_ID_CACHE (st_caches (getters st))
      /\ REACTION_GUID_CACHE (st_caches (lp_state L))
         = REACTION_GUID_CACHE (st_caches (getters st))
      /\ Forall (fun t => is_Some (mt_guid t)
                   /\ MESSAGE_GUID_TO_ID_CACHE (st_caches (getters st))
                        !! mt_guid t = None) (messages_to_insert L)
      /\ Forall (fun t => is_Some (rt_guid t)
                   /\ rt_guid t ∉ REACTION_GUID_CACHE (st_caches (getters st)))
           (reactions_to_insert L)
      /\ omap mt_guid (messages_to_insert L) `sublist_of` omap raw_guid rows
      /\ omap rt_guid (reactions_to_insert L) `sublist_of` omap raw_guid rows).
    { eexists. split; [reflexivity|]. unfold main_loop.
      destruct (prepare rows st) as [st6 user_id].
      cbn [fst] in P2, P3, PM, PR.
      destruct (main_loop_adds user_id rows (mkLoop st6 [] [] ∅ 0))
        as (ms & rs & new & seq & K & A & B & C & D & E & F & G & S).
      cbn [lp_state messages_to_insert reactions_to_insert imported_count
           app] in A, B, C, D, E, S.
      rewrite S, A, B.
      cbn [st_db st_caches chat_update set_chats set_chat_map messages
           reactions MESSAGE_GUID_TO_ID_CACHE REACTION_GUID_CACHE].
      rewrite PM in D. rewrite PR in E.
      repeat split; auto. }
    destruct Hloop as (L & EL & LM & LR & CM & CR & FM & FR & SM & SR).
    rewrite EL. clear EL.
    assert (Hok1 : is_Some (executemany insert_message (st_db (lp_state L))
                              (messages_to_insert L))).
    { apply executemany_insert_message_ok.
      - eapply Forall_impl; [exact FM|]. intros t [H _]. exact H.
      - exact (sublist_NoDup _ _ Hnd SM).
      - eapply Forall_impl; [exact FM|]. intros t [_ Hn] Hin.
        unfold message_guids in Hin. rewrite LM in Hin.
        apply GM in Hin. rewrite Hn in Hin. destruct Hin; discriminate. }
    assert (Hok2 : forall d1,
      executemany insert_message (st_db (lp_state L)) (messages_to_insert L)
      = Some d1 ->
      is_Some (executemany insert_reaction d1 (reactions_to_insert L))).
    { intros d1 E1. apply executemany_insert_reaction_ok.
      - eapply Forall_impl; [exact FR|]. intros t [H _]. exact H.
      - exact (sublist_NoDup _ _ Hnd SR).
      - apply executemany_insert_message in E1 as (newm & mseq & -> & _).
        eapply Forall_impl; [exact FR|]. intros t [_ Hn] Hin.
        unfold reaction_guids in Hin. cbn [reactions set_messages] in Hin.
        rewrite LR in Hin. apply Hn, GR, Hin. }
    assert (Hcommit : is_Some (commit L)).
    { unfold commit. destruct Hok1 as [d1 E1]. rewrite E1.
      cbn [mbind option_bind]. destruct (Hok2 d1 E1) as [d2 E2]. rewrite E2.
      cbn [mbind option_bind]. eauto. }
    destruct Hcommit as [st' Ec]. rewrite Ec. cbn [mbind option_bind].
    eexists. split; [reflexivity|]. cbn [out_state].
    apply commit_writes in Ec
      as (newm & newr & Hm & Hdm & Hr & Hdr & _ & _ & K1 & K2 & K3 & K4).
    split; intros _ _ g Hg.
    + unfold message_guids in Hg. rewrite Hm, map_app in Hg.
      apply elem_of_app in Hg as [Hg|Hg].
      * apply K1. rewrite CM. apply GM. unfold message_guids.
        rewrite <- LM. exact Hg.
      * apply list_elem_of_fmap in Hg as (r & -> & Hr').
        apply K2; [exact Hr'|].
        rewrite Forall_forall in FM. apply FM.
        rewrite <- Hdm. apply list_elem_of_fmap. exists r. auto.
    + unfold reaction_guids in Hg. rewrite Hr, map_app in Hg.
      apply elem_of_app in Hg as [Hg|Hg].
      * apply K3. rewrite CR. apply GR. unfold reaction_guids.
        rewrite <- LR. exact Hg.
      * apply list_elem_of_fmap in Hg as (r & -> & Hr').
        apply K4. exact Hr'.
Qed.

Lemma sync_messages_appends_witness :
  exists newm,
    messages
      (st_db (out_state
                (default (mkOutcome example_state [] 0 ∅)
                   (sync_messages example_batch example_state))))
    = messages (st_db example_state) ++ newm
    /\ Z.of_nat (length newm) = 1.
Proof.
  assert (H : sync_messages example_batch example_state
              = Some (default (mkOutcome example_state [] 0 ∅)
                        (sync_messages example_batch example_state)))
    by (vm_compute; reflexivity).
  destruct (sync_messages_appends example_batch example_state _ H)
    as (newm & newr & newc & Hm & Hlen & _).
  exists newm. split; [exact Hm|]. rewrite Hlen. vm_compute. reflexivity.
Defined.

(** **** Referential integrity *)

Definition chat_ids (d : Db) : list positive := map ch_id (chats d).
Definition contact_ids (d : Db) : list positive := map ct_id (contacts d).

(** What the foreign keys of messages and of reactions ask of a tuple:
    its chat is a row of chats, and its sender, when it has one, a row
    of contacts. *)
Definition message_refs_ok (d : Db) (t : MessageTuple) : Prop :=
  mt_chat_id t ∈ chat_ids d
  /\ forall s, mt_sender_id t = Some s -> s ∈ contact_ids d.

Definition reaction_refs_ok (d : Db) (t : ReactionTuple) : Prop :=
  rt_chat_id t ∈ chat_ids d
  /\ forall s, rt_sender_id t = Some s -> s ∈ contact_ids d.

Definition references_resolve (d : Db) : Prop :=
  Forall (fun r => message_refs_ok d (mr_data r)) (messages d)
  /\ Forall (fun r => reaction_refs_ok d (rr_data r)) (reactions d).

(** The ids of the chat and contact caches are ids of rows. *)
Definition id_caches_known (st : State) : Prop :=
  (forall k id, CHAT_MAP_CACHE (st_caches st) !! k = Some id ->
     id ∈ chat_ids (st_db st))
  /\ (forall k id, CONTACT_MAP_CACHE (st_caches st) !! k = Some id ->
        id ∈ contact_ids (st_db st)).

(** The same, for the caches that a getter of cache.py will not
    reload. *)
Definition id_caches_coherent (st : State) : Prop :=
  (CHAT_MAP_CACHE (st_caches st) <> ∅ ->
   _chat_map_cache_populated (st_caches st) = true ->
   forall k id, CHAT_MAP_CACHE (st_caches st) !! k = Some id ->
     id ∈ chat_ids (st_db st))
  /\ (CONTACT_MAP_CACHE (st_caches st) <> ∅ ->
      _contacts_cache_populated (st_caches st) = true ->
      forall k id, CONTACT_MAP_CACHE (st_caches st) !! k = Some id ->
        id ∈ contact_ids (st_db st)).

Lemma load_chat_map_ids d k id :
  load_chat_map d !! k = Some id -> id ∈ chat_ids d.
Proof.
  unfold load_chat_map, chat_ids.
  assert (H : forall l (m : gmap (option string) positive),
    fold_left (fun m r => <[ch_chat_identifier r := ch_id r]> m) l m !! k
    = Some id ->
    m !! k = Some id \/ id ∈ map ch_id l).
  { induction l as [|r l IH]; intros m; cbn [fold_left map]; [auto|].
    intros H. apply IH in H as [H|H]; [|right; right; exact H].
    destruct (decide (ch_chat_identifier r = k)) as [E|E].
    - rewrite E, lookup_insert_eq in H. injection H as <-. right. left.
    - rewrite lookup_insert_ne in H by exact E. left. exact H. }
  intros Hk. apply H in Hk as [Hk|Hk]; [|exact Hk].
  rewrite lookup_empty in Hk. discriminate.
Qed.

Lemma contact_join_ids d p : p ∈ contact_join d -> p.2 ∈ contact_ids d.
Proof.
  unfold contact_join, contact_ids. intros H.
  apply list_elem_of_bind in H as (c & H & Hc).
  apply list_elem_of_bind in H as (ci & H & _).
  apply list_elem_of_singleton in H. subst p. cbn [snd].
  apply list_elem_of_fmap. exists c. auto.
Qed.

Lemma load_contact_map_ids d k id :
  load_contact_map d !! k = Some id -> id ∈ contact_ids d.
Proof.
  unfold load_contact_map.
  assert (H : forall l (m : gmap string positive),
    fold_left (fun m '(identifier, id) => <[canonical identifier := id]> m)
      l m !! k = Some id ->
    m !! k = Some id \/ id ∈ map snd l).
  { induction l as [|[i c] l IH]; intros m; cbn [fold_left map]; [auto|].
    intros H. apply IH in H as [H|H]; [|right; right; exact H].
    destruct (decide (canonical i = k)) as [E|E].
    - rewrite E, lookup_insert_eq in H. injection H as <-. right. left.
    - rewrite lookup_insert_ne in H by exact E. left. exact H. }
  intros Hk. apply H in Hk as [Hk|Hk].
  - rewrite lookup_empty in Hk. discriminate.
  - apply list_elem_of_fmap in Hk as (p & -> & Hp).
    apply contact_join_ids, Hp.
Qed.

Lemma get_chat_map_contacts st :
  CONTACT_MAP_CACHE (st_caches (get_chat_map st))
  = CONTACT_MAP_CACHE (st_caches st)
  /\ _contacts_cache_populated (st_caches (get_chat_map st))
     = _contacts_cache_populated (st_caches st).
Proof. unfold get_chat_map. destruct (_ || _); split; reflexivity. Qed.

Lemma get_message_guid_to_id_map_ids st :
  CHAT_MAP_CACHE (st_caches (get_message_guid_to_id_map st))
  = CHAT_MAP_CACHE (st_caches st)
  /\ CONTACT_MAP_CACHE (st_caches (get_message_guid_to_id_map st))
     = CONTACT_MAP_CACHE (st_caches st)
  /\ _contacts_cache_populated (st_caches (get_message_guid_to_id_map st))
     = _contacts_cache_populated (st_caches st).
Proof.
  unfold get_message_guid_to_id_map. destruct (_ || _); repeat split.
Qed.

Lemma get_reaction_guids_ids st :
  CHAT_MAP_CACHE (st_caches (get_reaction_guids st))
  = CHAT_MAP_CACHE (st_caches st)
  /\ CONTACT_MAP_CACHE (st_caches (get_reaction_guids st))
     = CONTACT_MAP_CACHE (st_caches st)
  /\ _contacts_cache_populated (st_caches (get_reaction_guids st))
     = _contacts_cache_populated (st_caches st).
Proof. unfold get_reaction_guids. destruct (_ || _); repeat split. Qed.

Lemma get_contact_map_chats st :
  CHAT_MAP_CACHE (st_caches (get_contact_map st))
  = CHAT_MAP_CACHE (st_caches st).
Proof. unfold get_contact_map. destruct (_ || _); reflexivity. Qed.

Lemma get_chat_participants_map_ids st :
  CHAT_MAP_CACHE (st_caches (get_chat_participants_map st))
  = CHAT_MAP_CACHE (st_caches st)
  /\ CONTACT_MAP_CACHE (st_caches (get_chat_participants_map st))
     = CONTACT_MAP_CACHE (st_caches st).
Proof.
  unfold get_chat_participants_map. destruct (_ || _); repeat split.
Qed.

(** After the getters the chat and contact caches name rows. *)
Lemma getters_ids st :
  id_caches_coherent st -> id_caches_known (getters st).
Proof.
  intros [HC HK]. destruct (getters_spec st) as [D _].
  unfold id_caches_known. rewrite D. clear D. unfold getters.
  assert (C1 : forall k id,
    CHAT_MAP_CACHE (st_caches (get_chat_map st)) !! k = Some id ->
    id ∈ chat_ids (st_db st)).
  { intros k id. unfold get_chat_map. cbv zeta.
    destruct (bool_decide (CHAT_MAP_CACHE (st_caches st) = ∅)) eqn:E;
      [cbn; apply load_chat_map_ids|].
    apply bool_decide_eq_false in E.
    destruct (_chat_map_cache_populated (st_caches st)) eqn:F; cbn.
    - apply HC; auto.
    - apply load_chat_map_ids. }
  destruct (get_chat_map_contacts st) as (K1 & F1).
  destruct (get_chat_map_spec st) as (D1 & _).
  set (s1 := get_chat_map st) in *.
  destruct (get_message_guid_to_id_map_ids s1) as (C2 & K2 & F2).
  destruct (get_message_guid_to_id_map_spec s1) as (D2 & _).
  set (s2 := get_message_guid_to_id_map s1) in *.
  destruct (get_reaction_guids_ids s2) as (C3 & K3 & F3).
  destruct (get_reaction_guids_spec s2) as (D3 & _).
  set (s3 := get_reaction_guids s2) in *.
  assert (K4 : forall k id,
    CONTACT_MAP_CACHE (st_caches (get_contact_map s3)) !! k = Some id ->
    id ∈ contact_ids (st_db st)).
  { intros k id. unfold get_contact_map. cbv zeta.
    rewrite K3, K2, K1, F3, F2, F1, D3, D2, D1.
    destruct (bool_decide (CONTACT_MAP_CACHE (st_caches st) = ∅)) eqn:E;
      [cbn; apply load_contact_map_ids|].
    apply bool_decide_eq_false in E.
    destruct (_contacts_cache_populated (st_caches st)) eqn:F; cbn.
    - rewrite K3, K2, K1. apply HK; auto.
    - apply load_contact_map_ids. }
  pose proof (get_contact_map_chats s3) as C4.
  set (s4 := get_contact_map s3) in *.
  destruct (get_chat_participants_map_ids s4) as (C5 & K5).
  rewrite C5, C4, C3, C2, K5. split; assumption.
Qed.

Lemma insert_contact_ids n b s d :
  contact_ids (insert_contact n b s d) = contact_ids d ++ [contacts_seq d].
Proof. unfold contact_ids, insert_contact. cbn. rewrite map_app. reflexivity. Qed.

Lemma insert_identifiers_contacts l : forall d,
  contacts (fold_left insert_identifier l d) = contacts d.
Proof.
  induction l as [|t l IH]; intros d; cbn [fold_left]; [reflexivity|].
  rewrite IH. apply insert_identifier_contacts.
Qed.

Lemma insert_contacts_ids (names : list string) b s : forall d i,
  i ∈ contact_ids d ->
  i ∈ contact_ids (fold_left (fun d n => insert_contact n b s d) names d).
Proof.
  induction names as [|n names IH]; intros d i Hi; cbn [fold_left];
    [exact Hi|].
  apply IH. rewrite insert_contact_ids. apply elem_of_app. left. exact Hi.
Qed.

Lemma ensure_user_ids d d' u :
  ensure_user d = (d', u) ->
  u ∈ contact_ids d' /\ forall i, i ∈ contact_ids d -> i ∈ contact_ids d'.
Proof.
  unfold ensure_user. destruct (find_user d) as [u0|] eqn:E.
  - intros H. apply pair_equal_spec in H as [<- <-]. split; [|auto].
    unfold find_user in E.
    destruct (List.find ct_is_me (contacts d)) as [c|] eqn:F; [|discriminate].
    cbn in E. injection E as <-. apply find_some in F as [F _].
    unfold contact_ids. apply list_elem_of_fmap. exists c.
    split; [reflexivity | apply list_elem_of_In; exact F].
  - intros H. apply pair_equal_spec in H as [<- <-].
    rewrite insert_contact_ids. split.
    + apply elem_of_app. right. left.
    + intros i Hi. apply elem_of_app. left. exact Hi.
Qed.

Lemma retrieve_contact_ids_known names d k id :
  retrieve_contact_ids names d !! k = Some id -> id ∈ contact_ids d.
Proof.
  unfold retrieve_contact_ids, contact_ids.
  assert (H : forall l (m : gmap string positive),
    fold_left
      (fun m c =>
         match ct_name c with
         | Some n =>
             if bool_decide (n ∈ names)
                && bool_decide (ct_data_source c = Some live_source)
             then <[n := ct_id c]> m else m
         | None => m
         end) l m !! k = Some id ->
    m !! k = Some id \/ id ∈ map ct_id l).
  { induction l as [|c l IH]; intros m; cbn [fold_left map]; [auto|].
    intros H. apply IH in H as [H|H]; [|right; right; exact H].
    destruct (ct_name c) as [n|]; [|left; exact H].
    destruct (_ && _); [|left; exact H].
    destruct (decide (n = k)) as [E|E].
    - rewrite E, lookup_insert_eq in H. injection H as <-. right. left.
    - rewrite lookup_insert_ne in H by exact E. left. exact H. }
  intros Hk. apply H in Hk as [Hk|Hk]; [|exact Hk].
  rewrite lookup_empty in Hk. discriminate.
Qed.

Lemma register_unknown_known (P : positive -> Prop)
  (retrieved : gmap string positive) l :
  (forall k id, retrieved !! k = Some id -> P id) ->
  forall acc,
  (forall k id, acc.1 !! k = Some id -> P id) ->
  forall k id,
    (fold_left (register_unknown retrieved) l acc).1 !! k = Some id -> P id.
Proof.
  intros Hret. induction l as [|e l IH]; intros acc Hacc; cbn [fold_left];
    [exact Hacc|].
  apply IH. intros k id. unfold register_unknown.
  destruct (retrieved !! sd_name_for_contact e.2) as [c|] eqn:E;
    [|apply Hacc].
  cbn [fst]. destruct (decide (e.1 = k)) as [Ek|Ek].
  - rewrite Ek, lookup_insert_eq. intros [= <-]. eapply Hret, E.
  - rewrite lookup_insert_ne by exact Ek. apply Hacc.
Qed.

(** The batch creation of contacts keeps the contact rows it found and
    caches ids of rows only. *)
Lemma create_unknown_contacts_ids rows st :
  (forall k id, CONTACT_MAP_CACHE (st_caches st) !! k = Some id ->
     id ∈ contact_ids (st_db st)) ->
  (forall i, i ∈ contact_ids (st_db st) ->
     i ∈ contact_ids (st_db (create_unknown_contacts rows st)))
  /\ (forall k id,
        CONTACT_MAP_CACHE (st_caches (create_unknown_contacts rows st)) !! k
        = Some id ->
        id ∈ contact_ids (st_db (create_unknown_contacts rows st))).
Proof.
  intros Hc. unfold create_unknown_contacts. cbv zeta.
  destruct (fold_left (collect_unknown _) rows []) as [|e unknown] eqn:Eu;
    [auto|].
  set (names := remove_dups _).
  set (d1 := fold_left (fun d n => insert_contact n false live_source d)
               names (st_db st)).
  cbn [st_db st_caches set_contact_map CONTACT_MAP_CACHE].
  assert (Hmono : forall i, i ∈ contact_ids (st_db st) -> i ∈ contact_ids d1)
    by (intros i Hi; apply insert_contacts_ids, Hi).
  unfold contact_ids at 2 3. rewrite insert_identifiers_contacts.
  fold (contact_ids d1). split; [exact Hmono|].
  apply (register_unknown_known (fun id => id ∈ contact_ids d1)).
  - intros k id. apply retrieve_contact_ids_known.
  - cbn [fst]. intros k id H. apply Hmono, (Hc k), H.
Qed.

(** The preparation leaves the table chats and the chat cache of the
    getters, keeps the contacts it found, and caches ids of rows. *)
Lemma prepare_ids rows st :
  id_caches_coherent st ->
  id_caches_known (prepare rows st).1
  /\ (prepare rows st).2 ∈ contact_ids (st_db (prepare rows st).1)
  /\ forall i, i ∈ contact_ids (st_db st) ->
       i ∈ contact_ids (st_db (prepare rows st).1).
Proof.
  intros Hcoh. destruct (getters_ids st Hcoh) as [HC HK].
  destruct (prepare_frame rows st) as ((Hch & _) & _).
  revert Hch. unfold prepare.
  destruct (getters_spec st) as [D5 _].
  generalize dependent (getters st). intros s5 HC HK D5.
  rewrite D5 in HC, HK.
  destruct (ensure_user (st_db s5)) as [d u] eqn:Eu.
  destruct (ensure_user_spec _ _ _ Eu) as (Hrest & Hfind & _).
  apply ensure_user_ids in Eu as [Hu Hmono]. rewrite D5 in Hmono.
  cbn [fst snd]. intros Hch.
  destruct (create_unknown_contacts_spec rows (mkState d (st_caches s5)))
    as (_ & Hc & _).
  destruct (create_unknown_contacts_ids rows (mkState d (st_caches s5)))
    as [Hmono' Hk'].
  { cbn [st_db st_caches]. intros k id H. apply Hmono, (HK k), H. }
  cbn [st_db st_caches] in Hc, Hmono', Hk'.
  generalize dependent (create_unknown_contacts rows (mkState d (st_caches s5))).
  intros s6 Hch Hc Hmono' Hk'.
  split; [split|split].
  - intros k id. rewrite Hc. cbn [set_contact_map CHAT_MAP_CACHE].
    unfold chat_ids. rewrite Hch. apply HC.
  - exact Hk'.
  - apply Hmono', Hu.
  - intros i Hi. apply Hmono', Hmono, Hi.
Qed.

(** **** The main loop and the commit *)

Definition loop_refs (u : positive) (L : LoopState) : Prop :=
  id_caches_known (lp_state L)
  /\ u ∈ contact_ids (st_db (lp_state L))
  /\ Forall (message_refs_ok (st_db (lp_state L))) (messages_to_insert L)
  /\ Forall (reaction_refs_ok (st_db (lp_state L))) (reactions_to_insert L).

Lemma resolve_chat_ids row t st :
  id_caches_known st ->
  id_caches_known (resolve_chat row t st).1
  /\ contacts (st_db (resolve_chat row t st).1) = contacts (st_db st)
  /\ (forall i, i ∈ chat_ids (st_db st) ->
        i ∈ chat_ids (st_db (resolve_chat row t st).1))
  /\ (forall c, (resolve_chat row t st).2 = Some c ->
        c ∈ chat_ids (st_db (resolve_chat row t st).1)).
Proof.
  intros [HC HK].
  assert (Hsame : forall o : option positive,
    (forall c, o = Some c -> c ∈ chat_ids (st_db st)) ->
    id_caches_known (st, o).1
    /\ contacts (st_db (st, o).1) = contacts (st_db st)
    /\ (forall i, i ∈ chat_ids (st_db st) -> i ∈ chat_ids (st_db (st, o).1))
    /\ (forall c, (st, o).2 = Some c -> c ∈ chat_ids (st_db (st, o).1))).
  { intros o Ho. cbn [fst snd]. repeat split; auto. }
  unfold resolve_chat.
  destruct (CHAT_MAP_CACHE (st_caches st) !! Some (t_chat_identifier t))
    as [chat_id|] eqn:Hk.
  { apply Hsame. intros c [= <-]. eapply HC, Hk. }
  destruct (str_truthy (t_chat_identifier t));
    [|apply Hsame; discriminate].
  unfold create_chat_if_missing. rewrite Hk.
  destruct (List.find _ (chats (st_db st))) as [r|] eqn:F.
  - apply find_some in F as [F _]. apply list_elem_of_In in F.
    assert (Hr : ch_id r ∈ chat_ids (st_db st)).
    { unfold chat_ids. apply list_elem_of_fmap. exists r. auto. }
    cbn [fst snd st_db st_caches]. unfold id_caches_known.
    cbn [st_db st_caches set_chat_map CHAT_MAP_CACHE CONTACT_MAP_CACHE].
    split; [split; [|exact HK]|].
    + intros k id. destruct (decide (Some (t_chat_identifier t) = k)) as [E|E].
      * rewrite E, lookup_insert_eq. intros [= <-]. exact Hr.
      * rewrite lookup_insert_ne by exact E. apply HC.
    + split; [reflexivity|]. split; [auto|]. intros c [= <-]. exact Hr.
  - cbn [fst snd st_db st_caches]. unfold id_caches_known, chat_ids, contact_ids.
    cbn [st_db st_caches set_chat_map set_chats chats contacts
         CHAT_MAP_CACHE CONTACT_MAP_CACHE].
    rewrite map_app. cbn [map ch_id].
    split; [split; [|exact HK]|].
    + intros k id. destruct (decide (Some (t_chat_identifier t) = k)) as [E|E].
      * rewrite E, lookup_insert_eq. intros [= <-].
        apply elem_of_app. right. left.
      * rewrite lookup_insert_ne by exact E. intros H.
        apply elem_of_app. left. eapply HC, H.
    + split; [reflexivity|]. split.
      * intros i Hi. apply elem_of_app. left. exact Hi.
      * intros c [= <-]. apply elem_of_app. right. left.
Qed.

Lemma message_refs_ok_mono d d' t :
  (forall i, i ∈ chat_ids d -> i ∈ chat_ids d') ->
  (forall i, i ∈ contact_ids d -> i ∈ contact_ids d') ->
  message_refs_ok d t -> message_refs_ok d' t.
Proof. intros H1 H2 [A B]. split; [apply H1, A|]. intros s Hs. apply H2, B, Hs. Qed.

Lemma reaction_refs_ok_mono d d' t :
  (forall i, i ∈ chat_ids d -> i ∈ chat_ids d') ->
  (forall i, i ∈ contact_ids d -> i ∈ contact_ids d') ->
  reaction_refs_ok d t -> reaction_refs_ok d' t.
Proof. intros H1 H2 [A B]. split; [apply H1, A|]. intros s Hs. apply H2, B, Hs. Qed.

Lemma process_row_refs u L row :
  loop_refs u L -> loop_refs u (process_row u L row).
Proof.
  intros (Hid & Hu & Hm & Hr). unfold process_row.
  set (row' := resolve_participants _ row). clearbody row'.
  set (t := transform_message row'). clearbody t.
  destruct (resolve_chat_ids row' t (lp_state L) Hid) as (Hid1 & Hct & Hch & Hc).
  destruct (resolve_chat row' t (lp_state L)) as [st1 o].
  cbn [fst snd] in Hid1, Hct, Hch, Hc.
  assert (Hcon : forall i, i ∈ contact_ids (st_db (lp_state L)) ->
                           i ∈ contact_ids (st_db st1)).
  { intros i. unfold contact_ids. rewrite Hct. auto. }
  assert (Hskip : loop_refs u (with_state st1 L)).
  { unfold loop_refs. cbn [with_state lp_state messages_to_insert
                            reactions_to_insert].
    split; [exact Hid1|]. split; [apply Hcon, Hu|]. split.
    - eapply Forall_impl; [exact Hm|]. intros x.
      apply message_refs_ok_mono; assumption.
    - eapply Forall_impl; [exact Hr|]. intros x.
      apply reaction_refs_ok_mono; assumption. }
  destruct o as [chat_id|]; [|exact Hskip].
  destruct (resolve_sender u t st1) as [sender_id|] eqn:Es; [|exact Hskip].
  destruct (t_guid t) as [g|]; [|exact Hskip].
  destruct (str_truthy g); [|exact Hskip].
  assert (Hs : sender_id ∈ contact_ids (st_db st1)).
  { unfold resolve_sender in Es. destruct (t_is_from_me t).
    - injection Es as <-. apply Hcon, Hu.
    - destruct Hid1 as [_ HK1]. eapply HK1, Es. }
  assert (Hcid : chat_id ∈ chat_ids (st_db st1)) by (apply Hc; reflexivity).
  pose proof Hskip as (S1 & S2 & S3 & S4).
  cbn [with_state lp_state messages_to_insert reactions_to_insert] in S1, S2, S3, S4.
  unfold stage.
  cbn [with_state lp_state messages_to_insert reactions_to_insert].
  destruct (is_reaction_type (t_message_type t)).
  - destruct (bool_decide _); [exact Hskip|].
    unfold loop_refs.
    cbn [with_state lp_state messages_to_insert reactions_to_insert].
    split; [exact S1|]. split; [exact S2|]. split; [exact S3|].
    apply Forall_app. split; [exact S4|]. constructor; [|constructor].
    split; [exact Hcid|]. cbn [rt_sender_id]. intros s [= <-]. exact Hs.
  - destruct (bool_decide _); [exact Hskip|].
    unfold loop_refs.
    cbn [with_state lp_state messages_to_insert reactions_to_insert].
    split; [exact S1|]. split; [exact S2|]. split; [|exact S4].
    apply Forall_app. split; [exact S3|]. constructor; [|constructor].
    split; [exact Hcid|]. cbn [mt_sender_id]. intros s [= <-]. exact Hs.
Qed.

Lemma main_loop_refs u rows : forall L,
  loop_refs u L -> loop_refs u (fold_left (process_row u) rows L).
Proof.
  induction rows as [|row rows IH]; intros L H; cbn [fold_left]; [exact H|].
  apply IH, process_row_refs, H.
Qed.

Lemma commit_id_caches L st' :
  commit L = Some st' ->
  CHAT_MAP_CACHE (st_caches st') = CHAT_MAP_CACHE (st_caches (lp_state L))
  /\ CONTACT_MAP_CACHE (st_caches st')
     = CONTACT_MAP_CACHE (st_caches (lp_state L)).
Proof.
  unfold commit.
  destruct (executemany insert_message (st_db (lp_state L))
              (messages_to_insert L)) as [d1|]; [|discriminate].
  cbn [mbind option_bind].
  destruct (executemany insert_reaction d1 (reactions_to_insert L))
    as [d2|]; [|discriminate].
  cbn [mbind option_bind]. intros H. apply (inj Some) in H. subst st'.
  cbn [st_caches set_reaction_guids CHAT_MAP_CACHE CONTACT_MAP_CACHE].
  destruct (messages_to_insert L); split; reflexivity.
Qed.

(** The commit inserts the staged tuples and nothing else: when their
    references resolve, the references of the tables do. *)
Lemma commit_refs u L st' :
  loop_refs u L -> references_resolve (st_db (lp_state L)) ->
  commit L = Some st' ->
  references_resolve (st_db st') /\ id_caches_known st'.
Proof.
  intros (Hid & _ & Hm & Hr) [RM RR] Ec.
  destruct (commit_id_caches _ _ Ec) as [EC EK].
  apply commit_writes in Ec
    as (newm & newr & Em & Edm & Er & Edr & Ech & Ect & _).
  assert (Hch : chat_ids (st_db st') = chat_ids (st_db (lp_state L)))
    by exact Ech.
  assert (Hco : contact_ids (st_db st') = contact_ids (st_db (lp_state L)))
    by (unfold contact_ids; rewrite Ect; reflexivity).
  assert (HM : forall t, message_refs_ok (st_db (lp_state L)) t ->
                         message_refs_ok (st_db st') t).
  { intros t. unfold message_refs_ok. rewrite Hch, Hco. auto. }
  assert (HR : forall t, reaction_refs_ok (st_db (lp_state L)) t ->
                         reaction_refs_ok (st_db st') t).
  { intros t. unfold reaction_refs_ok. rewrite Hch, Hco. auto. }
  split; [split|].
  - rewrite Em. apply Forall_app. split.
    + eapply Forall_impl; [exact RM|]. intros r. apply HM.
    + apply Forall_forall. intros r Hin. apply HM.
      rewrite Forall_forall in Hm. apply Hm. rewrite <- Edm.
      apply list_elem_of_fmap. exists r. auto.
  - rewrite Er. apply Forall_app. split.
    + eapply Forall_impl; [exact RR|]. intros r. apply HR.
    + apply Forall_forall. intros r Hin. apply HR.
      rewrite Forall_forall in Hr. apply Hr. rewrite <- Edr.
      apply list_elem_of_fmap. exists r. auto.
  - destruct Hid as [HC HK]. split; intros k id.
    + rewrite EC, Hch. apply HC.
    + rewrite EK, Hco. apply HK.
Qed.

Lemma id_caches_known_coherent st :
  id_caches_known st -> id_caches_coherent st.
Proof. intros [HC HK]. split; intros _ _; assumption. Qed.

(** A run that returns keeps the references of messages and reactions
    resolved, and the chat and contact caches on ids of rows. *)
Lemma sync_messages_refs (rows : list RawRow) (st : State) (o : Outcome) :
  references_resolve (st_db st) ->
  id_caches_coherent st ->
  sync_messages rows st = Some o ->
  references_resolve (st_db (out_state o))
  /\ id_caches_coherent (out_state o).
Proof.
  intros Href Hcoh. destruct rows as [|row0 rest].
  - intros H. apply (inj Some) in H. subst o. split; assumption.
  - set (rows := row0 :: rest) in *.
    change (sync_messages rows st)
      with (st' ← commit (main_loop rows st);
            Some (mkOutcome st'
                    (map (resolve_participants
                            (CHAT_DB_ROWID_TO_PARTICIPANTS_CACHE
                               (st_caches st'))) rows)
                    (imported_count (main_loop rows st))
                    (chat_counts (main_loop rows st)))).
    destruct (prepare_ids rows st Hcoh) as (P1 & P2 & P3).
    destruct (prepare_frame rows st) as ((F1 & _ & F2 & _ & F3 & _) & _).
    assert (Hloop : exists u L, main_loop rows st = L
      /\ loop_refs u L /\ references_resolve (st_db (lp_state L))).
    { unfold main_loop.
      destruct (prepare rows st) as [st6 user_id].
      cbn [fst snd] in P1, P2, P3, F1, F2, F3.
      exists user_id. eexists. split; [reflexivity|].
      assert (H0 : loop_refs user_id (mkLoop st6 [] [] ∅ 0)).
      { unfold loop_refs.
        cbn [lp_state messages_to_insert reactions_to_insert].
        split; [exact P1|]. split; [exact P2|]. split; constructor. }
      split; [apply main_loop_refs, H0|].
      destruct (main_loop_adds user_id rows (mkLoop st6 [] [] ∅ 0))
        as (ms & rs & new & seq & K & _ & _ & _ & _ & _ & _ & _ & S).
      cbn [lp_state] in S. rewrite S.
      destruct Href as [RM RR].
      assert (Hch : forall i, i ∈ chat_ids (st_db st) ->
        i ∈ chat_ids (st_db (chat_update st6 (chats (st_db st6) ++ new) seq K))).
      { intros i. unfold chat_ids.
        cbn [st_db chat_update set_chats chats]. rewrite F1, map_app.
        intros Hi. apply elem_of_app. left. exact Hi. }
      assert (Hco : forall i, i ∈ contact_ids (st_db st) ->
        i ∈ contact_ids
              (st_db (chat_update st6 (chats (st_db st6) ++ new) seq K))).
      { intros i Hi. unfold contact_ids.
        cbn [st_db chat_update set_chats contacts]. apply P3, Hi. }
      split.
      - cbn [st_db chat_update set_chats messages] in *. rewrite F2.
        eapply Forall_impl; [exact RM|]. intros r.
        apply message_refs_ok_mono; assumption.
      - cbn [st_db chat_update set_chats reactions] in *. rewrite F3.
        eapply Forall_impl; [exact RR|]. intros r.
        apply reaction_refs_ok_mono; assumption. }
    destruct Hloop as (u & L & EL & HL & HrL). rewrite EL. clear EL.
    destruct (commit L) as [st'|] eqn:Ec; [|discriminate].
    cbn [mbind option_bind]. intros H. apply (inj Some) in H. subst o.
    cbn [out_state].
    destruct (commit_refs u L st' HL HrL Ec) as [R K].
    split; [exact R | apply id_caches_known_coherent, K].
Qed.

(** X16.  From a store whose caches are coherent and whose messages and
    reactions refer to rows of chats and contacts, a batch whose guids
    are pairwise different is synced without an integrity error,
    neither of a UNIQUE constraint on guid nor of a foreign key of
    messages or reactions, and the store is as coherent afterwards:
    the next batch starts as this one did. *)
Theorem sync_messages_returns (rows : list RawRow) (st : State) :
  guid_caches_coherent st ->
  id_caches_coherent st ->
  references_resolve (st_db st) ->
  NoDup (omap raw_guid rows) ->
  exists o,
    sync_messages rows st = Some o
    /\ guid_caches_coherent (out_state o)
    /\ id_caches_coherent (out_state o)
    /\ references_resolve (st_db (out_state o)).
Proof.
  intros Hg Hi Hr Hnd.
  destruct (sync_messages_guids rows st Hg Hnd) as (o & Eo & Hg').
  destruct (sync_messages_refs rows st o Hr Hi Eo) as [Hr' Hi'].
  exists o. split; [exact Eo|]. split; [exact Hg'|].
  split; [exact Hi' | exact Hr'].
Qed.

Lemma sync_messages_returns_witness :
  exists o,
    sync_messages example_batch example_state = Some o
    /\ guid_caches_coherent (out_state o)
    /\ id_caches_coherent (out_state o)
    /\ references_resolve (st_db (out_state o)).
Proof.
  apply (sync_messages_returns example_batch example_state).
  - split; intros H; exfalso; apply H; reflexivity.
  - split; intros H; exfalso; apply H; reflexivity.
  - split; constructor.
  - refine (bool_decide_unpack _ _). vm_compute. exact I.
Defined.

End Sync.

(* ===================================================================== *)
(** * Backup import of messages *)
(* ===================================================================== *)

Module Backup.

Import Normaliser Timestamps Sync.

(** The lookup structures that load_messages builds from its UNION
    query.  display_name_map is left out: it is consulted only for
    messages with the keys is_group and display_name, which
    transform_message never sets. *)
Record Lookups := mkLookups {
  existing_message_guids : gset (option string);
  existing_reaction_guids : gset (option string);
  chat_map : gmap string positive;
  contact_map : gmap string positive;
  user_id : option positive
}.

(** The chat rows of the query: the value of a chat without identifier
    is null, and [value.rsplit] raises on it (None). *)
Fixpoint load_chat_rows (rows : list ChatRow) (m : gmap string positive)
  : option (gmap string positive) :=
  match rows with
  | [] => Some m
  | r :: rest =>
      match ch_chat_identifier r with
      | Some identifier => load_chat_rows rest (<[identifier := ch_id r]> m)
      | None => None
      end
  end.

(** The lookups, the rows of each kind taken in table order. *)
Definition build_lookups (d : Db) : option Lookups :=
  cm ← load_chat_rows (chats d) ∅;
  Some (mkLookups
          (list_to_set (map (fun r => mt_guid (mr_data r)) (messages d)))
          (list_to_set (map (fun r => rt_guid (rr_data r)) (reactions d)))
          cm
          (fold_left
             (fun m '(identifier, id) =>
                <[normalize_phone_number identifier := id]> m)
             (contact_join d) ∅)
          (fold_left (fun u c => if ct_is_me c then Some (ct_id c) else u)
             (contacts d) None)).

(** The variables of the loop of load_messages, with the database (the
    loop inserts contacts). *)
Record LoadAcc := mkLoadAcc {
  la_db : Db;
  la_contact_map : gmap string positive;
  la_messages_to_insert : list MessageTuple;
  la_messages_to_update : list MessageTuple;
  la_reactions_to_insert : list ReactionTuple;
  la_reactions_to_update : list ReactionTuple;
  la_chat_counts : gmap positive Z;
  la_imported_count : Z;
  la_skipped_count : Z;
  la_missing_chat_identifiers : gset string
}.

(** etl_messages.py, create_contact_for_unknown_sender. *)
Definition create_contact_for_unknown_sender (d : Db) (identifier : string)
  : Db * positive :=
  let contact_id := contacts_seq d in
  let d1 :=
    set_contacts (contacts d ++ [mkContact contact_id (Some identifier) false None])
      (Pos.succ contact_id) d in
  (set_contact_identifiers
     (contact_identifiers d1
        ++ [mkIdent contact_id identifier
              (if contains "@" identifier then "Email" else "Phone")%string
              true]) d1,
   contact_id).

(** [msg['message_type'] != 0]: true for None as well. *)
Definition type_not_zero (message_type : option Z) : bool :=
  match message_type with
  | Some t => negb (t =? 0)
  | None => true
  end.

(** The body of [for msg in chunk]. *)
Definition load_row (lk : Lookups) (acc : LoadAcc) (msg : Transformed)
  : LoadAcc :=
  match chat_map lk !! t_chat_identifier msg with
  | None =>
      mkLoadAcc (la_db acc) (la_contact_map acc) (la_messages_to_insert acc)
        (la_messages_to_update acc) (la_reactions_to_insert acc)
        (la_reactions_to_update acc) (la_chat_counts acc)
        (la_imported_count acc) (la_skipped_count acc + 1)
        ({[t_chat_identifier msg]} ∪ la_missing_chat_identifiers acc)
  | Some chat_id =>
      let '(d, cmap, sender_id) :=
        if t_is_from_me msg then (la_db acc, la_contact_map acc, user_id lk)
        else
          match la_contact_map acc !! t_sender_identifier msg with
          | Some s => (la_db acc, la_contact_map acc, Some s)
          | None =>
              let (d1, s) :=
                create_contact_for_unknown_sender (la_db acc)
                  (t_sender_identifier msg) in
              (d1, <[t_sender_identifier msg := s]> (la_contact_map acc), Some s)
          end in
      if type_not_zero (t_message_type msg) then
        let reaction_data :=
          mkReactionTuple (t_associated_message_guid msg) (t_message_type msg)
            sender_id (t_timestamp msg) chat_id (t_guid msg) in
        if bool_decide (t_guid msg ∈ existing_reaction_guids lk) then
          mkLoadAcc d cmap (la_messages_to_insert acc)
            (la_messages_to_update acc) (la_reactions_to_insert acc)
            (la_reactions_to_update acc ++ [reaction_data])
            (la_chat_counts acc) (la_imported_count acc)
            (la_skipped_count acc) (la_missing_chat_identifiers acc)
        else
          mkLoadAcc d cmap (la_messages_to_insert acc)
            (la_messages_to_update acc)
            (la_reactions_to_insert acc ++ [reaction_data])
            (la_reactions_to_update acc)
            (la_chat_counts acc) (la_imported_count acc)
            (la_skipped_count acc) (la_missing_chat_identifiers acc)
      else
        let message_data :=
          mkMessageTuple chat_id sender_id (t_timestamp msg)
            (t_is_from_me msg) (t_message_type msg) (t_service_name msg)
            (t_guid msg) in
        if bool_decide (t_guid msg ∈ existing_message_guids lk) then
          mkLoadAcc d cmap (la_messages_to_insert acc)
            (la_messages_to_update acc ++ [message_data])
            (la_reactions_to_insert acc) (la_reactions_to_update acc)
            (la_chat_counts acc) (la_imported_count acc)
            (la_skipped_count acc) (la_missing_chat_identifiers acc)
        else
          mkLoadAcc d cmap (la_messages_to_insert acc ++ [message_data])
            (la_messages_to_update acc)
            (la_reactions_to_insert acc) (la_reactions_to_update acc)
            (<[chat_id := default 0 (la_chat_counts acc !! chat_id) + 1]>
               (la_chat_counts acc))
            (la_imported_count acc + 1)
            (la_skipped_count acc) (la_missing_chat_identifiers acc)
  end.

(** [UPDATE messages SET ... WHERE guid = ?]. *)
Definition update_message (d : Db) (t : MessageTuple) : Db :=
  set_messages
    (map (fun r =>
            if bool_decide (is_Some (mt_guid t))
               && bool_decide (mt_guid (mr_data r) = mt_guid t)
            then mkMessageRow (mr_id r) t else r)
       (messages d))
    (messages_seq d) d.

(** [UPDATE reactions SET ... WHERE guid = ?]. *)
Definition update_reaction (d : Db) (t : ReactionTuple) : Db :=
  set_reactions
    (map (fun r =>
            if bool_decide (is_Some (rt_guid t))
               && bool_decide (rt_guid (rr_data r) = rt_guid t)
            then mkReactionRow (rr_id r) t else r)
       (reactions d))
    (reactions_seq d) d.

(** The four bulk statements at the end of a chunk; the staging lists
    are emptied. *)
Definition flush_chunk (acc : LoadAcc) : option LoadAcc :=
  d1 ← executemany insert_message (la_db acc) (la_messages_to_insert acc);
  let d2 := fold_left update_message (la_messages_to_update acc) d1 in
  d3 ← executemany insert_reaction d2 (la_reactions_to_insert acc);
  let d4 := fold_left update_reaction (la_reactions_to_update acc) d3 in
  Some (mkLoadAcc d4 (la_contact_map acc) [] [] [] [] (la_chat_counts acc)
          (la_imported_count acc) (la_skipped_count acc)
          (la_missing_chat_identifiers acc)).

(** [messages[i:i + CHUNK_SIZE] for i in range(0, len(messages),
    CHUNK_SIZE)]; [fuel] bounds the number of chunks. *)
Fixpoint chunks {A} (fuel : nat) (size : nat) (l : list A) : list (list A) :=
  match fuel, l with
  | S f, _ :: _ => take size l :: chunks f size (drop size l)
  | _, _ => []
  end.

Definition CHUNK_SIZE : nat := Z.to_nat 1000000.

(** The loop over the chunks. *)
Fixpoint load_chunks (lk : Lookups) (cs : list (list Transformed))
  (acc : LoadAcc) : option LoadAcc :=
  match cs with
  | [] => Some acc
  | chunk :: rest =>
      acc' ← flush_chunk (fold_left (load_row lk) chunk acc);
      load_chunks lk rest acc'
  end.

(** etl_messages.py, load_messages: the database afterwards and the pair
    (imported_count, skipped_count); None when a statement raises. *)
Definition load_messages (msgs : list Transformed) (d : Db)
  : option (Db * (Z * Z)) :=
  lk ← build_lookups d;
  acc ← load_chunks lk (chunks (length msgs) CHUNK_SIZE msgs)
          (mkLoadAcc d (contact_map lk) [] [] [] [] ∅ 0 0 ∅);
  let d' :=
    if bool_decide (la_chat_counts acc = ∅) then la_db acc
    else update_chat_counts (la_chat_counts acc) (la_db acc) in
  Some (d', (la_imported_count acc, la_skipped_count acc)).

(** ** Classification *)

(** A store with the user contact and one chat, and a transformed row
    of that chat, sent by the user, whose message type is null. *)
Definition example_db : Db :=
  mkDb [mkContact 1 (Some "Me"%string) true None] []
    [mkChat 1 (Some "4155550100"%string) false (Some "iMessage"%string) 0]
    [] [] 2 2 1 1 [].

Definition null_type_message : Transformed :=
  mkTransformed "4155550100" "" (Some (inject_Z 728000000)) true None
    (Some "iMessage"%string) (Some "G1"%string) None.

(** The live path stages a row as a reaction exactly when its type is
    neither zero nor null. *)
Lemma live_classification t chat_id sender_id g L :
  (is_reaction_type (t_message_type t) = true
   <-> exists n, t_message_type t = Some n /\ n <> 0)
  /\ (is_reaction_type (t_message_type t) = true ->
      messages_to_insert (stage t chat_id sender_id g L)
      = messages_to_insert L)
  /\ (is_reaction_type (t_message_type t) = false ->
      reactions_to_insert (stage t chat_id sender_id g L)
      = reactions_to_insert L).
Proof.
  split; [|split].
  - unfold is_reaction_type. destruct (t_message_type t) as [n|].
    + rewrite negb_true_iff, Z.eqb_neq. split.
      * intros H. exists n. auto.
      * intros (m & [= <-] & H). exact H.
    + split; [discriminate | intros (n & [=] & _)].
  - intros H. unfold stage. rewrite H. case_bool_decide; reflexivity.
  - intros H. unfold stage. rewrite H. case_bool_decide; reflexivity.
Qed.

(** The backup path stages every row of a known chat whose type is null
    as a reaction, never as a message. *)
Lemma backup_null_type_staged lk acc msg :
  is_Some (chat_map lk !! t_chat_identifier msg) ->
  t_message_type msg = None ->
  la_messages_to_insert (load_row lk acc msg) = la_messages_to_insert acc
  /\ la_messages_to_update (load_row lk acc msg) = la_messages_to_update acc
  /\ length (la_reactions_to_insert (load_row lk acc msg)
             ++ la_reactions_to_update (load_row lk acc msg))
     = S (length (la_reactions_to_insert acc ++ la_reactions_to_update acc)).
Proof.
  intros [chat_id Hc] Ht. unfold load_row. rewrite Hc, Ht. simpl.
  destruct (if t_is_from_me msg then _ else _) as [[d cmap] sender_id].
  case_bool_decide; simpl; rewrite ?length_app; simpl;
    repeat split; lia.
Qed.

(** C4 at the failing input: load_messages stores the row with null
    message type in reactions, and stores no message. *)
Theorem load_messages_null_type_lands_in_reactions :
  exists d,
    load_messages [null_type_message] example_db = Some (d, (0, 0))
    /\ Sync.messages d = []
    /\ map (fun r => rt_guid (rr_data r)) (Sync.reactions d)
       = [Some "G1"%string]
    /\ type_not_zero (t_message_type null_type_message) = true
    /\ is_reaction_type (t_message_type null_type_message) = false.
Proof.
  eexists. split; [vm_compute; reflexivity|]. repeat split.
Qed.

(** ** What load_messages counts *)
















End Backup.

(* ===================================================================== *)
(** * Extractor *)
(* ===================================================================== *)

Module Extractor.

Import Timestamps Sync.

(** The exceptions that the extractor and the watcher can meet;
    [EngineError] stands for whatever an engine of the target store
    raises. *)
Inductive PyExc := SqliteError | TypeError | OverflowError | EngineError.

(** A handle on the source database. *)
Definition Conn := positive.

(** A row of the attachment query (the columns the engine keys on). *)
Record AttRow := mkAtt {
  att_rowid : Z;
  att_guid : option string;
  att_message_guid : option string
}.

(** The source database as the extractor meets it: what sqlite3.connect
    answers (None: it raises sqlite3.Error), whether a statement raises
    sqlite3.Error (locked or unreachable file), and the rows of the two
    joins before their WHERE clause. *)
Record Source := mkSource {
  src_connect : option Conn;
  src_locked : bool;
  src_messages : list RawRow;
  src_attachments : list AttRow
}.

(** A computation that may raise and that reads and writes a state,
    which an exception leaves as it was at the raise. *)
Definition Run (St A : Type) : Type := St -> (PyExc + A) * St.

(** The state of the extractor is the module variable
    LIVE_DB_CONNECTION. *)
Definition Exec : Type -> Type := Run (option Conn).

Definition ret {St A} (x : A) : Run St A := fun s => (inr x, s).

Definition raise {St A} (e : PyExc) : Run St A := fun s => (inl e, s).

Definition bind {St A B} (m : Run St A) (k : A -> Run St B) : Run St B :=
  fun s =>
    match m s with
    | (inr x, s') => k x s'
    | (inl e, s') => (inl e, s')
    end.

(** [try: body  except ...: handler]; the handler decides which
    exceptions it takes by raising the others again. *)
Definition try_except {St A} (body : Run St A) (handler : PyExc -> Run St A)
  : Run St A :=
  fun s =>
    match body s with
    | (inr x, s') => (inr x, s')
    | (inl e, s') => handler e s'
    end.

(** The built-in print: its keyword arguments are sep, end, file and
    flush; any other keyword raises TypeError. *)
Definition py_print {St} (keywords : list string) : Run St unit :=
  if forallb
       (fun k => existsb (String.eqb k) ["sep"; "end"; "file"; "flush"]%string)
       keywords
  then ret tt else raise TypeError.

(** extractors.py, get_chat_db_connection. *)
Definition get_chat_db_connection (src : Source) : Exec Conn :=
  fun live =>
    match live with
    | Some c => (inr c, live)
    | None =>
        match src_connect src with
        | Some c => (inr c, Some c)
        | None => (inl SqliteError, None)
        end
    end.

(** [cursor.execute(query, (last_rowid,))] and [fetchall] for
    [WHERE m.ROWID > ? ORDER BY m.ROWID ASC]. *)
Definition select_messages (src : Source) (last_rowid : Z)
  : Exec (list RawRow) :=
  if src_locked src then raise SqliteError
  else
    ret (merge_sort
           (fun a b => Is_true (raw_message_id a <=? raw_message_id b))
           (List.filter (fun m => last_rowid <? raw_message_id m)
              (src_messages src))).

Definition select_attachments (src : Source) (last_rowid : Z)
  : Exec (list AttRow) :=
  if src_locked src then raise SqliteError
  else
    ret (merge_sort (fun a b => Is_true (att_rowid a <=? att_rowid b))
           (List.filter (fun a => last_rowid <? att_rowid a)
              (src_attachments src))).

(** [max(l)] on a list that is not empty. *)
Definition py_max (l : list Z) : Z :=
  match l with
  | [] => 0
  | x :: r => fold_left Z.max r x
  end.

(** [m['date'] = to_nanos(int(m['date']))] when the date is not None. *)
Definition normalise_date (m : RawRow) : RawRow :=
  mkRaw (raw_message_id m) (raw_guid m) (to_nanos <$> raw_date m)
    (raw_is_from_me m) (raw_service m) (raw_associated_message_guid m)
    (raw_associated_message_type m) (raw_sender_identifier m)
    (raw_chat_id m) (raw_chat_participants m).

(** The statements of the except clause after its print: close the
    connection (errors ignored), forget it. *)
Definition reset_connection : Exec unit := fun _ => (inr tt, None).

(** The except clause [except sqlite3.Error as e] shared by the fetch
    functions: it starts with [print(..., exc_info=True)]. *)
Definition on_sqlite_error {A} (empty : A) (e : PyExc) : Exec A :=
  match e with
  | SqliteError =>
      bind (py_print ["exc_info"%string]) (fun _ =>
      bind reset_connection (fun _ =>
      ret empty))
  | _ => raise e
  end.

(** [print(...)] under [if rows:]. *)
Definition print_if_any {A} (rows : list A) : Exec unit :=
  match rows with [] => ret tt | _ => py_print [] end.

(** extractors.py, fetch_new_messages. *)
Definition fetch_new_messages (src : Source) (last_rowid : Z)
  : Exec (list RawRow * Z) :=
  try_except
    (bind (get_chat_db_connection src) (fun conn =>
     bind (select_messages src last_rowid) (fun messages =>
     let max_rowid :=
       match messages with
       | [] => last_rowid
       | _ => py_max (map raw_message_id messages)
       end in
     let messages := map normalise_date messages in
     bind (print_if_any messages) (fun _ =>
     ret (messages, max_rowid)))))
    (on_sqlite_error ([], last_rowid)).

(** extractors.py, fetch_new_attachments. *)
Definition fetch_new_attachments (src : Source) (last_rowid : Z)
  : Exec (list AttRow * Z) :=
  try_except
    (bind (get_chat_db_connection src) (fun conn =>
     bind (select_attachments src last_rowid) (fun attachments =>
     let max_rowid :=
       match attachments with
       | [] => last_rowid
       | _ => py_max (map att_rowid attachments)
       end in
     bind (print_if_any attachments) (fun _ =>
     ret (attachments, max_rowid)))))
    (on_sqlite_error ([], last_rowid)).

(** ** Lemmas *)

Lemma py_max_ge l x : x ∈ l -> x <= py_max l.
Proof.
  destruct l as [|y r]; [intros H; inversion H|]. simpl.
  assert (Hfold : forall r a, a <= fold_left Z.max r a
            /\ forall z, z ∈ r -> z <= fold_left Z.max r a).
  { clear. induction r as [|b r IH]; intros a; simpl.
    - split; [lia | intros z Hz; inversion Hz].
    - destruct (IH (Z.max a b)) as [H1 H2]. split; [lia|].
      intros z Hz. apply elem_of_cons in Hz as [->|Hz]; [lia | auto]. }
  destruct (Hfold r y) as [H1 H2].
  intros Hx. apply elem_of_cons in Hx as [->|Hx]; auto.
Qed.

Lemma py_max_in l : l <> [] -> py_max l ∈ l.
Proof.
  destruct l as [|y r]; [congruence|]. intros _. simpl.
  revert y. induction r as [|b r IH]; intros y; simpl; [left|].
  destruct (Z.max_spec y b) as [[_ ->]|[_ ->]].
  - right. apply IH.
  - specialize (IH y). apply elem_of_cons in IH as [->|IH];
      [left | right; right; exact IH].
Qed.

(** The rows a successful fetch returns and the watermark next to
    them. *)
Lemma fetch_new_messages_returns src last_rowid live rows new_rowid live' :
  fetch_new_messages src last_rowid live = (inr (rows, new_rowid), live') ->
  Forall (fun m => last_rowid < raw_message_id m) rows
  /\ (rows = [] -> new_rowid = last_rowid)
  /\ (rows <> [] -> new_rowid = py_max (map raw_message_id rows))
  /\ last_rowid <= new_rowid.
Proof.
  unfold fetch_new_messages, try_except, bind, get_chat_db_connection,
    select_messages, on_sqlite_error, raise, ret, reset_connection.
  set (sel := merge_sort _ (List.filter _ (src_messages src))).
  assert (Hsel : Forall (fun m => last_rowid < raw_message_id m) sel).
  { apply Forall_forall. intros m Hm. subst sel.
    rewrite merge_sort_Permutation in Hm.
    apply list_elem_of_In, filter_In in Hm as [_ Hm]. lia. }
  assert (Hids : map raw_message_id (map normalise_date sel)
                 = map raw_message_id sel).
  { rewrite map_map. reflexivity. }
  assert (Hres : forall l,
    (inr (map normalise_date sel,
          match sel with [] => last_rowid
          | _ => py_max (map raw_message_id sel) end), l)
    = (inr (rows, new_rowid) : PyExc + _, live') ->
    Forall (fun m => last_rowid < raw_message_id m) rows
    /\ (rows = [] -> new_rowid = last_rowid)
    /\ (rows <> [] -> new_rowid = py_max (map raw_message_id rows))
    /\ last_rowid <= new_rowid).
  { intros l [= <- <- _]. split.
    - apply Forall_map. exact Hsel.
    - rewrite Hids. destruct sel as [|m0 r] eqn:E.
      + simpl. split; [reflexivity|]. split; [congruence | lia].
      + rewrite <- E in *. split; [rewrite E; discriminate|].
        split; [reflexivity|].
        assert (Hm0 : raw_message_id m0 ∈ map raw_message_id sel)
          by (rewrite E; left).
        apply py_max_ge in Hm0.
        assert (last_rowid < raw_message_id m0).
        { rewrite E in Hsel. inversion Hsel; assumption. }
        lia. }
  destruct live as [c|]; [|destruct (src_connect src) as [c|]];
    destruct (src_locked src); simpl;
    try (unfold py_print; simpl; discriminate);
    destruct sel as [|m0 r]; simpl; apply Hres.
Qed.

(** C8, as the code behaves.  When the connection attempt or the query
    raises sqlite3.Error, the except clause of fetch_new_messages and
    of fetch_new_attachments raises TypeError from its first statement,
    print(..., exc_info=True): the call does not return the empty list
    with the input watermark, and the cached connection is not reset
    (it is what get_chat_db_connection left). *)
Theorem fetch_raises_on_sqlite_error (src : Source) (last_rowid : Z)
  (live : option Conn) :
  src_locked src = true \/ (live = None /\ src_connect src = None) ->
  fetch_new_messages src last_rowid live
  = (inl TypeError, (get_chat_db_connection src live).2)
  /\ fetch_new_attachments src last_rowid live
     = (inl TypeError, (get_chat_db_connection src live).2)
  /\ ((get_chat_db_connection src live).2 = None ->
      live = None /\ src_connect src = None).
Proof.
  unfold fetch_new_messages, fetch_new_attachments, try_except, bind,
    get_chat_db_connection, select_messages, select_attachments,
    on_sqlite_error, raise, ret.
  intros [Hlock|[-> Hconn]].
  - rewrite Hlock. destruct live as [c|]; [|destruct (src_connect src)];
      simpl; repeat split; auto; discriminate.
  - rewrite Hconn. simpl. repeat split.
Qed.

(** A locked source database met with an open connection. *)
Lemma fetch_raises_on_sqlite_error_witness :
  let src := mkSource (Some 1%positive) true [] [] in
  src_locked src = true
  /\ fetch_new_messages src 41 (Some 1%positive)
     = (inl TypeError, Some 1%positive).
Proof.
  cbv zeta. split; [reflexivity|].
  apply (fetch_raises_on_sqlite_error
           (mkSource (Some 1%positive) true [] []) 41 (Some 1%positive)).
  left. reflexivity.
Defined.


(** ** Further properties of the extractor *)

(** The rows that the query of fetch_new_messages answers. *)
Definition new_message_rows (src : Source) (last_rowid : Z) : list RawRow :=
  merge_sort (fun a b => Is_true (raw_message_id a <=? raw_message_id b))
    (List.filter (fun m => last_rowid <? raw_message_id m) (src_messages src)).

(** The rows that the query of fetch_new_attachments answers. *)
Definition new_attachment_rows (src : Source) (last_rowid : Z) : list AttRow :=
  merge_sort (fun a b => Is_true (att_rowid a <=? att_rowid b))
    (List.filter (fun a => last_rowid <? att_rowid a) (src_attachments src)).

(** [max(ids) if rows else last_rowid]. *)
Definition max_or (last_rowid : Z) (ids : list Z) : Z :=
  match ids with [] => last_rowid | _ => py_max ids end.

Lemma max_or_bounds last ids :
  Forall (fun i => last < i) ids ->
  last <= max_or last ids /\ Forall (fun i => i <= max_or last ids) ids.
Proof.
  intros H. destruct ids as [|i r]; [split; [simpl; lia | constructor]|].
  assert (Hall : Forall (fun j => j <= py_max (i :: r)) (i :: r)).
  { apply Forall_forall. intros j Hj. apply py_max_ge. exact Hj. }
  split; [|exact Hall].
  inversion H; subst. inversion Hall; subst. unfold max_or. lia.
Qed.

Lemma fetch_new_messages_open src last_rowid c :
  src_locked src = false ->
  fetch_new_messages src last_rowid (Some c)
  = (inr (map normalise_date (new_message_rows src last_rowid),
          max_or last_rowid
            (map raw_message_id (new_message_rows src last_rowid))),
     Some c).
Proof.
  intros Hl.
  unfold fetch_new_messages, try_except, bind, get_chat_db_connection,
    select_messages, ret. rewrite Hl.
  fold (new_message_rows src last_rowid).
  destruct (new_message_rows src last_rowid) as [|m r]; reflexivity.
Qed.

Lemma fetch_new_attachments_open src last_rowid c :
  src_locked src = false ->
  fetch_new_attachments src last_rowid (Some c)
  = (inr (new_attachment_rows src last_rowid,
          max_or last_rowid
            (map att_rowid (new_attachment_rows src last_rowid))),
     Some c).
Proof.
  intros Hl.
  unfold fetch_new_attachments, try_except, bind, get_chat_db_connection,
    select_attachments, ret. rewrite Hl.
  fold (new_attachment_rows src last_rowid).
  destruct (new_attachment_rows src last_rowid) as [|m r]; reflexivity.
Qed.

(** A fetch that returns has an open connection to work with, and
    leaves it open. *)
Lemma fetch_new_messages_inv src last_rowid live r live' :
  fetch_new_messages src last_rowid live = (inr r, live') ->
  src_locked src = false
  /\ exists c, live' = Some c
       /\ fetch_new_messages src last_rowid (Some c) = (inr r, Some c).
Proof.
  intros H.
  assert (Hl : src_locked src = false).
  { destruct (src_locked src) eqn:E; [|reflexivity]. exfalso. revert H.
    unfold fetch_new_messages, try_except, bind, get_chat_db_connection,
      select_messages. rewrite E.
    destruct live as [c|]; [|destruct (src_connect src)]; discriminate. }
  split; [exact Hl|].
  assert (Hconn : exists c,
    fetch_new_messages src last_rowid live
    = fetch_new_messages src last_rowid (Some c)).
  { destruct live as [c|]; [exists c; reflexivity|].
    destruct (src_connect src) as [c|] eqn:Ec.
    - exists c.
      unfold fetch_new_messages, try_except, bind, get_chat_db_connection.
      rewrite Ec. reflexivity.
    - exfalso. revert H.
      unfold fetch_new_messages, try_except, bind, get_chat_db_connection.
      rewrite Ec. discriminate. }
  destruct Hconn as [c Hc]. exists c. rewrite Hc in H.
  rewrite (fetch_new_messages_open _ _ _ Hl) in H |- *.
  apply pair_equal_spec in H as [H1 H2]. split; congruence.
Qed.

Lemma fetch_new_attachments_inv src last_rowid live r live' :
  fetch_new_attachments src last_rowid live = (inr r, live') ->
  src_locked src = false
  /\ exists c, live' = Some c
       /\ fetch_new_attachments src last_rowid (Some c) = (inr r, Some c).
Proof.
  intros H.
  assert (Hl : src_locked src = false).
  { destruct (src_locked src) eqn:E; [|reflexivity]. exfalso. revert H.
    unfold fetch_new_attachments, try_except, bind, get_chat_db_connection,
      select_attachments. rewrite E.
    destruct live as [c|]; [|destruct (src_connect src)]; discriminate. }
  split; [exact Hl|].
  assert (Hconn : exists c,
    fetch_new_attachments src last_rowid live
    = fetch_new_attachments src last_rowid (Some c)).
  { destruct live as [c|]; [exists c; reflexivity|].
    destruct (src_connect src) as [c|] eqn:Ec.
    - exists c.
      unfold fetch_new_attachments, try_except, bind, get_chat_db_connection.
      rewrite Ec. reflexivity.
    - exfalso. revert H.
      unfold fetch_new_attachments, try_except, bind, get_chat_db_connection.
      rewrite Ec. discriminate. }
  destruct Hconn as [c Hc]. exists c. rewrite Hc in H.
  rewrite (fetch_new_attachments_open _ _ _ Hl) in H |- *.
  apply pair_equal_spec in H as [H1 H2]. split; congruence.
Qed.

Lemma new_message_rows_above src last_rowid :
  Forall (fun m => last_rowid < raw_message_id m)
    (new_message_rows src last_rowid).
Proof.
  apply Forall_forall. intros m Hm. unfold new_message_rows in Hm.
  rewrite merge_sort_Permutation in Hm.
  apply list_elem_of_In, filter_In in Hm as [_ Hm]. lia.
Qed.

Lemma new_attachment_rows_above src last_rowid :
  Forall (fun a => last_rowid < att_rowid a)
    (new_attachment_rows src last_rowid).
Proof.
  apply Forall_forall. intros m Hm. unfold new_attachment_rows in Hm.
  rewrite merge_sort_Permutation in Hm.
  apply list_elem_of_In, filter_In in Hm as [_ Hm]. lia.
Qed.

Lemma filter_nothing {A} (p : A -> bool) (l : list A) :
  Forall (fun x => p x = false) l -> List.filter p l = [].
Proof.
  induction 1 as [|x l Hx _ IH]; simpl; [reflexivity|].
  rewrite Hx. exact IH.
Qed.

(** Nothing is left above the watermark that a fetch computes. *)
Lemma new_message_rows_consumed src last_rowid :
  new_message_rows src
    (max_or last_rowid (map raw_message_id (new_message_rows src last_rowid)))
  = [].
Proof.
  destruct (max_or_bounds last_rowid
              (map raw_message_id (new_message_rows src last_rowid)))
    as [Hlast Hall].
  { apply Forall_map. apply new_message_rows_above. }
  set (w := max_or _ _) in *.
  unfold new_message_rows at 1. rewrite filter_nothing; [reflexivity|].
  apply Forall_forall. intros m Hm. apply Z.ltb_ge.
  destruct (Z.ltb_spec last_rowid (raw_message_id m)) as [Hgt|]; [|lia].
  rewrite Forall_map, Forall_forall in Hall. apply Hall.
  unfold new_message_rows. rewrite merge_sort_Permutation.
  apply list_elem_of_In, filter_In. split; [apply list_elem_of_In, Hm|].
  apply Z.ltb_lt. exact Hgt.
Qed.

Lemma new_attachment_rows_consumed src last_rowid :
  new_attachment_rows src
    (max_or last_rowid (map att_rowid (new_attachment_rows src last_rowid)))
  = [].
Proof.
  destruct (max_or_bounds last_rowid
              (map att_rowid (new_attachment_rows src last_rowid)))
    as [Hlast Hall].
  { apply Forall_map. apply new_attachment_rows_above. }
  set (w := max_or _ _) in *.
  unfold new_attachment_rows at 1. rewrite filter_nothing; [reflexivity|].
  apply Forall_forall. intros m Hm. apply Z.ltb_ge.
  destruct (Z.ltb_spec last_rowid (att_rowid m)) as [Hgt|]; [|lia].
  rewrite Forall_map, Forall_forall in Hall. apply Hall.
  unfold new_attachment_rows. rewrite merge_sort_Permutation.
  apply list_elem_of_In, filter_In. split; [apply list_elem_of_In, Hm|].
  apply Z.ltb_lt. exact Hgt.
Qed.

#[local] Instance rowid_total :
  Total (fun a b : RawRow => Is_true (raw_message_id a <=? raw_message_id b)).
Proof.
  intros a b.
  destruct (Z.leb_spec (raw_message_id a) (raw_message_id b)) as [H|H].
  - left. exact I.
  - right. apply Is_true_true, Z.leb_le. lia.
Qed.

(** X4.  A fetch that returns delivers the rows of the source above the
    watermark and no others, each once, in ascending order of row id,
    with their dates normalised. *)
Theorem fetch_new_messages_delivers (src : Source) (last_rowid : Z)
  (live live' : option Conn) (rows : list RawRow) (new_rowid : Z) :
  fetch_new_messages src last_rowid live = (inr (rows, new_rowid), live') ->
  rows ≡ₚ map normalise_date
            (List.filter (fun m => last_rowid <? raw_message_id m)
               (src_messages src))
  /\ Sorted Z.le (map raw_message_id rows)
  /\ is_Some live'.
Proof.
  intros H. apply fetch_new_messages_inv in H as (Hl & c & -> & H).
  rewrite (fetch_new_messages_open _ _ _ Hl) in H.
  apply pair_equal_spec in H as [H _]. injection H as <- _.
  split; [|split; [|eauto]].
  - apply Permutation_map. unfold new_message_rows. apply merge_sort_Permutation.
  - rewrite map_map. simpl.
    assert (Hs : Sorted
              (fun a b => Is_true (raw_message_id a <=? raw_message_id b))
              (new_message_rows src last_rowid)).
    { unfold new_message_rows. apply Sorted_merge_sort. apply _. }
    induction Hs as [|a l Hs IH Hhd]; simpl; constructor; [exact IH|].
    destruct Hhd as [|b l' Hab]; simpl; constructor.
    apply Is_true_true, Z.leb_le in Hab. exact Hab.
Qed.

(** X5.  A fetch from the watermark that a fetch has just returned
    finds nothing and returns the same watermark, for messages and for
    attachments: no row is delivered twice. *)
Theorem fetch_resumes_after_watermark (src : Source) (last_rowid : Z)
  (live live' : option Conn) :
  (forall rows new_rowid,
     fetch_new_messages src last_rowid live = (inr (rows, new_rowid), live') ->
     fetch_new_messages src new_rowid live' = (inr ([], new_rowid), live'))
  /\ (forall rows new_rowid,
        fetch_new_attachments src last_rowid live
        = (inr (rows, new_rowid), live') ->
        fetch_new_attachments src new_rowid live'
        = (inr ([], new_rowid), live')).
Proof.
  split; intros rows new_rowid H.
  - apply fetch_new_messages_inv in H as (Hl & c & -> & H).
    rewrite (fetch_new_messages_open _ _ _ Hl) in H.
    apply pair_equal_spec in H as [H _]. injection H as _ <-.
    rewrite (fetch_new_messages_open _ _ _ Hl).
    rewrite new_message_rows_consumed. reflexivity.
  - apply fetch_new_attachments_inv in H as (Hl & c & -> & H).
    rewrite (fetch_new_attachments_open _ _ _ Hl) in H.
    apply pair_equal_spec in H as [H _]. injection H as _ <-.
    rewrite (fetch_new_attachments_open _ _ _ Hl).
    rewrite new_attachment_rows_consumed. reflexivity.
Qed.

(** The example batch of the sync engine as the rows of a source. *)
Lemma fetch_new_messages_delivers_witness :
  exists rows new_rowid,
    fetch_new_messages (mkSource (Some 1%positive) false example_batch [])
      10 None = (inr (rows, new_rowid), Some 1%positive)
    /\ Sorted Z.le (map raw_message_id rows).
Proof.
  eexists. eexists. split; [vm_compute; reflexivity|].
  refine (proj1 (proj2
    (fetch_new_messages_delivers
       (mkSource (Some 1%positive) false example_batch []) 10 None
       (Some 1%positive) _ 11 _))).
  vm_compute. reflexivity.
Defined.

End Extractor.


(** * The watcher cycle (live_sync/wal.py, live_sync/state.py) *)

Module Watcher.

Import Timestamps Sync Extractor.

(** The table live_sync_state is a map keyed by name.  A value is the
    text [str(value)] of an integer and is read back with [int]: it is
    kept here as that integer. *)

(** state.py, get_watermark: [int(result[0]) if result else None]. *)
Definition get_watermark (t : gmap string Z) : option Z :=
  t !! "apple_epoch_ns"%string.

(** state.py, set_watermark: INSERT OR REPLACE. *)
Definition set_watermark (value : Z) (t : gmap string Z) : gmap string Z :=
  <["apple_epoch_ns"%string := value]> t.

(** state.py, get_message_rowid_watermark:
    [int(result[0]) if result and result[0] else 0]. *)
Definition get_message_rowid_watermark (t : gmap string Z) : Z :=
  default 0 (t !! "last_message_rowid"%string).

Definition set_message_rowid_watermark (value : Z) (t : gmap string Z)
  : gmap string Z :=
  <["last_message_rowid"%string := value]> t.

Definition get_attachment_rowid_watermark (t : gmap string Z) : Z :=
  default 0 (t !! "last_attachment_rowid"%string).

Definition set_attachment_rowid_watermark (value : Z) (t : gmap string Z)
  : gmap string Z :=
  <["last_attachment_rowid"%string := value]> t.

(** What sync_messages hands back to the watcher: the rows as it left
    them (it rewrites the participants of its argument in place), the
    number of messages it staged and the count per chat. *)
Record Synced := mkSynced {
  synced_rows : list RawRow;
  synced_imported_count : Z;
  synced_chat_counts : gmap positive Z
}.

(** What [watch] works on: the target store, the table
    live_sync_state, the extractor's connection and the three local
    variables of the function. *)
Record Watch (S : Type) := mkWatch {
  target : S;
  live_sync_state : gmap string Z;
  LIVE_DB_CONNECTION : option Conn;
  current_watermark_ns : Z;
  current_message_rowid : Z;
  current_attachment_rowid : Z
}.

Arguments mkWatch {S} _ _ _ _ _ _.
Arguments target {S} _.
Arguments live_sync_state {S} _.
Arguments LIVE_DB_CONNECTION {S} _.
Arguments current_watermark_ns {S} _.
Arguments current_message_rowid {S} _.
Arguments current_attachment_rowid {S} _.

(** The statements of [watch] before its loop:
    [get_watermark() or 0] and the two row-id getters. *)
Definition watch_start {S} (s : S) (t : gmap string Z) (live : option Conn)
  : Watch S :=
  mkWatch s t live
    (match get_watermark t with
     | Some v => if v =? 0 then 0 else v
     | None => 0
     end)
    (get_message_rowid_watermark t)
    (get_attachment_rowid_watermark t).

Section Cycle.

Context {S : Type}.

(** The engines of the target store.  Each runs in a session of its
    own: [None] stands for a call that raises, after which the store is
    as it was. *)
Variable sync_messages : list RawRow -> S -> option (S * Synced).
Variable etl_conversations : positive -> Q -> S -> option S.
Variable sync_attachments : list AttRow -> S -> option (S * Z).

Definition get : Run (Watch S) (Watch S) := fun w => (inr w, w).

Definition modify (f : Watch S -> Watch S) : Run (Watch S) unit :=
  fun w => (inr tt, f w).

(** A call into the extractor. *)
Definition extractor {A} (m : Exec A) : Run (Watch S) A :=
  fun w =>
    let (r, live) := m (LIVE_DB_CONNECTION w) in
    (r, mkWatch (target w) (live_sync_state w) live
          (current_watermark_ns w) (current_message_rowid w)
          (current_attachment_rowid w)).

(** A call into an engine. *)
Definition engine {A} (f : S -> option (S * A)) : Run (Watch S) A :=
  fun w =>
    match f (target w) with
    | Some (s, a) =>
        (inr a, mkWatch s (live_sync_state w) (LIVE_DB_CONNECTION w)
                  (current_watermark_ns w) (current_message_rowid w)
                  (current_attachment_rowid w))
    | None => (inl EngineError, w)
    end.

(** [current_message_rowid = new_message_rowid;
     set_message_rowid_watermark(current_message_rowid)]. *)
Definition advance_message_rowid (new_message_rowid : Z) (w : Watch S)
  : Watch S :=
  mkWatch (target w)
    (set_message_rowid_watermark new_message_rowid (live_sync_state w))
    (LIVE_DB_CONNECTION w) (current_watermark_ns w) new_message_rowid
    (current_attachment_rowid w).

(** [current_attachment_rowid = new_attachment_rowid;
     set_attachment_rowid_watermark(current_attachment_rowid)]. *)
Definition advance_attachment_rowid (new_attachment_rowid : Z) (w : Watch S)
  : Watch S :=
  mkWatch (target w)
    (set_attachment_rowid_watermark new_attachment_rowid (live_sync_state w))
    (LIVE_DB_CONNECTION w) (current_watermark_ns w)
    (current_message_rowid w) new_attachment_rowid.

(** [set_watermark(new_watermark_ns_candidate);
     current_watermark_ns = new_watermark_ns_candidate]. *)
Definition advance_watermark (new_watermark_ns_candidate : Z) (w : Watch S)
  : Watch S :=
  mkWatch (target w)
    (set_watermark new_watermark_ns_candidate (live_sync_state w))
    (LIVE_DB_CONNECTION w) new_watermark_ns_candidate
    (current_message_rowid w) (current_attachment_rowid w).

(** [datetime(2001, 1, 1) + timedelta(seconds=ns / 1e9)]; the addition
    raises OverflowError outside the range of datetime. *)
Definition watermark_dt (ns : Z) : Run (Watch S) Q :=
  match epoch_plus_seconds (instant_of_nanos ns) with
  | Some dt => ret dt
  | None => raise OverflowError
  end.

(** The loop [for chat_id_val in affected_chats], in the order the set
    is iterated. *)
Fixpoint etl_affected (affected_chats : list positive)
  (prev_watermark_ns_for_this_batch : Z) : Run (Watch S) unit :=
  match affected_chats with
  | [] => ret tt
  | chat_id_val :: rest =>
      bind (watermark_dt prev_watermark_ns_for_this_batch) (fun since_date =>
      bind (engine (fun s =>
              s' ← etl_conversations chat_id_val since_date s;
              Some (s', tt))) (fun _ =>
      etl_affected rest prev_watermark_ns_for_this_batch))
  end.

(** [[m['date'] for m in new_messages if isinstance(m.get('date'), int)]]. *)
Definition valid_message_dates_ns (new_messages : list RawRow) : list Z :=
  omap raw_date new_messages.

(** The block under [if new_messages:].  The latency log between the
    computation of the candidate and [set_watermark] only reads the
    store and prints; it is left out. *)
Definition process_messages (new_messages : list RawRow)
  (new_message_rowid : Z) : Run (Watch S) unit :=
  bind get (fun w0 =>
  let prev_watermark_ns_for_this_batch := current_watermark_ns w0 in
  bind (engine (sync_messages new_messages)) (fun synced =>
  bind (modify (advance_message_rowid new_message_rowid)) (fun _ =>
  bind (etl_affected (elements (dom (synced_chat_counts synced)))
          prev_watermark_ns_for_this_batch) (fun _ =>
  if 0 <? synced_imported_count synced then
    match valid_message_dates_ns (synced_rows synced) with
    | [] => py_print []
    | valid => modify (advance_watermark (py_max valid))
    end
  else ret tt)))).

(** The block under [if new_attachments:]. *)
Definition process_attachments (new_attachments : list AttRow)
  (new_attachment_rowid : Z) : Run (Watch S) unit :=
  bind (engine (sync_attachments new_attachments)) (fun _ =>
  modify (advance_attachment_rowid new_attachment_rowid)).

Definition if_any {A} (rows : list A) (m : Run (Watch S) unit)
  : Run (Watch S) unit :=
  match rows with [] => ret tt | _ => m end.

(** One pass of the body of [while True] in [watch], after the
    debounce: the try block and its
    [except Exception as e: print(..., exc_info=True)].  A result
    [inr tt] is a cycle that ran to its end (or to its [continue]); a
    result [inl e] is an exception that leaves the loop. *)
Definition watch_cycle (src : Source) : Run (Watch S) unit :=
  try_except
    (bind get (fun w =>
     bind (extractor (fetch_new_messages src (current_message_rowid w)))
       (fun '(new_messages, new_message_rowid) =>
     bind (extractor
             (fetch_new_attachments src (current_attachment_rowid w)))
       (fun '(new_attachments, new_attachment_rowid) =>
     match new_messages, new_attachments with
     | [], [] => ret tt
     | _, _ =>
         bind (if_any new_messages
                 (process_messages new_messages new_message_rowid)) (fun _ =>
         bind (if_any new_attachments
                 (process_attachments new_attachments new_attachment_rowid))
           (fun _ =>
         py_print []))
     end))))
    (fun e => py_print ["exc_info"%string]).

End Cycle.

(** The in-memory row-id watermark is the persisted one. *)
Definition in_step {S} (w : Watch S) : Prop :=
  current_message_rowid w = get_message_rowid_watermark (live_sync_state w).

(** sync_messages of live_sync as an engine of the watcher. *)
Definition live_sync_messages (new_rows : list RawRow) (st : State)
  : option (State * Synced) :=
  o ← Sync.sync_messages new_rows st;
  Some (out_state o,
        mkSynced (out_rows o) (out_imported o) (out_chat_counts o)).

(** The condition under which [watch] writes the timestamp watermark:
    [imported_count > 0] and a non-empty list of integer dates. *)
Definition timestamp_advances (r : Synced) : bool :=
  (0 <? synced_imported_count r)
  && bool_decide (valid_message_dates_ns (synced_rows r) <> []).


(** A source with one message and one reaction on it, met by a watcher
    that starts on an empty target store. *)
Definition example_source : Source :=
  mkSource (Some 1%positive) false example_batch [].

Definition example_watch : Watch State :=
  watch_start example_state ∅ None.

(** A conversation engine that finds nothing to write. *)
Definition etl_nothing (chat_id : positive) (since_date : Q) (st : State)
  : option State := Some st.

(** Engines that raise when they are called. *)
Definition etl_raises (chat_id : positive) (since_date : Q) (st : State)
  : option State := None.

Definition sync_attachments_raises (new_rows : list AttRow) (st : State)
  : option (State * Z) := None.

(** A source whose only new row is a reaction (message type 2000), met
    by a watcher whose watermarks are 20 and 728000000 s. *)
Definition reaction_source : Source :=
  mkSource (Some 1%positive) false
    [mkRaw 21 (Some "R"%string) (Some 728000001000000) true
       (Some "iMessage"%string) (Some "p:0/A"%string) (Some 2000) None
       (Some 5%positive) None] [].

Definition reaction_watch : Watch State :=
  watch_start example_state
    (set_message_rowid_watermark 20 (set_watermark 728000000000000000 ∅))
    None.

(** ** Lemmas *)

Section CycleFacts.

Context {S : Type}.
Variable sync_messages : list RawRow -> S -> option (S * Synced).
Variable etl_conversations : positive -> Q -> S -> option S.
Variable sync_attachments : list AttRow -> S -> option (S * Z).

(** Conversation building writes to the target store only. *)
Lemma etl_affected_frame affected prev (w w' : Watch S) r :
  etl_affected etl_conversations affected prev w = (r, w') ->
  live_sync_state w' = live_sync_state w
  /\ LIVE_DB_CONNECTION w' = LIVE_DB_CONNECTION w
  /\ current_watermark_ns w' = current_watermark_ns w
  /\ current_message_rowid w' = current_message_rowid w
  /\ current_attachment_rowid w' = current_attachment_rowid w.
Proof.
  revert w. induction affected as [|c rest IH]; intros w; simpl.
  - intros [= _ <-]. auto.
  - unfold bind at 1. unfold watermark_dt.
    destruct (epoch_plus_seconds _) as [dt|]; simpl;
      [|intros [= _ <-]; auto].
    unfold bind at 1, engine.
    destruct (etl_conversations c dt (target w)) as [s'|]; simpl;
      [|intros [= _ <-]; auto].
    intros H. apply IH in H. simpl in H. exact H.
Qed.

Lemma rowid_after_set v (t : gmap string Z) :
  get_message_rowid_watermark (set_message_rowid_watermark v t) = v.
Proof.
  unfold get_message_rowid_watermark, set_message_rowid_watermark.
  rewrite lookup_insert_eq. reflexivity.
Qed.

Lemma rowid_after_set_watermark v (t : gmap string Z) :
  get_message_rowid_watermark (set_watermark v t)
  = get_message_rowid_watermark t.
Proof.
  unfold get_message_rowid_watermark, set_watermark.
  rewrite lookup_insert_ne by discriminate. reflexivity.
Qed.

Lemma rowid_after_set_attachment v (t : gmap string Z) :
  get_message_rowid_watermark (set_attachment_rowid_watermark v t)
  = get_message_rowid_watermark t.
Proof.
  unfold get_message_rowid_watermark, set_attachment_rowid_watermark.
  rewrite lookup_insert_ne by discriminate. reflexivity.
Qed.

Lemma watermark_after_set v (t : gmap string Z) :
  get_watermark (set_watermark v t) = Some v.
Proof. apply lookup_insert_eq. Qed.

Lemma watermark_after_set_rowid v (t : gmap string Z) :
  get_watermark (set_message_rowid_watermark v t) = get_watermark t.
Proof. apply lookup_insert_ne. discriminate. Qed.

Lemma watermark_after_set_attachment v (t : gmap string Z) :
  get_watermark (set_attachment_rowid_watermark v t) = get_watermark t.
Proof. apply lookup_insert_ne. discriminate. Qed.

Lemma process_messages_returns rows new_rowid (w w' : Watch S) :
  process_messages sync_messages etl_conversations rows new_rowid w
  = (inr tt, w') ->
  exists s r,
    sync_messages rows (target w) = Some (s, r)
    /\ current_message_rowid w' = new_rowid
    /\ get_message_rowid_watermark (live_sync_state w') = new_rowid
    /\ current_attachment_rowid w' = current_attachment_rowid w
    /\ get_watermark (live_sync_state w')
       = (if timestamp_advances r
          then Some (py_max (valid_message_dates_ns (synced_rows r)))
          else get_watermark (live_sync_state w)).
Proof.
  unfold process_messages. unfold bind at 1, get.
  unfold bind at 1, engine.
  destruct (sync_messages rows (target w)) as [[s r]|]; [|discriminate].
  unfold bind at 1, modify.
  set (w1 := advance_message_rowid new_rowid _).
  unfold bind.
  destruct (etl_affected _ _ _ w1) as [[e|[]] w2] eqn:Hetl; [discriminate|].
  apply etl_affected_frame in Hetl as (Ht & _ & Hns & Hm & Ha).
  subst w1. simpl in Ht, Hns, Hm, Ha.
  intros H. exists s, r. split; [reflexivity|].
  unfold timestamp_advances.
  destruct (0 <? synced_imported_count r).
  - destruct (valid_message_dates_ns (synced_rows r)) as [|d ds] eqn:Ev.
    + unfold py_print in H. simpl in H. injection H as <-.
      rewrite Ht, rowid_after_set, watermark_after_set_rowid.
      simpl. auto.
    + unfold modify in H. injection H as <-. simpl.
      rewrite Ht, rowid_after_set_watermark, rowid_after_set,
        watermark_after_set.
      simpl. auto.
  - unfold ret in H. injection H as <-.
    rewrite Ht, rowid_after_set, watermark_after_set_rowid. auto.
Qed.

Lemma process_attachments_returns atts new_rowid (w w' : Watch S) :
  process_attachments sync_attachments atts new_rowid w = (inr tt, w') ->
  current_message_rowid w' = current_message_rowid w
  /\ get_message_rowid_watermark (live_sync_state w')
     = get_message_rowid_watermark (live_sync_state w)
  /\ get_watermark (live_sync_state w') = get_watermark (live_sync_state w).
Proof.
  unfold process_attachments, bind, engine, modify.
  destruct (sync_attachments atts (target w)) as [[s n]|]; [|discriminate].
  intros [= <-]. simpl.
  rewrite rowid_after_set_attachment, watermark_after_set_attachment. auto.
Qed.


(** The except clause of the loop raises from its print, so a cycle
    that ends without an exception is one whose try block did. *)
Lemma handler_raises (body : Run (Watch S) unit) (w w' : Watch S) x :
  try_except body (fun _ => py_print ["exc_info"%string]) w = (inr x, w') ->
  body w = (inr x, w').
Proof.
  unfold try_except. destruct (body w) as [[e|y] w1]; [discriminate|].
  intros H. exact H.
Qed.

(** C9, as the code behaves.  A cycle of the watcher that ends without
    an exception, started with the in-memory message row-id watermark
    equal to the persisted one, has fetched some rows with a new
    row-id watermark (the maximum row id of the rows, or the old
    watermark when there is none); afterwards the persisted message row-id watermark
    is that value, it is at least the previous one, and the in-memory
    copy agrees with it again.  The timestamp watermark apple_epoch_ns
    is the maximum of the integer dates of the batch exactly when the
    batch was not empty, sync_messages counted at least one imported
    message and some row carries a date; in every other case it is left
    as it was. *)
Theorem watch_cycle_watermarks (src : Source) (w w' : Watch S) :
  in_step w ->
  watch_cycle sync_messages etl_conversations sync_attachments src w
  = (inr tt, w') ->
  exists new_messages new_message_rowid live,
    fetch_new_messages src (current_message_rowid w) (LIVE_DB_CONNECTION w)
    = (inr (new_messages, new_message_rowid), live)
    /\ new_message_rowid
       = match new_messages with
         | [] => current_message_rowid w
         | _ => py_max (map raw_message_id new_messages)
         end
    /\ in_step w'
    /\ get_message_rowid_watermark (live_sync_state w') = new_message_rowid
    /\ get_message_rowid_watermark (live_sync_state w)
       <= get_message_rowid_watermark (live_sync_state w')
    /\ match new_messages with
       | [] =>
           get_watermark (live_sync_state w')
           = get_watermark (live_sync_state w)
       | _ =>
           exists s r,
             sync_messages new_messages (target w) = Some (s, r)
             /\ get_watermark (live_sync_state w')
                = (if timestamp_advances r
                   then Some (py_max
                                (valid_message_dates_ns (synced_rows r)))
                   else get_watermark (live_sync_state w))
       end.
Proof.
  intros Hstep H. unfold in_step in *.
  apply handler_raises in H.
  unfold bind at 1, get in H. unfold bind at 1, extractor at 1 in H.
  destruct (fetch_new_messages src (current_message_rowid w)
              (LIVE_DB_CONNECTION w)) as [[e|[rows new_rowid]] live1] eqn:Hf;
    [discriminate|].
  destruct (fetch_new_messages_returns _ _ _ _ _ _ Hf)
    as (_ & Hnil & Hmax & Hle).
  set (w1 := mkWatch _ _ live1 _ _ _) in H.
  unfold bind at 1, extractor in H.
  change (LIVE_DB_CONNECTION w1) with live1 in H.
  destruct (fetch_new_attachments src (current_attachment_rowid w) live1)
    as [[e|[atts new_att]] live2]; [discriminate|].
  set (w2 := mkWatch _ _ live2 _ _ _) in H.
  assert (Hatt : forall wm,
    if_any atts (process_attachments sync_attachments atts new_att) wm
    = (inr tt, w') ->
    current_message_rowid w' = current_message_rowid wm
    /\ get_message_rowid_watermark (live_sync_state w')
       = get_message_rowid_watermark (live_sync_state wm)
    /\ get_watermark (live_sync_state w')
       = get_watermark (live_sync_state wm)).
  { intros wm. destruct atts as [|a atts'].
    - intros [= <-]. auto.
    - apply process_attachments_returns. }
  exists rows, new_rowid, live1. split; [reflexivity|].
  split;
    [destruct rows; [apply Hnil; reflexivity | apply Hmax; discriminate]|].
  clear Hmax. destruct rows as [|m rows'].
  - specialize (Hnil eq_refl). subst new_rowid.
    assert (Hsame :
      current_message_rowid w' = current_message_rowid w
      /\ get_message_rowid_watermark (live_sync_state w')
         = get_message_rowid_watermark (live_sync_state w)
      /\ get_watermark (live_sync_state w')
         = get_watermark (live_sync_state w)).
    { destruct atts as [|a atts'].
      - injection H as <-. auto.
      - unfold bind at 1 in H. unfold if_any at 1, ret at 1 in H.
        unfold bind in H.
        destruct (if_any _ _ w2) as [[e|[]] w3] eqn:Ha; [discriminate|].
        unfold py_print in H. simpl in H. injection H as <-.
        apply Hatt in Ha. exact Ha. }
    destruct Hsame as (Hm & Hp & Ht).
    rewrite Hm, Hp, Ht. repeat split; auto. lia.
  - assert (H' :
      bind (process_messages sync_messages etl_conversations
              (m :: rows') new_rowid) (fun _ =>
      bind (if_any atts (process_attachments sync_attachments atts new_att))
        (fun _ => py_print [])) w2 = (inr tt, w')).
    { destruct atts; exact H. }
    clear H. unfold bind at 1 in H'.
    destruct (process_messages _ _ _ _ w2) as [[e|[]] w3] eqn:Hm;
      [discriminate|].
    apply process_messages_returns in Hm
      as (s & r & Hsync & Hcur & Hper & _ & Hts).
    unfold bind in H'.
    destruct (if_any atts _ w3) as [[e|[]] w4] eqn:Ha; [discriminate|].
    unfold py_print in H'. simpl in H'. injection H' as <-.
    apply Hatt in Ha as (Hm4 & Hp4 & Ht4).
    rewrite Hm4, Hp4, Ht4, Hcur, Hper.
    repeat split; auto; [lia|].
    exists s, r. split; [exact Hsync | exact Hts].
Qed.

End CycleFacts.

(** The cycle on the example source: both rows are fetched, the message
    is imported, and both watermarks move. *)
Lemma watch_cycle_watermarks_witness :
  in_step example_watch
  /\ (watch_cycle live_sync_messages etl_nothing sync_attachments_raises
        example_source example_watch).1 = inr tt
  /\ in_step
       (watch_cycle live_sync_messages etl_nothing sync_attachments_raises
          example_source example_watch).2
  /\ live_sync_state
       (watch_cycle live_sync_messages etl_nothing sync_attachments_raises
          example_source example_watch).2
     = set_watermark 728000001000000000 (set_message_rowid_watermark 11 ∅).
Proof.
  split; [reflexivity|]. split; [vm_compute; reflexivity|].
  split; [|vm_compute; reflexivity].
  destruct (watch_cycle_watermarks live_sync_messages etl_nothing
              sync_attachments_raises example_source example_watch
              (watch_cycle live_sync_messages etl_nothing
                 sync_attachments_raises example_source example_watch).2)
    as (rows & new_rowid & live & _ & _ & Hstep & _).
  - reflexivity.
  - vm_compute. reflexivity.
  - exact Hstep.
Defined.

(** C9, counterexample to the claim as stated.  A cycle whose batch is
    one reaction ends without an exception and moves the row-id
    watermark from 20 to 21; the maximum of the dates of the batch is
    728000001000000000 ns, and the timestamp watermark is still
    728000000000000000.  The engines for conversations and attachments
    raise when called: the cycle does not reach them. *)
Lemma reaction_batch_keeps_timestamp_watermark :
  exists (w' : Watch State) (rows : list RawRow),
    fetch_new_messages reaction_source (current_message_rowid reaction_watch)
      (LIVE_DB_CONNECTION reaction_watch)
    = (inr (rows, 21), Some 1%positive)
    /\ py_max (valid_message_dates_ns rows) = 728000001000000000
    /\ watch_cycle live_sync_messages etl_raises sync_attachments_raises
         reaction_source reaction_watch = (inr tt, w')
    /\ get_message_rowid_watermark (live_sync_state w') = 21
    /\ get_watermark (live_sync_state w') = Some 728000000000000000.
Proof.
  eexists. eexists.
  split; [vm_compute; reflexivity|].
  split; [vm_compute; reflexivity|].
  split; [vm_compute; reflexivity|].
  split; vm_compute; reflexivity.
Qed.

(** ** Start-up of the row-id watermarks (live_sync/state.py) *)

(** The ROWID columns of the tables message and attachment of chat.db,
    which the two MAX queries read without the joins of the fetch
    queries. *)
Record SourceTables := mkTables {
  message_rowids : list Z;
  attachment_rowids : list Z
}.

(** [SELECT MAX(ROWID) FROM t], [cursor.fetchone()[0]]: NULL on an
    empty table. *)
Definition select_max_rowid (src : Source) (rowids : list Z)
  : Exec (option Z) :=
  if src_locked src then raise SqliteError
  else ret (match rowids with [] => None | _ => Some (py_max rowids) end).

(** The value written for [max_rowid]: itself when truthy, 0
    otherwise. *)
Definition rowid_or_zero (max_rowid : option Z) : Z :=
  match max_rowid with
  | Some v => if v =? 0 then 0 else v
  | None => 0
  end.

(** The state of the start-up: the table live_sync_state and the
    extractor's connection. *)
Definition Startup : Type := (gmap string Z * option Conn)%type.

Definition on_connection {A} (m : Exec A) : Run Startup A :=
  fun s => let (r, live) := m s.2 in (r, (s.1, live)).

Definition on_state (f : gmap string Z -> gmap string Z) : Run Startup unit :=
  fun s => (inr tt, (f s.1, s.2)).

Definition read_state {A} (f : gmap string Z -> A) : Run Startup A :=
  fun s => (inr (f s.1), s).

(** state.py, initialize_rowid_watermarks_if_missing.  Its statements
    on chat.db are not inside a try block. *)
Definition initialize_rowid_watermarks_if_missing (src : Source)
  (tabs : SourceTables) : Run Startup (Z * Z) :=
  bind (read_state get_message_rowid_watermark) (fun message_rowid =>
  bind (read_state get_attachment_rowid_watermark) (fun attachment_rowid =>
  bind
    (if (message_rowid =? 0) && (attachment_rowid =? 0) then
       bind (on_connection (get_chat_db_connection src)) (fun conn =>
       bind (on_connection (select_max_rowid src (message_rowids tabs)))
         (fun max_message_rowid =>
       bind (on_state
               (set_message_rowid_watermark (rowid_or_zero max_message_rowid)))
         (fun _ =>
       bind (on_connection (select_max_rowid src (attachment_rowids tabs)))
         (fun max_attachment_rowid =>
       on_state
         (set_attachment_rowid_watermark
            (rowid_or_zero max_attachment_rowid))))))
     else ret tt) (fun _ =>
  bind (read_state get_message_rowid_watermark) (fun m =>
  bind (read_state get_attachment_rowid_watermark) (fun a =>
  ret (m, a)))))).



(** ** Further properties of the watcher *)


Section CycleRuns.

Context {S : Type}.
Variable sync_messages : list RawRow -> S -> option (S * Synced).
Variable etl_conversations : positive -> Q -> S -> option S.
Variable sync_attachments : list AttRow -> S -> option (S * Z).

Lemma extractor_same {A} (m : Exec A) (w : Watch S) r :
  m (LIVE_DB_CONNECTION w) = (r, LIVE_DB_CONNECTION w) ->
  extractor m w = (r, w).
Proof. intros H. unfold extractor. rewrite H. destruct w; reflexivity. Qed.

Lemma process_messages_frame rows new_rowid (w w' : Watch S) r :
  process_messages sync_messages etl_conversations rows new_rowid w = (r, w') ->
  LIVE_DB_CONNECTION w' = LIVE_DB_CONNECTION w
  /\ current_attachment_rowid w' = current_attachment_rowid w.
Proof.
  unfold process_messages. unfold bind at 1, get. unfold bind at 1, engine.
  destruct (sync_messages rows (target w)) as [[s sy]|];
    [|intros [= _ <-]; auto].
  unfold bind at 1, modify.
  set (w1 := advance_message_rowid new_rowid _).
  unfold bind.
  destruct (etl_affected _ _ _ w1) as [[e|[]] w2] eqn:Hetl.
  - apply etl_affected_frame in Hetl as (_ & Hc & _ & _ & Ha).
    intros [= _ <-]. rewrite Hc, Ha. auto.
  - apply etl_affected_frame in Hetl as (_ & Hc & _ & _ & Ha).
    destruct (0 <? synced_imported_count sy).
    + destruct (valid_message_dates_ns (synced_rows sy)).
      * unfold py_print. simpl. intros [= _ <-]. rewrite Hc, Ha. auto.
      * unfold modify. intros [= _ <-]. simpl. rewrite Hc, Ha. auto.
    + intros [= _ <-]. rewrite Hc, Ha. auto.
Qed.

Lemma process_attachments_frame atts new_rowid (w w' : Watch S) :
  process_attachments sync_attachments atts new_rowid w = (inr tt, w') ->
  LIVE_DB_CONNECTION w' = LIVE_DB_CONNECTION w
  /\ current_message_rowid w' = current_message_rowid w
  /\ current_attachment_rowid w' = new_rowid.
Proof.
  unfold process_attachments, bind, engine, modify.
  destruct (sync_attachments atts (target w)) as [[s n]|]; [|discriminate].
  intros [= <-]. auto.
Qed.

(** Where a cycle that ran to its end leaves the in-memory watermarks
    and the connection. *)
Lemma watch_cycle_positions (src : Source) (w w' : Watch S) :
  watch_cycle sync_messages etl_conversations sync_attachments src w
  = (inr tt, w') ->
  src_locked src = false
  /\ exists c,
       LIVE_DB_CONNECTION w' = Some c
       /\ current_message_rowid w'
          = max_or (current_message_rowid w)
              (map raw_message_id
                 (new_message_rows src (current_message_rowid w)))
       /\ current_attachment_rowid w'
          = max_or (current_attachment_rowid w)
              (map att_rowid
                 (new_attachment_rows src (current_attachment_rowid w))).
Proof.
  intros H. apply handler_raises in H.
  unfold bind at 1, get in H. unfold bind at 1, extractor at 1 in H.
  destruct (fetch_new_messages src (current_message_rowid w)
              (LIVE_DB_CONNECTION w)) as [[e|[rows new_rowid]] live1] eqn:Hf;
    [discriminate|].
  apply fetch_new_messages_inv in Hf as (Hl & c & -> & Hf).
  rewrite (fetch_new_messages_open _ _ _ Hl) in Hf.
  apply pair_equal_spec in Hf as [Hf _]. injection Hf as <- <-.
  set (w1 := mkWatch _ _ (Some c) _ _ _) in H.
  unfold bind at 1, extractor in H.
  change (LIVE_DB_CONNECTION w1) with (Some c) in H.
  rewrite (fetch_new_attachments_open _ _ _ Hl) in H.
  set (w2 := mkWatch _ _ (Some c) _ _ _) in H.
  set (rows := new_message_rows src (current_message_rowid w)) in *.
  set (atts := new_attachment_rows src (current_attachment_rowid w)) in *.
  split; [exact Hl|]. exists c.
  assert (Hatt : forall wm,
    if_any atts (process_attachments sync_attachments atts
                   (max_or (current_attachment_rowid w) (map att_rowid atts)))
      wm = (inr tt, w') ->
    current_attachment_rowid wm = current_attachment_rowid w ->
    LIVE_DB_CONNECTION w' = LIVE_DB_CONNECTION wm
    /\ current_message_rowid w' = current_message_rowid wm
    /\ current_attachment_rowid w'
       = max_or (current_attachment_rowid w) (map att_rowid atts)).
  { intros wm. destruct atts as [|a atts'].
    - intros [= <-] Hw. auto.
    - intros Ha _. apply process_attachments_frame in Ha. exact Ha. }
  destruct (map normalise_date rows) as [|m rows'] eqn:Erows.
  - assert (Hr : rows = []) by (destruct rows; [reflexivity|discriminate]).
    rewrite Hr. simpl max_or at 1.
    destruct atts as [|a atts'] eqn:Eatts.
    + injection H as <-. simpl. auto.
    + unfold bind at 1 in H. unfold if_any at 1, ret at 1 in H.
      unfold bind in H.
      destruct (if_any _ _ w2) as [[e|[]] w3] eqn:Ha; [discriminate|].
      unfold py_print in H. simpl in H. injection H as <-.
      apply Hatt in Ha; [|reflexivity]. exact Ha.
  - assert (H' :
      bind (process_messages sync_messages etl_conversations
              (m :: rows')
              (max_or (current_message_rowid w) (map raw_message_id rows)))
        (fun _ =>
      bind (if_any atts
              (process_attachments sync_attachments atts
                 (max_or (current_attachment_rowid w) (map att_rowid atts))))
        (fun _ => py_print [])) w2 = (inr tt, w')).
    { destruct atts; exact H. }
    clear H. unfold bind at 1 in H'.
    destruct (process_messages _ _ _ _ w2) as [[e|[]] w3] eqn:Hm;
      [discriminate|].
    pose proof (process_messages_frame _ _ _ _ _ Hm) as [Hc3 Ha3].
    apply process_messages_returns in Hm as (_ & _ & _ & Hcur & _).
    unfold bind in H'.
    destruct (if_any atts _ w3) as [[e|[]] w4] eqn:Ha; [discriminate|].
    unfold py_print in H'. simpl in H'. injection H' as <-.
    apply Hatt in Ha as (Hc4 & Hm4 & Ha4); [|exact Ha3].
    rewrite Hc4, Hm4, Ha4, Hc3, Hcur. auto.
Qed.

(** X6.  A cycle that ran to its end has consumed its batch: the same cycle
    on the same source, from the state it left, fetches nothing and
    changes nothing, whatever the engines. *)
Theorem watch_cycle_consumes_its_batch (src : Source) (w w' : Watch S) :
  watch_cycle sync_messages etl_conversations sync_attachments src w
  = (inr tt, w') ->
  watch_cycle sync_messages etl_conversations sync_attachments src w'
  = (inr tt, w').
Proof.
  intros H. apply watch_cycle_positions in H as (Hl & c & Hc & Hm & Ha).
  unfold watch_cycle, try_except.
  unfold bind at 1, get. unfold bind at 1.
  rewrite (extractor_same _ w' (inr ([], current_message_rowid w'))).
  2:{ rewrite Hc, (fetch_new_messages_open _ _ _ Hl), Hm.
      rewrite new_message_rows_consumed. reflexivity. }
  unfold bind at 1.
  rewrite (extractor_same _ w' (inr ([], current_attachment_rowid w'))).
  2:{ rewrite Hc, (fetch_new_attachments_open _ _ _ Hl), Ha.
      rewrite new_attachment_rows_consumed. reflexivity. }
  reflexivity.
Qed.

(** X7.  A cycle never ends with an exception other than TypeError: the
    except clause of the loop raises it from its print.  In particular
    a cycle on a locked source ends the loop with TypeError, with the
    target store and every watermark as they were. *)
Theorem watch_cycle_raises_TypeError (src : Source) (w : Watch S) :
  (forall e w',
     watch_cycle sync_messages etl_conversations sync_attachments src w
     = (inl e, w') -> e = TypeError)
  /\ (src_locked src = true ->
      exists w',
        watch_cycle sync_messages etl_conversations sync_attachments src w
        = (inl TypeError, w')
        /\ target w' = target w
        /\ live_sync_state w' = live_sync_state w
        /\ current_message_rowid w' = current_message_rowid w
        /\ current_attachment_rowid w' = current_attachment_rowid w).
Proof.
  split.
  - intros e w'. unfold watch_cycle, try_except.
    match goal with |- context [bind ?a ?b w] => destruct (bind a b w) as [[e'|[]] w1] end.
    + unfold py_print. simpl. intros [= <- _]. reflexivity.
    + discriminate.
  - intros Hlock. unfold watch_cycle, try_except.
    unfold bind at 1, get. unfold bind at 1, extractor at 1.
    assert (Hf : exists live1,
      fetch_new_messages src (current_message_rowid w) (LIVE_DB_CONNECTION w)
      = (inl TypeError, live1)).
    { unfold fetch_new_messages, try_except, bind, get_chat_db_connection,
        select_messages. rewrite Hlock.
      destruct (LIVE_DB_CONNECTION w); [|destruct (src_connect src)];
        simpl; eauto. }
    destruct Hf as [live1 ->]. unfold py_print. simpl.
    eexists. split; [reflexivity|]. simpl. auto.
Qed.

End CycleRuns.



(** A start-up with a watermark already recorded touches nothing. *)
Lemma initialize_rowid_watermarks_kept src tabs (s : Startup) :
  get_message_rowid_watermark s.1 <> 0
  \/ get_attachment_rowid_watermark s.1 <> 0 ->
  initialize_rowid_watermarks_if_missing src tabs s
  = (inr (get_message_rowid_watermark s.1,
          get_attachment_rowid_watermark s.1), s).
Proof.
  intros H. unfold initialize_rowid_watermarks_if_missing.
  unfold bind at 1, read_state at 1. unfold bind at 1, read_state at 1.
  assert (Hb : (get_message_rowid_watermark s.1 =? 0)
               && (get_attachment_rowid_watermark s.1 =? 0) = false).
  { apply andb_false_iff. rewrite !Z.eqb_neq. exact H. }
  rewrite Hb. reflexivity.
Qed.


Lemma watch_cycle_consumes_its_batch_witness :
  (watch_cycle live_sync_messages etl_nothing sync_attachments_raises
     example_source example_watch).1 = inr tt
  /\ watch_cycle live_sync_messages etl_nothing sync_attachments_raises
       example_source
       (watch_cycle live_sync_messages etl_nothing sync_attachments_raises
          example_source example_watch).2
     = (inr tt,
        (watch_cycle live_sync_messages etl_nothing sync_attachments_raises
           example_source example_watch).2).
Proof.
  split; [vm_compute; reflexivity|].
  apply (watch_cycle_consumes_its_batch live_sync_messages etl_nothing
           sync_attachments_raises example_source example_watch).
  vm_compute. reflexivity.
Defined.


End Watcher.

(* ===================================================================== *)
(** * Attachments (live_sync/sync_attachments.py, etl_attachments.py) *)
(* ===================================================================== *)

Module Attachments.

Import Normaliser Timestamps Sync.

(** A row dictionary of the attachment queries. *)
Record AttachmentRaw := mkAttachmentRaw {
  ar_rowid : Z;
  ar_guid : option string;
  ar_created_date : option Z;
  ar_filename : option string;
  ar_uti : option string;
  ar_mime_type : option string;
  ar_total_bytes : option Z;
  ar_is_sticker : option Z;
  ar_message_guid : option string
}.

(** A tuple staged for INSERT INTO attachments. *)
Record AttachmentTuple := mkAttachmentTuple {
  at_message_id : positive;
  at_guid : option string;
  at_created_date : option Q;
  at_file_name : option string;
  at_uti : option string;
  at_mime_type : option string;
  at_size : option Z;
  at_is_sticker : option Z
}.

Record AttachmentRow := mkAttachmentRow {
  atr_id : positive;
  atr_data : AttachmentTuple
}.

(** The state the attachment engines work on: the state of the sync
    engine, the table attachments with its AUTOINCREMENT counter, and
    the attachment cache of live_sync/cache.py with its flag. *)
Record AttState := mkAttState {
  as_sync : State;
  attachments : list AttachmentRow;
  attachments_seq : positive;
  ATTACHMENT_GUID_CACHE : gset (option string);
  _attachment_guid_cache_populated : bool
}.

(** [SELECT guid FROM attachments], added to the cleared cache. *)
Definition load_attachment_guids (rows : list AttachmentRow)
  : gset (option string) :=
  fold_left (fun s r => {[at_guid (atr_data r)]} ∪ s) rows ∅.

(** live_sync/cache.py, get_attachment_guids. *)
Definition get_attachment_guids (s : AttState) : AttState :=
  if bool_decide (ATTACHMENT_GUID_CACHE s = ∅)
     || negb (_attachment_guid_cache_populated s)
  then mkAttState (as_sync s) (attachments s) (attachments_seq s)
         (load_attachment_guids (attachments s)) true
  else s.

(** [bool(row['is_sticker'])], as SQLite stores it. *)
Definition py_bool (v : option Z) : option Z :=
  match v with
  | Some n => Some (if n =? 0 then 0 else 1)
  | None => Some 0
  end.

(** The variables of the loop of sync_attachments. *)
Record AttLoop := mkAttLoop {
  attachments_to_insert : list AttachmentTuple;
  al_imported_count : Z;
  al_skipped_count : Z
}.

(** One iteration of [for row in new_rows] of sync_attachments. *)
Definition stage_attachment (message_map : gmap (option string) positive)
  (attachment_guid_cache : gset (option string)) (L : AttLoop)
  (row : AttachmentRaw) : AttLoop :=
  if bool_decide (ar_guid row ∈ attachment_guid_cache) then
    mkAttLoop (attachments_to_insert L) (al_imported_count L)
      (al_skipped_count L + 1)
  else
    match message_map !! ar_message_guid row with
    | None =>
        mkAttLoop (attachments_to_insert L) (al_imported_count L)
          (al_skipped_count L + 1)
    | Some message_id =>
        mkAttLoop
          (attachments_to_insert L
             ++ [mkAttachmentTuple message_id (ar_guid row)
                   (_convert_apple_timestamp (ar_created_date row))
                   (ar_filename row) (ar_uti row) (ar_mime_type row)
                   (ar_total_bytes row) (py_bool (ar_is_sticker row))])
          (al_imported_count L + 1) (al_skipped_count L)
    end.

(** [INSERT INTO attachments ...] for one tuple, on a connection with
    [PRAGMA foreign_keys = ON]; None is the IntegrityError of the
    foreign key message_id or of the UNIQUE constraint on guid (NULL
    guids never conflict). *)
Definition insert_attachment (message_ids : list positive)
  (tab : list AttachmentRow * positive) (t : AttachmentTuple)
  : option (list AttachmentRow * positive) :=
  if negb (bool_decide (at_message_id t ∈ message_ids))
     || bool_decide (is_Some (at_guid t))
        && existsb (fun r => bool_decide (at_guid (atr_data r) = at_guid t))
             tab.1
  then None
  else Some (tab.1 ++ [mkAttachmentRow tab.2 t], Pos.succ tab.2).

(** [cursor.executemany] on the table attachments. *)
Fixpoint insert_attachments (message_ids : list positive)
  (tab : list AttachmentRow * positive) (l : list AttachmentTuple)
  : option (list AttachmentRow * positive) :=
  match l with
  | [] => Some tab
  | t :: r =>
      tab' ← insert_attachment message_ids tab t;
      insert_attachments message_ids tab' r
  end.

(** The ids of the table messages. *)
Definition message_ids (d : Db) : list positive := map mr_id (messages d).

(** live_sync/sync_attachments.py, sync_attachments: the state
    afterwards and the returned count; None when the bulk insert
    raises. *)
Definition sync_attachments (new_rows : list AttachmentRaw) (s : AttState)
  : option (AttState * Z) :=
  match new_rows with
  | [] => Some (s, 0)
  | _ =>
      let base := get_message_guid_to_id_map (as_sync s) in
      let message_map := MESSAGE_GUID_TO_ID_CACHE (st_caches base) in
      let s1 :=
        get_attachment_guids
          (mkAttState base (attachments s) (attachments_seq s)
             (ATTACHMENT_GUID_CACHE s) (_attachment_guid_cache_populated s)) in
      let L :=
        fold_left (stage_attachment message_map (ATTACHMENT_GUID_CACHE s1))
          new_rows (mkAttLoop [] 0 0) in
      match attachments_to_insert L with
      | [] => Some (s1, al_imported_count L)
      | staged =>
          tab ← insert_attachments (message_ids (st_db base))
                  (attachments s1, attachments_seq s1) staged;
          Some (mkAttState (as_sync s1) tab.1 tab.2
                  (fold_left (fun c t => {[at_guid t]} ∪ c) staged
                     (ATTACHMENT_GUID_CACHE s1))
                  (_attachment_guid_cache_populated s1),
                al_imported_count L)
      end
  end.

(** One iteration of the loop of load_attachments: a missing message
    and an IntegrityError are both counted as skipped. *)
Definition load_attachment (message_map : gmap (option string) positive)
  (ids : list positive) (acc : list AttachmentRow * positive * (Z * Z))
  (att : AttachmentRaw) : list AttachmentRow * positive * (Z * Z) :=
  let '(tab, (imported_count, skipped_count)) := acc in
  match message_map !! ar_message_guid att with
  | None => (tab, (imported_count, skipped_count + 1))
  | Some message_id =>
      match insert_attachment ids tab
              (mkAttachmentTuple message_id (ar_guid att)
                 (_convert_apple_timestamp (ar_created_date att))
                 (ar_filename att) (ar_uti att) (ar_mime_type att)
                 (ar_total_bytes att) (ar_is_sticker att)) with
      | Some tab' => (tab', (imported_count + 1, skipped_count))
      | None => (tab, (imported_count, skipped_count + 1))
      end
  end.

(** etl_attachments.py, load_attachments: the table afterwards and the
    pair (imported_count, skipped_count).  The map of the messages is
    read from the table messages, not from the cache. *)
Definition load_attachments (atts : list AttachmentRaw) (d : Db)
  (tab : list AttachmentRow * positive)
  : list AttachmentRow * positive * (Z * Z) :=
  fold_left (load_attachment (load_message_guid_map d) (message_ids d)) atts
    (tab, (0, 0)).



(** A store with one chat and one message of it, no attachment and
    cold caches; a batch of two attachments, the first on that
    message, the second on a message the store does not have. *)
Definition example_store : AttState :=
  mkAttState
    (mkState
       (mkDb [] []
          [mkChat 1 (Some "4155550100"%string) false (Some "iMessage"%string) 1]
          [mkMessageRow 1
             (mkMessageTuple 1 None (Some (inject_Z 728000000)) true (Some 0)
                (Some "iMessage"%string) (Some "A"%string))]
          [] 1 2 2 1 [])
       (mkCaches ∅ false ∅ false ∅ false ∅ false ∅ false))
    [] 1 ∅ false.

Definition example_attachments : list AttachmentRaw :=
  [mkAttachmentRaw 7 (Some "at_0_A"%string) (Some 728000000000000000)
     (Some "~/Library/Messages/Attachments/a.jpeg"%string)
     (Some "public.jpeg"%string) (Some "image/jpeg"%string) (Some 2048)
     (Some 0) (Some "A"%string);
   mkAttachmentRaw 8 (Some "at_0_Z"%string) (Some 728000001000000000)
     None None None None None (Some "Z"%string)].

(** ** What the attachment engines leave behind *)

(** The outcome of the staging loop: the tuples it appends, in order,
    belong to rows that are not cached and whose message is known;
    every other row is cached or has no known message. *)
Lemma stage_loop message_map cache rows : forall L,
  exists staged,
    attachments_to_insert (fold_left (stage_attachment message_map cache) rows L)
    = attachments_to_insert L ++ staged
    /\ al_imported_count (fold_left (stage_attachment message_map cache) rows L)
       = al_imported_count L + Z.of_nat (length staged)
    /\ Forall (fun t => exists row, row ∈ rows
                 /\ (ar_guid row ∉ cache)
                 /\ message_map !! ar_message_guid row = Some (at_message_id t)
                 /\ at_guid t = ar_guid row) staged
    /\ Forall (fun row => ar_guid row ∈ cache
                 \/ message_map !! ar_message_guid row = None
                 \/ ar_guid row ∈ map at_guid staged) rows.
Proof.
  induction rows as [|row rows IH]; intros L.
  - exists []. cbn. rewrite app_nil_r. repeat split; try constructor; lia.
  - cbn [fold_left].
    destruct (IH (stage_attachment message_map cache L row))
      as (staged & H1 & H2 & H3 & H4).
    rewrite H1, H2. clear H1 H2.
    assert (Hrest : Forall (fun t => exists row0, row0 ∈ row :: rows
                     /\ (ar_guid row0 ∉ cache)
                     /\ message_map !! ar_message_guid row0
                        = Some (at_message_id t)
                     /\ at_guid t = ar_guid row0) staged).
    { eapply Forall_impl; [exact H3|]. intros t (r & Hr & Hs).
      exists r. split; [right; exact Hr | exact Hs]. }
    unfold stage_attachment.
    destruct (decide (ar_guid row ∈ cache)) as [Hin|Hin].
    + rewrite bool_decide_eq_true_2 by exact Hin.
      exists staged. cbn [attachments_to_insert al_imported_count].
      split; [reflexivity|]. split; [reflexivity|]. split; [exact Hrest|].
      constructor; [left; exact Hin|].
      eapply Forall_impl; [exact H4|]. tauto.
    + rewrite bool_decide_eq_false_2 by exact Hin.
      destruct (message_map !! ar_message_guid row) as [mid|] eqn:Em.
      * cbn [attachments_to_insert al_imported_count].
        rewrite <- app_assoc.
        eexists (_ :: staged). split; [reflexivity|].
        split; [cbn [length]; lia|]. split.
        -- constructor; [|exact Hrest]. exists row. split; [left|].
           repeat split; auto.
        -- constructor; [right; right; left|].
           eapply Forall_impl; [exact H4|]. intros r [H|[H|H]]; auto.
           right. right. right. exact H.
      * exists staged. cbn [attachments_to_insert al_imported_count].
        split; [reflexivity|]. split; [reflexivity|]. split; [exact Hrest|].
        constructor; [right; left; exact Em|].
        eapply Forall_impl; [exact H4|]. tauto.
Qed.

Lemma insert_attachments_appends ids l : forall tab tab',
  insert_attachments ids tab l = Some tab' ->
  exists new,
    tab'.1 = tab.1 ++ new /\ map atr_data new = l
    /\ Forall (fun t => at_message_id t ∈ ids) l.
Proof.
  induction l as [|t l IH]; intros tab tab'; cbn [insert_attachments].
  - intros [= <-]. exists []. rewrite app_nil_r. auto.
  - unfold insert_attachment at 1.
    destruct (decide (at_message_id t ∈ ids)) as [Hid|Hid].
    2:{ rewrite bool_decide_eq_false_2 by exact Hid. discriminate. }
    rewrite bool_decide_eq_true_2 by exact Hid. cbn [negb orb].
    destruct (_ && _); [discriminate|].
    cbn [mbind option_bind]. intros H. apply IH in H as (new & H1 & H2 & H3).
    cbn [fst] in H1. eexists (_ :: new). rewrite H1, <- app_assoc.
    split; [reflexivity|]. split; [cbn; rewrite H2; reflexivity|].
    constructor; assumption.
Qed.

Lemma cache_add_staged (staged : list AttachmentTuple)
  (c : gset (option string)) g :
  g ∈ fold_left (fun c t => {[at_guid t]} ∪ c) staged c
  <-> g ∈ c \/ g ∈ map at_guid staged.
Proof.
  revert c. induction staged as [|t l IH]; intros c; cbn [fold_left map].
  - split; [auto | intros [H|H]; [exact H | inversion H]].
  - rewrite IH, elem_of_union, elem_of_singleton, elem_of_cons. tauto.
Qed.

Lemma get_attachment_guids_frame s :
  as_sync (get_attachment_guids s) = as_sync s
  /\ attachments (get_attachment_guids s) = attachments s
  /\ attachments_seq (get_attachment_guids s) = attachments_seq s.
Proof. unfold get_attachment_guids. destruct (_ || _); auto. Qed.

(** X17.  A run of sync_attachments that returns only appends to the table
    attachments, and the count it returns is the number of rows it
    appended.  Each new row carries the guid of a row of the batch,
    hangs on the message the cache gives for that row, which is a row
    of the table messages, and has its guid in the attachment cache
    afterwards.  The tables of the sync state are untouched. *)
Theorem sync_attachments_appends (rows : list AttachmentRaw) (s s' : AttState)
  (n : Z) :
  sync_attachments rows s = Some (s', n) ->
  exists new,
    attachments s' = attachments s ++ new
    /\ Z.of_nat (length new) = n
    /\ st_db (as_sync s') = st_db (as_sync s)
    /\ Forall
         (fun r => exists row,
            row ∈ rows
            /\ at_guid (atr_data r) = ar_guid row
            /\ MESSAGE_GUID_TO_ID_CACHE (st_caches (as_sync s'))
                 !! ar_message_guid row = Some (at_message_id (atr_data r))
            /\ at_message_id (atr_data r) ∈ message_ids (st_db (as_sync s))
            /\ at_guid (atr_data r) ∈ ATTACHMENT_GUID_CACHE s')
         new.
Proof.
  unfold sync_attachments. destruct rows as [|row0 rest].
  - intros [= <- <-]. exists []. rewrite app_nil_r.
    repeat split; constructor.
  - set (rows := row0 :: rest).
    set (base := get_message_guid_to_id_map (as_sync s)).
    assert (Hdb : st_db base = st_db (as_sync s))
      by apply get_message_guid_to_id_map_spec.
    set (s0 := mkAttState base _ _ _ _).
    destruct (get_attachment_guids_frame s0) as (Hb & Ha & Hq).
    set (s1 := get_attachment_guids s0) in *.
    cbn [as_sync attachments attachments_seq s0] in Hb, Ha, Hq.
    destruct (stage_loop (MESSAGE_GUID_TO_ID_CACHE (st_caches base))
                (ATTACHMENT_GUID_CACHE s1) rows (mkAttLoop [] 0 0))
      as (staged & H1 & H2 & H3 & _).
    cbn [attachments_to_insert al_imported_count app] in H1, H2.
    rewrite H1, H2.
    destruct staged as [|t0 staged'].
    + intros [= <- <-]. exists []. rewrite app_nil_r, Ha, Hb.
      split; [reflexivity|]. split; [reflexivity|]. split; [exact Hdb|].
      constructor.
    + set (staged := t0 :: staged') in *.
      destruct (insert_attachments (message_ids (st_db base))
                  (attachments s1, attachments_seq s1) staged)
        as [tab|] eqn:Ei; [|discriminate].
      cbn [mbind option_bind]. intros [= <- <-].
      apply insert_attachments_appends in Ei as (new & E1 & E2 & E3).
      cbn [fst] in E1. exists new.
      cbn [attachments as_sync ATTACHMENT_GUID_CACHE].
      rewrite E1, Ha, Hb. split; [reflexivity|].
      split; [rewrite <- (length_map atr_data new), E2; reflexivity|].
      split; [exact Hdb|].
      apply Forall_forall. intros r Hr.
      assert (Ht : atr_data r ∈ staged).
      { rewrite <- E2. apply list_elem_of_fmap. exists r. auto. }
      rewrite Forall_forall in H3, E3.
      destruct (H3 _ Ht) as (row & Hrow & _ & Hm & Hg).
      exists row. split; [exact Hrow|]. split; [exact Hg|].
      split; [exact Hm|]. split; [rewrite <- Hdb; apply E3, Ht|].
      apply (cache_add_staged staged). right. apply list_elem_of_fmap.
      exists (atr_data r). split; [reflexivity | exact Ht].
Qed.

Lemma sync_attachments_appends_witness :
  exists new,
    attachments
      (default (example_store, 0)
         (sync_attachments example_attachments example_store)).1
    = attachments example_store ++ new
    /\ Z.of_nat (length new) = 1.
Proof.
  assert (H : sync_attachments example_attachments example_store
              = Some ((default (example_store, 0)
                         (sync_attachments example_attachments
                            example_store)).1, 1))
    by (vm_compute; reflexivity).
  destruct (sync_attachments_appends example_attachments example_store _ _ H)
    as (new & Hn & Hlen & _).
  exists new. split; [exact Hn | exact Hlen].
Defined.

Lemma get_message_guid_to_id_map_twice st :
  get_message_guid_to_id_map (get_message_guid_to_id_map st)
  = get_message_guid_to_id_map st.
Proof.
  remember (get_message_guid_to_id_map st) as st1 eqn:H1.
  unfold get_message_guid_to_id_map in H1. cbv zeta in H1.
  destruct (bool_decide (MESSAGE_GUID_TO_ID_CACHE (st_caches st) = ∅)
            || negb (_message_guid_cache_populated (st_caches st))) eqn:E.
  - rewrite H1. unfold get_message_guid_to_id_map. cbv zeta.
    cbn [st_caches st_db MESSAGE_GUID_TO_ID_CACHE
         _message_guid_cache_populated CONTACT_MAP_CACHE
         _contacts_cache_populated CHAT_MAP_CACHE _chat_map_cache_populated
         REACTION_GUID_CACHE _reaction_guid_cache_populated
         CHAT_DB_ROWID_TO_PARTICIPANTS_CACHE
         _chat_participants_cache_populated].
    destruct (bool_decide (load_message_guid_map (st_db st) = ∅) || negb true);
      reflexivity.
  - rewrite H1. unfold get_message_guid_to_id_map. cbv zeta.
    rewrite E. reflexivity.
Qed.

Lemma get_attachment_guids_twice s :
  get_attachment_guids (get_attachment_guids s) = get_attachment_guids s.
Proof.
  remember (get_attachment_guids s) as s1 eqn:H1.
  unfold get_attachment_guids in H1.
  destruct (bool_decide (ATTACHMENT_GUID_CACHE s = ∅)
            || negb (_attachment_guid_cache_populated s)) eqn:E.
  - rewrite H1. unfold get_attachment_guids.
    cbn [ATTACHMENT_GUID_CACHE _attachment_guid_cache_populated
         as_sync attachments attachments_seq].
    destruct (bool_decide (load_attachment_guids (attachments s) = ∅)
              || negb true); reflexivity.
  - rewrite H1. unfold get_attachment_guids. rewrite E. reflexivity.
Qed.

Lemma get_attachment_guids_flag s :
  _attachment_guid_cache_populated (get_attachment_guids s) = true.
Proof.
  unfold get_attachment_guids. destruct (bool_decide _); cbn; [reflexivity|].
  destruct (_attachment_guid_cache_populated s) eqn:E; cbn; auto.
Qed.

Lemma att_state_eta s :
  mkAttState (as_sync s) (attachments s) (attachments_seq s)
    (ATTACHMENT_GUID_CACHE s) (_attachment_guid_cache_populated s) = s.
Proof. destruct s; reflexivity. Qed.

(** When every row is cached or without a known message, the loop
    stages nothing and counts nothing. *)
Lemma stage_loop_nothing message_map cache rows : forall L,
  Forall (fun row => ar_guid row ∈ cache
            \/ message_map !! ar_message_guid row = None) rows ->
  attachments_to_insert (fold_left (stage_attachment message_map cache) rows L)
  = attachments_to_insert L
  /\ al_imported_count (fold_left (stage_attachment message_map cache) rows L)
     = al_imported_count L.
Proof.
  induction rows as [|row rows IH]; intros L H; [auto|].
  apply Forall_cons in H as [Hrow H]. cbn [fold_left].
  destruct (IH (stage_attachment message_map cache L row) H) as [-> ->].
  unfold stage_attachment. case_bool_decide as Hin; [auto|].
  destruct Hrow as [Hrow|Hrow]; [contradiction|]. rewrite Hrow. auto.
Qed.

(** X18.  A second run of sync_attachments on the batch of a run that
    returned stages nothing: it returns 0 and leaves the state of the
    first run as it is, caches included. *)
Theorem sync_attachments_idempotent (rows : list AttachmentRaw)
  (s s' : AttState) (n : Z) :
  sync_attachments rows s = Some (s', n) ->
  sync_attachments rows s' = Some (s', 0).
Proof.
  unfold sync_attachments at 1. destruct rows as [|row0 rest].
  - intros [= <- <-]. reflexivity.
  - set (rows := row0 :: rest).
    set (base := get_message_guid_to_id_map (as_sync s)).
    set (s0 := mkAttState base _ _ _ _).
    set (s1 := get_attachment_guids s0).
    assert (Hb : as_sync s1 = base) by apply (get_attachment_guids_frame s0).
    destruct (stage_loop (MESSAGE_GUID_TO_ID_CACHE (st_caches base))
                (ATTACHMENT_GUID_CACHE s1) rows (mkAttLoop [] 0 0))
      as (staged & H1 & H2 & H3 & H4).
    cbn [attachments_to_insert al_imported_count app] in H1, H2.
    rewrite H1, H2.
    assert (Hsecond : forall s2 : AttState,
      as_sync s2 = base ->
      get_attachment_guids s2 = s2 ->
      (forall g, g ∈ ATTACHMENT_GUID_CACHE s1 \/ g ∈ map at_guid staged ->
                 g ∈ ATTACHMENT_GUID_CACHE s2) ->
      sync_attachments rows s2 = Some (s2, 0)).
    { intros s2 Hbase Hget Hcache. unfold sync_attachments, rows.
      rewrite Hbase.
      assert (Hb2 : get_message_guid_to_id_map base = base)
        by apply get_message_guid_to_id_map_twice.
      assert (Hs2 : mkAttState base (attachments s2) (attachments_seq s2)
                      (ATTACHMENT_GUID_CACHE s2)
                      (_attachment_guid_cache_populated s2) = s2)
        by (rewrite <- Hbase; apply att_state_eta).
      rewrite Hb2, Hs2, Hget.
      fold rows.
      destruct (stage_loop_nothing (MESSAGE_GUID_TO_ID_CACHE (st_caches base))
                  (ATTACHMENT_GUID_CACHE s2) rows (mkAttLoop [] 0 0))
        as [-> ->]; [|reflexivity].
      eapply Forall_impl; [exact H4|]. intros row [H|[H|H]]; auto. }
    destruct staged as [|t0 staged'].
    + intros [= <- <-]. apply Hsecond; [exact Hb| |].
      * apply get_attachment_guids_twice.
      * intros g [H|H]; [exact H | inversion H].
    + set (staged := t0 :: staged') in *.
      destruct (insert_attachments (message_ids (st_db base))
                  (attachments s1, attachments_seq s1) staged)
        as [tab|] eqn:Ei; [|discriminate].
      cbn [mbind option_bind]. intros [= <- <-].
      apply Hsecond.
      * exact Hb.
      * unfold get_attachment_guids.
        cbn [ATTACHMENT_GUID_CACHE _attachment_guid_cache_populated].
        subst s1. rewrite get_attachment_guids_flag. cbn [negb].
        rewrite orb_false_r. rewrite bool_decide_eq_false_2; [reflexivity|].
        intros He.
        assert (Hin : at_guid t0 ∈ (∅ : gset (option string))).
        { rewrite <- He. apply (cache_add_staged staged). right. left. }
        set_solver.
      * intros g Hg. cbn [ATTACHMENT_GUID_CACHE].
        apply (cache_add_staged staged). exact Hg.
Qed.


Lemma sync_attachments_idempotent_witness :
  exists s',
    sync_attachments example_attachments example_store = Some (s', 1)
    /\ sync_attachments example_attachments s' = Some (s', 0).
Proof.
  assert (H : sync_attachments example_attachments example_store
              = Some ((default (example_store, 0)
                         (sync_attachments example_attachments
                            example_store)).1, 1))
    by (vm_compute; reflexivity).
  eexists. split; [exact H|].
  exact (sync_attachments_idempotent example_attachments example_store _ _ H).
Defined.

(** *** The backup import *)

(** The guids of the table attachments. *)
Definition attachment_guids (rows : list AttachmentRow)
  : list (option string) :=
  map (fun r => at_guid (atr_data r)) rows.

Lemma guid_conflict rows g :
  existsb (fun r => bool_decide (at_guid (atr_data r) = g)) rows = true
  <-> g ∈ attachment_guids rows.
Proof.
  unfold attachment_guids. rewrite existsb_exists, list_elem_of_fmap.
  split.
  - intros (r & Hr & E). apply bool_decide_eq_true in E.
    exists r. split; [congruence | apply list_elem_of_In; exact Hr].
  - intros (r & E & Hr). exists r.
    split; [apply list_elem_of_In; exact Hr|].
    apply bool_decide_eq_true. congruence.
Qed.

(** Every id of the map read from the table messages is the id of one
    of its rows. *)
Lemma load_message_guid_map_ids d g id :
  load_message_guid_map d !! g = Some id -> id ∈ message_ids d.
Proof.
  unfold load_message_guid_map, message_ids.
  assert (H : forall l (m : gmap (option string) positive),
    fold_left (fun m r => <[mt_guid (mr_data r) := mr_id r]> m) l m !! g
    = Some id ->
    m !! g = Some id \/ id ∈ map mr_id l).
  { induction l as [|r l IH]; intros m; cbn [fold_left map]; [auto|].
    intros H. apply IH in H as [H|H]; [|right; right; exact H].
    destruct (decide (mt_guid (mr_data r) = g)) as [E|E].
    - rewrite E, lookup_insert_eq in H. injection H as <-. right. left.
    - rewrite lookup_insert_ne in H by exact E. left. exact H. }
  intros Hg. apply H in Hg as [Hg|Hg]; [|exact Hg].
  rewrite lookup_empty in Hg. discriminate.
Qed.

(** One iteration of load_attachments, by cases. *)
Lemma load_attachment_cases message_map ids tab imp skip att :
  (forall g id, message_map !! g = Some id -> id ∈ ids) ->
  let acc' := load_attachment message_map ids (tab, (imp, skip)) att in
  (acc' = (tab, (imp, skip + 1))
   /\ (message_map !! ar_message_guid att = None
       \/ is_Some (ar_guid att) /\ ar_guid att ∈ attachment_guids tab.1))
  \/ (exists t id,
        message_map !! ar_message_guid att = Some id
        /\ at_message_id t = id /\ at_guid t = ar_guid att
        /\ (is_Some (ar_guid att) -> ar_guid att ∉ attachment_guids tab.1)
        /\ acc' = (tab.1 ++ [mkAttachmentRow tab.2 t], Pos.succ tab.2,
                   (imp + 1, skip))).
Proof.
  intros Hids. cbv zeta. unfold load_attachment.
  destruct (message_map !! ar_message_guid att) as [id|] eqn:Em;
    [|left; auto].
  set (t := mkAttachmentTuple id _ _ _ _ _ _ _).
  unfold insert_attachment. cbn [at_message_id at_guid t].
  rewrite bool_decide_eq_true_2 by (eapply Hids; exact Em).
  cbn [negb orb].
  destruct (bool_decide (is_Some (ar_guid att))) eqn:Eg; cbn [andb].
  - apply bool_decide_eq_true in Eg.
    destruct (existsb _ tab.1) eqn:Ex.
    + left. split; [reflexivity|]. right. split; [exact Eg|].
      apply guid_conflict, Ex.
    + right. exists t, id. split; [reflexivity|].
      split; [reflexivity|]. split; [reflexivity|]. split; [|reflexivity].
      intros _ Hin. apply guid_conflict in Hin. congruence.
  - apply bool_decide_eq_false in Eg.
    right. exists t, id. split; [reflexivity|].
    split; [reflexivity|]. split; [reflexivity|]. split; [|reflexivity].
    intros H. contradiction.
Qed.

(** What the loop of load_attachments does to its variables. *)
Lemma load_attachments_loop message_map ids atts :
  (forall g id, message_map !! g = Some id -> id ∈ ids) ->
  forall tab imp skip,
  let r := fold_left (load_attachment message_map ids) atts
             (tab, (imp, skip)) in
  r.2.1 + r.2.2 = imp + skip + Z.of_nat (length atts)
  /\ exists new,
       r.1.1 = tab.1 ++ new
       /\ Z.of_nat (length new) = r.2.1 - imp
       /\ Forall (fun row => exists att,
                    att ∈ atts /\ at_guid (atr_data row) = ar_guid att
                    /\ message_map !! ar_message_guid att
                       = Some (at_message_id (atr_data row))) new
       /\ Forall (fun att =>
                    message_map !! ar_message_guid att = None
                    \/ ar_guid att ∈ attachment_guids r.1.1) atts.
Proof.
  intros Hids. induction atts as [|att atts IH]; intros tab imp skip; cbv zeta.
  - cbn [fold_left fst snd length]. split; [lia|]. exists [].
    rewrite app_nil_r. split; [reflexivity|]. split; [cbn; lia|].
    split; constructor.
  - cbn [fold_left length].
    assert (Hweak : forall new : list AttachmentRow,
      Forall (fun row => exists att0,
                att0 ∈ atts /\ at_guid (atr_data row) = ar_guid att0
                /\ message_map !! ar_message_guid att0
                   = Some (at_message_id (atr_data row))) new ->
      Forall (fun row => exists att0,
                att0 ∈ att :: atts /\ at_guid (atr_data row) = ar_guid att0
                /\ message_map !! ar_message_guid att0
                   = Some (at_message_id (atr_data row))) new).
    { intros new K. eapply Forall_impl; [exact K|]. intros row (a & Ha & Hr).
      exists a. split; [right; exact Ha | exact Hr]. }
    destruct (load_attachment_cases message_map ids tab imp skip att Hids)
      as [[-> Hc] | (t & id & Em & Hid & Hg & Hfresh & ->)].
    + destruct (IH tab imp (skip + 1)) as (K1 & new & K2 & K3 & K4 & K5).
      split; [lia|]. exists new. split; [exact K2|]. split; [exact K3|].
      split; [apply Hweak, K4|]. constructor; [|exact K5].
      destruct Hc as [Hc|[_ Hc]]; [left; exact Hc|]. right.
      rewrite K2. unfold attachment_guids in *. rewrite map_app.
      apply elem_of_app. left. exact Hc.
    + destruct (IH (tab.1 ++ [mkAttachmentRow tab.2 t], Pos.succ tab.2)
                  (imp + 1) skip) as (K1 & new & K2 & K3 & K4 & K5).
      cbn [fst] in K2. split; [lia|].
      exists (mkAttachmentRow tab.2 t :: new).
      split; [rewrite K2, <- app_assoc; reflexivity|].
      split; [cbn [length]; lia|]. split.
      * constructor; [|apply Hweak, K4]. exists att.
        split; [left|]. cbn [atr_data]. split; [exact Hg|].
        rewrite Hid. exact Em.
      * constructor; [|exact K5]. right. rewrite K2.
        unfold attachment_guids. rewrite !map_app. cbn [map atr_data].
        rewrite Hg. apply elem_of_app. left. apply elem_of_app. right.
        left.
Qed.

(** X19.  load_attachments accounts for every row of its input: the two
    counts add up to the number of rows.  It only appends to the table
    attachments, one row per imported attachment, each with the guid
    of a row of the input and the id the table messages gives for the
    guid of its message. *)
Theorem load_attachments_accounting (atts : list AttachmentRaw) (d : Db)
  (tab : list AttachmentRow * positive) :
  let r := load_attachments atts d tab in
  r.2.1 + r.2.2 = Z.of_nat (length atts)
  /\ exists new,
       r.1.1 = tab.1 ++ new
       /\ Z.of_nat (length new) = r.2.1
       /\ Forall (fun row => exists att,
                    att ∈ atts /\ at_guid (atr_data row) = ar_guid att
                    /\ load_message_guid_map d !! ar_message_guid att
                       = Some (at_message_id (atr_data row))
                    /\ at_message_id (atr_data row) ∈ message_ids d) new.
Proof.
  cbv zeta. unfold load_attachments.
  destruct (load_attachments_loop (load_message_guid_map d) (message_ids d)
              atts (load_message_guid_map_ids d) tab 0 0)
    as (K1 & new & K2 & K3 & K4 & _).
  split; [lia|]. exists new. split; [exact K2|]. split; [lia|].
  eapply Forall_impl; [exact K4|]. intros row (att & Ha & Hg & Hm).
  exists att. split; [exact Ha|]. split; [exact Hg|]. split; [exact Hm|].
  eapply load_message_guid_map_ids, Hm.
Qed.

(** When every row is without a known message or has a guid of the
    table, the loop skips them all. *)
Lemma load_attachments_skips message_map ids atts tab :
  (forall g id, message_map !! g = Some id -> id ∈ ids) ->
  Forall (fun att => message_map !! ar_message_guid att = None
            \/ is_Some (ar_guid att)
               /\ ar_guid att ∈ attachment_guids tab.1) atts ->
  forall imp skip,
  fold_left (load_attachment message_map ids) atts (tab, (imp, skip))
  = (tab, (imp, skip + Z.of_nat (length atts))).
Proof.
  intros Hids. induction atts as [|att atts IH]; intros H imp skip.
  - cbn. do 2 f_equal. lia.
  - apply Forall_cons in H as [Hatt H]. cbn [fold_left length].
    destruct (load_attachment_cases message_map ids tab imp skip att Hids)
      as [[-> _] | (t & id & Em & _ & _ & Hfresh & _)].
    + rewrite (IH H). do 2 f_equal. lia.
    + destruct Hatt as [Hn|[Hs Hin]]; [congruence|].
      exfalso. exact (Hfresh Hs Hin).
Qed.

(** X20.  Importing the same attachments a second time imports nothing,
    when each of them has a guid: the table attachments stays as the
    first import left it and every row is counted as skipped. *)
Theorem load_attachments_idempotent (atts : list AttachmentRaw) (d : Db)
  (tab : list AttachmentRow * positive) :
  Forall (fun att => is_Some (ar_guid att)) atts ->
  let r := load_attachments atts d tab in
  load_attachments atts d r.1 = (r.1, (0, Z.of_nat (length atts))).
Proof.
  intros Hguid. cbv zeta.
  destruct (load_attachments_loop (load_message_guid_map d) (message_ids d)
              atts (load_message_guid_map_ids d) tab 0 0)
    as (_ & _ & _ & _ & _ & K5).
  fold (load_attachments atts d tab) in K5.
  unfold load_attachments at 1.
  rewrite (load_attachments_skips _ _ atts (load_attachments atts d tab).1
             (load_message_guid_map_ids d)); [reflexivity|].
  apply Forall_forall. intros att Hatt.
  rewrite Forall_forall in K5, Hguid.
  destruct (K5 att Hatt) as [H|H]; [left; exact H|].
  right. split; [apply Hguid, Hatt | exact H].
Qed.

Lemma load_attachments_idempotent_witness :
  load_attachments example_attachments (st_db (as_sync example_store))
    (load_attachments example_attachments (st_db (as_sync example_store))
       ([], 1%positive)).1
  = ((load_attachments example_attachments (st_db (as_sync example_store))
        ([], 1%positive)).1, (0, 2)).
Proof.
  apply (load_attachments_idempotent example_attachments
           (st_db (as_sync example_store)) ([], 1%positive)).
  repeat constructor; eexists; reflexivity.
Defined.

End Attachments.

(* ===================================================================== *)
(** * Backup import of contacts (etl_contacts.py) *)
(* ===================================================================== *)

Module Contacts.

Import Normaliser Timestamps Sync.

(** A row dictionary of extract_contacts (the key id is not read); the
    queries keep the rows whose identifier is not null. *)
Record ContactRaw := mkContactRaw {
  cr_first_name : option string;
  cr_last_name : option string;
  cr_identifier : string
}.

(** The dictionary returned by transform_contact. *)
Record ContactDict := mkContactDict {
  cd_name : string;
  cd_identifier : string;
  cd_identifier_type : string;
  cd_source : string
}.

(** The text of a value inside an f-string. *)
Definition py_str (o : option string) : string :=
  match o with Some s => s | None => "None"%string end.

(** [needle in s]. *)
Definition str_in (needle s : string) : bool :=
  match String.index 0 needle s with Some _ => true | None => false end.

(** local_utils.py, clean_contact_name. *)
Definition clean_contact_name (name : string) : string :=
  if str_truthy name then str_strip name else EmptyString.

(** etl_contacts.py, transform_contact; None is the None it returns for
    a system or carrier contact. *)
Definition transform_contact (contact : ContactRaw) (source : string)
  : option ContactDict :=
  let name :=
    clean_contact_name
      (str_strip (py_str (cr_first_name contact) ++ " "
                  ++ py_str (cr_last_name contact))%string) in
  let identifier := cr_identifier contact in
  if startswith "#" name || startswith "#" identifier
     || str_in "VZ" name || str_in "Roadside" name || str_in "Assistance" name
     || startswith "*" name || startswith "*" identifier
  then None
  else
    let identifier_type :=
      if negb (contains "@" identifier) then "Phone"%string
      else "Email"%string in
    let identifier :=
      if String.eqb identifier_type "Phone"
      then normalize_phone_number identifier else str_lower identifier in
    Some (mkContactDict (if str_truthy name then name else identifier)
            identifier identifier_type source).

(** The rows of [contacts c LEFT JOIN contact_identifiers ci ON c.id =
    ci.contact_id] that have an identifier row, as (name, identifier,
    type). *)
Definition contact_keys (d : Db) : list (option string * string * string) :=
  c ← contacts d;
  ci ← List.filter (fun ci => (ci_contact_id ci =? ct_id c)%positive)
         (contact_identifiers d);
  [(ct_name c, ci_identifier ci, ci_type ci)].

(** [existing_set]: the keys with a non-empty identifier. *)
Definition existing_set (d : Db) : gset (option string * string * string) :=
  list_to_set (List.filter (fun k => str_truthy k.1.2) (contact_keys d)).

Definition contact_key (c : ContactDict) : option string * string * string :=
  (Some (cd_name c), cd_identifier c, cd_identifier_type c).

(** The body of the insertion loop of load_contacts.  The INSERT into
    contact_identifiers raises on a row with the same (contact_id,
    identifier, type); the except clause drops the error and the
    contact row stays. *)
Definition insert_loaded (d : Db) (contact : ContactDict) : Db :=
  let contact_id := contacts_seq d in
  let d1 :=
    set_contacts
      (contacts d ++ [mkContact contact_id (Some (cd_name contact)) false
                        (Some (cd_source contact))])
      (Pos.succ contact_id) d in
  if existsb
       (fun r => (ci_contact_id r =? contact_id)%positive
                 && String.eqb (ci_identifier r) (cd_identifier contact)
                 && String.eqb (ci_type r) (cd_identifier_type contact))
       (contact_identifiers d1)
  then d1
  else
    set_contact_identifiers
      (contact_identifiers d1
         ++ [mkIdent contact_id (cd_identifier contact)
               (cd_identifier_type contact) true]) d1.

(** etl_contacts.py, load_contacts: the store afterwards and the
    returned count. *)
Definition load_contacts (contacts : list (option ContactDict)) (d : Db)
  : Db * Z :=
  let contacts := omap id contacts in
  let existing := existing_set d in
  let new_contacts :=
    List.filter (fun c => negb (bool_decide (contact_key c ∈ existing)))
      contacts in
  match new_contacts with
  | [] => (d, 0)
  | _ =>
      (fold_left insert_loaded new_contacts d,
       Z.of_nat (length new_contacts))
  end.

(** A row of the query of find_contact_by_identifier. *)
Record ContactInfo := mkContactInfo {
  info_id : positive;
  info_name : option string;
  info_identifier : string;
  info_type : string
}.

(** [contacts c JOIN contact_identifiers ci ON c.id = ci.contact_id
    WHERE ci.identifier = ?] before the filter, the identifier rows in
    table order.  SQL leaves the order of the rows open; no statement
    below depends on it. *)
Definition contact_rows (d : Db) : list ContactInfo :=
  ci ← contact_identifiers d;
  c ← List.filter (fun c => (ct_id c =? ci_contact_id ci)%positive)
        (contacts d);
  [mkContactInfo (ct_id c) (ct_name c) (ci_identifier ci) (ci_type ci)].

(** etl_contacts.py, find_contact_by_identifier: the argument goes
    through normalize_phone_number whatever its kind; the result is the
    first row of the query. *)
Definition find_contact_by_identifier (d : Db) (identifier : string)
  : option ContactInfo :=
  let identifier := normalize_phone_number identifier in
  List.find (fun r => String.eqb (info_identifier r) identifier)
    (contact_rows d).

(** Two rows of an address book, a person with a phone number and a
    carrier entry, and a store that holds the user contact only. *)
Definition example_person : ContactRaw :=
  mkContactRaw (Some "Alice"%string) (Some "Smith"%string)
    "+1 (415) 555-0100".

Definition example_carrier : ContactRaw :=
  mkContactRaw (Some "#BAL"%string) None "#225".

Definition example_store : Db :=
  mkDb [mkContact 1 (Some "Me"%string) true None] [] [] [] [] 2 1 1 1 [].

Definition example_batch : list (option ContactDict) :=
  map (fun c => transform_contact c "backup_addressbook")
    [example_person; example_carrier; example_person].

(** ** What the import of contacts guarantees *)

Lemma lower_char_at c : Ascii.eqb "@" (lower_char c) = Ascii.eqb "@" c.
Proof. destruct c as [[] [] [] [] [] [] [] []]; reflexivity. Qed.

Lemma lower_char_twice c : lower_char (lower_char c) = lower_char c.
Proof. destruct c as [[] [] [] [] [] [] [] []]; reflexivity. Qed.

Lemma contains_at_lower s : contains "@" (str_lower s) = contains "@" s.
Proof.
  induction s as [|c s IH]; [reflexivity|]. cbn [str_lower contains].
  rewrite lower_char_at, IH. reflexivity.
Qed.

Lemma str_lower_twice s : str_lower (str_lower s) = str_lower s.
Proof.
  induction s as [|c s IH]; [reflexivity|]. cbn [str_lower].
  rewrite lower_char_twice, IH. reflexivity.
Qed.

Lemma all_digits_no_at s : all_digits s = true -> contains "@" s = false.
Proof.
  induction s as [|c s IH]; [reflexivity|]. cbn [all_digits contains].
  intros H. apply andb_prop in H as [Hc Hs]. rewrite (IH Hs), orb_false_r.
  destruct (Ascii.eqb_spec "@"%char c) as [<-|]; [discriminate | reflexivity].
Qed.

Lemma normalize_normal_form s :
  normalize_phone_number (normalize_phone_number s) = normalize_phone_number s.
Proof.
  rewrite (normalize_on_digits _ (normalize_all_digits s)).
  rewrite normalize_not_eleven. reflexivity.
Qed.

(** X21.  The identifier that transform_contact returns is the canonical form
    of the identifier it was given, the form under which the caches and
    the chat identifiers know an address: canonicalising it again
    changes nothing, and the type it returns is Email exactly when the
    identifier holds an at sign. *)
Theorem transform_contact_canonical (contact : ContactRaw) (source : string)
  (r : ContactDict) :
  transform_contact contact source = Some r ->
  cd_identifier r = canonical (cr_identifier contact)
  /\ canonical (cd_identifier r) = cd_identifier r
  /\ cd_identifier_type r
     = (if contains "@" (cd_identifier r) then "Email" else "Phone")%string
  /\ (cd_name r <> EmptyString \/ cd_identifier r = EmptyString)
  /\ cd_source r = source.
Proof.
  assert (Hname : forall n i : string,
    (if str_truthy n then n else i) <> EmptyString \/ i = EmptyString).
  { intros [|c n] [|c' i]; cbn; auto; left; discriminate. }
  unfold transform_contact.
  set (name := clean_contact_name _). clearbody name.
  destruct (_ || _); [discriminate|].
  intros H. apply (inj Some) in H. subst r.
  cbn [cd_identifier cd_identifier_type cd_name cd_source].
  unfold canonical.
  destruct (contains "@" (cr_identifier contact)) eqn:E; cbn [negb].
  - change (String.eqb "Email" "Phone") with false. cbv iota.
    rewrite contains_at_lower, E, str_lower_twice.
    repeat split. apply Hname.
  - change (String.eqb "Phone" "Phone") with true. cbv iota.
    rewrite (all_digits_no_at _ (normalize_all_digits _)),
      normalize_normal_form.
    repeat split. apply Hname.
Qed.

Lemma transform_contact_canonical_witness :
  exists r,
    transform_contact example_person "backup_addressbook" = Some r
    /\ cd_identifier r = "4155550100"%string
    /\ canonical (cd_identifier r) = cd_identifier r.
Proof.
  eexists. split; [vm_compute; reflexivity|]. split; [reflexivity|].
  refine (proj1 (proj2
    (transform_contact_canonical example_person "backup_addressbook" _ _))).
  vm_compute. reflexivity.
Defined.

(** *** load_contacts *)

Lemma contact_keys_spec d k :
  k ∈ contact_keys d
  <-> exists c ci,
        c ∈ contacts d /\ ci ∈ contact_identifiers d
        /\ ci_contact_id ci = ct_id c
        /\ k = (ct_name c, ci_identifier ci, ci_type ci).
Proof.
  unfold contact_keys. rewrite list_elem_of_bind. split.
  - intros (c & H & Hc). apply list_elem_of_bind in H as (ci & H & Hci).
    apply list_elem_of_singleton in H.
    apply list_elem_of_In, filter_In in Hci as [Hci E].
    apply Pos.eqb_eq in E. exists c, ci.
    split; [exact Hc|]. split; [apply list_elem_of_In, Hci|]. auto.
  - intros (c & ci & Hc & Hci & E & ->). exists c. split; [|exact Hc].
    apply list_elem_of_bind. exists ci. split; [left|].
    apply list_elem_of_In, filter_In. split; [apply list_elem_of_In, Hci|].
    apply Pos.eqb_eq, E.
Qed.

Lemma existing_set_spec d k :
  k ∈ existing_set d <-> k ∈ contact_keys d /\ str_truthy k.1.2 = true.
Proof.
  unfold existing_set. rewrite elem_of_list_to_set.
  rewrite list_elem_of_In, filter_In, <- list_elem_of_In. reflexivity.
Qed.

(** What an iteration of the insertion loop does to the tables. *)
Lemma insert_loaded_spec d c :
  same_rest d (insert_loaded d c)
  /\ contacts (insert_loaded d c)
     = contacts d ++ [mkContact (contacts_seq d) (Some (cd_name c)) false
                        (Some (cd_source c))]
  /\ contacts_seq (insert_loaded d c) = Pos.succ (contacts_seq d)
  /\ (contact_identifiers (insert_loaded d c) = contact_identifiers d
      \/ contact_identifiers (insert_loaded d c)
         = contact_identifiers d
             ++ [mkIdent (contacts_seq d) (cd_identifier c)
                   (cd_identifier_type c) true])
  /\ (refs_allocated d ->
      contact_identifiers (insert_loaded d c)
      = contact_identifiers d
          ++ [mkIdent (contacts_seq d) (cd_identifier c)
                (cd_identifier_type c) true]).
Proof.
  unfold insert_loaded. cbv zeta.
  cbn [contact_identifiers set_contacts].
  destruct (existsb _ (contact_identifiers d)) eqn:E.
  - split; [repeat split|]. split; [reflexivity|]. split; [reflexivity|].
    split; [left; reflexivity|]. intros Hr. exfalso.
    apply existsb_exists in E as (r & Hin & E).
    apply andb_prop in E as [E _]. apply andb_prop in E as [E _].
    apply Pos.eqb_eq in E. unfold refs_allocated in Hr.
    rewrite Forall_forall in Hr. apply list_elem_of_In, Hr in Hin. lia.
  - split; [repeat split|]. split; [reflexivity|]. split; [reflexivity|].
    split; [right; reflexivity | reflexivity].
Qed.

Lemma insert_loaded_refs d c :
  refs_allocated d -> refs_allocated (insert_loaded d c).
Proof.
  intros Hr. destruct (insert_loaded_spec d c) as (_ & _ & Hs & _ & Hi).
  unfold refs_allocated. rewrite Hs, (Hi Hr). apply Forall_app. split.
  - eapply Forall_impl; [exact Hr|]. cbn. intros ci. lia.
  - constructor; [cbn; lia | constructor].
Qed.

Lemma insert_loaded_keeps d c k :
  k ∈ existing_set d -> k ∈ existing_set (insert_loaded d c).
Proof.
  rewrite !existing_set_spec, !contact_keys_spec.
  intros ((c0 & ci & Hc & Hci & E & ->) & Ht). split; [|exact Ht].
  destruct (insert_loaded_spec d c) as (_ & Hct & _ & Hi & _).
  exists c0, ci. rewrite Hct. split; [apply elem_of_app; left; exact Hc|].
  split; [|auto].
  destruct Hi as [-> | ->]; [exact Hci | apply elem_of_app; left; exact Hci].
Qed.

Lemma insert_loaded_adds d c :
  refs_allocated d -> str_truthy (cd_identifier c) = true ->
  contact_key c ∈ existing_set (insert_loaded d c).
Proof.
  intros Hr Ht. rewrite existing_set_spec, contact_keys_spec.
  destruct (insert_loaded_spec d c) as (_ & Hct & _ & _ & Hi).
  split; [|exact Ht]. rewrite Hct, (Hi Hr).
  eexists _, _. split; [apply elem_of_app; right; left|].
  split; [apply elem_of_app; right; left|]. split; reflexivity.
Qed.

Lemma insert_loaded_loop l : forall d,
  refs_allocated d ->
  Forall (fun c => str_truthy (cd_identifier c) = true) l ->
  refs_allocated (fold_left insert_loaded l d)
  /\ (forall k, k ∈ existing_set d ->
        k ∈ existing_set (fold_left insert_loaded l d))
  /\ Forall (fun c => contact_key c ∈ existing_set (fold_left insert_loaded l d))
       l.
Proof.
  induction l as [|c l IH]; intros d Hr Ht; cbn [fold_left].
  - split; [exact Hr|]. split; [auto | constructor].
  - apply Forall_cons in Ht as [Hc Ht].
    destruct (IH (insert_loaded d c) (insert_loaded_refs d c Hr) Ht)
      as (R1 & R2 & R3).
    split; [exact R1|]. split.
    + intros k Hk. apply R2, insert_loaded_keeps, Hk.
    + constructor; [|exact R3]. apply R2, insert_loaded_adds; assumption.
Qed.

(** X22.  A second load_contacts of the same contacts inserts nothing and
    returns 0, when each of them has a non-empty identifier (and no
    identifier row refers to a contact id that was never handed
    out). *)
Theorem load_contacts_idempotent (contacts : list (option ContactDict))
  (d : Db) :
  refs_allocated d ->
  Forall (fun c => str_truthy (cd_identifier c) = true) (omap id contacts) ->
  load_contacts contacts (load_contacts contacts d).1
  = ((load_contacts contacts d).1, 0).
Proof.
  intros Hr Ht.
  assert (Hdone : forall d' : Db,
    Forall (fun c => contact_key c ∈ existing_set d') (omap id contacts) ->
    load_contacts contacts d' = (d', 0)).
  { intros d' H. unfold load_contacts. cbv zeta.
    rewrite filter_none; [reflexivity|].
    eapply Forall_impl; [exact H|]. cbn. intros c Hc.
    rewrite bool_decide_eq_true_2 by exact Hc. reflexivity. }
  apply Hdone. unfold load_contacts at 1. cbv zeta.
  set (cs := omap id contacts) in *.
  set (new := List.filter _ cs).
  assert (Hnew : Forall (fun c => str_truthy (cd_identifier c) = true) new).
  { apply Forall_forall. intros c Hc. subst new.
    apply list_elem_of_In, filter_In in Hc as [Hc _].
    rewrite Forall_forall in Ht. apply Ht, list_elem_of_In, Hc. }
  destruct (insert_loaded_loop new d Hr Hnew) as (_ & R2 & R3).
  assert (Hall : Forall (fun c => contact_key c
                           ∈ existing_set (fold_left insert_loaded new d)) cs).
  { apply Forall_forall. intros c Hc.
    destruct (decide (contact_key c ∈ existing_set d)) as [Hin|Hin].
    - apply R2, Hin.
    - rewrite Forall_forall in R3. apply R3. subst new.
      apply list_elem_of_In, filter_In. split; [apply list_elem_of_In, Hc|].
      rewrite bool_decide_eq_false_2 by exact Hin. reflexivity. }
  destruct new as [|c0 new'] eqn:En; cbn [fst]; [|exact Hall].
  cbn [fold_left] in Hall. exact Hall.
Qed.

Lemma load_contacts_idempotent_witness :
  (load_contacts example_batch example_store).2 = 2
  /\ load_contacts example_batch (load_contacts example_batch example_store).1
     = ((load_contacts example_batch example_store).1, 0).
Proof.
  split; [vm_compute; reflexivity|].
  apply (load_contacts_idempotent example_batch example_store).
  - constructor.
  - vm_compute. repeat constructor.
Defined.

(** X23.  load_contacts returns the number of the given contacts whose key
    (name, identifier, type) is not yet in the store, a contact that
    occurs twice counting twice; it appends that many rows to the table
    contacts, with the names of these contacts in order, and touches
    no other table than contacts and contact_identifiers. *)
Theorem load_contacts_accounting (contacts : list (option ContactDict))
  (d : Db) :
  let new_contacts :=
    List.filter
      (fun c => negb (bool_decide (contact_key c ∈ existing_set d)))
      (omap id contacts) in
  (load_contacts contacts d).2 = Z.of_nat (length new_contacts)
  /\ same_rest d (load_contacts contacts d).1
  /\ exists rows,
       Sync.contacts (load_contacts contacts d).1 = Sync.contacts d ++ rows
       /\ map ct_name rows = map (fun c => Some (cd_name c)) new_contacts
       /\ map ct_data_source rows
          = map (fun c => Some (cd_source c)) new_contacts
       /\ Forall (fun r => (contacts_seq d <= ct_id r)%positive) rows.
Proof.
  cbv zeta. unfold load_contacts. cbv zeta.
  set (new := List.filter _ (omap id contacts)). clearbody new.
  assert (H : forall l d0,
    same_rest d0 (fold_left insert_loaded l d0)
    /\ exists rows,
         Sync.contacts (fold_left insert_loaded l d0)
         = Sync.contacts d0 ++ rows
         /\ map ct_name rows = map (fun c => Some (cd_name c)) l
         /\ map ct_data_source rows = map (fun c => Some (cd_source c)) l
         /\ Forall (fun r => (contacts_seq d0 <= ct_id r)%positive) rows).
  { induction l as [|c l IH]; intros d0; cbn [fold_left].
    - split; [apply same_rest_refl|]. exists []. rewrite app_nil_r.
      repeat split; constructor.
    - destruct (insert_loaded_spec d0 c) as (S1 & S2 & S3 & _).
      destruct (IH (insert_loaded d0 c)) as (R1 & rows & R2 & R3 & R4 & R5).
      split; [eapply same_rest_trans; eassumption|].
      eexists (_ :: rows). rewrite R2, S2, <- app_assoc.
      split; [reflexivity|]. cbn [map ct_name ct_data_source].
      rewrite R3, R4. split; [reflexivity|]. split; [reflexivity|].
      constructor; [cbn [ct_id]; lia|].
      eapply Forall_impl; [exact R5|]. cbn. intros r. rewrite S3. lia. }
  destruct new as [|c0 new'] eqn:En.
  - cbn [fst snd length]. split; [reflexivity|].
    split; [apply same_rest_refl|]. exists []. rewrite app_nil_r.
    repeat split; constructor.
  - rewrite <- En. cbn [fst snd]. split; [reflexivity|]. apply H.
Qed.

(** *** find_contact_by_identifier *)




End Contacts.

(* ===================================================================== *)
(** * Backup import of chats (etl_chats.py) *)
(* ===================================================================== *)

Module Chats.

Import Normaliser Timestamps Sync Contacts.

(** A participant dictionary; [p_contact_id = None] stands for a
    dictionary without the key contact_id. *)
Record Participant := mkParticipant {
  p_name : option string;
  p_identifier : string;
  p_contact_id : option positive
}.

(** One iteration of the loop of transform_participants; the second
    component is seen_identifiers. *)
Definition participant_step (d : Db) (acc : list Participant * gset string)
  (identifier : string) : list Participant * gset string :=
  let identifier := str_strip identifier in
  if bool_decide (identifier ∈ acc.2) then acc
  else
    let normalized_identifier :=
      if contains "@" identifier then str_lower identifier
      else normalize_phone_number identifier in
    match find_contact_by_identifier d normalized_identifier with
    | Some contact_info =>
        (acc.1 ++ [mkParticipant (info_name contact_info) identifier
                     (Some (info_id contact_info))],
         {[identifier]} ∪ acc.2)
    | None =>
        (acc.1 ++ [mkParticipant (Some "Unknown"%string) identifier None],
         {[identifier]} ∪ acc.2)
    end.

(** etl_chats.py, transform_participants. *)
Definition transform_participants (d : Db) (participants_str : option string)
  : list Participant :=
  if opt_truthy participants_str then
    (fold_left (participant_step d)
       (py_split "," (or_empty participants_str)) ([], ∅)).1
  else [].

(** A row dictionary of extract_chats (the keys that transform_chat
    reads). *)
Record ChatRaw := mkChatRaw {
  c_ROWID : Z;
  c_display_name : option string;
  c_service_name : option string;
  c_participants : option string;
  c_created_date : option Z;
  c_last_message_date : option Z;
  c_is_group : Z
}.

(** The first component of the result of transform_chat. *)
Record ChatDict := mkChatDict {
  cd_chat_identifier : string;
  cd_chat_name : string;
  cd_created_date : option Q;
  cd_last_message_date : option Q;
  cd_is_group : Z;
  cd_service_name : option string
}.

(** [', '.join(names)]; None is the TypeError that join raises on an
    item that is None. *)
Fixpoint all_names (names : list (option string)) : option (list string) :=
  match names with
  | [] => Some []
  | Some n :: r => r' ← all_names r; Some (n :: r')
  | None :: _ => None
  end.

Definition join_names (names : list (option string)) : option string :=
  String.concat ", " <$> all_names names.

(** The name that stands for a participant in a generated chat name. *)
Definition participant_name (p : Participant) : option string :=
  if bool_decide (p_name p ≠ Some "Unknown"%string) then p_name p
  else Some (p_identifier p).

(** etl_chats.py, transform_chat; None when it raises.  The copy of
    _convert_apple_timestamp in etl_chats.py is the function of
    etl_messages.py, line for line. *)
Definition transform_chat (d : Db) (chat : ChatRaw)
  : option (ChatDict * list Participant) :=
  let participants := transform_participants d (c_participants chat) in
  display_name ←
    (if opt_truthy (c_display_name chat) then
       Some (or_empty (c_display_name chat))
     else
       match map participant_name participants with
       | [] => Some ("Chat " ++ pretty (c_ROWID chat))%string
       | participant_names => join_names participant_names
       end);
  let display_name :=
    if (100 <? String.length display_name)%nat
    then (substring 0 100 display_name ++ "...")%string
    else display_name in
  let created_date := _convert_apple_timestamp (c_created_date chat) in
  let last_message_date :=
    _convert_apple_timestamp (c_last_message_date chat) in
  let sorted_identifiers :=
    sorted_set
      (map (fun p =>
              if contains "@" (p_identifier p)
              then str_lower (p_identifier p)
              else normalize_phone_number (p_identifier p))
         participants) in
  Some (mkChatDict (String.concat "," sorted_identifiers) display_name
          created_date last_message_date (c_is_group chat)
          (c_service_name chat),
        participants).

(** A store with two contacts, one known by a phone number and one by
    an email address; a chat of the source with both as participants,
    the number in two spellings, and no display name; a message of that
    chat. *)
Definition example_contacts : Db :=
  mkDb [mkContact 1 (Some "Alice"%string) false None;
        mkContact 2 (Some "Bob"%string) false None]
       [mkIdent 1 "4155550100" "Phone" true;
        mkIdent 2 "bob@example.com" "Email" true]
       [] [] [] 3 1 1 1 [].

Definition example_chat : ChatRaw :=
  mkChatRaw 7 None (Some "iMessage"%string)
    (Some "+1 (415) 555-0100,Bob@Example.com, +14155550100"%string)
    (Some 728000000000000000) (Some 728000001000000000) 1.

Definition example_message : RawRow :=
  mkRaw 10 (Some "A"%string) (Some 728000000000000000) false
    (Some "iMessage"%string) None (Some 0) (Some "+14155550100"%string)
    (Some 7%positive)
    (Some "+1 (415) 555-0100,Bob@Example.com, +14155550100"%string).

(** ** What the transformation of a chat guarantees *)

(** The loop of transform_participants: seen_identifiers holds the
    identifiers of the participants; these are pairwise different and
    are the stripped items; each participant is what the lookup of its
    canonical identifier says. *)
Definition participant_ok (d : Db) (p : Participant) : Prop :=
  match find_contact_by_identifier d (canonical (p_identifier p)) with
  | Some contact_info =>
      p_name p = info_name contact_info
      /\ p_contact_id p = Some (info_id contact_info)
  | None => p_name p = Some "Unknown"%string /\ p_contact_id p = None
  end.

Lemma participants_loop d l : forall acc,
  (forall x, x ∈ acc.2 <-> x ∈ map p_identifier acc.1) ->
  NoDup (map p_identifier acc.1) ->
  Forall (participant_ok d) acc.1 ->
  let r := fold_left (participant_step d) l acc in
  (forall x, x ∈ map p_identifier r.1
             <-> x ∈ map p_identifier acc.1 \/ x ∈ map str_strip l)
  /\ NoDup (map p_identifier r.1)
  /\ Forall (participant_ok d) r.1.
Proof.
  induction l as [|i l IH]; intros acc Hseen Hnd Hok; cbv zeta.
  - cbn [fold_left map]. split; [|auto]. intros x. split; [auto|].
    intros [H|H]; [exact H | inversion H].
  - cbn [fold_left map].
    assert (Hstep :
      (forall x, x ∈ (participant_step d acc i).2
                 <-> x ∈ map p_identifier (participant_step d acc i).1)
      /\ NoDup (map p_identifier (participant_step d acc i).1)
      /\ Forall (participant_ok d) (participant_step d acc i).1
      /\ (forall x, x ∈ map p_identifier (participant_step d acc i).1
                    <-> x ∈ map p_identifier acc.1 \/ x = str_strip i)).
    { unfold participant_step.
      destruct (decide (str_strip i ∈ acc.2)) as [Hin|Hin].
      - rewrite bool_decide_eq_true_2 by exact Hin.
        split; [exact Hseen|]. split; [exact Hnd|]. split; [exact Hok|].
        intros x. split; [auto|]. intros [H|E]; [exact H|]. subst x.
        apply Hseen, Hin.
      - rewrite bool_decide_eq_false_2 by exact Hin.
        fold (canonical (str_strip i)).
        assert (Hfresh : str_strip i ∉ map p_identifier acc.1)
          by (intros H; apply Hin, Hseen, H).
        destruct (find_contact_by_identifier d (canonical (str_strip i)))
          as [info|] eqn:Ef; cbn [fst snd]; rewrite map_app; cbn [map p_identifier].
        + split.
          { intros x. rewrite elem_of_union, elem_of_singleton, elem_of_app,
              list_elem_of_singleton, Hseen. tauto. }
          split.
          { apply NoDup_app. split; [exact Hnd|]. split.
            - intros x Hx Hx'. apply list_elem_of_singleton in Hx'. subst x.
              exact (Hfresh Hx).
            - apply NoDup_singleton. }
          split.
          { apply Forall_app. split; [exact Hok|]. constructor; [|constructor].
            unfold participant_ok. cbn [p_identifier p_name p_contact_id].
            rewrite Ef. auto. }
          intros x. rewrite elem_of_app, list_elem_of_singleton. tauto.
        + split.
          { intros x. rewrite elem_of_union, elem_of_singleton, elem_of_app,
              list_elem_of_singleton, Hseen. tauto. }
          split.
          { apply NoDup_app. split; [exact Hnd|]. split.
            - intros x Hx Hx'. apply list_elem_of_singleton in Hx'. subst x.
              exact (Hfresh Hx).
            - apply NoDup_singleton. }
          split.
          { apply Forall_app. split; [exact Hok|]. constructor; [|constructor].
            unfold participant_ok. cbn [p_identifier p_name p_contact_id].
            rewrite Ef. auto. }
          intros x. rewrite elem_of_app, list_elem_of_singleton. tauto. }
    destruct Hstep as (S1 & S2 & S3 & S4).
    destruct (IH (participant_step d acc i) S1 S2 S3) as (R1 & R2 & R3).
    split; [|auto]. intros x. rewrite R1, S4, elem_of_cons. tauto.
Qed.

(** The identifiers of the participants are the stripped items of a
    non-empty string. *)
Lemma transform_participants_items (d : Db) (participants_str : option string)
  (x : string) :
  x ∈ map p_identifier (transform_participants d participants_str)
  <-> opt_truthy participants_str = true
      /\ x ∈ map str_strip (py_split "," (or_empty participants_str)).
Proof.
  unfold transform_participants. destruct (opt_truthy participants_str).
  - destruct (participants_loop d (py_split "," (or_empty participants_str))
                ([], ∅)) as (R1 & _ & _).
    + cbn. intros y. rewrite elem_of_empty. split; [tauto | inversion 1].
    + constructor.
    + constructor.
    + rewrite R1. cbn [fst map]. split.
      * intros [H|H]; [inversion H | auto].
      * intros [_ H]. right. exact H.
  - cbn. split; [inversion 1 | intros [H _]; discriminate].
Qed.

(** X25.  transform_participants returns one participant per different
    stripped item of the string, in the order of first occurrence; none
    for an empty string or None.  Each participant carries the name and
    the id of the contact that find_contact_by_identifier gives for the
    canonical form of its identifier, and the name Unknown without an
    id when there is none. *)
Theorem transform_participants_spec (d : Db) (participants_str : option string) :
  let ps := transform_participants d participants_str in
  NoDup (map p_identifier ps)
  /\ (forall x, x ∈ map p_identifier ps
        <-> opt_truthy participants_str = true
            /\ x ∈ map str_strip (py_split "," (or_empty participants_str)))
  /\ Forall (participant_ok d) ps.
Proof.
  cbv zeta. unfold transform_participants.
  destruct (opt_truthy participants_str).
  - destruct (participants_loop d (py_split "," (or_empty participants_str))
                ([], ∅)) as (R1 & R2 & R3).
    + cbn. intros x. rewrite elem_of_empty. split; [tauto | inversion 1].
    + constructor.
    + constructor.
    + split; [exact R2|]. split; [|exact R3]. intros x. rewrite R1.
      cbn [fst map]. split.
      * intros [H|H]; [inversion H | auto].
      * intros [_ H]. right. exact H.
  - split; [constructor|]. split; [|constructor]. intros x. cbn.
    split; [inversion 1 | intros [H _]; discriminate].
Qed.

(** X26.  The chat identifier that transform_chat gives to a chat is the one
    that transform_message gives to a message with the same
    participants string: the chats of a backup and its messages meet
    under the same identifier. *)
Theorem transform_chat_identifier_agrees (d : Db) (chat : ChatRaw)
  (cd : ChatDict) (ps : list Participant) (message : RawRow) :
  transform_chat d chat = Some (cd, ps) ->
  raw_chat_participants message = c_participants chat ->
  cd_chat_identifier cd = t_chat_identifier (transform_message message).
Proof.
  unfold transform_chat. intros H Hp.
  destruct (if opt_truthy (c_display_name chat) then _ else _) as [dn|];
    [|discriminate].
  cbn [mbind option_bind] in H. apply (inj Some) in H.
  apply pair_equal_spec in H as [<- <-]. cbn [cd_chat_identifier].
  unfold transform_message. cbn [t_chat_identifier]. rewrite Hp.
  unfold generate_chat_identifier. f_equal.
  fold (transform_participants d (c_participants chat)).
  pose proof (transform_participants_items d (c_participants chat)) as Hset.
  apply sorted_set_ext. intros x. rewrite !list_elem_of_fmap. split.
  - intros (p & -> & Hp'). 
    assert (Hi : p_identifier p ∈ map p_identifier
                   (transform_participants d (c_participants chat)))
      by (apply list_elem_of_fmap; eauto).
    apply Hset in Hi as [Ht Hi]. rewrite Ht.
    apply list_elem_of_fmap in Hi as (part & E & Hpart).
    exists part. rewrite <- E. split; [reflexivity | exact Hpart].
  - intros (part & -> & Hpart).
    destruct (opt_truthy (c_participants chat)) eqn:Ht; [|inversion Hpart].
    assert (Hi : str_strip part ∈ map p_identifier
                   (transform_participants d (c_participants chat))).
    { apply Hset. split; [reflexivity|]. apply list_elem_of_fmap. eauto. }
    apply list_elem_of_fmap in Hi as (p & E & Hp').
    exists p. rewrite <- E. split; [reflexivity | exact Hp'].
Qed.

Lemma transform_chat_identifier_agrees_witness :
  exists cd ps,
    transform_chat example_contacts example_chat = Some (cd, ps)
    /\ cd_chat_identifier cd
       = t_chat_identifier (transform_message example_message).
Proof.
  eexists _, _. split; [vm_compute; reflexivity|].
  refine (transform_chat_identifier_agrees example_contacts example_chat
            _ _ example_message _ _); [vm_compute; reflexivity | reflexivity].
Defined.

Lemma length_prefix n s : (String.length (substring 0 n s) <= n)%nat.
Proof.
  revert s. induction n as [|n IH]; intros [|c s]; cbn; try lia.
  specialize (IH s). lia.
Qed.

Lemma length_append s t :
  String.length (s ++ t)%string = (String.length s + String.length t)%nat.
Proof.
  induction s as [|c s IH]; simpl; [reflexivity|]. f_equal. exact IH.
Qed.

Lemma all_names_None names :
  all_names names = None <-> None ∈ names.
Proof.
  induction names as [|[n|] r IH]; cbn [all_names].
  - split; [discriminate | inversion 1].
  - destruct (all_names r) as [r'|]; cbn [mbind option_bind].
    + split; [discriminate|]. intros H. apply elem_of_cons in H as [H|H];
        [discriminate|]. apply IH in H. discriminate.
    + split; [|reflexivity]. intros _. right. apply IH. reflexivity.
  - split; [left | reflexivity].
Qed.

Lemma participant_name_None p : participant_name p = None <-> p_name p = None.
Proof.
  unfold participant_name. case_bool_decide as H.
  - reflexivity.
  - split; [discriminate|]. intros E. congruence.
Qed.

(** X27.  transform_chat raises exactly when the chat has no display name and
    one of its participants is a contact without a name; the name it
    returns otherwise has at most 103 characters. *)
Theorem transform_chat_raises_iff (d : Db) (chat : ChatRaw) :
  (transform_chat d chat = None
   <-> opt_truthy (c_display_name chat) = false
       /\ exists p, p ∈ transform_participants d (c_participants chat)
                    /\ p_name p = None)
  /\ (forall cd ps, transform_chat d chat = Some (cd, ps) ->
        ps = transform_participants d (c_participants chat)
        /\ (String.length (cd_chat_name cd) <= 103)%nat).
Proof.
  unfold transform_chat.
  set (ps0 := transform_participants d (c_participants chat)).
  assert (Hname : forall dn : string,
    (String.length
       (if (100 <? String.length dn)%nat
        then (substring 0 100 dn ++ "...")%string else dn) <= 103)%nat).
  { intros dn. destruct (100 <? String.length dn)%nat eqn:E;
      [|apply Nat.ltb_ge in E; lia].
    rewrite length_append. pose proof (length_prefix 100 dn).
    cbn [String.length]. lia. }
  split.
  - destruct (opt_truthy (c_display_name chat)); cbn [mbind option_bind].
    { split; [discriminate | intros [H _]; discriminate]. }
    destruct (map participant_name ps0) as [|n0 names] eqn:En;
      cbn [mbind option_bind].
    { split; [discriminate|]. intros (_ & p & Hp & _).
      destruct ps0; [inversion Hp | discriminate]. }
    rewrite <- En. unfold join_names.
    destruct (all_names (map participant_name ps0)) as [l|] eqn:Ea;
      cbn [fmap option_fmap option_map mbind option_bind].
    + split; [discriminate|]. intros (_ & p & Hp & Hn). exfalso.
      assert (H : None ∈ map participant_name ps0).
      { apply list_elem_of_fmap. exists p.
        split; [symmetry; apply participant_name_None, Hn | exact Hp]. }
      apply all_names_None in H. congruence.
    + split; [|reflexivity]. intros _. split; [reflexivity|].
      apply all_names_None in Ea.
      apply list_elem_of_fmap in Ea as (p & E & Hp).
      exists p. split; [exact Hp|]. apply participant_name_None.
      symmetry. exact E.
  - intros cd ps H.
    destruct (if opt_truthy (c_display_name chat) then _ else _) as [dn|];
      [|discriminate].
    cbn [mbind option_bind] in H. apply (inj Some) in H.
    apply pair_equal_spec in H as [<- <-]. cbn [cd_chat_name].
    split; [reflexivity | apply Hname].
Qed.

(** ** load_chats *)

(** A row of the table chats. *)
Record ChatTableRow := mkChatTableRow {
  tc_id : positive;
  tc_chat_identifier : option string;
  tc_chat_name : option string;
  tc_created_date : option Q;
  tc_last_message_date : option Q;
  tc_is_group : option Z;
  tc_service_name : option string;
  tc_total_messages : Z
}.

(** The tables that load_chats works on: chats with its AUTOINCREMENT
    counter, chat_participants, and the ids of the table contacts, to
    which a participant row refers. *)
Record ChatStore := mkChatStore {
  chat_rows : list ChatTableRow;
  chat_rows_seq : positive;
  chat_participants : list (positive * positive);
  contact_ids : list positive
}.

(** The variables of the loop of load_chats. *)
Record ChatLoad := mkChatLoad {
  cl_store : ChatStore;
  existing_chat_map : gmap (option string) positive;
  display_name_map : gmap string positive;
  new_chats : Z;
  updated_chats : Z
}.

(** Python truthiness of a nullable integer. *)
Definition int_truthy (v : option Z) : bool :=
  match v with Some n => negb (n =? 0) | None => false end.

(** The two dictionaries built from [SELECT chat_identifier, id,
    chat_name, is_group FROM chats]. *)
Definition build_chat_maps (rows : list ChatTableRow)
  : gmap (option string) positive * gmap string positive :=
  fold_left
    (fun m row =>
       (<[tc_chat_identifier row := tc_id row]> m.1,
        if int_truthy (tc_is_group row) && opt_truthy (tc_chat_name row)
        then <[or_empty (tc_chat_name row) := tc_id row]> m.2 else m.2))
    rows (∅, ∅).

(** The scalar functions MIN and MAX of SQLite on two instants: NULL as
    soon as an argument is NULL. *)
Definition sql_min (a b : option Q) : option Q :=
  match a, b with
  | Some x, Some y => Some (if Qle_bool x y then x else y)
  | _, _ => None
  end.

Definition sql_max (a b : option Q) : option Q :=
  match a, b with
  | Some x, Some y => Some (if Qle_bool x y then y else x)
  | _, _ => None
  end.

(** [UPDATE chats SET chat_name = ?, created_date = MIN(created_date,
    ?), last_message_date = MAX(last_message_date, ?), service_name = ?
    WHERE id = ?]. *)
Definition update_chat (chat : ChatDict) (chat_id : positive)
  (s : ChatStore) : ChatStore :=
  mkChatStore
    (map (fun row =>
            if (tc_id row =? chat_id)%positive then
              mkChatTableRow (tc_id row) (tc_chat_identifier row)
                (Some (cd_chat_name chat))
                (sql_min (tc_created_date row) (cd_created_date chat))
                (sql_max (tc_last_message_date row)
                   (cd_last_message_date chat))
                (tc_is_group row) (cd_service_name chat)
                (tc_total_messages row)
            else row)
       (chat_rows s))
    (chat_rows_seq s) (chat_participants s) (contact_ids s).

(** [INSERT INTO chats (...) VALUES (?, ?, ?, ?, ?, ?, 0)] and
    [cursor.lastrowid]; None is the IntegrityError of the UNIQUE
    constraint on chat_identifier. *)
Definition insert_chat (chat : ChatDict) (s : ChatStore)
  : option (ChatStore * positive) :=
  if existsb
       (fun row =>
          bool_decide (tc_chat_identifier row = Some (cd_chat_identifier chat)))
       (chat_rows s)
  then None
  else
    Some (mkChatStore
            (chat_rows s
               ++ [mkChatTableRow (chat_rows_seq s)
                     (Some (cd_chat_identifier chat))
                     (Some (cd_chat_name chat)) (cd_created_date chat)
                     (cd_last_message_date chat) (Some (cd_is_group chat))
                     (cd_service_name chat) 0])
            (Pos.succ (chat_rows_seq s)) (chat_participants s)
            (contact_ids s),
          chat_rows_seq s).

(** The loop over the participants of a chat: [INSERT OR IGNORE INTO
    chat_participants]; a foreign key that fails raises, and the except
    clause of the chat ends the loop. *)
Fixpoint add_participants (chat_id : positive) (ps : list Participant)
  (s : ChatStore) : ChatStore :=
  match ps with
  | [] => s
  | p :: rest =>
      match p_contact_id p with
      | None => add_participants chat_id rest s
      | Some contact_id =>
          if bool_decide (chat_id ∈ map tc_id (chat_rows s))
             && bool_decide (contact_id ∈ contact_ids s)
          then
            add_participants chat_id rest
              (if bool_decide ((chat_id, contact_id) ∈ chat_participants s)
               then s
               else mkChatStore (chat_rows s) (chat_rows_seq s)
                      (chat_participants s ++ [(chat_id, contact_id)])
                      (contact_ids s))
          else s
      end
  end.

(** The body of [for chat, participants in chats_and_participants]. *)
Definition load_chat (L : ChatLoad) (item : ChatDict * list Participant)
  : ChatLoad :=
  let chat := item.1 in
  let participants := item.2 in
  let named_group :=
    negb (cd_is_group chat =? 0) && str_truthy (cd_chat_name chat) in
  let by_name :=
    if named_group then display_name_map L !! cd_chat_name chat else None in
  let chat_id :=
    match by_name with
    | Some i => Some i
    | None => existing_chat_map L !! Some (cd_chat_identifier chat)
    end in
  match chat_id with
  | Some chat_id =>
      mkChatLoad
        (add_participants chat_id participants
           (update_chat chat chat_id (cl_store L)))
        (existing_chat_map L) (display_name_map L)
        (new_chats L) (updated_chats L + 1)
  | None =>
      match insert_chat chat (cl_store L) with
      | None => L
      | Some (s, chat_id) =>
          mkChatLoad
            (add_participants chat_id participants s)
            (<[Some (cd_chat_identifier chat) := chat_id]>
               (existing_chat_map L))
            (if named_group
             then <[cd_chat_name chat := chat_id]> (display_name_map L)
             else display_name_map L)
            (new_chats L + 1) (updated_chats L)
      end
  end.

(** etl_chats.py, load_chats: the store afterwards and the stats. *)
Definition load_chats
  (chats_and_participants : list (ChatDict * list Participant))
  (s : ChatStore) : ChatStore * (Z * Z) :=
  let maps := build_chat_maps (chat_rows s) in
  let L :=
    fold_left load_chat chats_and_participants
      (mkChatLoad s maps.1 maps.2 0 0) in
  (cl_store L, (new_chats L, updated_chats L)).

(** A store without chats in which contact 1 exists, and the
    transformed form of a chat of two people with that contact. *)
Definition example_chat_store : ChatStore := mkChatStore [] 1 [] [1%positive].

Definition example_items : list (ChatDict * list Participant) :=
  [(mkChatDict "4155550100" "Alice" (Some (inject_Z 728000000))
      (Some (inject_Z 728000001)) 0 (Some "iMessage"%string),
    [mkParticipant (Some "Alice"%string) "+14155550100" (Some 1%positive)])].

(** *** What load_chats guarantees *)

(** The id and the identifier of the rows of chats. *)
Definition chat_keys (rows : list ChatTableRow)
  : list (positive * option string) :=
  map (fun row => (tc_id row, tc_chat_identifier row)) rows.

Definition chat_identifiers (s : ChatStore) : list (option string) :=
  map tc_chat_identifier (chat_rows s).

(** The dictionary existing_chat_map knows the identifiers of the
    table, and only them. *)
Definition map_exact (L : ChatLoad) : Prop :=
  forall k, is_Some (existing_chat_map L !! k)
            <-> k ∈ chat_identifiers (cl_store L).

Lemma build_chat_maps_exact rows k :
  is_Some ((build_chat_maps rows).1 !! k) <-> k ∈ map tc_chat_identifier rows.
Proof.
  unfold build_chat_maps.
  assert (H : forall l (m : gmap (option string) positive * gmap string positive),
    is_Some ((fold_left
                (fun m row =>
                   (<[tc_chat_identifier row := tc_id row]> m.1,
                    if int_truthy (tc_is_group row)
                       && opt_truthy (tc_chat_name row)
                    then <[or_empty (tc_chat_name row) := tc_id row]> m.2
                    else m.2)) l m).1 !! k)
    <-> is_Some (m.1 !! k) \/ k ∈ map tc_chat_identifier l).
  { induction l as [|row l IH]; intros m; cbn [fold_left map].
    - split; [auto|]. intros [H|H]; [exact H | inversion H].
    - rewrite IH. cbn [fst]. rewrite elem_of_cons.
      destruct (decide (tc_chat_identifier row = k)) as [E|E].
      + rewrite E, lookup_insert_eq. split; [auto|]. intros _. left. eauto.
      + rewrite lookup_insert_ne by exact E. split.
        * intros [H|H]; auto.
        * intros [H|[H|H]]; auto. congruence. }
  rewrite H. cbn [fst]. rewrite lookup_empty. split.
  - intros [[x Hx]|Hk]; [discriminate | exact Hk].
  - auto.
Qed.

Lemma add_participants_frame chat_id ps : forall s,
  chat_rows (add_participants chat_id ps s) = chat_rows s
  /\ chat_rows_seq (add_participants chat_id ps s) = chat_rows_seq s
  /\ contact_ids (add_participants chat_id ps s) = contact_ids s.
Proof.
  induction ps as [|p ps IH]; intros s; cbn [add_participants]; [auto|].
  destruct (p_contact_id p) as [c|]; [|apply IH].
  destruct (_ && _); [|auto].
  destruct (bool_decide _); [apply IH|].
  destruct (IH (mkChatStore (chat_rows s) (chat_rows_seq s)
                  (chat_participants s ++ [(chat_id, c)]) (contact_ids s)))
    as (H1 & H2 & H3).
  auto.
Qed.

Lemma update_chat_keys chat chat_id s :
  chat_keys (chat_rows (update_chat chat chat_id s)) = chat_keys (chat_rows s).
Proof.
  unfold update_chat, chat_keys. cbn [chat_rows]. rewrite map_map.
  apply map_ext. intros row. destruct (_ =? _)%positive; reflexivity.
Qed.

Lemma chat_keys_identifiers rows rows' :
  chat_keys rows' = chat_keys rows ->
  map tc_chat_identifier rows' = map tc_chat_identifier rows.
Proof.
  unfold chat_keys. intros H.
  apply (f_equal (map snd)) in H. rewrite !map_map in H. exact H.
Qed.

Lemma chat_keys_grow rows rows' new k :
  chat_keys rows' = chat_keys rows ++ new ->
  k ∈ map tc_chat_identifier rows -> k ∈ map tc_chat_identifier rows'.
Proof.
  unfold chat_keys. intros H Hk.
  apply (f_equal (map snd)) in H. rewrite map_app, !map_map in H.
  assert (E : map tc_chat_identifier rows'
              = map tc_chat_identifier rows ++ map snd new) by exact H.
  rewrite E. apply elem_of_app. left. exact Hk.
Qed.

(** An iteration of the loop: it counts its chat once, keeps the rows
    it finds under their ids and identifiers, adds one row exactly when
    it counts a new chat, and leaves the chat of the iteration in the
    table when it is not matched by name. *)
Lemma load_chat_step L item :
  map_exact L ->
  map_exact (load_chat L item)
  /\ new_chats (load_chat L item) + updated_chats (load_chat L item)
     = new_chats L + updated_chats L + 1
  /\ (exists new,
        chat_keys (chat_rows (cl_store (load_chat L item)))
        = chat_keys (chat_rows (cl_store L)) ++ new
        /\ Z.of_nat (length new)
           = new_chats (load_chat L item) - new_chats L)
  /\ contact_ids (cl_store (load_chat L item)) = contact_ids (cl_store L)
  /\ (cd_is_group item.1 = 0 ->
      Some (cd_chat_identifier item.1)
      ∈ chat_identifiers (cl_store (load_chat L item)))
  /\ (is_Some (existing_chat_map L !! Some (cd_chat_identifier item.1)) ->
      cd_is_group item.1 = 0 ->
      new_chats (load_chat L item) = new_chats L
      /\ existing_chat_map (load_chat L item) = existing_chat_map L).
Proof.
  intros Hex. unfold map_exact in Hex. unfold load_chat. cbv zeta.
  set (chat := item.1). set (ps := item.2).
  set (by_name :=
         if negb (cd_is_group chat =? 0) && str_truthy (cd_chat_name chat)
         then display_name_map L !! cd_chat_name chat else None).
  assert (Hgroup : cd_is_group chat = 0 -> by_name = None).
  { intros E. subst by_name. rewrite E. reflexivity. }
  clearbody by_name.
  set (chat_id := match by_name with
                  | Some i => Some i
                  | None => existing_chat_map L !! Some (cd_chat_identifier chat)
                  end).
  assert (Hid : cd_is_group chat = 0 ->
                chat_id = existing_chat_map L !! Some (cd_chat_identifier chat)).
  { intros E. subst chat_id. rewrite (Hgroup E). reflexivity. }
  assert (Hnone : chat_id = None ->
                  existing_chat_map L !! Some (cd_chat_identifier chat) = None).
  { subst chat_id. destruct by_name; [discriminate | auto]. }
  clearbody chat_id.
  destruct chat_id as [i|].
  - destruct (add_participants_frame i ps (update_chat chat i (cl_store L)))
      as (F1 & F2 & F3).
    pose proof (update_chat_keys chat i (cl_store L)) as K.
    cbn [cl_store existing_chat_map new_chats updated_chats].
    rewrite F1, F3.
    split.
    { intros k. unfold chat_identifiers. cbn [cl_store existing_chat_map].
      rewrite F1, (chat_keys_identifiers _ _ K). apply Hex. }
    split; [lia|]. split.
    { exists []. rewrite app_nil_r, K. split; [reflexivity | cbn; lia]. }
    split; [reflexivity|]. split.
    { intros E. unfold chat_identifiers. cbn [cl_store].
      rewrite F1, (chat_keys_identifiers _ _ K).
      apply Hex. rewrite <- (Hid E). eauto. }
    intros _ _. split; reflexivity.
  - specialize (Hnone eq_refl).
    assert (Hfree : Some (cd_chat_identifier chat)
                    ∉ chat_identifiers (cl_store L)).
    { intros H. apply Hex in H. rewrite Hnone in H. destruct H; discriminate. }
    unfold insert_chat.
    destruct (existsb _ (chat_rows (cl_store L))) eqn:Ex.
    { exfalso. apply Hfree. apply existsb_exists in Ex as (row & Hin & E).
      apply bool_decide_eq_true in E. rewrite <- E.
      apply list_elem_of_fmap. exists row.
      split; [reflexivity | apply list_elem_of_In, Hin]. }
    set (s1 := mkChatStore _ _ _ _).
    destruct (add_participants_frame (chat_rows_seq (cl_store L)) ps s1)
      as (F1 & F2 & F3).
    cbn [cl_store existing_chat_map new_chats updated_chats].
    rewrite F1, F3. subst s1. cbn [chat_rows contact_ids].
    split.
    { intros k. unfold chat_identifiers. cbn [cl_store existing_chat_map].
      rewrite F1. cbn [chat_rows]. rewrite map_app. cbn [map tc_chat_identifier].
      rewrite elem_of_app, list_elem_of_singleton.
      destruct (decide (Some (cd_chat_identifier chat) = k)) as [E|E].
      - rewrite E, lookup_insert_eq. split; [auto | eauto].
      - rewrite lookup_insert_ne by exact E. rewrite Hex.
        unfold chat_identifiers. split; [auto|]. intros [H|H]; [exact H|].
        congruence. }
    split; [lia|]. split.
    { eexists [_]. unfold chat_keys. rewrite map_app.
      split; [reflexivity | cbn; lia]. }
    split; [reflexivity|]. split.
    { intros _. unfold chat_identifiers. cbn [cl_store]. rewrite F1.
      cbn [chat_rows]. rewrite map_app. apply elem_of_app. right. left. }
    intros [x Hx]. rewrite Hnone in Hx. discriminate.
Qed.

Lemma load_chats_loop items : forall L,
  map_exact L ->
  let L' := fold_left load_chat items L in
  map_exact L'
  /\ new_chats L' + updated_chats L'
     = new_chats L + updated_chats L + Z.of_nat (length items)
  /\ (exists new,
        chat_keys (chat_rows (cl_store L'))
        = chat_keys (chat_rows (cl_store L)) ++ new
        /\ Z.of_nat (length new) = new_chats L' - new_chats L)
  /\ contact_ids (cl_store L') = contact_ids (cl_store L)
  /\ Forall (fun item => cd_is_group item.1 = 0 ->
               Some (cd_chat_identifier item.1)
               ∈ chat_identifiers (cl_store L')) items.
Proof.
  induction items as [|item items IH]; intros L Hex; cbv zeta.
  - cbn [fold_left length]. split; [exact Hex|]. split; [lia|]. split.
    + exists []. rewrite app_nil_r. split; [reflexivity | cbn; lia].
    + split; [reflexivity | constructor].
  - cbn [fold_left length].
    destruct (load_chat_step L item Hex) as (S1 & S2 & (n1 & S3 & S4) & S5 & S6 & _).
    destruct (IH (load_chat L item) S1) as (R1 & R2 & (n2 & R3 & R4) & R5 & R6).
    split; [exact R1|]. split; [lia|]. split.
    + exists (n1 ++ n2). rewrite R3, S3, app_assoc, length_app.
      split; [reflexivity | lia].
    + split; [congruence|]. constructor; [|exact R6].
      intros E. specialize (S6 E). unfold chat_identifiers in *.
      eapply chat_keys_grow; [exact R3 | exact S6].
Qed.

Lemma build_chat_maps_start s :
  map_exact (mkChatLoad s (build_chat_maps (chat_rows s)).1
               (build_chat_maps (chat_rows s)).2 0 0).
Proof. intros k. apply build_chat_maps_exact. Qed.

(** X28.  load_chats counts every chat of its input once, as new or as
    updated: the INSERT never meets the UNIQUE constraint on
    chat_identifier.  The rows of chats keep their ids and identifiers,
    and the table gains one row per chat counted as new. *)
Theorem load_chats_accounting
  (items : list (ChatDict * list Participant)) (s : ChatStore) :
  let r := load_chats items s in
  r.2.1 + r.2.2 = Z.of_nat (length items)
  /\ 0 <= r.2.1
  /\ (exists new,
        chat_keys (chat_rows r.1) = chat_keys (chat_rows s) ++ new
        /\ Z.of_nat (length new) = r.2.1)
  /\ contact_ids r.1 = contact_ids s.
Proof.
  cbv zeta. unfold load_chats. cbv zeta. cbn [fst snd].
  destruct (load_chats_loop items _ (build_chat_maps_start s))
    as (_ & R2 & (new & R3 & R4) & R5 & _).
  cbn [new_chats updated_chats cl_store] in R2, R3, R4, R5.
  split; [lia|]. split; [lia|]. split; [|exact R5].
  exists new. split; [exact R3 | lia].
Qed.

(** A loop over chats that are no groups and whose identifiers are all
    known creates nothing. *)
Lemma load_chats_known items : forall L,
  map_exact L ->
  Forall (fun item =>
            cd_is_group item.1 = 0
            /\ is_Some (existing_chat_map L
                          !! Some (cd_chat_identifier item.1))) items ->
  new_chats (fold_left load_chat items L) = new_chats L
  /\ updated_chats (fold_left load_chat items L)
     = updated_chats L + Z.of_nat (length items).
Proof.
  induction items as [|item items IH]; intros L Hex H; cbn [fold_left length].
  - split; [reflexivity | lia].
  - apply Forall_cons in H as [[Hg Hk] H].
    destruct (load_chat_step L item Hex) as (S1 & S2 & _ & _ & _ & S7).
    destruct (S7 Hk Hg) as [Hn Hm].
    destruct (IH (load_chat L item) S1) as [R1 R2].
    { rewrite Hm. exact H. }
    split; [congruence | lia].
Qed.

(** X29.  When no chat of the input is a group, a second load_chats of the
    same input creates no chat: every chat is counted as updated. *)
Theorem load_chats_settles
  (items : list (ChatDict * list Participant)) (s : ChatStore) :
  Forall (fun item => cd_is_group item.1 = 0) items ->
  (load_chats items (load_chats items s).1).2
  = (0, Z.of_nat (length items)).
Proof.
  intros Hg.
  assert (Hfirst : Forall (fun item =>
            Some (cd_chat_identifier item.1)
            ∈ chat_identifiers (load_chats items s).1) items).
  { unfold load_chats. cbv zeta. cbn [fst].
    destruct (load_chats_loop items _ (build_chat_maps_start s))
      as (_ & _ & _ & _ & R6).
    rewrite Forall_forall in *. intros item Hin. apply R6; auto. }
  set (s' := (load_chats items s).1) in *. clearbody s'.
  unfold load_chats. cbv zeta. cbn [snd].
  destruct (load_chats_known items _ (build_chat_maps_start s')) as [R1 R2].
  { rewrite Forall_forall in *. intros item Hin. split; [auto|].
    cbn [existing_chat_map]. apply build_chat_maps_exact, Hfirst, Hin. }
  cbn [new_chats updated_chats] in R1, R2. rewrite R1, R2. reflexivity.
Qed.

Lemma load_chats_settles_witness :
  (load_chats example_items example_chat_store).2 = (1, 0)
  /\ (load_chats example_items
        (load_chats example_items example_chat_store).1).2 = (0, 1).
Proof.
  split; [vm_compute; reflexivity|].
  apply (load_chats_settles example_items example_chat_store).
  repeat constructor.
Defined.

End Chats.
